(** * Vanta: the autonomous agent execution pipeline

    A shallow embedding of the agent pipeline of the Vanta repository
    (task ledger, task planner, token catalog and predictor, Ref Finance
    pool discovery and swap builder, swap executor and orchestrator)
    together with the properties its specification states about them.

    Conventions of the embedding:
    - [async] functions are run to completion; every answer of the outside
      world (RPC node, indexer, language model, database clock) is a field
      of an explicit environment record, so each function is a total Rocq
      function of its arguments and its environment;
    - a JavaScript exception is the [Throw] case of [result];
    - a string is the sequence of the bytes of its UTF-8 encoding;
      JavaScript numbers are binary64 values. *)

From Stdlib Require Import ZArith NArith QArith Ascii String List Bool Lia.
From Stdlib Require Import Sorting.Sorted Sorting.Permutation.
From Stdlib Require Import DecimalString DecimalN DecimalZ.
From stdpp Require Import gmap strings.

Import ListNotations.
Local Open Scope string_scope.
Local Open Scope Z_scope.

(* ===================================================================== *)
(** * Part I: the program                                                *)
(* ===================================================================== *)

(** ** Exceptions *)

(** [Throw msg] is a thrown [Error] whose [message] is [msg]. *)
Inductive result (A : Type) : Type :=
| Ok (a : A)
| Throw (msg : string).
Arguments Ok {A} a.
Arguments Throw {A} msg.

Definition bind {A B : Type} (r : result A) (k : A -> result B) : result B :=
  match r with
  | Ok a => k a
  | Throw msg => Throw msg
  end.

Notation "'let*' x ':=' r 'in' k" := (bind r (fun x => k))
  (at level 10, x pattern, r at level 100, k at level 200).

(** ** JavaScript strings *)

Module JsString.

(** [s.includes(search)] *)
Fixpoint includes (s search : string) : bool :=
  if String.prefix search s then true
  else match s with
       | EmptyString => false
       | String _ s' => includes s' search
       end.

Definition lower_ascii (c : ascii) : ascii :=
  let n := nat_of_ascii c in
  if ((65 <=? n) && (n <=? 90))%nat then ascii_of_nat (n + 32) else c.

Definition upper_ascii (c : ascii) : ascii :=
  let n := nat_of_ascii c in
  if ((97 <=? n) && (n <=? 122))%nat then ascii_of_nat (n - 32) else c.

Fixpoint map_string (f : ascii -> ascii) (s : string) : string :=
  match s with
  | EmptyString => EmptyString
  | String c s' => String (f c) (map_string f s')
  end.

(** [s.toLowerCase()] and [s.toUpperCase()] on the ASCII letters; bytes
    of other code points are kept. *)
Definition toLowerCase : string -> string := map_string lower_ascii.
Definition toUpperCase : string -> string := map_string upper_ascii.

(** White space of [TrimString] and of the class [\s], in ASCII: tab,
    line feed, vertical tab, form feed, carriage return and space. *)
Definition is_space (c : ascii) : bool :=
  let n := nat_of_ascii c in
  ((9 <=? n) && (n <=? 13) || (n =? 32))%nat.

(** The other white-space characters and line terminators, by the
    bytes of their UTF-8 encoding: U+00A0 in two bytes; U+1680, U+2000
    to U+200A, U+2028, U+2029, U+202F, U+205F, U+3000 and U+FEFF in
    three. *)
Definition wide_space2 (c1 c2 : ascii) : bool :=
  ((nat_of_ascii c1 =? 194) && (nat_of_ascii c2 =? 160))%nat.

Definition wide_space3 (c1 c2 c3 : ascii) : bool :=
  let n1 := nat_of_ascii c1 in
  let n2 := nat_of_ascii c2 in
  let n3 := nat_of_ascii c3 in
  ((n1 =? 225) && (n2 =? 154) && (n3 =? 128)
   || (n1 =? 226) && (n2 =? 128)
      && ((128 <=? n3) && (n3 <=? 138) || (n3 =? 168) || (n3 =? 169) || (n3 =? 175))
   || (n1 =? 226) && (n2 =? 129) && (n3 =? 159)
   || (n1 =? 227) && (n2 =? 128) && (n3 =? 128)
   || (n1 =? 239) && (n2 =? 187) && (n3 =? 191))%nat.

(** The string after the white-space character it starts with. *)
Definition skip_space (s : string) : option string :=
  match s with
  | String c1 r1 =>
      if is_space c1 then Some r1
      else match r1 with
           | String c2 r2 =>
               if wide_space2 c1 c2 then Some r2
               else match r2 with
                    | String c3 r3 => if wide_space3 c1 c2 c3 then Some r3 else None
                    | EmptyString => None
                    end
           | EmptyString => None
           end
  | EmptyString => None
  end.

Fixpoint trimStart (s : string) : string :=
  match s with
  | EmptyString => EmptyString
  | String c1 r1 =>
      if is_space c1 then trimStart r1
      else match r1 with
           | String c2 r2 =>
               if wide_space2 c1 c2 then trimStart r2
               else match r2 with
                    | String c3 r3 =>
                        if wide_space3 c1 c2 c3 then trimStart r3 else s
                    | EmptyString => s
                    end
           | EmptyString => s
           end
  end.

(** [trimEnd]: what is left goes when it is white space only. *)
Fixpoint trimEnd (s : string) : string :=
  match s with
  | EmptyString => EmptyString
  | String c s' =>
      if String.eqb (trimStart s) EmptyString then EmptyString
      else String c (trimEnd s')
  end.

Definition trim (s : string) : string := trimEnd (trimStart s).

(** [s.split(sep)[0]] for a one-character separator. *)
Fixpoint split_head (sep : ascii) (s : string) : string :=
  match s with
  | EmptyString => EmptyString
  | String c s' =>
      if Ascii.eqb c sep then EmptyString else String c (split_head sep s')
  end.

Definition is_digit (c : ascii) : bool :=
  let n := N_of_ascii c in ((48 <=? n) && (n <=? 57))%N.

(** A string of decimal digits only. *)
Fixpoint all_digits (s : string) : bool :=
  match s with
  | EmptyString => true
  | String c s' => is_digit c && all_digits s'
  end.

(** The regular expression [/e/i]. *)
Fixpoint test_e_i (s : string) : bool :=
  match s with
  | EmptyString => false
  | String c s' =>
      if Ascii.eqb c "e" || Ascii.eqb c "E" then true else test_e_i s'
  end.

End JsString.

(** ** JavaScript numbers *)

Module JsNumber.

(** A binary64 value.  Every finite double is an integer multiple of
    2^-1074, the smallest subnormal: [Finite neg t] is the double of
    magnitude [t * 2^-1074] and sign [neg] (so [Finite true 0] is -0). *)
Inductive number : Type :=
| NaN
| Infinity (neg : bool)
| Finite (neg : bool) (ticks : N).

Definition unit_exp : Z := 1074.
Definition overflow_ticks : Z := 2 ^ 2098.

(** How many ticks make one. *)
Definition ticks_per_unit : Z := 2 ^ unit_exp.

Definition round_half_even (num den : Z) : Z :=
  let (a, r) := Z.div_eucl num den in
  match 2 * r ?= den with
  | Lt => a
  | Gt => a + 1
  | Eq => if Z.even a then a else a + 1
  end.

(** Round-to-nearest, ties-to-even, of the positive rational [p / q] to
    binary64, in units of 2^-1074; [None] is overflow to infinity. *)
Definition ticks_of_ratio (p q : Z) : option N :=
  let num := p * 2 ^ unit_exp in
  let n := num / q in
  let shift := Z.max (Z.log2 n - 52) 0 in
  let m := round_half_even num (q * 2 ^ shift) in
  let t := m * 2 ^ shift in
  if t <? overflow_ticks then Some (Z.to_N t) else None.

(** The Number value of [m * 10^e]. *)
Definition of_decimal (neg : bool) (m : N) (e : Z) : number :=
  let r := if 0 <=? e
           then ticks_of_ratio (Z.of_N m * 10 ^ e) 1
           else ticks_of_ratio (Z.of_N m) (10 ^ (- e)) in
  match r with
  | Some t => Finite neg t
  | None => Infinity neg
  end.

Definition digit_val (c : ascii) : option N :=
  let n := N_of_ascii c in
  if ((48 <=? n) && (n <=? 57))%N then Some (n - 48)%N else None.

(** Reads a maximal run of decimal digits, continuing the value [acc];
    returns the value, the number of digits read and the rest. *)
Fixpoint take_digits (s : string) (acc : N) (cnt : nat) : N * nat * string :=
  match s with
  | String c s' =>
      match digit_val c with
      | Some d => take_digits s' (10 * acc + d)%N (S cnt)
      | None => (acc, cnt, s)
      end
  | EmptyString => (acc, cnt, s)
  end.

(** What [parseFloat] reads: [Infinity] or the decimal
    [mant * 10^exp10], with a sign. *)
Inductive literal : Type :=
| LitInfinity (neg : bool)
| LitDecimal (neg : bool) (mant : N) (exp10 : Z).

(** Leading white space is skipped, the longest prefix that is a
    [StrDecimalLiteral] is read and anything after it is ignored;
    [None] when there is no such prefix. *)
Definition read_literal (input : string) : option literal :=
  let s := JsString.trimStart input in
  let '(neg, s1) :=
    match s with
    | String c r =>
        if Ascii.eqb c "-" then (true, r)
        else if Ascii.eqb c "+" then (false, r)
        else (false, s)
    | EmptyString => (false, s)
    end in
  if String.prefix "Infinity" s1 then Some (LitInfinity neg)
  else
    let '(ip, ni, s2) := take_digits s1 0%N 0%nat in
    let '(mant, nf, s3) :=
      match s2 with
      | String c r =>
          if Ascii.eqb c "." then take_digits r ip 0%nat else (ip, 0%nat, s2)
      | EmptyString => (ip, 0%nat, s2)
      end in
    if ((ni =? 0) && (nf =? 0))%nat then None
    else
      let ex :=
        match s3 with
        | String c r =>
            if Ascii.eqb c "e" || Ascii.eqb c "E" then
              let '(eneg, r') :=
                match r with
                | String c' r' =>
                    if Ascii.eqb c' "-" then (true, r')
                    else if Ascii.eqb c' "+" then (false, r')
                    else (false, r)
                | EmptyString => (false, r)
                end in
              let '(ev, ne, _) := take_digits r' 0%N 0%nat in
              if (ne =? 0)%nat then 0
              else if eneg then - Z.of_N ev else Z.of_N ev
            else 0
        | EmptyString => 0
        end in
      Some (LitDecimal neg mant (ex - Z.of_nat nf)).

(** [parseFloat(input)]: the Number value of what is read, [NaN] when
    nothing is. *)
Definition parseFloat (input : string) : number :=
  match read_literal input with
  | None => NaN
  | Some (LitInfinity neg) => Infinity neg
  | Some (LitDecimal neg mant exp10) => of_decimal neg mant exp10
  end.

(** The exact value of a decimal, as a fraction. *)
Definition decimal_Q (neg : bool) (mant : N) (exp10 : Z) : Q :=
  let q := if 0 <=? exp10
           then inject_Z (Z.of_N mant * 10 ^ exp10)
           else Qmake (Z.of_N mant) (Z.to_pos (10 ^ (- exp10))) in
  if neg then Qopp q else q.

(** The number a decimal string denotes, before any rounding. *)
Definition numeric_value (s : string) : option Q :=
  match read_literal s with
  | Some (LitDecimal neg mant exp10) => Some (decimal_Q neg mant exp10)
  | Some (LitInfinity _) | None => None
  end.

Definition isNaN (x : number) : bool :=
  match x with NaN => true | _ => false end.

(** [x > 0] *)
Definition gt0 (x : number) : bool :=
  match x with
  | NaN => false
  | Infinity neg => negb neg
  | Finite neg t => negb neg && (0 <? t)%N
  end.

(** Truthiness of a number: neither zero nor [NaN]. *)
Definition truthy (x : number) : bool :=
  match x with
  | NaN => false
  | Infinity _ => true
  | Finite _ t => (0 <? t)%N
  end.

Definition signed_ticks (neg : bool) (t : N) : Z :=
  if neg then - Z.of_N t else Z.of_N t.

(** The sign of the IEEE difference [a - b]; [None] when the difference
    is [NaN].  With gradual underflow the difference of two finite
    doubles is zero only if they are equal, so its sign is the
    comparison of the exact values. *)
Definition sub_sign (a b : number) : option comparison :=
  match a, b with
  | NaN, _ | _, NaN => None
  | Infinity na, Infinity nb =>
      if Bool.eqb na nb then None else Some (if na then Lt else Gt)
  | Infinity na, Finite _ _ => Some (if na then Lt else Gt)
  | Finite _ _, Infinity nb => Some (if nb then Gt else Lt)
  | Finite na ta, Finite nb tb =>
      Some (signed_ticks na ta ?= signed_ticks nb tb)
  end.

(** [a <= b] *)
Definition le (a b : number) : bool :=
  match a, b with
  | NaN, _ | _, NaN => false
  | Infinity na, Infinity nb => implb nb na
  | Infinity na, Finite _ _ => na
  | Finite _ _, Infinity nb => negb nb
  | Finite na ta, Finite nb tb => signed_ticks na ta <=? signed_ticks nb tb
  end.

(** Decimal rendering of a natural number. *)
Definition string_of_N (n : N) : string :=
  NilZero.string_of_uint (N.to_uint n).

(** The number of decimal digits of a positive integer: one more for
    each division by ten that leaves something. *)
Fixpoint count_digits (fuel : nat) (y : Z) : Z :=
  match fuel with
  | O => 1
  | S fuel' => if y <? 10 then 1 else 1 + count_digits fuel' (y / 10)
  end.

Definition nb_decimal_digits (y : Z) : Z :=
  count_digits (Z.to_nat (Z.log2 y)) y.

(** A decimal [s * 10^e] as a fraction. *)
Definition decimal_ratio (s e : Z) : Z * Z :=
  if 0 <=? e then (s * 10 ^ e, 1) else (s, 10 ^ (- e)).

Definition roundtrips (t : N) (s e : Z) : bool :=
  let (p, q) := decimal_ratio s e in
  match ticks_of_ratio p q with
  | Some t' => (t' =? t)%N
  | None => false
  end.

(** The decimals with [k] significant digits next to the double of
    [t] ticks whose decimal exponent is [n] (10^(n-1) <= x < 10^n):
    the closer one first. *)
Definition neighbours (t : N) (n k : Z) : (Z * Z) * (Z * Z) :=
  let e := n - k in
  let (p, q) :=
    if 0 <=? e then (Z.of_N t, 2 ^ unit_exp * 10 ^ e)
    else (Z.of_N t * 10 ^ (- e), 2 ^ unit_exp) in
  let lo := p / q in
  let hi := lo + 1 in
  match 2 * p ?= (2 * lo + 1) * q with
  | Lt => ((lo, e), (hi, e))
  | Gt => ((hi, e), (lo, e))
  | Eq => if Z.even lo then ((lo, e), (hi, e)) else ((hi, e), (lo, e))
  end.

(** The shortest decimal that reads back as the double, the closest to
    it among those of that length: the digits of [Number::toString]. *)
Fixpoint shortest_from (fuel : nat) (t : N) (n k : Z) : Z * Z :=
  let (c1, c2) := neighbours t n k in
  match fuel with
  | O => c1
  | S fuel' =>
      if roundtrips t (fst c1) (snd c1) then c1
      else if roundtrips t (fst c2) (snd c2) then c2
      else shortest_from fuel' t n (k + 1)
  end.

Definition shortest_decimal (t : N) : Z * Z :=
  let big := Z.of_N t * 10 ^ 400 / 2 ^ unit_exp in
  let n := nb_decimal_digits big - 400 in
  shortest_from 16 t n 1.

(** Rounding of [s * 10^e] to an integer, ties away from zero. *)
Definition round_half_expand (s e : Z) : Z :=
  if 0 <=? e then s * 10 ^ e
  else (2 * s + 10 ^ (- e)) / (2 * 10 ^ (- e)).

Definition infinity_symbol : string :=
  String (ascii_of_nat 226) (String (ascii_of_nat 136)
    (String (ascii_of_nat 158) EmptyString)).

(** What the default locale of the process contributes to the
    rendering of an integer without grouping: the ten digits of its
    numbering system, how a negative number is written from the
    rendering of its magnitude, and the symbols for infinity and for
    not-a-number. *)
Record Locale : Type := mkLocale {
  digit : N -> string;
  negative : string -> string;
  infinity : string;
  nan : string
}.

(** Decimal digits written in the digits of the locale. *)
Fixpoint glyphs (locale : Locale) (digits : string) : string :=
  match digits with
  | EmptyString => EmptyString
  | String c r => digit locale (N_of_ascii c - 48)%N ++ glyphs locale r
  end.

(** The integer that [maximumFractionDigits: 0] leaves of a finite
    number of [t] ticks: its shortest decimal, rounded. *)
Definition integer_digits (t : N) : string :=
  if (t =? 0)%N then "0"
  else let (s, e) := shortest_decimal t in
       string_of_N (Z.to_N (round_half_expand s e)).

(** [x.toLocaleString('fullwide', { useGrouping: false,
    maximumFractionDigits: 0 })].  No locale data exists for the tag
    [fullwide], so the number is rendered in the default locale. *)
Definition toLocaleString_integer_in (locale : Locale) (x : number) : string :=
  match x with
  | NaN => nan locale
  | Infinity neg =>
      if neg then negative locale (infinity locale) else infinity locale
  | Finite neg t =>
      let written := glyphs locale (integer_digits t) in
      if neg then negative locale written else written
  end.

Definition latin_digit (d : N) : string :=
  String (ascii_of_N (48 + d)) EmptyString.

(** A locale that writes numbers with the Latin digits, the ASCII
    minus sign in front and the infinity sign. *)
Definition latin (locale : Locale) : Prop :=
  (forall d, (d < 10)%N -> digit locale d = latin_digit d)
  /\ (forall s, negative locale s = "-" ++ s)
  /\ infinity locale = infinity_symbol.

Definition en_US : Locale :=
  mkLocale latin_digit (fun s => "-" ++ s) infinity_symbol "NaN".

Fixpoint bytes (l : list nat) : string :=
  match l with
  | [] => EmptyString
  | n :: l' => String (ascii_of_nat n) (bytes l')
  end.

(** The locale of Egypt: the Arabic-Indic digits U+0660 to U+0669, the
    minus sign after the mark U+061C. *)
Definition ar_EG : Locale :=
  mkLocale (fun d => bytes [217; 160 + N.to_nat d]%nat)
    (fun s => bytes [216; 156]%nat ++ "-" ++ s)
    infinity_symbol
    (bytes [217; 132; 217; 138; 216; 179; 32; 216; 177; 217; 130; 217; 133;
            217; 139; 216; 167]%nat).

(** The rendering in a locale that is [latin], such as [en_US]. *)
Definition toLocaleString_integer (x : number) : string :=
  match x with
  | NaN => "NaN"
  | Infinity neg => (if neg then "-" else "") ++ infinity_symbol
  | Finite neg t =>
      let body :=
        if (t =? 0)%N then "0"
        else let (s, e) := shortest_decimal t in
             string_of_N (Z.to_N (round_half_expand s e)) in
      (if neg then "-" else "") ++ body
  end.

End JsNumber.

Set Warnings "-register-all".

(** ** JSON values (what [JSON.parse] returns and a [jsonb] column holds) *)

Inductive json : Type :=
| JNull
| JBool (b : bool)
| JNum (n : JsNumber.number)
| JStr (s : string)
| JArr (items : list json)
| JObj (fields : list (string * json)).

(** Truthiness of a value, with [None] for [undefined]. *)
Definition truthy (v : option json) : bool :=
  match v with
  | None | Some JNull => false
  | Some (JBool b) => b
  | Some (JNum n) => JsNumber.truthy n
  | Some (JStr s) => negb (String.eqb s "")
  | Some (JArr _) | Some (JObj _) => true
  end.

(** [v || null] *)
Definition or_null (v : option json) : option json :=
  if truthy v then v else None.

Definition json_of_N (n : N) : json := JNum (JsNumber.Finite false (n * 2 ^ 1074)%N).

(** ** The task history ledger (lib/agents/task-history-service.ts) *)

Module TaskHistory.

Inductive Status : Type := pending | running | completed | failed.

Definition Status_eqb (a b : Status) : bool :=
  match a, b with
  | pending, pending | running, running
  | completed, completed | failed, failed => true
  | _, _ => false
  end.

(** A [Date]: the reading of the clock it was built from. *)
Definition Date : Type := nat.

(** A row of the table [AgentTaskHistory] (lib/db/schema.ts); a column
    that may be null is an [option]. *)
Record AgentTaskHistory : Type := mkTask {
  id : positive;
  agentId : string;
  taskType : string;
  taskDescription : string;
  taskInput : option json;
  taskOutput : option json;
  status : Status;
  errorMessage : option string;
  startedAt : Date;
  completedAt : option Date;
  createdAt : Date
}.

Record CreateTaskData : Type := mkCreate {
  c_agentId : string;
  c_taskType : string;
  c_taskDescription : string;
  c_taskInput : option json
}.

Record UpdateTaskData : Type := mkUpdate {
  u_taskOutput : option json;
  u_status : Status;
  u_errorMessage : option string;
  u_completedAt : option Date
}.

(** The database: the rows by primary key, the key the next insert
    draws ([defaultRandom], taken never to repeat a key) and the clock
    that [new Date()] and [defaultNow] read. *)
Record Db : Type := mkDb {
  rows : gmap positive AgentTaskHistory;
  next_id : positive;
  clock : nat
}.

Definition empty_db : Db := mkDb ∅ 1%positive 0.

Definition createTask (data : CreateTaskData) (db : Db) : AgentTaskHistory * Db :=
  let i := next_id db in
  let now := clock db in
  let task := {|
    id := i;
    agentId := c_agentId data;
    taskType := c_taskType data;
    taskDescription := c_taskDescription data;
    taskInput := or_null (c_taskInput data);
    taskOutput := None;
    status := pending;
    errorMessage := None;
    startedAt := now;
    completedAt := None;
    createdAt := now
  |} in
  (task, mkDb (<[i := task]> (rows db)) (Pos.succ i) (S now)).

Definition is_terminal (s : Status) : bool :=
  match s with
  | completed | failed => true
  | pending | running => false
  end.

(** [errorMessage || null]: the empty message is stored as null. *)
Definition message_or_null (m : option string) : option string :=
  match m with
  | Some s => if String.eqb s "" then None else Some s
  | None => None
  end.

(** The columns that [set] writes to the row. *)
Definition apply_update (data : UpdateTaskData) (now : Date)
    (t : AgentTaskHistory) : AgentTaskHistory :=
  {|
    id := id t;
    agentId := agentId t;
    taskType := taskType t;
    taskDescription := taskDescription t;
    taskInput := taskInput t;
    taskOutput := or_null (u_taskOutput data);
    status := u_status data;
    errorMessage := message_or_null (u_errorMessage data);
    startedAt := startedAt t;
    completedAt :=
      match u_completedAt data with
      | Some d => Some d
      | None => if is_terminal (u_status data) then Some now else None
      end;
    createdAt := createdAt t
  |}.

(** [update ... set ... where id = taskId returning]: the updated row
    ([None] when there is no such row) and the database after it. *)
Definition updateTask (taskId : positive) (data : UpdateTaskData) (db : Db)
    : option AgentTaskHistory * Db :=
  let now := clock db in
  let updated := option_map (apply_update data now) (rows db !! taskId) in
  (updated,
   mkDb (match updated with
         | Some t' => <[taskId := t']> (rows db)
         | None => rows db
         end)
     (next_id db) (S now)).

Definition getTask (taskId : positive) (db : Db) : option AgentTaskHistory :=
  rows db !! taskId.

(** The calls a client of the service can make. *)
Inductive Op : Type :=
| OpCreate (data : CreateTaskData)
| OpUpdate (taskId : positive) (data : UpdateTaskData).

Definition run_op (db : Db) (op : Op) : Db :=
  match op with
  | OpCreate data => snd (createTask data db)
  | OpUpdate taskId data => snd (updateTask taskId data db)
  end.

Definition run_ops (ops : list Op) (db : Db) : Db := fold_left run_op ops db.

(** The caller leaves [completedAt] to the service. *)
Definition op_plain (op : Op) : Prop :=
  match op with
  | OpCreate _ => True
  | OpUpdate _ data => u_completedAt data = None
  end.

(** completed-at is set if and only if the status is completed or failed *)
Definition completion_consistent (t : AgentTaskHistory) : Prop :=
  is_Some (completedAt t) <-> (status t = completed \/ status t = failed).

(** Every row of the table is consistent. *)
Definition db_consistent (d : Db) : Prop :=
  forall i t, rows d !! i = Some t -> completion_consistent t.

End TaskHistory.

(** ** Searching a list *)

Section ListSearch.

Context {A : Type} (P : A -> bool).

(** The index of the first element that satisfies [P]. *)
Fixpoint first_index (l : list A) : option nat :=
  match l with
  | [] => None
  | x :: l' => if P x then Some 0%nat else option_map S (first_index l')
  end.

End ListSearch.

(** ** [Array.prototype.sort] *)

Section JsSort.

Context {A : Type}.

(** The comparator gives the sign of its number, [None] when that
    number is [NaN] (which [sort] reads as +0). *)
Variable compareFn : A -> A -> option comparison.

(** [compareFn(a, b) <= 0]: [a] may stay in front of [b]. *)
Definition in_order (a b : A) : bool :=
  match compareFn a b with
  | Some Gt => false
  | _ => true
  end.

Fixpoint insert_in_order (x : A) (l : list A) : list A :=
  match l with
  | [] => [x]
  | y :: l' => if in_order x y then x :: l else y :: insert_in_order x l'
  end.

(** The sort is stable: an element is put in front of the first later
    element it does not have to follow.  For a consistent comparator
    every stable sort returns this list. *)
Definition js_sort (l : list A) : list A := fold_right insert_in_order [] l.

End JsSort.

(** ** BigInt *)

Module JsBigInt.

Definition radix_digit (radix : N) (c : ascii) : option N :=
  let n := N_of_ascii c in
  let v :=
    if ((48 <=? n) && (n <=? 57))%N then Some (n - 48)%N
    else if ((97 <=? n) && (n <=? 122))%N then Some (n - 87)%N
    else if ((65 <=? n) && (n <=? 90))%N then Some (n - 55)%N
    else None in
  match v with
  | Some d => if (d <? radix)%N then Some d else None
  | None => None
  end.

Fixpoint radix_digits (radix : N) (s : string) (acc : N) : option N :=
  match s with
  | EmptyString => Some acc
  | String c s' =>
      match radix_digit radix c with
      | Some d => radix_digits radix s' (radix * acc + d)%N
      | None => None
      end
  end.

(** A non-empty run of decimal digits. *)
Definition decimal_digits (s : string) : option Z :=
  match s with
  | EmptyString => None
  | _ => option_map Z.of_uint (NilEmpty.uint_of_string s)
  end.

Definition non_decimal (radix : N) (s : string) : option Z :=
  match s with
  | EmptyString => None
  | _ => option_map Z.of_N (radix_digits radix s 0%N)
  end.

(** The prefix of a literal that is not decimal: its radix and what
    follows the prefix. *)
Definition radix_prefix (text : string) : option (N * string) :=
  match text with
  | String c0 (String c1 r) =>
      if Ascii.eqb c0 "0" then
        if Ascii.eqb c1 "x" || Ascii.eqb c1 "X" then Some (16%N, r)
        else if Ascii.eqb c1 "o" || Ascii.eqb c1 "O" then Some (8%N, r)
        else if Ascii.eqb c1 "b" || Ascii.eqb c1 "B" then Some (2%N, r)
        else None
      else None
  | _ => None
  end.

(** [StringToBigInt]: white space is trimmed, the empty string is 0n, a
    decimal literal may carry a sign, a literal with the prefix 0x, 0o
    or 0b may not. *)
Definition StringToBigInt (str : string) : option Z :=
  match JsString.trim str with
  | EmptyString => Some 0
  | String c r as text =>
      if Ascii.eqb c "-" then option_map Z.opp (decimal_digits r)
      else if Ascii.eqb c "+" then decimal_digits r
      else match radix_prefix text with
           | Some (radix, digits) => non_decimal radix digits
           | None => decimal_digits text
           end
  end.

(** [BigInt(str)] for a string argument. *)
Definition BigInt (str : string) : result Z :=
  match StringToBigInt str with
  | Some z => Ok z
  | None => Throw ("Cannot convert " ++ str ++ " to a BigInt")
  end.

(** [x.toString()] *)
Definition toString (x : Z) : string := NilZero.string_of_int (Z.to_int x).

(** [x / y]: the quotient rounded towards zero. *)
Definition div (x y : Z) : Z := Z.quot x y.

End JsBigInt.

(** ** Conversion of a parsed JSON value to a number *)

Module JsValue.
Import JsNumber.

(** A [StrDecimalLiteral] that is the whole text: a sign, then
    [Infinity] or digits with an optional fraction and an optional
    exponent; a dot needs a digit on one side and an exponent mark needs
    digits. *)
Definition strict_decimal (text : string) : option literal :=
  let '(neg, s1) :=
    match text with
    | String c r =>
        if Ascii.eqb c "-" then (true, r)
        else if Ascii.eqb c "+" then (false, r)
        else (false, text)
    | EmptyString => (false, text)
    end in
  if String.eqb s1 "Infinity" then Some (LitInfinity neg)
  else
    let '(ip, ni, s2) := take_digits s1 0%N 0%nat in
    let '(mant, nf, s3) :=
      match s2 with
      | String c r =>
          if Ascii.eqb c "." then take_digits r ip 0%nat else (ip, 0%nat, s2)
      | EmptyString => (ip, 0%nat, s2)
      end in
    if ((ni =? 0) && (nf =? 0))%nat then None
    else
      match s3 with
      | EmptyString => Some (LitDecimal neg mant (- Z.of_nat nf))
      | String c r =>
          if Ascii.eqb c "e" || Ascii.eqb c "E" then
            let '(eneg, r') :=
              match r with
              | String c' r' =>
                  if Ascii.eqb c' "-" then (true, r')
                  else if Ascii.eqb c' "+" then (false, r')
                  else (false, r)
              | EmptyString => (false, r)
              end in
            let '(ev, ne, s4) := take_digits r' 0%N 0%nat in
            match ne, s4 with
            | S _, EmptyString =>
                Some (LitDecimal neg mant
                        ((if eneg then - Z.of_N ev else Z.of_N ev) - Z.of_nat nf))
            | _, _ => None
            end
          else None
      end.

(** [StringToNumber]: white space around the literal is dropped, the
    empty text is 0, a literal with the prefix 0x, 0o or 0b is an
    integer without sign, anything that is not a numeric literal is
    [NaN]. *)
Definition StringToNumber (str : string) : number :=
  match JsString.trim str with
  | EmptyString => Finite false 0
  | text =>
      match JsBigInt.radix_prefix text with
      | Some (radix, digits) =>
          match JsBigInt.non_decimal radix digits with
          | Some n => of_decimal false (Z.to_N n) 0
          | None => NaN
          end
      | None =>
          match strict_decimal text with
          | Some (LitInfinity neg) => Infinity neg
          | Some (LitDecimal neg mant exp10) => of_decimal neg mant exp10
          | None => NaN
          end
      end
  end.

Fixpoint has_key (key : string) (fields : list (string * json)) : bool :=
  match fields with
  | [] => false
  | (k, _) :: rest => String.eqb k key || has_key key rest
  end.

(** Converting the value to a string throws a TypeError: an object
    parsed from JSON with a property [toString] of its own, which is
    not a function, has no primitive value; so has an array that holds
    such an object, since [join] converts every element. *)
Fixpoint unprintable (v : json) : bool :=
  match v with
  | JObj fields => has_key "toString" fields
  | JArr items =>
      (fix any (l : list json) : bool :=
         match l with
         | [] => false
         | x :: l' => unprintable x || any l'
         end) items
  | _ => false
  end.

(** The number read from the string of an array element.  An array is
    written as its elements joined by commas, [null] as the empty
    string, an object as [[object Object]]; a number is written with
    the shortest digits that read back as it, zero without its sign. *)
Fixpoint element_number (v : json) : number :=
  match v with
  | JNull => Finite false 0
  | JBool _ => NaN
  | JNum (Finite _ 0%N) => Finite false 0
  | JNum n => n
  | JStr s => StringToNumber s
  | JArr [] => Finite false 0
  | JArr [x] => element_number x
  | JArr _ => NaN
  | JObj _ => NaN
  end.

Definition one : number := Finite false (2 ^ 1074)%N.

(** [ToNumber] of a parsed JSON value, which is what the operands of
    [-] go through. *)
Definition ToNumber (v : json) : result number :=
  if unprintable v then Throw "Cannot convert object to primitive value"
  else
    Ok match v with
       | JNull => Finite false 0
       | JBool b => if b then one else Finite false 0
       | JNum n => n
       | JStr s => StringToNumber s
       | JArr [] => Finite false 0
       | JArr [x] => element_number x
       | JArr _ => NaN
       | JObj _ => NaN
       end.

End JsValue.

(** ** The task planner (lib/agents/task-planner.ts) *)

Module TaskPlanner.

(** A task the planner returns.  [JSON.parse(...) as PlannedTask[]] is
    a cast, not a check: the fields hold whatever values the reply
    gave them. *)
Record PlannedTask : Type := mkPlanned {
  type : json;
  description : json;
  order : json
}.

(** An element of the array that [JSON.parse] returned, by the fields
    the code reads: [None] for a field that is undefined (an element
    that is not an object has none). *)
Record ParsedTask : Type := mkParsed {
  p_type : option json;
  p_description : option json;
  p_order : option json
}.

(** What the [try] block gets from the language model.  [ReplyThrows]:
    [generateText] rejected, [JSON.parse] threw on the extracted text,
    or the parsed value is not an array or has a [null] element (so
    [filter] or a field access throws).  [ReplyArray]: the parsed
    array. *)
Inductive ModelReply : Type :=
| ReplyThrows (msg : string)
| ReplyArray (tasks : list ParsedTask).

Definition nat_number (n : N) : JsNumber.number :=
  JsNumber.Finite false (n * 2 ^ 1074)%N.

Definition planned (type description : string) (order : N) : PlannedTask :=
  mkPlanned (JStr type) (JStr description) (JNum (nat_number order)).

Definition default_plan : list PlannedTask :=
  [ planned "fetch_tokens" "Fetch available tokens from Ref Finance testnet" 1;
    planned "analyze_market" "Analyze token prices and market data using AI" 2;
    planned "predict_token" "Predict the best token for investment" 3;
    planned "prepare_swap" "Prepare swap transactions (wrap NEAR, approve, swap)" 4;
    planned "execute_swap" "Sign and execute swap transaction on NEAR testnet" 5 ].

(** [task.type && task.description && task.order] *)
Definition valid (t : ParsedTask) : option PlannedTask :=
  match p_type t, p_description t, p_order t with
  | Some ty, Some d, Some o =>
      if truthy (Some ty) && truthy (Some d) && truthy (Some o)
      then Some (mkPlanned ty d o) else None
  | _, _, _ => None
  end.

Fixpoint keep_valid (l : list ParsedTask) : list PlannedTask :=
  match l with
  | [] => []
  | t :: l' =>
      match valid t with
      | Some v => v :: keep_valid l'
      | None => keep_valid l'
      end
  end.

(** [(a, b) => a.order - b.order], where both orders can be converted
    to numbers. *)
Definition by_order (a b : PlannedTask) : option comparison :=
  match JsValue.ToNumber (order a), JsValue.ToNumber (order b) with
  | Ok x, Ok y => JsNumber.sub_sign x y
  | _, _ => None
  end.

(** The number the comparator reads from the order of a task. *)
Definition order_value (t : PlannedTask) : JsNumber.number :=
  match JsValue.ToNumber (order t) with
  | Ok x => x
  | Throw _ => JsNumber.NaN
  end.

(** Ascending order numbers. *)
Definition ascending (a b : PlannedTask) : Prop :=
  JsNumber.le (order_value a) (order_value b) = true.

(** A task that passes the validation of the planner. *)
Definition well_formed (t : PlannedTask) : Prop :=
  truthy (Some (type t)) = true
  /\ truthy (Some (description t)) = true
  /\ truthy (Some (order t)) = true.

(** A task whose order the comparator reads as a number. *)
Definition numeric (t : PlannedTask) : Prop :=
  exists x, JsValue.ToNumber (order t) = Ok x /\ x <> JsNumber.NaN.

(** The order of the task cannot be converted: the comparator throws
    a TypeError. *)
Definition order_throws (t : PlannedTask) : bool :=
  JsValue.unprintable (order t).

(** With two or more tasks to sort, the comparator is called on every
    one of them, and a TypeError it throws ends the [try] block.  The
    list the sort returns is the stable one when the comparator is
    consistent; otherwise its order is the implementation's. *)
Definition planAgentTasks (agentDescription agentBalance : string)
    (reply : ModelReply) : list PlannedTask :=
  match reply with
  | ReplyArray tasks =>
      let kept := keep_valid tasks in
      if (2 <=? length kept)%nat && existsb order_throws kept
      then default_plan
      else js_sort by_order kept
  | ReplyThrows _ => default_plan
  end.

End TaskPlanner.

(** ** Ref Finance: pools, estimates and swap transactions
       (lib/ref-finance/config.ts, lib/ref-finance/swap.ts) *)

Module RefFinance.

Inductive Network : Type := testnet | mainnet.

Definition getRefConfig_contractId (network : Network) : string :=
  match network with
  | mainnet => "v2.ref-finance.near"
  | testnet => "ref-finance-101.testnet"
  end.

Record Pool : Type := mkPool {
  pool_kind : option string;
  token_account_ids : list string
}.

(** The view methods of an exchange contract as the RPC node answers
    them: a call either throws or returns the parsed JSON result.
    [get_return] answers a U128, a JSON string of decimal digits. *)
Record Dex : Type := mkDex {
  get_number_of_pools : result nat;
  get_pools : nat -> nat -> result (list Pool);
  get_return : nat -> string -> string -> string -> result string
}.

(** A node that serves the pool registry [registry]: the count is its
    length and a page is a slice of it, unless the call fails. *)
Definition registry_dex (registry : list Pool) (count_fails : bool)
    (page_fails : nat -> bool)
    (quote : nat -> string -> string -> string -> result string) : Dex :=
  {| get_number_of_pools :=
       if count_fails then Throw "RPC error" else Ok (length registry);
     get_pools from_index limit :=
       if page_fails from_index then Throw "RPC error"
       else Ok (firstn limit (skipn from_index registry));
     get_return := quote |}.

(** The chain: the exchange contract deployed at each account id. *)
Definition Chain : Type := string -> Dex.

(** [convertScientificToString], [locale] being the default locale of
    the process that runs it (the server of the agent pipeline, or the
    browser of the user for the swap hook). *)
Definition convertScientificToString_in (locale : JsNumber.Locale)
    (value : string) : result string :=
  if negb (JsString.test_e_i value) then Ok value
  else
    let num := JsNumber.parseFloat value in
    if JsNumber.isNaN num then Throw ("Invalid number: " ++ value)
    else Ok (JsNumber.toLocaleString_integer_in locale num).

(** [convertScientificToString] in a default locale that is
    [JsNumber.latin]; the pipeline below is modelled in such a locale. *)
Definition convertScientificToString (value : string) : result string :=
  if negb (JsString.test_e_i value) then Ok value
  else
    let num := JsNumber.parseFloat value in
    if JsNumber.isNaN num then Throw ("Invalid number: " ++ value)
    else Ok (JsNumber.toLocaleString_integer num).

(** A plain rendering: an optional minus sign, then decimal digits or
    the infinity sign. *)
Definition plain_rendering (s : string) : Prop :=
  exists sign body,
    s = sign ++ body
    /\ (sign = "" \/ sign = "-")
    /\ ((JsString.all_digits body = true /\ body <> "") \/ body = JsNumber.infinity_symbol).

(** [ids.includes(token)] *)
Definition array_includes (ids : list string) (token : string) : bool :=
  existsb (String.eqb token) ids.

Definition has_pair (tokenIn tokenOut : string) (pool : Pool) : bool :=
  array_includes (token_account_ids pool) tokenIn
  && array_includes (token_account_ids pool) tokenOut.

(** [p] is the lowest index below [depth] of a pool of the registry
    that holds both tokens. *)
Definition lowest_match (a b : string) (registry : list Pool) (depth p : nat) : Prop :=
  (p < depth)%nat
  /\ exists pool, registry !! p = Some pool /\ has_pair a b pool = true
     /\ forall q pool', (q < p)%nat -> registry !! q = Some pool' ->
                        has_pair a b pool' = false.

(** No pool of the registry below index [depth] holds both tokens. *)
Definition no_match (a b : string) (registry : list Pool) (depth : nat) : Prop :=
  forall q pool, (q < depth)%nat -> registry !! q = Some pool ->
                 has_pair a b pool = false.

Definition batchSize : nat := 100.

(** The inner loop over one page: the pool at position [j] of the page
    fetched from index [i] has id [i + j]. *)
Fixpoint find_in_page (tokenIn tokenOut : string) (pools : list Pool)
    (i j : nat) : option nat :=
  match pools with
  | [] => None
  | pool :: rest =>
      if has_pair tokenIn tokenOut pool then Some (i + j)%nat
      else find_in_page tokenIn tokenOut rest i (S j)
  end.

(** The outer loop [for (i; i < bound; i += batchSize)]; it ends within
    [bound] rounds. *)
Fixpoint scan_pages (rounds : nat) (dex : Dex) (tokenIn tokenOut : string)
    (i bound : nat) : result (option nat) :=
  match rounds with
  | O => Ok None
  | S rounds' =>
      if (i <? bound)%nat then
        let* pools := get_pools dex i batchSize in
        match find_in_page tokenIn tokenOut pools i 0 with
        | Some poolId => Ok (Some poolId)
        | None => scan_pages rounds' dex tokenIn tokenOut (i + batchSize) bound
        end
      else Ok None
  end.

Definition scan (dex : Dex) (tokenIn tokenOut : string) (depth : nat)
    : result (option nat) :=
  let* numPools := get_number_of_pools dex in
  let bound := Nat.min numPools depth in
  scan_pages bound dex tokenIn tokenOut 0 bound.

(** [findPool]: [None] is [null]. *)
Definition findPool (chain : Chain) (tokenIn tokenOut : string)
    (network : Network) : option nat :=
  match scan (chain (getRefConfig_contractId network)) tokenIn tokenOut 500 with
  | Ok found => found
  | Throw _ => None
  end.

Record SwapEstimate : Type := mkEstimate {
  inputToken : string;
  outputToken : string;
  inputAmount : string;
  expectedOutput : string;
  minimumOutput : string;
  priceImpact : string;
  pool : list string
}.

Definition string_of_nat (n : nat) : string :=
  JsNumber.string_of_N (N.of_nat n).

Definition no_pool_message (a b : string) : string :=
  "No liquidity pool found for " ++ a ++ " <-> " ++ b.

Definition estimateSwap (chain : Chain) (inputTokenId inputAmount
    outputTokenId : string) (network : Network) : result SwapEstimate :=
  match findPool chain inputTokenId outputTokenId network with
  | None => Throw (no_pool_message inputTokenId outputTokenId)
  | Some poolId =>
      let dex := chain (getRefConfig_contractId network) in
      let* inputAmountStr := convertScientificToString inputAmount in
      let* expected := get_return dex poolId inputTokenId inputAmountStr outputTokenId in
      let* e := JsBigInt.BigInt expected in
      let minimum := JsBigInt.toString (JsBigInt.div (e * 99) 100) in
      Ok {| inputToken := inputTokenId;
            outputToken := outputTokenId;
            inputAmount := inputAmount;
            expectedOutput := expected;
            minimumOutput := minimum;
            priceImpact := "0.5";
            pool := [string_of_nat poolId] |}
  end.

(** The swap instruction; the call carries its [JSON.stringify]. *)
Record SwapAction : Type := mkSwapAction {
  pool_id : nat;
  token_in : string;
  token_out : string;
  amount_in : string;
  min_amount_out : string
}.

Record SwapMsg : Type := mkSwapMsg {
  force : Z;
  referral_id : option string;
  actions : list SwapAction
}.

Inductive CallArgs : Type :=
| NoArgs
| StorageDepositArgs (account_id : option string) (registration_only : bool)
| FtTransferCallArgs (receiver_id amount : string) (msg : SwapMsg).

(** An [Action] of lib/near/types.ts. *)
Inductive Action : Type :=
| Transfer (deposit : string)
| FunctionCall (methodName : string) (args : CallArgs) (gas deposit : string).

Record Transaction : Type := mkTransaction {
  receiverId : string;
  tx_actions : list Action
}.

(** [s || d] on optional strings: the empty string is falsy. *)
Definition string_or (s : option string) (d : string) : string :=
  match s with
  | Some v => if String.eqb v "" then d else v
  | None => d
  end.

Definition string_or_null (s : option string) : option string :=
  match s with
  | Some v => if String.eqb v "" then None else Some v
  | None => None
  end.

Definition generateSwapTransaction (chain : Chain) (inputTokenId inputAmount
    outputTokenId minimumOutput : string) (network : Network)
    (accountId : option string) (needsWrapping : bool)
    (wrapAmount : option string) : result (list Transaction) :=
  match findPool chain inputTokenId outputTokenId network with
  | None => Throw (no_pool_message inputTokenId outputTokenId)
  | Some poolId =>
      let* inputAmountStr := convertScientificToString inputAmount in
      let* minimumOutputStr := convertScientificToString minimumOutput in
      let swapMsg :=
        mkSwapMsg 0 None
          [mkSwapAction poolId inputTokenId outputTokenId inputAmountStr minimumOutputStr] in
      let wrapping :=
        if needsWrapping then
          [mkTransaction inputTokenId
             [FunctionCall "near_deposit" NoArgs "30000000000000"
                (string_or wrapAmount inputAmountStr)]]
        else [] in
      Ok (wrapping ++
          [ mkTransaction outputTokenId
              [FunctionCall "storage_deposit"
                 (StorageDepositArgs (string_or_null accountId) true)
                 "30000000000000" "1250000000000000000000"];
            mkTransaction inputTokenId
              [FunctionCall "ft_transfer_call"
                 (FtTransferCallArgs (getRefConfig_contractId network)
                    inputAmountStr swapMsg)
                 "180000000000000" "1"] ])%list
  end.

End RefFinance.

(** ** The token catalog and the token predictor
       (lib/agents/token-analyzer.ts) *)

Module TokenAnalyzer.

Definition REF_FINANCE_CONTRACT : string := "v2.ref-finance.testnet".
Definition WRAP_NEAR_TOKEN : string := "wrap.testnet".

Record TokenInfo : Type := mkToken {
  token_account_id : string;
  symbol : string;
  price : string;
  decimal : JsNumber.number
}.

Record TokenPrediction : Type := mkPrediction {
  selectedToken : string;
  p_symbol : string;
  reasoning : json;
  confidence : option json;
  p_price : string
}.

(** [hasLiquidityPool]: the same paged scan as [findPool], of the first
    200 pools of [REF_FINANCE_CONTRACT], for a pool with both wNEAR and
    the token; any exception is answered by [false]. *)
Definition hasLiquidityPool (chain : RefFinance.Chain) (tokenId : string) : bool :=
  match RefFinance.scan (chain REF_FINANCE_CONTRACT) WRAP_NEAR_TOKEN tokenId 200 with
  | Ok (Some _) => true
  | Ok None => false
  | Throw _ => false
  end.

(** The value of one key of the indexer's answer; a field the code
    guards with [||] may be absent. *)
Record IndexerInfo : Type := mkInfo {
  i_symbol : option string;
  i_price : option string;
  i_decimal : option JsNumber.number
}.

(** The answer of the price indexer: [fetch] or [response.json()]
    rejected, a response that is not ok, or the entries of the parsed
    object in [Object.entries] order ([None] for a null value). *)
Inductive IndexerReply : Type :=
| FetchThrows (msg : string)
| NotOk (statusText : string)
| Body (entries : list (string * option IndexerInfo)).

(** Modelled from the spec: the bundled static dataset
    testnet-tokens-fallback.json is not among the sources.  It is a map
    from token contract id to symbol, price and decimal, like the
    indexer's answer; [Throw] is a file that cannot be loaded. *)
Record FileInfo : Type := mkFileInfo {
  f_symbol : string;
  f_price : string;
  f_decimal : JsNumber.number
}.

Definition FallbackFile : Type := result (list (string * FileInfo)).

Record Env : Type := mkEnv {
  indexer : IndexerReply;
  chain : RefFinance.Chain;
  fallback_file : FallbackFile
}.

Definition price_gt0 (t : TokenInfo) : bool :=
  JsNumber.gt0 (JsNumber.parseFloat (price t)).

(** [(a, b) => parseFloat(b.price) - parseFloat(a.price)] *)
Definition by_price_desc (a b : TokenInfo) : option comparison :=
  JsNumber.sub_sign (JsNumber.parseFloat (price b)) (JsNumber.parseFloat (price a)).

(** Descending prices: the price of [a] is at least that of [b]. *)
Definition price_desc (a b : TokenInfo) : Prop :=
  JsNumber.le (JsNumber.parseFloat (price b)) (JsNumber.parseFloat (price a)) = true.

Definition builtin_tokens : list TokenInfo :=
  [ mkToken "wbtc.fakes.testnet" "WBTC" "101700" (TaskPlanner.nat_number 8);
    mkToken "usdt.fakes.testnet" "USDT.e" "0.999892" (TaskPlanner.nat_number 6);
    mkToken "dai.fakes.testnet" "DAI" "0.999892" (TaskPlanner.nat_number 18) ].

Definition loadFallbackTokens (file : FallbackFile) : list TokenInfo :=
  match file with
  | Ok entries =>
      firstn 15
        (js_sort by_price_desc
           (List.filter price_gt0
              (map (fun e => mkToken (fst e) (f_symbol (snd e))
                               (f_price (snd e)) (f_decimal (snd e))) entries)))
  | Throw _ => builtin_tokens
  end.

Definition number_or (n : option JsNumber.number) (d : JsNumber.number)
    : JsNumber.number :=
  match n with
  | Some v => if JsNumber.truthy v then v else d
  | None => d
  end.

(** The callback of [map] over the entries; reading a field of a null
    value throws. *)
Definition token_of_entry (e : string * option IndexerInfo) : result TokenInfo :=
  match snd e with
  | None => Throw "Cannot read properties of null (reading 'symbol')"
  | Some info =>
      Ok (mkToken (fst e)
            (RefFinance.string_or (i_symbol info)
               (JsString.toUpperCase (JsString.split_head "." (fst e))))
            (RefFinance.string_or (i_price info) "0")
            (number_or (i_decimal info) (TaskPlanner.nat_number 18)))
  end.

Fixpoint map_entries (l : list (string * option IndexerInfo))
    : result (list TokenInfo) :=
  match l with
  | [] => Ok []
  | e :: l' =>
      let* t := token_of_entry e in
      let* ts := map_entries l' in
      Ok (t :: ts)
  end.

(** The loop over the candidates; [found] is [tokensWithLiquidity]. *)
Fixpoint collect (chain : RefFinance.Chain) (candidates found : list TokenInfo)
    : list TokenInfo :=
  match candidates with
  | [] => found
  | token :: rest =>
      if String.eqb (token_account_id token) WRAP_NEAR_TOKEN
      then collect chain rest found
      else
        let found' :=
          if hasLiquidityPool chain (token_account_id token)
          then (found ++ [token])%list else found in
        if (15 <=? length found')%nat then found'
        else collect chain rest found'
  end.

Definition live_tokens (env : Env) : result (list TokenInfo) :=
  match indexer env with
  | FetchThrows msg => Throw msg
  | NotOk statusText => Throw ("Failed to fetch tokens: " ++ statusText)
  | Body entries =>
      let* mapped := map_entries entries in
      let allTokens := js_sort by_price_desc (List.filter price_gt0 mapped) in
      Ok (collect (chain env) (firstn 30 allTokens) [])
  end.

Definition fetchAvailableTokens (env : Env) : list TokenInfo :=
  match live_tokens env with
  | Ok [] => loadFallbackTokens (fallback_file env)
  | Ok tokensWithLiquidity => tokensWithLiquidity
  | Throw _ => loadFallbackTokens (fallback_file env)
  end.

(** The price parses to a positive number. *)
Definition positive_price (t : TokenInfo) : Prop := price_gt0 t = true.

(** A list the catalog may return. *)
Definition catalog_ok (l : list TokenInfo) : Prop :=
  (length l <= 15)%nat /\ StronglySorted price_desc l /\ Forall positive_price l.

(** The dataset, when it loads, lists a token with a positive price. *)
Definition file_has_priced_token (file : FallbackFile) : Prop :=
  forall entries, file = Ok entries ->
    exists e, In e entries
              /\ JsNumber.gt0 (JsNumber.parseFloat (f_price (snd e))) = true.

(** What the [try] block of [predictBestToken] gets from the language
    model.  [PredictThrows]: [generateText] rejected, [JSON.parse]
    threw, or the parsed value is null.  [PredictValue]: the fields of
    the parsed value that the code reads ([None] for undefined). *)
Inductive ModelReply : Type :=
| PredictThrows (msg : string)
| PredictValue (selected reason conf : option json).

(** [tokenField === prediction.selectedToken] *)
Definition strict_eq_string (s : string) (v : option json) : bool :=
  match v with
  | Some (JStr s') => String.eqb s s'
  | _ => false
  end.

Definition matches_selected (selected : option json) (t : TokenInfo) : bool :=
  strict_eq_string (token_account_id t) selected
  || strict_eq_string (symbol t) selected.

Definition stablecoins : list string := ["usdt"; "usdc"; "dai"; "usn"; "busd"].

Definition symbol_includes (needle : string) (t : TokenInfo) : bool :=
  JsString.includes (JsString.toLowerCase (symbol t)) needle.

Definition is_stablecoin (t : TokenInfo) : bool :=
  existsb (fun stable => symbol_includes stable t) stablecoins.

Definition default_reasoning : string :=
  "Selected based on highest price and liquidity. This is a fallback selection due to AI analysis error.".

(** The choice of the [catch] block: the token ([None] when [tokens[0]]
    is undefined) and the reasoning. *)
Definition fallback_choice (tokens : list TokenInfo) (agentGoal : string)
    : option TokenInfo * string :=
  let first := head tokens in
  let goalLower := JsString.toLowerCase agentGoal in
  if JsString.includes goalLower "stable" then
    match find is_stablecoin tokens with
    | Some stablecoin =>
        (Some stablecoin,
         "Selected " ++ symbol stablecoin ++
         " as a stable token based on user instruction for stable tokens. This is a fallback selection due to AI analysis error.")
    | None => (first, default_reasoning)
    end
  else if JsString.includes goalLower "btc" || JsString.includes goalLower "bitcoin" then
    match find (symbol_includes "btc") tokens with
    | Some btcToken =>
        (Some btcToken,
         "Selected " ++ symbol btcToken ++
         " based on user mention of BTC/Bitcoin. This is a fallback selection due to AI analysis error.")
    | None => (first, default_reasoning)
    end
  else if JsString.includes goalLower "eth" || JsString.includes goalLower "ethereum" then
    match find (symbol_includes "eth") tokens with
    | Some ethToken =>
        (Some ethToken,
         "Selected " ++ symbol ethToken ++
         " based on user mention of ETH/Ethereum. This is a fallback selection due to AI analysis error.")
    | None => (first, default_reasoning)
    end
  else (first, default_reasoning).

Definition half : JsNumber.number := JsNumber.Finite false (2 ^ 1073)%N.

(** The [catch] block; with an empty catalog reading
    [fallbackToken.symbol] throws out of the function. *)
Definition fallback_prediction (tokens : list TokenInfo) (agentGoal : string)
    : result TokenPrediction :=
  match fallback_choice tokens agentGoal with
  | (Some fallbackToken, fallbackReasoning) =>
      Ok (mkPrediction (token_account_id fallbackToken) (symbol fallbackToken)
            (JStr fallbackReasoning) (Some (JNum half)) (price fallbackToken))
  | (None, _) => Throw "Cannot read properties of undefined (reading 'symbol')"
  end.

(** The [try] block: [Throw] is what the [catch] block receives. *)
Definition model_prediction (tokens : list TokenInfo) (reply : ModelReply)
    : result TokenPrediction :=
  match reply with
  | PredictThrows msg => Throw msg
  | PredictValue selected reason conf =>
      if negb (truthy selected) || negb (truthy reason)
      then Throw "Invalid prediction format: missing required fields"
      else
        match find (matches_selected selected) tokens, reason with
        | Some matchingToken, Some r =>
            Ok (mkPrediction (token_account_id matchingToken)
                  (symbol matchingToken) r conf (price matchingToken))
        | _, _ => Throw "Selected token not found in available tokens"
        end
  end.

Definition predictBestToken (tokens : list TokenInfo) (agentGoal : string)
    (reply : ModelReply) : result TokenPrediction :=
  match model_prediction tokens reply with
  | Ok prediction => Ok prediction
  | Throw _ => fallback_prediction tokens agentGoal
  end.

End TokenAnalyzer.

(** ** The swap executor (lib/agents/swap-executor.ts) *)

Module SwapExecutor.

Import RefFinance.

Definition WRAP_NEAR_CONTRACT : string := "wrap.testnet".
Definition NEAR_TOKEN : string := "wrap.testnet".

Record SwapResult : Type := mkSwapResult {
  success : bool;
  transactionHash : option string;
  error : option string;
  amountSwapped : option string
}.

(** What [txStatus] answers: a status object with [SuccessValue], any
    other answer, or an exception (the transaction is not known yet). *)
Inductive TxStatus : Type := SuccessValue | OtherStatus | StatusThrows.

(** A function call as near-api-js takes it. *)
Record NearCall : Type := mkNearCall {
  nc_method : string;
  nc_args : CallArgs;
  nc_gas : Z;
  nc_deposit : Z
}.

(** What the executor does to the outside, in order. *)
Inductive Event : Type :=
| Sent (receiver : string) (calls : list NearCall) (hash : string)
| Polled (hash : string) (attempt : nat)
| Slept (ms : nat).

(** The outside world of one swap.  [signAndSendTransaction n] is the
    answer to the [n]-th transaction the account signs (the wrap is
    number 0); [txStatus i k] is the answer to poll number [k] for the
    [i]-th transaction of the built list. *)
Record World : Type := mkWorld {
  chain : Chain;
  connect : result unit;
  parseNearAmount : string -> option string;
  signAndSendTransaction : nat -> string -> list NearCall -> result string;
  ft_balance_of : result string;
  txStatus : nat -> nat -> TxStatus
}.

Definition maxAttempts : nat := 30.

Definition near_call (action : Action) : result NearCall :=
  match action with
  | FunctionCall methodName args gas deposit =>
      let* g := JsBigInt.BigInt gas in
      let* d := JsBigInt.BigInt deposit in
      Ok (mkNearCall methodName args g d)
  | Transfer _ => Throw "Unsupported action type: Transfer"
  end.

Fixpoint near_calls (actions : list Action) : result (list NearCall) :=
  match actions with
  | [] => Ok []
  | a :: rest =>
      let* c := near_call a in
      let* cs := near_calls rest in
      Ok (c :: cs)
  end.

(** The polling loop [while (attempts < maxAttempts)]: the value of
    [attempts] when it ends, and what it did. *)
Fixpoint await_final (w : World) (i : nat) (txHash : string)
    (rounds attempts : nat) : nat * list Event :=
  match rounds with
  | O => (attempts, [])
  | S rounds' =>
      if (attempts <? maxAttempts)%nat then
        match txStatus w i attempts with
        | SuccessValue => (attempts, [Polled txHash attempts])
        | OtherStatus | StatusThrows =>
            let (a, events) := await_final w i txHash rounds' (S attempts) in
            (a, Polled txHash attempts :: Slept 1000 :: events)
        end
      else (attempts, [])
  end.

Definition not_final_message (txHash : string) : string :=
  "Transaction " ++ txHash ++ " did not finalize in time".

(** The loop over the built transactions, from index [i] on. *)
Fixpoint submit (w : World) (transactions : list Transaction) (i total : nat)
    (txHashes : list string) : result (list string) * list Event :=
  match transactions with
  | [] => (Ok txHashes, [])
  | tx :: rest =>
      match near_calls (tx_actions tx) with
      | Throw msg => (Throw msg, [])
      | Ok calls =>
          match signAndSendTransaction w (S i) (receiverId tx) calls with
          | Throw msg => (Throw msg, [])
          | Ok txHash =>
              let sent := Sent (receiverId tx) calls txHash in
              let txHashes' := (txHashes ++ [txHash])%list in
              if (i <? total - 1)%nat then
                let (attempts, polls) := await_final w i txHash maxAttempts 0 in
                if (maxAttempts <=? attempts)%nat
                then (Throw (not_final_message txHash), sent :: polls)
                else
                  let (r, events) := submit w rest (S i) total txHashes' in
                  (r, (sent :: polls ++ Slept 2000 :: events)%list)
              else
                let (r, events) := submit w rest (S i) total txHashes' in
                (r, sent :: events)
          end
      end
  end.

(** Steps 1 to 4: the wrap, the balance read back, the estimate and
    the built transactions; the result is the hash of the wrap and the
    transactions still to submit. *)
Definition prepare (w : World) (accountId : string)
    (prediction : TokenAnalyzer.TokenPrediction) (amountInNear : string)
    : result (string * list Transaction) * list Event :=
  match connect w with
  | Throw msg => (Throw msg, [])
  | Ok _ =>
      match string_or_null (parseNearAmount w amountInNear) with
      | None => (Throw "Invalid NEAR amount", [])
      | Some wrapAmount =>
          let wrap :=
            let* deposit := JsBigInt.BigInt wrapAmount in
            let calls := [mkNearCall "near_deposit" NoArgs 30000000000000 deposit] in
            let* hash := signAndSendTransaction w 0%nat WRAP_NEAR_CONTRACT calls in
            Ok (calls, hash) in
          match wrap with
          | Throw msg => (Throw msg, [])
          | Ok (calls, wrapHash) =>
              let events := [Sent WRAP_NEAR_CONTRACT calls wrapHash; Slept 3000] in
              let built :=
                let* swapAmount := ft_balance_of w in
                let* estimate :=
                  estimateSwap (chain w) NEAR_TOKEN swapAmount
                    (TokenAnalyzer.selectedToken prediction) testnet in
                generateSwapTransaction (chain w) NEAR_TOKEN swapAmount
                  (TokenAnalyzer.selectedToken prediction)
                  (minimumOutput estimate) testnet (Some accountId) false None in
              match built with
              | Throw msg => (Throw msg, events)
              | Ok transactions => (Ok (wrapHash, transactions), events)
              end
          end
      end
  end.

(** The body of the [try] block. *)
Definition swap_steps (w : World) (accountId : string)
    (prediction : TokenAnalyzer.TokenPrediction) (amountInNear : string)
    : result (list string) * list Event :=
  match prepare w accountId prediction amountInNear with
  | (Throw msg, events) => (Throw msg, events)
  | (Ok (wrapHash, transactions), events) =>
      let (r, events') :=
        submit w transactions 0 (length transactions) [wrapHash] in
      (r, (events ++ events')%list)
  end.

(** The transaction at index [i] is signed, sent and seen final within
    the polling bound. *)
Definition goes_through (w : World) (i : nat) (tx : Transaction) : Prop :=
  exists calls txHash,
    near_calls (tx_actions tx) = Ok calls
    /\ signAndSendTransaction w (S i) (receiverId tx) calls = Ok txHash
    /\ exists k, (k < maxAttempts)%nat /\ txStatus w i k = SuccessValue.

(** [n] polls for a hash, one second apart, none of which ends the
    loop. *)
Definition polls_of (txHash : string) (from n : nat) : list Event :=
  flat_map (fun k => [Polled txHash k; Slept 1000]) (seq from n).

(** The receivers of the transactions signed and sent, in order. *)
Fixpoint sent_receivers (events : list Event) : list string :=
  match events with
  | [] => []
  | Sent receiver _ _ :: rest => receiver :: sent_receivers rest
  | _ :: rest => sent_receivers rest
  end.

Definition executeTokenSwap (w : World) (accountId privateKey : string)
    (prediction : TokenAnalyzer.TokenPrediction) (amountInNear : string)
    : SwapResult * list Event :=
  match swap_steps w accountId prediction amountInNear with
  | (Ok txHashes, events) =>
      (mkSwapResult true (last txHashes) None (Some amountInNear),
       events)
  | (Throw msg, events) =>
      (mkSwapResult false None (Some msg) None, events)
  end.

End SwapExecutor.

(** ** The orchestrator (lib/agents/agent-executor.ts) *)

Module AgentExecutor.

Import TaskHistory.

Record Agent : Type := mkAgent {
  accountId : string;
  description : option string;
  agent_status : string;
  decryptedPrivateKey : string
}.

Record ExecutionResult : Type := mkExecution {
  success : bool;
  taskIds : list positive;
  error : option string
}.

(** The outside world of one run. *)
Record World : Type := mkWorld {
  getAgentWithPrivateKey : result (option Agent);
  fetchAccountBalance : result string;
  planner_reply : TaskPlanner.ModelReply;
  catalog : TokenAnalyzer.Env;
  predictor_reply : TokenAnalyzer.ModelReply;
  swap_world : SwapExecutor.World
}.

(** What a run has changed so far: the ledger, the array [taskIds] and
    what the swap executor did. *)
Record State : Type := mkState {
  db : Db;
  ids : list positive;
  events : list SwapExecutor.Event
}.

Definition M (A : Type) : Type := State -> result A * State.

Definition mret {A : Type} (a : A) : M A := fun st => (Ok a, st).

Definition mbind {A B : Type} (m : M A) (k : A -> M B) : M B :=
  fun st =>
    match m st with
    | (Ok a, st') => k a st'
    | (Throw msg, st') => (Throw msg, st')
    end.

Definition lift {A : Type} (r : result A) : M A := fun st => (r, st).

Notation "'let!' x ':=' m 'in' k" := (mbind m (fun x => k))
  (at level 10, x pattern, m at level 100, k at level 200).

Definition create (data : CreateTaskData) : M AgentTaskHistory :=
  fun st =>
    let (task, db') := createTask data (db st) in
    (Ok task, mkState db' (ids st) (events st)).

Definition update (taskId : positive) (data : UpdateTaskData) : M unit :=
  fun st =>
    let (_, db') := updateTask taskId data (db st) in
    (Ok tt, mkState db' (ids st) (events st)).

Definition push (taskId : positive) : M unit :=
  fun st => (Ok tt, mkState (db st) (ids st ++ [taskId])%list (events st)).

(** [createTask], [taskIds.push] and the update to [running]. *)
Definition start_task (data : CreateTaskData) : M positive :=
  let! task := create data in
  let! _ := push (id task) in
  let! _ := update (id task) (mkUpdate None running None None) in
  mret (id task).

Definition json_of_string_option (s : option string) : json :=
  match s with
  | Some v => JStr v
  | None => JNull
  end.

Definition json_of_planned (t : TaskPlanner.PlannedTask) : json :=
  JObj [("type", TaskPlanner.type t);
        ("description", TaskPlanner.description t);
        ("order", TaskPlanner.order t)].

Definition json_of_token (t : TokenAnalyzer.TokenInfo) : json :=
  JObj [("token_account_id", JStr (TokenAnalyzer.token_account_id t));
        ("symbol", JStr (TokenAnalyzer.symbol t));
        ("price", JStr (TokenAnalyzer.price t));
        ("decimal", JNum (TokenAnalyzer.decimal t))].

Definition optional_field (name : string) (v : option json) : list (string * json) :=
  match v with
  | Some x => [(name, x)]
  | None => []
  end.

Definition json_of_prediction (p : TokenAnalyzer.TokenPrediction) : json :=
  JObj ([("selectedToken", JStr (TokenAnalyzer.selectedToken p));
         ("symbol", JStr (TokenAnalyzer.p_symbol p));
         ("reasoning", TokenAnalyzer.reasoning p)]
        ++ optional_field "confidence" (TokenAnalyzer.confidence p)
        ++ [("price", JStr (TokenAnalyzer.p_price p))])%list.

Definition json_of_swap (r : SwapExecutor.SwapResult) : json :=
  JObj ([("success", JBool (SwapExecutor.success r))]
        ++ optional_field "transactionHash"
             (option_map JStr (SwapExecutor.transactionHash r))
        ++ optional_field "error" (option_map JStr (SwapExecutor.error r))
        ++ optional_field "amountSwapped"
             (option_map JStr (SwapExecutor.amountSwapped r)))%list.

(** *** The swap amount named in the description *)

Fixpoint strip_literal (literal s : string) : option string :=
  match literal with
  | EmptyString => Some s
  | String c literal' =>
      match s with
      | String d s' =>
          if Ascii.eqb (JsString.lower_ascii c) (JsString.lower_ascii d)
          then strip_literal literal' s' else None
      | EmptyString => None
      end
  end.

(** White space, at least once. *)
Definition spaces1 (s : string) : option string :=
  option_map JsString.trimStart (JsString.skip_space s).

Fixpoint digit_run (s : string) : string * string :=
  match s with
  | String c s' =>
      match JsNumber.digit_val c with
      | Some _ => let (d, r) := digit_run s' in (String c d, r)
      | None => (EmptyString, s)
      end
  | EmptyString => (EmptyString, EmptyString)
  end.

(** The capture group (digits, an optional dot, digits): the captured
    text and the rest. *)
Definition number_group (s : string) : option (string * string) :=
  let (d1, r1) := digit_run s in
  match d1 with
  | EmptyString => None
  | _ =>
      let (dot, r2) :=
        match r1 with
        | String "." r => (".", r)
        | _ => ("", r1)
        end in
      let (d2, r3) := digit_run r2 in
      Some (d1 ++ dot ++ d2, r3)
  end.

(** One of the five patterns: an optional leading word followed by
    white space, the number, optional white space and [near], and for
    the fourth pattern white space and [token]; letters match in
    either case. *)
Record Pattern : Type := mkPattern {
  leading : string;
  wants_token : bool
}.

Definition amountPatterns : list Pattern :=
  [ mkPattern "maximum" false;
    mkPattern "max" false;
    mkPattern "swap" false;
    mkPattern "" true;
    mkPattern "" false ].

Definition option_bind {A B : Type} (o : option A) (k : A -> option B) : option B :=
  match o with
  | Some a => k a
  | None => None
  end.

(** The pattern matched at the start of [s]: the text of group 1. *)
Definition match_here (p : Pattern) (s : string) : option string :=
  option_bind
    (match leading p with
     | EmptyString => Some s
     | word => option_bind (strip_literal word s) spaces1
     end)
    (fun s1 =>
       option_bind (number_group s1)
         (fun '(group, r) =>
            option_bind (strip_literal "near" (JsString.trimStart r))
              (fun r' =>
                 if wants_token p
                 then option_bind (option_bind (spaces1 r') (strip_literal "token"))
                        (fun _ => Some group)
                 else Some group))).

(** [description.match(pattern)]: the leftmost match. *)
Fixpoint regex_match (p : Pattern) (s : string) : option string :=
  match match_here p s with
  | Some group => Some group
  | None =>
      match s with
      | EmptyString => None
      | String _ s' => regex_match p s'
      end
  end.

Fixpoint first_amount (patterns : list Pattern) (description balance : string)
    : option string :=
  match patterns with
  | [] => None
  | p :: rest =>
      match regex_match p description with
      | Some group =>
          let amount := JsNumber.parseFloat group in
          if JsNumber.gt0 amount && JsNumber.le amount (JsNumber.parseFloat balance)
          then Some group
          else first_amount rest description balance
      | None => first_amount rest description balance
      end
  end.

Definition extract_swap_amount (description balance : string) : string :=
  match first_amount amountPatterns description balance with
  | Some amount => amount
  | None => "0.5"
  end.

(** *** The pipeline *)

(** The body of the [try] block. *)
Definition pipeline (w : World) (agentId userId : string) : M unit :=
  let! found := lift (getAgentWithPrivateKey w) in
  let! agent := lift (match found with
                    | Some a => Ok a
                    | None => Throw "Agent not found"
                    end) in
  let! _ := lift (if String.eqb (agent_status agent) "active" then Ok tt
                else Throw "Agent is not active") in
  let! balance := lift (fetchAccountBalance w) in
  (* Task 1: plan *)
  let! planTask := start_task
      (mkCreate agentId "plan_tasks" "Analyze agent description and create task plan"
         (Some (JObj [("description", json_of_string_option (description agent));
                      ("balance", JStr balance)]))) in
  let tasks :=
    TaskPlanner.planAgentTasks
      (RefFinance.string_or (description agent) "Analyze and swap tokens")
      balance (planner_reply w) in
  let! _ := update planTask
      (mkUpdate (Some (JObj [("tasks", JArr (map json_of_planned tasks))]))
         completed None None) in
  (* Task 2: fetch tokens *)
  let! fetchTask := start_task
      (mkCreate agentId "fetch_tokens" "Fetch available tokens from Ref Finance" None) in
  let tokens := TokenAnalyzer.fetchAvailableTokens (catalog w) in
  let tokenCount := json_of_N (N.of_nat (length tokens)) in
  let! _ := update fetchTask
      (mkUpdate (Some (JObj [("tokenCount", tokenCount);
                             ("tokens", JArr (map json_of_token (firstn 10 tokens)))]))
         completed None None) in
  (* Task 3: predict *)
  let! predictTask := start_task
      (mkCreate agentId "predict_token"
         "Use AI to analyze tokens and predict best investment"
         (Some (JObj [("tokenCount", tokenCount)]))) in
  let! prediction := lift
      (TokenAnalyzer.predictBestToken tokens
         (RefFinance.string_or (description agent) "Find best token")
         (predictor_reply w)) in
  let! _ := update predictTask
      (mkUpdate (Some (json_of_prediction prediction)) completed None None) in
  let swapAmount :=
    extract_swap_amount (RefFinance.string_or (description agent) "") balance in
  (* Task 4: swap *)
  let! swapTask := start_task
      (mkCreate agentId "execute_swap"
         ("Swap " ++ swapAmount ++ " NEAR for " ++ TokenAnalyzer.p_symbol prediction)
         (Some (JObj [("token", JStr (TokenAnalyzer.selectedToken prediction));
                      ("symbol", JStr (TokenAnalyzer.p_symbol prediction));
                      ("amount", JStr swapAmount)]))) in
  let! swapResult :=
    (fun st =>
       let (r, evs) :=
         SwapExecutor.executeTokenSwap (swap_world w) (accountId agent)
           (decryptedPrivateKey agent) prediction swapAmount in
       (Ok r, mkState (db st) (ids st) (events st ++ evs)%list)) in
  if SwapExecutor.success swapResult then
    update swapTask (mkUpdate (Some (json_of_swap swapResult)) completed None None)
  else
    update swapTask
      (mkUpdate (Some (json_of_swap swapResult)) failed
         (SwapExecutor.error swapResult) None).

(** The loop of the [catch] block over [taskIds]. *)
Definition fail_running (msg : string) (d : Db) (taskId : positive) : Db :=
  match getTask taskId d with
  | Some task =>
      if Status_eqb (status task) running
      then snd (updateTask taskId (mkUpdate None failed (Some msg) None) d)
      else d
  | None => d
  end.

Definition executeAgent (w : World) (agentId userId : string) (d : Db)
    : ExecutionResult * State :=
  match pipeline w agentId userId (mkState d [] []) with
  | (Ok _, st) => (mkExecution true (ids st) None, st)
  | (Throw msg, st) =>
      (mkExecution false (ids st) (Some msg),
       mkState (fold_left (fail_running msg) (ids st) (db st)) (ids st) (events st))
  end.

End AgentExecutor.

(** ** Sample inputs *)

Module Samples.

Import TaskHistory.

Definition sample_ops : list Op :=
  [ OpCreate (mkCreate "agent-1" "plan_tasks" "Analyze agent description" None);
    OpUpdate 1%positive (mkUpdate None running None None);
    OpUpdate 1%positive (mkUpdate (Some (JStr "done")) completed None None) ].

Definition sample_row : AgentTaskHistory :=
  mkTask 1%positive "agent-1" "plan_tasks" "Analyze agent description" None
    (Some (JStr "done")) completed None 0%nat (Some 2%nat) 0%nat.

End Samples.

Module SampleChain.

Import RefFinance.

Definition other_pool : Pool :=
  mkPool (Some "SIMPLE_POOL") ["usdt.fakes.testnet"; "dai.fakes.testnet"].

Definition wbtc_pool : Pool :=
  mkPool (Some "SIMPLE_POOL") ["wbtc.fakes.testnet"; "wrap.testnet"].

Definition registry : list Pool := [other_pool; wbtc_pool].

Definition quote (poolId : nat) (tokenIn amountIn tokenOut : string)
    : result string := Ok "12345".

(** Every exchange contract serves the same two pools and never fails. *)
Definition chain : Chain :=
  fun _ => registry_dex registry false (fun _ => false) quote.

End SampleChain.

Module SampleCatalog.
Import TokenAnalyzer.

(** The indexer is down and the bundled dataset lists one priced token. *)
Definition env : Env :=
  mkEnv (FetchThrows "fetch failed") SampleChain.chain
    (Ok [("usdc.fakes.testnet", mkFileInfo "USDC" "1.0001" (TaskPlanner.nat_number 6))]).

(** The indexer is down and the bundled dataset lists no token. *)
Definition env_empty_file : Env :=
  mkEnv (FetchThrows "fetch failed") SampleChain.chain (Ok []).
End SampleCatalog.

Module SampleSwap.
Import RefFinance SwapExecutor.

Definition prediction : TokenAnalyzer.TokenPrediction :=
  TokenAnalyzer.mkPrediction "wbtc.fakes.testnet" "WBTC" (JStr "highest price")
    (Some (JNum TokenAnalyzer.half)) "101700".

Definition hash_of (n : nat) : string :=
  match n with
  | O => "hash-wrap"
  | S O => "hash-storage"
  | _ => "hash-swap"
  end.

(** Every call succeeds, but no transaction is ever reported final. *)
Definition stuck_world : World :=
  mkWorld SampleChain.chain (Ok tt)
    (fun _ => Some "500000000000000000000000")
    (fun n _ _ => Ok (hash_of n))
    (Ok "500000000000000000000000")
    (fun _ _ => OtherStatus).

Definition wrap_events : list Event :=
  [ Sent "wrap.testnet"
      [mkNearCall "near_deposit" NoArgs 30000000000000 500000000000000000000000]
      "hash-wrap";
    Slept 3000 ].

Definition storage_tx : Transaction :=
  mkTransaction "wbtc.fakes.testnet"
    [FunctionCall "storage_deposit" (StorageDepositArgs (Some "agent.testnet") true)
       "30000000000000" "1250000000000000000000"].

Definition storage_calls : list NearCall :=
  [mkNearCall "storage_deposit" (StorageDepositArgs (Some "agent.testnet") true)
     30000000000000 1250000000000000000000].

Definition swap_tx : Transaction :=
  mkTransaction "wrap.testnet"
    [FunctionCall "ft_transfer_call"
       (FtTransferCallArgs "ref-finance-101.testnet" "500000000000000000000000"
          (mkSwapMsg 0 None
             [mkSwapAction 1 "wrap.testnet" "wbtc.fakes.testnet"
                "500000000000000000000000" "12221"]))
       "180000000000000" "1"].
End SampleSwap.

Module SampleRun.
Import AgentExecutor.

Definition agent : Agent :=
  mkAgent "agent.testnet" (Some "Swap 0.5 NEAR for bitcoin") "active" "ed25519:secret".

(** The language model and the indexer are down, the bundled dataset
    does not load, and no transaction is ever reported final. *)
Definition world : World :=
  mkWorld (Ok (Some agent)) (Ok "10")
    (TaskPlanner.ReplyThrows "model unavailable")
    (TokenAnalyzer.mkEnv (TokenAnalyzer.FetchThrows "fetch failed")
       SampleChain.chain (Throw "Cannot find module"))
    (TokenAnalyzer.PredictThrows "model unavailable")
    SampleSwap.stuck_world.
End SampleRun.

(** ** Descriptions that name one amount *)

Module SwapAmountText.

(** The text has no decimal digit. *)
Fixpoint no_digit (s : string) : bool :=
  match s with
  | EmptyString => true
  | String c s' =>
      match JsNumber.digit_val c with
      | Some _ => false
      | None => no_digit s'
      end
  end.

(** An amount as the patterns read it: digits, or digits, a dot and
    digits (none after the dot is allowed). *)
Definition amount_text (g : string) : Prop :=
  exists d1 d2,
    JsString.all_digits d1 = true /\ d1 <> ""
    /\ JsString.all_digits d2 = true
    /\ (g = d1 \/ g = d1 ++ "." ++ d2).

(** White-space characters only. *)
Definition white (ws : string) : Prop := JsString.trimStart ws = "".

(** The word near, in upper or lower case letters. *)
Definition near_word (w : string) : Prop := JsString.toLowerCase w = "near".

(** The text starts with a decimal digit. *)
Definition starts_digit (s : string) : Prop :=
  exists c r, s = String c r /\ JsString.is_digit c = true.

(** The text starts with neither a digit nor a dot. *)
Definition starts_plain (r : string) : Prop :=
  match r with
  | String c _ => JsNumber.digit_val c = None /\ c <> "."%char
  | EmptyString => True
  end.

(** The part of a pattern in front of the number: what follows it. *)
Definition lead (p : AgentExecutor.Pattern) (s : string) : option string :=
  match AgentExecutor.leading p with
  | EmptyString => Some s
  | word =>
      AgentExecutor.option_bind (AgentExecutor.strip_literal word s)
        AgentExecutor.spaces1
  end.

(** The part of a pattern after the number: the group when it matches. *)
Definition tail (p : AgentExecutor.Pattern) (r group : string) : option string :=
  AgentExecutor.option_bind
    (AgentExecutor.strip_literal "near" (JsString.trimStart r))
    (fun r' =>
       if AgentExecutor.wants_token p
       then AgentExecutor.option_bind
              (AgentExecutor.option_bind (AgentExecutor.spaces1 r')
                 (AgentExecutor.strip_literal "token"))
              (fun _ => Some group)
       else Some group).

End SwapAmountText.

(** ** Reading the log of the swap executor *)

Module SwapLog.
Import RefFinance SwapExecutor.

(** The hashes of the transactions signed and sent, in order. *)
Fixpoint sent_hashes (events : list Event) : list string :=
  match events with
  | [] => []
  | Sent _ _ hash :: rest => hash :: sent_hashes rest
  | _ :: rest => sent_hashes rest
  end.

(** The receiver of each transaction signed and sent and the methods
    it calls, in order. *)
Fixpoint sent_log (events : list Event) : list (string * list string) :=
  match events with
  | [] => []
  | Sent receiver calls _ :: rest => (receiver, map nc_method calls) :: sent_log rest
  | _ :: rest => sent_log rest
  end.

Definition action_method (action : Action) : string :=
  match action with
  | FunctionCall methodName _ _ _ => methodName
  | Transfer _ => "Transfer"
  end.

(** The receiver of a built transaction and the methods it calls. *)
Definition tx_shape (tx : Transaction) : string * list string :=
  (receiverId tx, map action_method (tx_actions tx)).

(** The three transactions of a swap by an agent. *)
Definition swap_plan (prediction : TokenAnalyzer.TokenPrediction)
    : list (string * list string) :=
  [ (WRAP_NEAR_CONTRACT, ["near_deposit"]);
    (TokenAnalyzer.selectedToken prediction, ["storage_deposit"]);
    (NEAR_TOKEN, ["ft_transfer_call"]) ].

End SwapLog.

(** ** Regular expressions *)

Module Regex.

(** The regular expressions the validators use: character classes,
    concatenation, alternation and repetition, without anchors; the
    anchors of a pattern are in the way it is tested (below). *)
Inductive regex : Type :=
| Empty
| Eps
| Chr (class : ascii -> bool)
| Seq (r1 r2 : regex)
| Alt (r1 r2 : regex)
| Star (r : regex).

(** The strings a regular expression matches as a whole. *)
Inductive lang : regex -> string -> Prop :=
| lang_eps : lang Eps ""
| lang_chr (class : ascii -> bool) (c : ascii) :
    class c = true -> lang (Chr class) (String c "")
| lang_seq (r1 r2 : regex) (s1 s2 : string) :
    lang r1 s1 -> lang r2 s2 -> lang (Seq r1 r2) (s1 ++ s2)
| lang_alt_l (r1 r2 : regex) (s : string) : lang r1 s -> lang (Alt r1 r2) s
| lang_alt_r (r1 r2 : regex) (s : string) : lang r2 s -> lang (Alt r1 r2) s
| lang_star_nil (r : regex) : lang (Star r) ""
| lang_star_cons (r : regex) (s1 s2 : string) :
    lang r s1 -> lang (Star r) s2 -> lang (Star r) (s1 ++ s2).

Fixpoint nullable (r : regex) : bool :=
  match r with
  | Empty => false
  | Eps => true
  | Chr _ => false
  | Seq r1 r2 => nullable r1 && nullable r2
  | Alt r1 r2 => nullable r1 || nullable r2
  | Star _ => true
  end.

(** What is left to match after the character [c]. *)
Fixpoint deriv (c : ascii) (r : regex) : regex :=
  match r with
  | Empty => Empty
  | Eps => Empty
  | Chr class => if class c then Eps else Empty
  | Seq r1 r2 =>
      if nullable r1 then Alt (Seq (deriv c r1) r2) (deriv c r2)
      else Seq (deriv c r1) r2
  | Alt r1 r2 => Alt (deriv c r1) (deriv c r2)
  | Star r1 => Seq (deriv c r1) (Star r1)
  end.

(** The whole of [s] matches [r]. *)
Fixpoint matches (r : regex) (s : string) : bool :=
  match s with
  | EmptyString => nullable r
  | String c s' => matches (deriv c r) s'
  end.

(** [r+], [r{n}], [r{0,n}], [r{m,n}] and [r{m,}] *)
Definition Plus (r : regex) : regex := Seq r (Star r).

Fixpoint power (r : regex) (n : nat) : regex :=
  match n with
  | O => Eps
  | S n' => Seq r (power r n')
  end.

Fixpoint upto (r : regex) (n : nat) : regex :=
  match n with
  | O => Eps
  | S n' => Alt Eps (Seq r (upto r n'))
  end.

Definition Rep (r : regex) (m n : nat) : regex := Seq (power r m) (upto r (n - m)).

Definition AtLeast (r : regex) (m : nat) : regex := Seq (power r m) (Star r).

Definition any : regex := Chr (fun _ => true).

(** [/^r$/.test(s)], [/^r/.test(s)], [/r$/.test(s)] and [/r/.test(s)] *)
Definition test_whole (r : regex) (s : string) : bool := matches r s.
Definition test_start (r : regex) (s : string) : bool := matches (Seq r (Star any)) s.
Definition test_end (r : regex) (s : string) : bool := matches (Seq (Star any) r) s.
Definition test_within (r : regex) (s : string) : bool :=
  matches (Seq (Star any) (Seq r (Star any))) s.

(** Character classes *)
Definition in_range (lo hi : ascii) (c : ascii) : bool :=
  ((nat_of_ascii lo <=? nat_of_ascii c) && (nat_of_ascii c <=? nat_of_ascii hi))%nat.

Definition one_of (chars : string) (c : ascii) : bool :=
  existsb (Ascii.eqb c) (list_ascii_of_string chars).

(** Every character of the string is in the class. *)
Fixpoint all_in (class : ascii -> bool) (s : string) : bool :=
  match s with
  | EmptyString => true
  | String c s' => class c && all_in class s'
  end.

(** How many characters of the string are in the class. *)
Fixpoint count_in (class : ascii -> bool) (s : string) : nat :=
  match s with
  | EmptyString => O
  | String c s' => ((if class c then 1 else 0) + count_in class s')%nat
  end.

(** Two characters of the class next to each other. *)
Fixpoint has_adjacent (class : ascii -> bool) (s : string) : bool :=
  match s with
  | String c ((String d _) as s') => (class c && class d) || has_adjacent class s'
  | _ => false
  end.

Definition first_in (class : ascii -> bool) (s : string) : bool :=
  match s with
  | String c _ => class c
  | EmptyString => false
  end.

Fixpoint last_in (class : ascii -> bool) (s : string) : bool :=
  match s with
  | EmptyString => false
  | String c EmptyString => class c
  | String _ s' => last_in class s'
  end.

(** Every character class of the expression is within [P]. *)
Fixpoint classes_in (P : ascii -> bool) (r : regex) : Prop :=
  match r with
  | Chr class => forall c, class c = true -> P c = true
  | Seq r1 r2 | Alt r1 r2 => classes_in P r1 /\ classes_in P r2
  | Star r1 => classes_in P r1
  | Empty | Eps => True
  end.

End Regex.

(** ** Account ids (lib/near/utils.ts, lib/agents/near-account-service.ts,
       lib/ai/tools/send-near-tokens.ts) *)

Module AccountIds.
Import Regex.

(** [[0-9a-f]], [[a-z0-9]], [[._-]], [[-_]] and the classes built from
    them. *)
Definition hex (c : ascii) : bool := in_range "0" "9" c || in_range "a" "f" c.
Definition alnum (c : ascii) : bool := in_range "a" "z" c || in_range "0" "9" c.
Definition separator (c : ascii) : bool := one_of "._-" c.
Definition dash (c : ascii) : bool := one_of "-_" c.
Definition dot (c : ascii) : bool := Ascii.eqb c ".".
Definition alnum_or_separator (c : ascii) : bool := alnum c || separator c.
Definition alnum_or_hyphen (c : ascii) : bool := alnum c || Ascii.eqb c "-".
Definition alnum_or_dash (c : ascii) : bool := alnum c || dash c.

(** [s.endsWith(suffix)] *)
Fixpoint endsWith (s suffix : string) : bool :=
  String.eqb s suffix
  || match s with
     | EmptyString => false
     | String _ s' => endsWith s' suffix
     end.

(** [isValidAccountId] of lib/near/utils.ts *)
Definition isValidAccountId (accountId : string) : bool :=
  if String.eqb accountId "" then false
  else if test_whole (power (Chr hex) 64) accountId then true
  else if (String.length accountId <? 2)%nat || (64 <? String.length accountId)%nat
  then false
  else if negb (test_whole (Plus (Chr alnum_or_separator)) accountId) then false
  else if test_start (Chr separator) accountId || test_end (Chr separator) accountId
  then false
  else if test_within (AtLeast (Chr separator) 2) accountId then false
  else true.

(** [isValidAccountId] of lib/agents/near-account-service.ts *)
Definition service_isValidAccountId (accountId : string) : bool :=
  if negb (test_whole (Seq (Chr alnum) (Seq (Rep (Chr alnum_or_hyphen) 0 62) (Chr alnum)))
             accountId)
  then false
  else if JsString.includes accountId "."
  then endsWith accountId ".testnet" || endsWith accountId ".near"
  else (String.length accountId =? 64)%nat && test_whole (Plus (Chr hex)) accountId.

(** The words of a named account: [([a-z0-9]+[-_])*[a-z0-9]+] *)
Definition words : regex :=
  Seq (Star (Seq (Plus (Chr alnum)) (Chr dash))) (Plus (Chr alnum)).

Definition namedAccountRegex : regex := Seq words (Seq (Chr dot) words).

(** [isValidNearAccountId] of lib/ai/tools/send-near-tokens.ts *)
Definition isValidNearAccountId (accountId : string) : bool :=
  if test_whole (power (Chr hex) 64) accountId then true
  else if (String.length accountId <? 2)%nat || (64 <? String.length accountId)%nat
  then false
  else if test_whole namedAccountRegex accountId then true
  else if test_whole (Plus (Chr alnum_or_dash)) accountId
          && (2 <=? String.length accountId)%nat
  then true
  else false.

(** An id a named account can have by the rules the comments state:
    2 to 64 characters, lower-case letters, digits and the separators
    [.], [_] and [-], no separator first or last, no two in a row. *)
Definition well_formed_name (s : string) : bool :=
  (2 <=? String.length s)%nat && (String.length s <=? 64)%nat
  && all_in alnum_or_separator s
  && negb (first_in separator s) && negb (last_in separator s)
  && negb (has_adjacent separator s).

(** 64 lower-case hexadecimal digits. *)
Definition implicit_account (s : string) : bool :=
  (String.length s =? 64)%nat && all_in hex s.

End AccountIds.

(** ** Creating an account for an agent (lib/agents/near-account-service.ts) *)

Module NearAccountService.

Definition MAX_RETRIES : nat := 5.
Definition RETRY_DELAY_MS : nat := 1000.

Record NearAccountResult : Type := mkAccount {
  accountId : string;
  privateKey : string;
  publicKey : string;
  fundedAmount : option string
}.

(** What the faucet answers to one request: [fetch] rejects, or a
    response with its [ok] flag, its status and its text ([Throw] when
    reading the text fails). *)
Inductive FaucetAnswer : Type :=
| FetchRejects (msg : string)
| Response (ok : bool) (status : nat) (text : result string).

(** [fundFromFaucet]: success and rateLimited. *)
Definition fundFromFaucet (answer : FaucetAnswer) : bool * bool :=
  match answer with
  | FetchRejects _ => (false, false)
  | Response true _ _ => (true, false)
  | Response false status (Ok errorText) =>
      if (status =? 429)%nat || JsString.includes errorText "Rate limit"
      then (false, true) else (false, false)
  | Response false _ (Throw _) => (false, false)
  end.

(** What [createNearAccount] does to the outside, in order. *)
Inductive Event : Type :=
| Requested (newAccountId newAccountPublicKey : string)
| Delayed (ms : nat).

(** The loop [for (attempt; attempt < MAX_RETRIES; attempt++)] over the
    answers of the faucet, [faucet n] being the answer to request
    number [n]. *)
Fixpoint attempts (faucet : nat -> FaucetAnswer) (id secret public : string)
    (rounds attempt : nat) : NearAccountResult * list Event :=
  match rounds with
  | O => (mkAccount id secret public (Some "0"), [])
  | S rounds' =>
      if (attempt <? MAX_RETRIES)%nat then
        let request := Requested id public in
        let (success, rateLimited) := fundFromFaucet (faucet attempt) in
        if success then (mkAccount id secret public (Some "200"), [request])
        else if rateLimited then (mkAccount id secret public (Some "0"), [request])
        else
          let pause :=
            if (attempt <? MAX_RETRIES - 1)%nat
            then [Delayed (RETRY_DELAY_MS * 2 ^ attempt)] else [] in
          let (r, events) := attempts faucet id secret public rounds' (S attempt) in
          (r, (request :: pause ++ events)%list)
      else (mkAccount id secret public (Some "0"), [])
  end.

(** [createNearAccount], given the key pair and the account id that
    are drawn at random. *)
Definition createNearAccount (faucet : nat -> FaucetAnswer)
    (id secret public : string) : NearAccountResult * list Event :=
  attempts faucet id secret public MAX_RETRIES 0.

(** The log of [n] requests with the pauses between them, the first
    being request number [from]. *)
Fixpoint requests_with_backoff (id public : string) (from n : nat) : list Event :=
  match n with
  | O => []
  | S O => [Requested id public]
  | S n' =>
      Requested id public :: Delayed (1000 * 2 ^ from)
        :: requests_with_backoff id public (S from) n'
  end.

(** The faucet refuses request [n] without a rate limit. *)
Definition refused (faucet : nat -> FaucetAnswer) (n : nat) : Prop :=
  fundFromFaucet (faucet n) = (false, false).

End NearAccountService.

(** ** Retries of the NEAR AI provider (lib/ai/providers/near.ts,
       lib/ai/providers/near-errors.ts) *)

Module NearAIProvider.

Inductive NearAIErrorCode : Type :=
| api_key_missing | api_key_invalid | endpoint_unavailable | model_not_found
| rate_limit_exceeded | verification_failed | tee_unavailable | invalid_request
| network_error.

(** What a call throws: a [NearAIError] with its code, another truthy
    value, or a falsy one. *)
Inductive Thrown : Type :=
| NearAIError (code : NearAIErrorCode) (message : option string)
| OtherError (message : string)
| FalsyValue.

Inductive outcome (T : Type) : Type :=
| Returned (value : T)
| Throws (error : Thrown).
Arguments Returned {T} value.
Arguments Throws {T} error.

Definition MAX_RETRIES : nat := 3.
Definition INITIAL_RETRY_DELAY : nat := 1000.

(** The errors that are thrown again at once. *)
Definition not_retried (error : Thrown) : bool :=
  match error with
  | NearAIError api_key_invalid _
  | NearAIError api_key_missing _
  | NearAIError invalid_request _ => true
  | _ => false
  end.

Inductive Event : Type :=
| Called (attempt : nat)
| Waited (ms : nat).

(** [lastError || new NearAIError("network_error")] *)
Definition last_or_network_error (lastError : option Thrown) : Thrown :=
  match lastError with
  | Some FalsyValue | None => NearAIError network_error None
  | Some error => error
  end.

(** The loop of [retryWithBackoff], [fn i] being the outcome of call
    number [i]. *)
Fixpoint retry_loop {T : Type} (fn : nat -> outcome T) (retries : nat)
    (rounds i : nat) (lastError : option Thrown) : outcome T * list Event :=
  match rounds with
  | O => (Throws (last_or_network_error lastError), [])
  | S rounds' =>
      if (i <? retries)%nat then
        match fn i with
        | Returned value => (Returned value, [Called i])
        | Throws error =>
            if not_retried error then (Throws error, [Called i])
            else
              let pause :=
                if (i <? retries - 1)%nat
                then [Waited (INITIAL_RETRY_DELAY * 2 ^ i)] else [] in
              let (r, events) := retry_loop fn retries rounds' (S i) (Some error) in
              (r, (Called i :: pause ++ events)%list)
        end
      else (Throws (last_or_network_error lastError), [])
  end.

Definition retryWithBackoff {T : Type} (fn : nat -> outcome T) (retries : nat)
    : outcome T * list Event :=
  retry_loop fn retries retries 0 None.

(** The body of a response that is not ok, as [handleErrorResponse]
    reads it: [response.json()] fails, or gives [null], or gives a
    value whose [message] is a string or is missing. *)
Inductive ErrorBody : Type :=
| UnreadableBody (statusText : string)
| NullBody
| BodyWith (message : option string).

(** [handleErrorResponse]: what it throws for a response that is not
    ok.  Reading [errorData.message] of [null] is a TypeError. *)
Definition handleErrorResponse (status : nat) (body : ErrorBody) : Thrown :=
  match (match body with
         | UnreadableBody statusText => Some (Some statusText)
         | NullBody => None
         | BodyWith message => Some message
         end) with
  | None => OtherError "TypeError"
  | Some message =>
      if (status =? 401)%nat then NearAIError api_key_invalid message
      else if (status =? 404)%nat then NearAIError model_not_found message
      else if (status =? 429)%nat then NearAIError rate_limit_exceeded message
      else if (status =? 503)%nat then NearAIError endpoint_unavailable message
      else
        NearAIError network_error
          (Some (RefFinance.string_or message
                   ("HTTP " ++ JsNumber.string_of_N (N.of_nat status))))
  end.

(** What the service answers to one request: [fetch] rejects, or a
    response that is not ok, or an ok response whose body is read and
    mapped to the result ([Throw] when that fails). *)
Inductive Answer (T : Type) : Type :=
| FetchRejects
| NotOk (status : nat) (body : ErrorBody)
| OkResponse (data : result T).
Arguments FetchRejects {T}.
Arguments NotOk {T} status body.
Arguments OkResponse {T} data.

(** The function that [chat] and [listModels] (with [wrap] =
    network_error) and [verifyResponse] (with [wrap] =
    verification_failed) hand to [retryWithBackoff]: a [NearAIError] is
    thrown on, anything else is wrapped. *)
Definition request {T : Type} (wrap : NearAIErrorCode) (answer : Answer T)
    : outcome T :=
  match answer with
  | FetchRejects => Throws (NearAIError wrap None)
  | NotOk status body =>
      match handleErrorResponse status body with
      | NearAIError code message => Throws (NearAIError code message)
      | _ => Throws (NearAIError wrap None)
      end
  | OkResponse (Ok value) => Returned value
  | OkResponse (Throw _) => Throws (NearAIError wrap None)
  end.

(** The response that says the API key is wrong. *)
Definition unauthorized {T : Type} (answer : Answer T) : bool :=
  match answer with
  | NotOk status (UnreadableBody _ | BodyWith _) => (status =? 401)%nat
  | _ => false
  end.

(** The log of [n] calls with the pauses between them, the first being
    call number [from]. *)
Fixpoint calls_with_backoff (from n : nat) : list Event :=
  match n with
  | O => []
  | S O => [Called from]
  | S n' => Called from :: Waited (1000 * 2 ^ from) :: calls_with_backoff (S from) n'
  end.

End NearAIProvider.

(** ** Rows of the ledger over time *)

Module LedgerHistory.
Import TaskHistory.

(** Every key in use is below the key the next insert draws. *)
Definition keys_below_next (d : Db) : Prop :=
  forall i t, rows d !! i = Some t -> (i < next_id d)%positive.

(** The columns of a row that [updateTask] does not write. *)
Definition same_identity (t t' : AgentTaskHistory) : Prop :=
  id t' = id t
  /\ agentId t' = agentId t
  /\ taskType t' = taskType t
  /\ taskDescription t' = taskDescription t
  /\ taskInput t' = taskInput t
  /\ startedAt t' = startedAt t
  /\ createdAt t' = createdAt t.

End LedgerHistory.

(** ** Reading the transactions of a swap *)

Module SwapAmounts.
Import RefFinance.

(** The amounts an action hands to the exchange: the amount of an
    ft_transfer_call and, for each swap action of its message, the
    amount in and the minimum amount out. *)
Definition action_amounts (action : Action) : list string :=
  match action with
  | FunctionCall _ (FtTransferCallArgs _ amount msg) _ _ =>
      amount :: flat_map (fun a => [amount_in a; min_amount_out a]) (actions msg)
  | _ => []
  end.

Definition transaction_amounts (tx : Transaction) : list string :=
  flat_map action_amounts (tx_actions tx).

(** The deposits attached by the actions of a transaction. *)
Definition action_deposit (action : Action) : string :=
  match action with
  | FunctionCall _ _ _ deposit => deposit
  | Transfer deposit => deposit
  end.

Definition transaction_deposits (tx : Transaction) : list string :=
  map action_deposit (tx_actions tx).

End SwapAmounts.

(** ** What a run of the orchestrator keeps true *)

Module AgentRun.
Import TaskHistory AgentExecutor.

(** A row of the ledger is settled: its status is completed or failed
    and its completion time is set. *)
Definition settled (t : AgentTaskHistory) : Prop :=
  is_terminal (status t) = true /\ is_Some (completedAt t).

(** The state of a run for agent [a] started on the ledger [d0], after
    [n] tasks were started: the ids pushed are distinct keys below the
    next key, each has a row of the agent, which is settled unless it
    is the task [cur] under way, which is running; no other row has
    changed. *)
Definition run_invariant (a : string) (d0 : Db) (n : nat)
    (cur : option positive) (st : State) : Prop :=
  length (ids st) = n
  /\ NoDup (ids st)
  /\ (forall i, In i (ids st) -> (i < next_id (db st))%positive)
  /\ (forall i, cur = Some i -> In i (ids st))
  /\ (forall i, In i (ids st) ->
        exists t, rows (db st) !! i = Some t
                  /\ agentId t = a
                  /\ ((cur = Some i /\ status t = running)
                      \/ (cur <> Some i /\ settled t)))
  /\ (forall j, ~ In j (ids st) -> rows (db st) !! j = rows d0 !! j).

End AgentRun.

(** ** Balances and swap parameters (lib/ref-finance/utils.ts,
       lib/ref-finance/tokens.ts, lib/near/utils.ts) *)

Module RefFinanceUtils.
Import RefFinance.

(** [hasSufficientBalance] of lib/near/utils.ts: a string that is not
    an integer literal makes [BigInt] throw. *)
Definition near_hasSufficientBalance (balance amount gasReserve : string)
    : result bool :=
  let* balanceBigInt := JsBigInt.BigInt balance in
  let* amountBigInt := JsBigInt.BigInt amount in
  let* reserveBigInt := JsBigInt.BigInt gasReserve in
  Ok (amountBigInt + reserveBigInt <=? balanceBigInt).

(** [hasSufficientBalance] of lib/ref-finance/utils.ts: the same
    comparison inside [try], [false] in [catch]. *)
Definition hasSufficientBalance (balance amount gasReserve : string) : bool :=
  match (let* balanceBigInt := JsBigInt.BigInt balance in
         let* amountBigInt := JsBigInt.BigInt amount in
         let* reserveBigInt := JsBigInt.BigInt gasReserve in
         Ok (amountBigInt + reserveBigInt <=? balanceBigInt)) with
  | Ok sufficient => sufficient
  | Throw _ => false
  end.

Record TokenMetadata : Type := mkToken {
  id : string;
  symbol : string;
  decimals : N
}.

(** The registry [TOKENS], the keys of a network in the order they are
    written. *)
Definition TOKENS (network : Network) : list (string * TokenMetadata) :=
  match network with
  | testnet =>
      [("NEAR", mkToken "wrap.testnet" "NEAR" 24);
       ("WNEAR", mkToken "wrap.testnet" "wNEAR" 24);
       ("USDT", mkToken "usdt.fakes.testnet" "USDT" 6);
       ("USDC", mkToken "usdc.fakes.testnet" "USDC" 6)]
  | mainnet =>
      [("NEAR", mkToken "wrap.near" "NEAR" 24);
       ("WNEAR", mkToken "wrap.near" "wNEAR" 24);
       ("USDT", mkToken "usdt.tether-token.near" "USDT" 6);
       ("USDC",
        mkToken "17208628f84f5d6ad33f0da3bbbeb27ffcb398eac501a31bd6ad2011e36133a1"
          "USDC" 6)]
  end.

(** [object[key]] on the keys written in the object.  The inherited
    properties of an object all have a lower-case letter in their
    name, so an upper-cased key reaches none of them. *)
Fixpoint own_property {V : Type} (object : list (string * V)) (key : string)
    : option V :=
  match object with
  | [] => None
  | (k, v) :: rest => if String.eqb k key then Some v else own_property rest key
  end.

Definition getTokenMetadata (symbol : string) (network : Network)
    : option TokenMetadata :=
  let upperSymbol := JsString.toUpperCase symbol in
  own_property (TOKENS network) upperSymbol.

Definition getSupportedTokens (network : Network) : list string :=
  map fst (TOKENS network).

(** [upperSymbol in TOKENS[network]] *)
Definition isTokenSupported (symbol : string) (network : Network) : bool :=
  let upperSymbol := JsString.toUpperCase symbol in
  match own_property (TOKENS network) upperSymbol with
  | Some _ => true
  | None => false
  end.

Definition lookupToken (symbol : string) (network : Network)
    : option TokenMetadata :=
  getTokenMetadata symbol network.

(** [array.join(separator)] on strings *)
Fixpoint join (separator : string) (l : list string) : string :=
  match l with
  | [] => ""
  | [x] => x
  | x :: rest => x ++ separator ++ join separator rest
  end.

Definition getSupportedTokensList (network : Network) : string :=
  join ", " (getSupportedTokens network).

(** The double quote character *)
Definition dquote : string := String (ascii_of_nat 34) "".

Record Validation : Type := mkValidation {
  valid : bool;
  error : option string
}.

Definition validateSwapParams (fromToken toToken amount : string)
    (network : Network) : Validation :=
  if negb (isTokenSupported fromToken network) then
    mkValidation false
      (Some ("Token " ++ dquote ++ fromToken ++ dquote
             ++ " is not supported. Supported tokens: "
             ++ getSupportedTokensList network))
  else if negb (isTokenSupported toToken network) then
    mkValidation false
      (Some ("Token " ++ dquote ++ toToken ++ dquote
             ++ " is not supported. Supported tokens: "
             ++ getSupportedTokensList network))
  else if String.eqb (JsString.toUpperCase fromToken) (JsString.toUpperCase toToken)
  then mkValidation false (Some "Cannot swap a token to itself")
  else
    let amountNum := JsNumber.parseFloat amount in
    if JsNumber.isNaN amountNum || negb (JsNumber.gt0 amountNum) then
      mkValidation false
        (Some ("Invalid amount: " ++ dquote ++ amount ++ dquote
               ++ ". Amount must be a positive number."))
    else mkValidation true None.

End RefFinanceUtils.

(** ** The agents table (lib/agents/agent-service.ts, lib/db/schema.ts) *)

Module AgentService.

Inductive AgentStatus : Type := active | paused | deleted.

Definition AgentStatus_eqb (a b : AgentStatus) : bool :=
  match a, b with
  | active, active | paused, paused | deleted, deleted => true
  | _, _ => false
  end.

(** A row of the table [Agent]; a column that may be null is an
    [option]. *)
Record Agent : Type := mkAgent {
  id : positive;
  userId : string;
  name : string;
  description : option string;
  accountId : string;
  publicKey : string;
  encryptedPrivateKey : string;
  balance : option string;
  status : AgentStatus;
  sessionId : option string;
  createdAt : nat;
  updatedAt : nat
}.

Record CreateAgentData : Type := mkCreate {
  c_name : string;
  c_description : option string
}.

(** A field that is [None] is [undefined]: [set] leaves its column as
    it is. *)
Record UpdateAgentData : Type := mkUpdate {
  u_name : option string;
  u_description : option string;
  u_status : option AgentStatus;
  u_balance : option string
}.

(** The table: the rows by primary key and the key the next insert
    draws ([defaultRandom], taken never to repeat a key). *)
Record Db : Type := mkDb {
  rows : gmap positive Agent;
  next_id : positive
}.

(** What the database does with a statement: it runs it, or it raises
    an error (a constraint of the schema is violated, the connection
    is lost) and changes nothing. *)
Inductive Verdict : Type :=
| Runs
| Raises (msg : string).

(** [createAgent], [encrypted] being what [encryptPrivateKey] gives
    for the private key and [now] the time of the insert. *)
Definition createAgent (verdict : Verdict) (now : nat) (encrypted : result string)
    (userId accountId publicKey : string) (data : CreateAgentData) (db : Db)
    : result Agent * Db :=
  match encrypted with
  | Throw msg => (Throw msg, db)
  | Ok encryptedPrivateKey =>
      match verdict with
      | Raises msg => (Throw msg, db)
      | Runs =>
          let i := next_id db in
          let newAgent := {|
            id := i;
            userId := userId;
            name := c_name data;
            description := c_description data;
            accountId := accountId;
            publicKey := publicKey;
            encryptedPrivateKey := encryptedPrivateKey;
            balance := Some "0";
            status := active;
            sessionId := None;
            createdAt := now;
            updatedAt := now
          |} in
          (Ok newAgent, mkDb (<[i := newAgent]> (rows db)) (Pos.succ i))
      end
  end.

(** [orderBy(agent.createdAt)]: the order of rows created at the same
    time is the database's. *)
Definition by_createdAt (a b : Agent) : option comparison :=
  Some (Nat.compare (createdAt a) (createdAt b)).

Definition select_where (keep : Agent -> bool) (db : Db) : list Agent :=
  js_sort by_createdAt (List.filter keep (map snd (map_to_list (rows db)))).

Definition listAgents (verdict : Verdict) (user : string) (db : Db)
    : result (list Agent) :=
  match verdict with
  | Raises msg => Throw msg
  | Runs =>
      Ok (select_where
            (fun a => String.eqb (userId a) user && AgentStatus_eqb (status a) active)
            db)
  end.

Definition getAgent (verdict : Verdict) (agentId : positive) (user : string)
    (db : Db) : result (option Agent) :=
  match verdict with
  | Raises msg => Throw msg
  | Runs =>
      match rows db !! agentId with
      | Some a => if String.eqb (userId a) user then Ok (Some a) else Ok None
      | None => Ok None
      end
  end.

(** [getAgentWithPrivateKey]: the agent and its decrypted key. *)
Definition getAgentWithPrivateKey (decryptPrivateKey : string -> result string)
    (verdict : Verdict) (agentId : positive) (user : string) (db : Db)
    : result (option (Agent * string)) :=
  let* foundAgent := getAgent verdict agentId user db in
  match foundAgent with
  | None => Ok None
  | Some a =>
      let* decryptedPrivateKey := decryptPrivateKey (encryptedPrivateKey a) in
      Ok (Some (a, decryptedPrivateKey))
  end.

(** The columns [set({...data, updatedAt: new Date()})] writes. *)
Definition set_columns (data : UpdateAgentData) (now : nat) (a : Agent) : Agent :=
  {|
    id := id a;
    userId := userId a;
    name := match u_name data with Some v => v | None => name a end;
    description :=
      match u_description data with Some v => Some v | None => description a end;
    accountId := accountId a;
    publicKey := publicKey a;
    encryptedPrivateKey := encryptedPrivateKey a;
    balance := match u_balance data with Some v => Some v | None => balance a end;
    status := match u_status data with Some v => v | None => status a end;
    sessionId := sessionId a;
    createdAt := createdAt a;
    updatedAt := now
  |}.

Definition updateAgent (verdict : Verdict) (now : nat) (agentId : positive)
    (user : string) (data : UpdateAgentData) (db : Db)
    : result (option Agent) * Db :=
  match verdict with
  | Raises msg => (Throw msg, db)
  | Runs =>
      match rows db !! agentId with
      | Some a =>
          if String.eqb (userId a) user then
            let updatedAgent := set_columns data now a in
            (Ok (Some updatedAgent),
             mkDb (<[agentId := updatedAgent]> (rows db)) (next_id db))
          else (Ok None, db)
      | None => (Ok None, db)
      end
  end.

Definition deleteAgent (verdict : Verdict) (now : nat) (agentId : positive)
    (user : string) (db : Db) : result bool * Db :=
  let (r, db') :=
    updateAgent verdict now agentId user (mkUpdate None None (Some deleted) None) db in
  (match r with
   | Ok (Some _) => Ok true
   | Ok None => Ok false
   | Throw msg => Throw msg
   end, db').

Definition getAllActiveAgents (verdict : Verdict) (db : Db) : result (list Agent) :=
  match verdict with
  | Raises msg => Throw msg
  | Runs => Ok (select_where (fun a => AgentStatus_eqb (status a) active) db)
  end.

(** The calls one user makes that write to the table. *)
Inductive Op : Type :=
| OpCreate (verdict : Verdict) (now : nat) (encrypted : result string)
    (accountId publicKey : string) (data : CreateAgentData)
| OpUpdate (verdict : Verdict) (now : nat) (agentId : positive)
    (data : UpdateAgentData)
| OpDelete (verdict : Verdict) (now : nat) (agentId : positive).

Definition run_op (user : string) (db : Db) (op : Op) : Db :=
  match op with
  | OpCreate verdict now encrypted accountId publicKey data =>
      snd (createAgent verdict now encrypted user accountId publicKey data db)
  | OpUpdate verdict now agentId data =>
      snd (updateAgent verdict now agentId user data db)
  | OpDelete verdict now agentId => snd (deleteAgent verdict now agentId user db)
  end.

Definition run_ops (user : string) (ops : list Op) (db : Db) : Db :=
  fold_left (run_op user) ops db.

(** Every key in use is below the key the next insert draws, and a row
    carries its key. *)
Definition keyed (db : Db) : Prop :=
  forall i a, rows db !! i = Some a -> (i < next_id db)%positive /\ id a = i.

(** The columns that deleting an agent leaves as they are. *)
Definition same_but_status (a a' : Agent) : Prop :=
  id a' = id a /\ userId a' = userId a /\ name a' = name a
  /\ description a' = description a /\ accountId a' = accountId a
  /\ publicKey a' = publicKey a
  /\ encryptedPrivateKey a' = encryptedPrivateKey a
  /\ balance a' = balance a /\ sessionId a' = sessionId a
  /\ createdAt a' = createdAt a.

End AgentService.

(** ** More sample inputs *)

Module SampleExtras.

(** A table with one agent, owned by bob. *)
Definition bobs_table : AgentService.Db :=
  snd (AgentService.createAgent AgentService.Runs 0 (Ok "00ff:a1b2")
         "bob" "agent-1a2b3c4d-1700000000000.testnet" "ed25519:BobKey"
         (AgentService.mkCreate "saver" None)
         (AgentService.mkDb ∅ 1%positive)).

(** What alice does: she creates an agent and tries to rename and to
    delete the agent of bob. *)
Definition alices_calls : list AgentService.Op :=
  [AgentService.OpCreate AgentService.Runs 1 (Ok "00ee:c3d4")
     "agent-5e6f7a8b-1700000000001.testnet" "ed25519:AliceKey"
     (AgentService.mkCreate "trader" (Some "Swap NEAR for the best token"));
   AgentService.OpUpdate AgentService.Runs 2 1%positive
     (AgentService.mkUpdate (Some "mine") None None None);
   AgentService.OpDelete AgentService.Runs 3 1%positive].

(** A service that is rate limited twice and then answers. *)
Definition slow_service (i : nat) : NearAIProvider.Answer string :=
  if (i <? 2)%nat
  then NearAIProvider.NotOk 429 (NearAIProvider.BodyWith (Some "slow down"))
  else NearAIProvider.OkResponse (Ok "pong").

(** What the keyword fallback answers for a goal that mentions bitcoin
    on the built-in list. *)
Definition btc_prediction : TokenAnalyzer.TokenPrediction :=
  TokenAnalyzer.mkPrediction "wbtc.fakes.testnet" "WBTC"
    (JStr "Selected WBTC based on user mention of BTC/Bitcoin. This is a fallback selection due to AI analysis error.")
    (Some (JNum TokenAnalyzer.half)) "101700".

(** Every call succeeds and the storage deposit is final at the first
    poll; the status of the swap transaction is never a success. *)
Definition swap_pending_world : SwapExecutor.World :=
  SwapExecutor.mkWorld SampleChain.chain (Ok tt)
    (fun _ => Some "500000000000000000000000")
    (fun n _ _ => Ok (SampleSwap.hash_of n))
    (Ok "500000000000000000000000")
    (fun i _ => match i with
                | O => SwapExecutor.SuccessValue
                | S _ => SwapExecutor.OtherStatus
                end).

Definition swap_calls : list SwapExecutor.NearCall :=
  [SwapExecutor.mkNearCall "ft_transfer_call"
     (RefFinance.FtTransferCallArgs "ref-finance-101.testnet" "500000000000000000000000"
        (RefFinance.mkSwapMsg 0 None
           [RefFinance.mkSwapAction 1 "wrap.testnet" "wbtc.fakes.testnet"
              "500000000000000000000000" "12221"]))
     180000000000000 1].

(** The swap of 10^21 yocto wNEAR, asked for as 1e+21. *)
Definition swap_tx_1e21 : RefFinance.Transaction :=
  RefFinance.mkTransaction "wrap.testnet"
    [RefFinance.FunctionCall "ft_transfer_call"
       (RefFinance.FtTransferCallArgs "ref-finance-101.testnet" "1000000000000000000000"
          (RefFinance.mkSwapMsg 0 None
             [RefFinance.mkSwapAction 1 "wrap.testnet" "wbtc.fakes.testnet"
                "1000000000000000000000" "12221"]))
       "180000000000000" "1"].

(** No exchange contract lists any pool. *)
Definition empty_chain : RefFinance.Chain :=
  fun _ => RefFinance.registry_dex [] false (fun _ => false) SampleChain.quote.

Definition no_pool_world : SwapExecutor.World :=
  SwapExecutor.mkWorld empty_chain (Ok tt)
    (fun _ => Some "500000000000000000000000")
    (fun n _ _ => Ok (SampleSwap.hash_of n))
    (Ok "500000000000000000000000")
    (fun _ _ => SwapExecutor.SuccessValue).

(** The indexer lists wNEAR, a token with a pool and a token without. *)
Definition live_env : TokenAnalyzer.Env :=
  TokenAnalyzer.mkEnv
    (TokenAnalyzer.Body
       [ ("wrap.testnet",
          Some (TokenAnalyzer.mkInfo (Some "wNEAR") (Some "2.5")
                  (Some (TaskPlanner.nat_number 24))));
         ("wbtc.fakes.testnet",
          Some (TokenAnalyzer.mkInfo (Some "WBTC") (Some "101700")
                  (Some (TaskPlanner.nat_number 8))));
         ("aurora.fakes.testnet",
          Some (TokenAnalyzer.mkInfo None (Some "0.07") None)) ])
    SampleChain.chain (Ok []).

Definition wbtc_token : TokenAnalyzer.TokenInfo :=
  TokenAnalyzer.mkToken "wbtc.fakes.testnet" "WBTC" "101700" (TaskPlanner.nat_number 8).

(** The agent of the sample run, paused by its owner. *)
Definition paused_world : AgentExecutor.World :=
  AgentExecutor.mkWorld
    (Ok (Some (AgentExecutor.mkAgent "agent.testnet" (Some "Swap 0.5 NEAR for bitcoin")
                 "paused" "ed25519:secret")))
    (Ok "10")
    (TaskPlanner.ReplyThrows "model unavailable")
    SampleCatalog.env
    (TokenAnalyzer.PredictThrows "model unavailable")
    SampleSwap.stuck_world.

(** The language model and the indexer are down and the bundled
    dataset lists no token. *)
Definition empty_catalog_world : AgentExecutor.World :=
  AgentExecutor.mkWorld (Ok (Some SampleRun.agent)) (Ok "10")
    (TaskPlanner.ReplyThrows "model unavailable")
    SampleCatalog.env_empty_file
    (TokenAnalyzer.PredictThrows "model unavailable")
    SampleSwap.stuck_world.

End SampleExtras.

(* ===================================================================== *)
(** * Part II: the properties                                            *)
(* ===================================================================== *)

(** ** The task history ledger *)

Section LedgerFacts.

Import TaskHistory.

Lemma pending_consistent (t : AgentTaskHistory) :
  status t = pending -> completedAt t = None -> completion_consistent t.
Proof.
  intros Hs Hc. unfold completion_consistent. rewrite Hs, Hc. split.
  - intros [x Hx]. discriminate.
  - intros [H | H]; discriminate.
Qed.

Lemma apply_update_consistent (data : UpdateTaskData) (now : Date)
    (t : AgentTaskHistory) :
  u_completedAt data = None ->
  completion_consistent (apply_update data now t).
Proof.
  intros Hc. unfold completion_consistent, apply_update. simpl. rewrite Hc.
  destruct (u_status data); simpl; split.
  all: try (intros [x Hx]; discriminate).
  all: try (intros [H | H]; discriminate).
  all: try (intros _; eauto).
Qed.

Lemma createTask_row (data : CreateTaskData) (d : Db) :
  rows (snd (createTask data d)) !! id (fst (createTask data d))
  = Some (fst (createTask data d)).
Proof. unfold createTask. simpl. apply lookup_insert_eq. Qed.

Lemma createTask_consistent (data : CreateTaskData) (d : Db) :
  db_consistent d -> db_consistent (snd (createTask data d)).
Proof.
  intros Hd i t. unfold createTask. simpl.
  rewrite lookup_insert. case_decide as Hi.
  - intros Ht. injection Ht as <-. now apply pending_consistent.
  - apply Hd.
Qed.

Lemma updateTask_consistent (taskId : positive) (data : UpdateTaskData) (d : Db) :
  u_completedAt data = None ->
  db_consistent d -> db_consistent (snd (updateTask taskId data d)).
Proof.
  intros Hc Hd i t. unfold updateTask.
  destruct (rows d !! taskId) as [t0 |] eqn:Hrow; simpl.
  - rewrite lookup_insert. case_decide as Hi.
    + intros Ht. injection Ht as <-. now apply apply_update_consistent.
    + apply Hd.
  - apply Hd.
Qed.

Lemma run_ops_consistent (ops : list Op) :
  forall d, Forall op_plain ops -> db_consistent d ->
            db_consistent (run_ops ops d).
Proof.
  induction ops as [| op ops IH]; intros d Hops Hd; simpl.
  - exact Hd.
  - inversion Hops as [| ? ? Hop Hrest]; subst.
    apply IH; [assumption |].
    destruct op as [data | taskId data]; simpl.
    + now apply createTask_consistent.
    + now apply updateTask_consistent.
Qed.

Lemma empty_db_consistent : db_consistent empty_db.
Proof. intros i t. unfold empty_db. simpl. rewrite lookup_empty. discriminate. Qed.

(** C9. A record made by [createTask] is pending with no completion
    time and is the row stored under its id; the record [updateTask]
    returns, when the caller supplies no completion time, has a
    completion time if and only if its status is completed or failed;
    and after any sequence of such calls on the empty ledger every row
    has a completion time if and only if its status is completed or
    failed. *)
Theorem ledger_completedAt_iff_terminal :
  (forall data d,
      let task := fst (createTask data d) in
      status task = pending /\ completedAt task = None
      /\ rows (snd (createTask data d)) !! id task = Some task)
  /\ (forall taskId data d t,
         u_completedAt data = None ->
         fst (updateTask taskId data d) = Some t ->
         (is_Some (completedAt t) <-> (status t = completed \/ status t = failed))
         /\ status t = u_status data
         /\ rows (snd (updateTask taskId data d)) !! taskId = Some t)
  /\ (forall ops i t,
         Forall op_plain ops ->
         rows (run_ops ops empty_db) !! i = Some t ->
         (is_Some (completedAt t) <-> (status t = completed \/ status t = failed))).
Proof.
  split; [| split].
  - intros data d task. repeat split. apply createTask_row.
  - intros taskId data d t Hc. unfold updateTask.
    destruct (rows d !! taskId) as [t0 |] eqn:Hrow; simpl; [| discriminate].
    intros Ht. injection Ht as <-. split; [| split].
    + now apply apply_update_consistent.
    + reflexivity.
    + apply lookup_insert_eq.
  - intros ops i t Hops Hrow.
    exact (run_ops_consistent ops empty_db Hops empty_db_consistent i t Hrow).
Qed.

Lemma ledger_completedAt_iff_terminal_witness :
  Forall op_plain Samples.sample_ops
  /\ rows (run_ops Samples.sample_ops empty_db) !! 1%positive = Some Samples.sample_row
  /\ (is_Some (completedAt Samples.sample_row)
      <-> (status Samples.sample_row = completed \/ status Samples.sample_row = failed)).
Proof.
  assert (Hops : Forall op_plain Samples.sample_ops) by (repeat constructor).
  assert (Hrow : rows (run_ops Samples.sample_ops empty_db) !! 1%positive = Some Samples.sample_row)
    by (vm_compute; reflexivity).
  split; [exact Hops | split; [exact Hrow |]].
  exact (proj2 (proj2 ledger_completedAt_iff_terminal) Samples.sample_ops 1%positive
           Samples.sample_row Hops Hrow).
Defined.

End LedgerFacts.

(** ** Strings of digits *)

Section DigitFacts.

Import JsString.

Lemma is_digit_cases (c : ascii) :
  is_digit c = true ->
  In c ["0"; "1"; "2"; "3"; "4"; "5"; "6"; "7"; "8"; "9"]%char.
Proof.
  destruct c as [[] [] [] [] [] [] [] []]; intros H;
    try discriminate H; simpl; tauto.
Qed.

Lemma digit_not_space (c : ascii) : is_digit c = true -> is_space c = false.
Proof.
  intros H. apply is_digit_cases in H. simpl in H.
  repeat (destruct H as [<- | H]; [reflexivity |]). contradiction.
Qed.

Lemma digit_not_marker (c : ascii) :
  is_digit c = true -> (Ascii.eqb c "e" || Ascii.eqb c "E") = false.
Proof.
  intros H. apply is_digit_cases in H. simpl in H.
  repeat (destruct H as [<- | H]; [reflexivity |]). contradiction.
Qed.

Lemma digit_not_sign (c : ascii) :
  is_digit c = true -> Ascii.eqb c "-" = false /\ Ascii.eqb c "+" = false.
Proof.
  intros H. apply is_digit_cases in H. simpl in H.
  repeat (destruct H as [<- | H]; [split; reflexivity |]). contradiction.
Qed.

Lemma digit_not_radix_mark (c : ascii) :
  is_digit c = true ->
  (Ascii.eqb c "x" || Ascii.eqb c "X") = false
  /\ (Ascii.eqb c "o" || Ascii.eqb c "O") = false
  /\ (Ascii.eqb c "b" || Ascii.eqb c "B") = false.
Proof.
  intros H. apply is_digit_cases in H. simpl in H.
  repeat (destruct H as [<- | H]; [repeat split; reflexivity |]). contradiction.
Qed.

Lemma all_digits_uint (d : Decimal.uint) :
  all_digits (NilEmpty.string_of_uint d) = true.
Proof. induction d; simpl; auto. Qed.

Lemma all_digits_string_of_N (n : N) :
  all_digits (JsNumber.string_of_N n) = true.
Proof.
  unfold JsNumber.string_of_N, NilZero.string_of_uint.
  destruct (N.to_uint n); try apply all_digits_uint. reflexivity.
Qed.

Lemma string_of_N_not_empty (n : N) : JsNumber.string_of_N n <> "".
Proof.
  unfold JsNumber.string_of_N, NilZero.string_of_uint.
  destruct (N.to_uint n); simpl; discriminate.
Qed.

Lemma all_digits_no_marker (s : string) :
  all_digits s = true -> test_e_i s = false.
Proof.
  induction s as [| c s IH]; simpl; [reflexivity |].
  intros H. apply andb_true_iff in H as [Hc Hs].
  rewrite (digit_not_marker c Hc). auto.
Qed.

(** No white-space character starts with a byte below 194 that is not
    itself white space. *)
Lemma trimStart_keeps (c : ascii) (s : string) :
  is_space c = false -> (nat_of_ascii c < 194)%nat ->
  trimStart (String c s) = String c s.
Proof.
  intros Hc Hlt. cbn [trimStart]. rewrite Hc.
  assert (H2 : forall c2, wide_space2 c c2 = false).
  { intros c2. unfold wide_space2.
    replace (nat_of_ascii c =? 194)%nat with false
      by (symmetry; apply Nat.eqb_neq; lia). reflexivity. }
  assert (H3 : forall c2 c3, wide_space3 c c2 c3 = false).
  { intros c2 c3. unfold wide_space3. cbv zeta.
    replace (nat_of_ascii c =? 225)%nat with false
      by (symmetry; apply Nat.eqb_neq; lia).
    replace (nat_of_ascii c =? 226)%nat with false
      by (symmetry; apply Nat.eqb_neq; lia).
    replace (nat_of_ascii c =? 227)%nat with false
      by (symmetry; apply Nat.eqb_neq; lia).
    replace (nat_of_ascii c =? 239)%nat with false
      by (symmetry; apply Nat.eqb_neq; lia).
    reflexivity. }
  destruct s as [| c2 [| c3 r]]; [reflexivity | now rewrite H2 |].
  now rewrite H2, H3.
Qed.

Lemma digit_below_lead (c : ascii) : is_digit c = true -> (nat_of_ascii c < 194)%nat.
Proof.
  intros H. apply is_digit_cases in H. simpl in H.
  repeat (destruct H as [<- | H]; [apply Nat.ltb_lt; reflexivity |]). contradiction.
Qed.

Lemma trimStart_digit (c : ascii) (s : string) :
  is_digit c = true -> trimStart (String c s) = String c s.
Proof.
  intros Hc. apply trimStart_keeps; [now apply digit_not_space | now apply digit_below_lead].
Qed.

Lemma trimStart_digits (s : string) : all_digits s = true -> trimStart s = s.
Proof.
  destruct s as [| c s]; [reflexivity |]. cbn [all_digits].
  intros H. apply andb_true_iff in H as [Hc _]. now apply trimStart_digit.
Qed.

Lemma trimEnd_digits (s : string) : all_digits s = true -> trimEnd s = s.
Proof.
  induction s as [| c s IH]; [reflexivity |]. cbn [all_digits].
  intros H. apply andb_true_iff in H as [Hc Hs].
  cbn [trimEnd]. rewrite (trimStart_digit c s Hc). cbn [String.eqb].
  now rewrite (IH Hs).
Qed.

Lemma trim_digits (s : string) : all_digits s = true -> trim s = s.
Proof.
  intros H. unfold trim. rewrite (trimStart_digits s H). now apply trimEnd_digits.
Qed.

Lemma test_e_i_app (a b : string) :
  test_e_i (a ++ b) = test_e_i a || test_e_i b.
Proof.
  induction a as [| c a IH]; simpl; [reflexivity |].
  destruct (Ascii.eqb c "e" || Ascii.eqb c "E"); [reflexivity | exact IH].
Qed.

End DigitFacts.

(** ** BigInt arithmetic on decimal strings *)

Section BigIntFacts.

Import JsBigInt.

Lemma decimal_digits_string_of_N (n : N) :
  decimal_digits (JsNumber.string_of_N n) = Some (Z.of_N n).
Proof.
  unfold decimal_digits.
  destruct (JsNumber.string_of_N n) eqn:Hs.
  - now apply string_of_N_not_empty in Hs.
  - rewrite <- Hs. unfold JsNumber.string_of_N, NilZero.string_of_uint.
    assert (Hn : N.to_uint n <> Decimal.Nil).
    { destruct n as [| p]; simpl; [discriminate |].
      intros Hp. pose proof (DecimalPos.Unsigned.to_uint_nonnil p). contradiction. }
    destruct (N.to_uint n) eqn:Hd; try contradiction;
      rewrite <- Hd, NilEmpty.usu; simpl;
      f_equal; unfold Z.of_uint; f_equal;
      change (Pos.of_uint (N.to_uint n)) with (N.of_uint (N.to_uint n));
      apply DecimalN.Unsigned.of_to.
Qed.

Lemma BigInt_string_of_N (n : N) :
  BigInt (JsNumber.string_of_N n) = Ok (Z.of_N n).
Proof.
  unfold BigInt, StringToBigInt.
  rewrite (trim_digits _ (all_digits_string_of_N n)).
  pose proof (decimal_digits_string_of_N n) as Hd.
  pose proof (all_digits_string_of_N n) as Ha.
  destruct (JsNumber.string_of_N n) as [| c r] eqn:Hs.
  - now apply string_of_N_not_empty in Hs.
  - simpl in Ha. apply andb_true_iff in Ha as [Hc Hr].
    destruct (digit_not_sign c Hc) as [-> ->].
    assert (Hp : radix_prefix (String c r) = None).
    { unfold radix_prefix. destruct r as [| c1 r']; [reflexivity |].
      simpl in Hr. apply andb_true_iff in Hr as [Hc1 _].
      destruct (digit_not_radix_mark c1 Hc1) as (-> & -> & ->).
      now destruct (Ascii.eqb c "0"). }
    rewrite Hp, Hd. reflexivity.
Qed.

Lemma toString_of_N (n : N) : toString (Z.of_N n) = JsNumber.string_of_N n.
Proof. destruct n; reflexivity. Qed.

(** On non-negative values the truncating division of BigInt is the
    floor. *)
Lemma div_floor (x y : Z) : 0 <= x -> 0 < y -> div x y = x / y.
Proof. intros Hx Hy. unfold div. apply Z.quot_div_nonneg; lia. Qed.

End BigIntFacts.

(** ** The swap estimate *)

Section EstimateFacts.

Import RefFinance.

Lemma minimum_of_expected (n : N) :
  JsBigInt.toString (JsBigInt.div (Z.of_N n * 99) 100)
  = JsNumber.string_of_N (n * 99 / 100)%N.
Proof.
  rewrite div_floor by lia.
  rewrite <- (toString_of_N (n * 99 / 100)%N).
  now rewrite N2Z.inj_div, N2Z.inj_mul.
Qed.

(** C6. When the pool is found and the exchange quotes the
    non-negative integer [expected] (as the decimal string a U128 is
    sent as), [estimateSwap] returns an estimate whose [minimumOutput]
    is the decimal string of floor(expected * 99 / 100), computed on
    integers; and every estimate it returns for such a quote has that
    minimum. *)
Theorem estimateSwap_minimumOutput_floor (chain : Chain)
    (tokenIn amountIn tokenOut : string) (network : Network) (expected : N) :
  (forall poolId amountStr,
      findPool chain tokenIn tokenOut network = Some poolId ->
      convertScientificToString amountIn = Ok amountStr ->
      get_return (chain (getRefConfig_contractId network)) poolId tokenIn
        amountStr tokenOut = Ok (JsNumber.string_of_N expected) ->
      exists est,
        estimateSwap chain tokenIn amountIn tokenOut network = Ok est
        /\ expectedOutput est = JsNumber.string_of_N expected
        /\ minimumOutput est = JsNumber.string_of_N (expected * 99 / 100)%N)
  /\ (forall est,
         estimateSwap chain tokenIn amountIn tokenOut network = Ok est ->
         expectedOutput est = JsNumber.string_of_N expected ->
         minimumOutput est = JsNumber.string_of_N (expected * 99 / 100)%N).
Proof.
  split.
  - intros poolId amountStr Hpool Hconv Hquote.
    unfold estimateSwap. rewrite Hpool, Hconv. simpl. rewrite Hquote. simpl.
    rewrite BigInt_string_of_N. simpl.
    eexists. split; [reflexivity |]. simpl. split; [reflexivity |].
    apply minimum_of_expected.
  - intros est. unfold estimateSwap.
    destruct (findPool chain tokenIn tokenOut network) as [poolId |]; [| discriminate].
    destruct (convertScientificToString amountIn) as [amountStr | msg]; [| discriminate].
    simpl.
    destruct (get_return _ poolId tokenIn amountStr tokenOut) as [quoted | msg];
      [| discriminate].
    simpl.
    destruct (JsBigInt.BigInt quoted) as [e | msg] eqn:Hbig; [| discriminate].
    simpl. intros Hest Hexp. injection Hest as <-. simpl in *. subst quoted.
    rewrite BigInt_string_of_N in Hbig. injection Hbig as <-.
    apply minimum_of_expected.
Qed.

Lemma estimateSwap_minimumOutput_floor_witness :
  exists est,
    estimateSwap SampleChain.chain "wrap.testnet" "1000000" "wbtc.fakes.testnet"
      testnet = Ok est
    /\ expectedOutput est = "12345"
    /\ minimumOutput est = "12221".
Proof.
  exact (proj1 (estimateSwap_minimumOutput_floor SampleChain.chain "wrap.testnet"
                  "1000000" "wbtc.fakes.testnet" testnet 12345%N)
           1%nat "1000000" eq_refl eq_refl eq_refl).
Defined.

End EstimateFacts.

(** ** Pool discovery *)

#[local] Arguments Nat.mul : simpl never.

Section FirstIndex.
Context {A : Type} (P : A -> bool).

Lemma first_index_app (l1 l2 : list A) :
  first_index P (l1 ++ l2)%list =
  match first_index P l1 with
  | Some k => Some k
  | None => option_map (fun k => (length l1 + k)%nat) (first_index P l2)
  end.
Proof.
  induction l1 as [| x l1 IH]; simpl.
  - now destruct (first_index P l2).
  - destruct (P x); [reflexivity |]. rewrite IH.
    destruct (first_index P l1); simpl; [reflexivity |].
    now destruct (first_index P l2).
Qed.

Lemma first_index_Some (l : list A) (k : nat) :
  first_index P l = Some k <->
  exists x, l !! k = Some x /\ P x = true
            /\ forall j y, (j < k)%nat -> l !! j = Some y -> P y = false.
Proof.
  revert k. induction l as [| x l IH]; intros k; simpl.
  - split; [discriminate | intros (y & Hy & _); discriminate].
  - destruct (P x) eqn:Hx.
    + split.
      * intros [= <-]. exists x. repeat split; [assumption | intros; lia].
      * intros (y & Hy & Py & Hmin). destruct k as [| k]; [reflexivity |].
        specialize (Hmin 0%nat x ltac:(lia) eq_refl). congruence.
    + split.
      * destruct (first_index P l) as [k' |] eqn:Hf; simpl; [| discriminate].
        intros [= <-]. destruct (proj1 (IH k') eq_refl) as (y & Hy & Py & Hmin).
        exists y. repeat split; try assumption.
        intros [| j] z Hj Hz; simpl in Hz; [congruence |].
        apply (Hmin j); [lia | assumption].
      * intros (y & Hy & Py & Hmin). destruct k as [| k]; simpl in Hy; [congruence |].
        assert (Hf : first_index P l = Some k).
        { apply IH. exists y. repeat split; try assumption.
          intros j z Hj Hz. apply (Hmin (S j)); [lia | assumption]. }
        now rewrite Hf.
Qed.

Lemma first_index_None (l : list A) :
  first_index P l = None <-> forall j y, l !! j = Some y -> P y = false.
Proof.
  induction l as [| x l IH]; simpl.
  - split; [intros _ j y; discriminate | reflexivity].
  - destruct (P x) eqn:Hx.
    + split; [discriminate |]. intros H. specialize (H 0%nat x eq_refl). congruence.
    + destruct (first_index P l) as [k' |] eqn:Hf; simpl.
      * split; [discriminate |]. intros H.
        assert (Hn : Some k' = None); [| discriminate].
        apply IH. intros j y Hy. apply (H (S j)). exact Hy.
      * split; [| reflexivity]. intros _ [| j] y Hy; simpl in Hy; [congruence |].
        destruct IH as [IH _]. now apply (IH eq_refl j).
Qed.
End FirstIndex.

Section ScanFacts.
Import RefFinance.

Variables (tokenIn tokenOut : string).
Variable registry : list Pool.
Variable count_fails : bool.
Variable page_fails : nat -> bool.
Variable quote : nat -> string -> string -> string -> result string.

Let dex := registry_dex registry count_fails page_fails quote.
Let P := has_pair tokenIn tokenOut.

Lemma find_in_page_first_index (pools : list Pool) (i j : nat) :
  find_in_page tokenIn tokenOut pools i j
  = option_map (fun k => (i + j + k)%nat) (first_index P pools).
Proof.
  revert j. induction pools as [| pool rest IH]; intros j; simpl; [reflexivity |].
  fold (P pool). destruct (P pool).
  - simpl. f_equal. lia.
  - rewrite IH. destruct (first_index P rest); simpl; [f_equal; lia | reflexivity].
Qed.

(** What the scan of the pages from [i] returns, when it returns. *)
Lemma scan_pages_sound (rounds : nat) :
  forall i bound r,
    (bound <= length registry)%nat ->
    (bound <= i + batchSize * rounds)%nat ->
    (bound = length registry \/ exists m, bound = i + batchSize * m)%nat ->
    scan_pages rounds dex tokenIn tokenOut i bound = Ok r ->
    r = option_map (fun k => (i + k)%nat)
          (first_index P (firstn (bound - i) (skipn i registry))).
Proof.
  unfold batchSize.
  induction rounds as [| rounds IH]; intros i bound r Hlen Hfuel Hshape; simpl.
  - intros [= <-]. replace (bound - i)%nat with 0%nat by lia. reflexivity.
  - destruct (i <? bound)%nat eqn:Hi.
    + apply Nat.ltb_lt in Hi. unfold batchSize.
      destruct (page_fails i); simpl; [discriminate |].
      rewrite find_in_page_first_index.
      destruct (Nat.le_gt_cases 100 (bound - i)) as [Hbig | Hsmall].
      * replace (bound - i)%nat with (100 + (bound - i - 100))%nat by lia.
        rewrite <- take_take_drop, first_index_app, drop_drop.
        rewrite length_take, length_drop, Nat.min_l by lia.
        destruct (first_index P (take 100 (drop i registry))) as [k |] eqn:Hk;
          cbn [option_map].
        { intros [= <-]. f_equal. lia. }
        intros Hrec.
        assert (Hshape' : bound = length registry
                          \/ exists m', bound = (i + 100 + 100 * m')%nat).
        { destruct Hshape as [-> | [m ->]]; [now left | right].
          exists (m - 1)%nat. lia. }
        rewrite (IH (i + 100)%nat bound r Hlen ltac:(lia) Hshape' Hrec).
        replace (bound - (i + 100))%nat with (bound - i - 100)%nat by lia.
        destruct (first_index P (take (bound - i - 100) (drop (i + 100) registry)));
          cbn [option_map]; [f_equal; lia | reflexivity].
      * assert (Hall : bound = length registry).
        { destruct Hshape as [-> | [m ->]]; [reflexivity | lia]. }
        assert (Hpage : take 100 (drop i registry) = take (bound - i) (drop i registry)).
        { rewrite !take_ge; [reflexivity | |]; rewrite length_drop; lia. }
        rewrite Hpage.
        destruct (first_index P (take (bound - i) (drop i registry))) as [k |];
          simpl.
        { intros [= <-]. f_equal. lia. }
        destruct rounds as [| rounds']; simpl; [now intros [= <-] |].
        assert (Hge : (i + 100 <? bound)%nat = false) by (apply Nat.ltb_ge; lia).
        rewrite Hge. now intros [= <-].
    + apply Nat.ltb_ge in Hi. intros [= <-].
      replace (bound - i)%nat with 0%nat by lia. reflexivity.
Qed.

(** Without a failing page the scan returns. *)
Lemma scan_pages_returns (rounds : nat) :
  (forall k, page_fails k = false) ->
  forall i bound, exists r, scan_pages rounds dex tokenIn tokenOut i bound = Ok r.
Proof.
  intros Hok. induction rounds as [| rounds IH]; intros i bound; simpl.
  - eauto.
  - destruct (i <? bound)%nat; [| eauto].
    rewrite Hok. simpl.
    destruct (find_in_page _ _ _ _ _); [eauto | apply IH].
Qed.

(** A failing page that is reached makes the scan throw. *)
Lemma scan_pages_throws (m : nat) :
  forall rounds i bound,
    page_fails (i + batchSize * m)%nat = true ->
    (i + batchSize * m < bound)%nat ->
    (bound <= i + batchSize * rounds)%nat ->
    first_index P (firstn (batchSize * m) (skipn i registry)) = None ->
    exists msg, scan_pages rounds dex tokenIn tokenOut i bound = Throw msg.
Proof.
  unfold batchSize.
  induction m as [| m IH]; intros rounds i bound Hfail Hlt Hfuel Hnone.
  - destruct rounds as [| rounds]; [lia |]. simpl.
    assert (Hi : (i <? bound)%nat = true) by (apply Nat.ltb_lt; lia).
    rewrite Hi. replace (i + 100 * 0)%nat with i in Hfail by lia.
    rewrite Hfail. simpl. eauto.
  - destruct rounds as [| rounds]; [lia |]. simpl.
    assert (Hi : (i <? bound)%nat = true) by (apply Nat.ltb_lt; lia).
    rewrite Hi. destruct (page_fails i); simpl; [eauto |].
    rewrite find_in_page_first_index.
    replace (100 * S m)%nat with (100 + 100 * m)%nat in Hnone by lia.
    rewrite <- take_take_drop, first_index_app, drop_drop in Hnone.
    unfold batchSize.
    destruct (first_index P (take 100 (drop i registry))) as [k |]; [discriminate |].
    simpl. apply IH; try lia.
    + replace (i + 100 + 100 * m)%nat with (i + 100 * S m)%nat by lia. exact Hfail.
    + destruct (first_index P (take (100 * m) (drop (i + 100) registry)));
        [discriminate | reflexivity].
Qed.

End ScanFacts.

Section PoolSearch.
Import RefFinance.

Lemma first_index_take_Some a b registry depth p :
  first_index (has_pair a b) (firstn depth registry) = Some p
  <-> lowest_match a b registry depth p.
Proof.
  rewrite first_index_Some. unfold lowest_match. split.
  - intros (pool & Hp & Hpair & Hmin).
    apply lookup_take_Some in Hp as [Hp Hlt].
    split; [exact Hlt |]. exists pool. repeat split; try assumption.
    intros q pool' Hq Hq'. apply (Hmin q); [exact Hq |].
    apply lookup_take_Some. split; [assumption | lia].
  - intros (Hlt & pool & Hp & Hpair & Hmin).
    exists pool. repeat split; try assumption.
    + apply lookup_take_Some. now split.
    + intros q pool' Hq Hq'. apply lookup_take_Some in Hq' as [Hq' _].
      now apply (Hmin q).
Qed.

Lemma first_index_take_None a b registry depth :
  first_index (has_pair a b) (firstn depth registry) = None
  <-> no_match a b registry depth.
Proof.
  rewrite first_index_None. unfold no_match. split.
  - intros H q pool Hq Hp. apply (H q). apply lookup_take_Some. now split.
  - intros H q pool Hp. apply lookup_take_Some in Hp as [Hp Hq]. now apply (H q).
Qed.

Lemma take_min_length {A : Type} (l : list A) (d : nat) :
  firstn (Nat.min (length l) d) l = firstn d l.
Proof.
  destruct (Nat.le_gt_cases d (length l)).
  - now rewrite Nat.min_r.
  - rewrite Nat.min_l by lia. rewrite !take_ge; [reflexivity | lia | lia].
Qed.

Variables (a b : string) (registry : list Pool) (count_fails : bool).
Variable page_fails : nat -> bool.
Variable quote : nat -> string -> string -> string -> result string.

Let dex := registry_dex registry count_fails page_fails quote.

Lemma scan_sound (pages : nat) (r : option nat) :
  scan dex a b (batchSize * pages) = Ok r ->
  r = first_index (has_pair a b) (firstn (batchSize * pages) registry).
Proof.
  unfold scan, dex. simpl. destruct count_fails; simpl; [discriminate |].
  intros H. apply scan_pages_sound in H.
  - rewrite H, Nat.sub_0_r, drop_0, take_min_length. clear H.
    destruct (first_index (has_pair a b) (take (batchSize * pages) registry));
      reflexivity.
  - lia.
  - unfold batchSize. lia.
  - destruct (Nat.le_gt_cases (length registry) (batchSize * pages)).
    + left. lia.
    + right. exists pages. lia.
Qed.
End PoolSearch.

Section PoolSearch2.
Import RefFinance.
Variables (a b : string) (registry : list Pool) (count_fails : bool).
Variable page_fails : nat -> bool.
Variable quote : nat -> string -> string -> string -> result string.

Let dex := registry_dex registry count_fails page_fails quote.

Lemma scan_complete (pages : nat) :
  count_fails = false -> (forall k, page_fails k = false) ->
  scan dex a b (batchSize * pages)
  = Ok (first_index (has_pair a b) (firstn (batchSize * pages) registry)).
Proof.
  intros Hc Hp.
  destruct (scan dex a b (batchSize * pages)) as [r | msg] eqn:Hs.
  - f_equal. eapply scan_sound. exact Hs.
  - exfalso. unfold scan, dex in Hs. simpl in Hs. rewrite Hc in Hs. simpl in Hs.
    destruct (scan_pages_returns a b registry false page_fails quote
                (Nat.min (length registry) (batchSize * pages)) Hp 0%nat
                (Nat.min (length registry) (batchSize * pages))) as [r Hr].
    rewrite Hr in Hs. discriminate.
Qed.

Lemma scan_count_fails (depth : nat) :
  count_fails = true -> exists msg, scan dex a b depth = Throw msg.
Proof. intros Hc. unfold scan, dex. simpl. rewrite Hc. simpl. eauto. Qed.

Lemma scan_page_fails (depth m : nat) :
  count_fails = false ->
  page_fails (batchSize * m)%nat = true ->
  (batchSize * m < Nat.min (length registry) depth)%nat ->
  no_match a b registry (batchSize * m) ->
  exists msg, scan dex a b depth = Throw msg.
Proof.
  intros Hc Hp Hlt Hnone. unfold scan, dex. simpl. rewrite Hc. simpl.
  apply (scan_pages_throws a b registry false page_fails quote m).
  - exact Hp.
  - exact Hlt.
  - unfold batchSize in *. lia.
  - rewrite drop_0. now apply first_index_take_None.
Qed.
End PoolSearch2.

Section CallPattern.
Import RefFinance.

Lemma scan_pages_ext (dex dex' : Dex) (a b : string) (rounds : nat) :
  forall i bound,
    (forall k, (i + batchSize * k < bound)%nat ->
               get_pools dex (i + batchSize * k)%nat batchSize
               = get_pools dex' (i + batchSize * k)%nat batchSize) ->
    scan_pages rounds dex a b i bound = scan_pages rounds dex' a b i bound.
Proof.
  induction rounds as [| rounds IH]; intros i bound Hsame; simpl; [reflexivity |].
  destruct (i <? bound)%nat eqn:Hi; [| reflexivity].
  apply Nat.ltb_lt in Hi.
  pose proof (Hsame 0%nat) as H0. rewrite Nat.mul_0_r, Nat.add_0_r in H0.
  rewrite <- (H0 Hi).
  destruct (get_pools dex i batchSize) as [pools | msg]; simpl; [| reflexivity].
  destruct (find_in_page a b pools i 0); [reflexivity |].
  apply IH. intros k Hk.
  replace (i + batchSize + batchSize * k)%nat with (i + batchSize * S k)%nat by lia.
  apply Hsame. lia.
Qed.

Lemma scan_ext (dex dex' : Dex) (a b : string) (pages : nat) :
  get_number_of_pools dex = get_number_of_pools dex' ->
  (forall k, (k < pages)%nat ->
             get_pools dex (batchSize * k)%nat batchSize
             = get_pools dex' (batchSize * k)%nat batchSize) ->
  scan dex a b (batchSize * pages) = scan dex' a b (batchSize * pages).
Proof.
  intros Hn Hp. unfold scan. rewrite <- Hn.
  destruct (get_number_of_pools dex) as [n | msg]; simpl; [| reflexivity].
  apply scan_pages_ext. intros k Hk. simpl. apply Hp.
  unfold batchSize in *. lia.
Qed.
End CallPattern.

Section PoolSearchTheorem.
Import RefFinance.

(** C7. [findPool] asks for the pool count and then only for pages of
    100 pools at the indices 0, 100, ..., 400.  Against a node that
    serves a pool registry: a pool it returns is the lowest-index pool
    among the first 500 that holds both tokens (in either role); when
    no call fails it returns that pool whenever there is one; it
    returns null when no pool among the first 500 matches, when the
    count call fails and when a page it reaches fails.
    [hasLiquidityPool] does the same over the first 200 pools, with
    [false] for null. *)
Theorem findPool_lowest_index_within_scan_depth :
  (forall chain chain' a b network,
      let dex := chain (getRefConfig_contractId network) in
      let dex' := chain' (getRefConfig_contractId network) in
      get_number_of_pools dex = get_number_of_pools dex' ->
      (forall k, (k < 5)%nat ->
                 get_pools dex (100 * k)%nat 100%nat
                 = get_pools dex' (100 * k)%nat 100%nat) ->
      findPool chain a b network = findPool chain' a b network)
  /\ (forall chain a b network registry count_fails page_fails quote,
         chain (getRefConfig_contractId network)
         = registry_dex registry count_fails page_fails quote ->
         (forall p, findPool chain a b network = Some p ->
                    lowest_match a b registry 500 p)
         /\ (count_fails = false -> (forall k, page_fails k = false) ->
             forall p, lowest_match a b registry 500 p ->
                       findPool chain a b network = Some p)
         /\ (no_match a b registry 500 -> findPool chain a b network = None)
         /\ (count_fails = true -> findPool chain a b network = None)
         /\ (forall m, count_fails = false ->
                       page_fails (100 * m)%nat = true ->
                       (100 * m < Nat.min (length registry) 500)%nat ->
                       no_match a b registry (100 * m) ->
                       findPool chain a b network = None))
  /\ (forall chain tokenId registry count_fails page_fails quote,
         chain TokenAnalyzer.REF_FINANCE_CONTRACT
         = registry_dex registry count_fails page_fails quote ->
         (TokenAnalyzer.hasLiquidityPool chain tokenId = true ->
          exists p, lowest_match TokenAnalyzer.WRAP_NEAR_TOKEN tokenId registry 200 p)
         /\ (count_fails = false -> (forall k, page_fails k = false) ->
             forall p, lowest_match TokenAnalyzer.WRAP_NEAR_TOKEN tokenId registry 200 p ->
                       TokenAnalyzer.hasLiquidityPool chain tokenId = true)
         /\ (count_fails = true -> TokenAnalyzer.hasLiquidityPool chain tokenId = false)
         /\ (forall m, count_fails = false ->
                       page_fails (100 * m)%nat = true ->
                       (100 * m < Nat.min (length registry) 200)%nat ->
                       no_match TokenAnalyzer.WRAP_NEAR_TOKEN tokenId registry (100 * m) ->
                       TokenAnalyzer.hasLiquidityPool chain tokenId = false)).
Proof.
  split; [| split].
  - intros chain chain' a b network dex dex' Hn Hp. unfold findPool.
    fold dex dex'. change 500%nat with (batchSize * 5)%nat.
    now rewrite (scan_ext dex dex' a b 5 Hn Hp).
  - intros chain a b network registry count_fails page_fails quote Hdex.
    unfold findPool. rewrite Hdex. change 500%nat with (batchSize * 5)%nat.
    split; [| split; [| split; [| split]]].
    + intros p.
      destruct (scan _ a b (batchSize * 5)) as [r | msg] eqn:Hs; [| discriminate].
      intros ->. apply scan_sound in Hs. now apply first_index_take_Some.
    + intros Hc Hp p Hlow. rewrite (scan_complete _ _ _ _ _ _ 5 Hc Hp).
      now apply first_index_take_Some.
    + intros Hnone.
      destruct (scan _ a b (batchSize * 5)) as [r | msg] eqn:Hs; [| reflexivity].
      apply scan_sound in Hs. rewrite Hs. now apply first_index_take_None.
    + intros Hc.
      destruct (scan_count_fails a b registry count_fails page_fails quote
                  (batchSize * 5) Hc) as [msg ->]. reflexivity.
    + intros m Hc Hp Hlt Hnone.
      destruct (scan_page_fails a b registry count_fails page_fails quote
                  (batchSize * 5) m Hc Hp Hlt Hnone) as [msg ->]. reflexivity.
  - intros chain tokenId registry count_fails page_fails quote Hdex.
    unfold TokenAnalyzer.hasLiquidityPool. rewrite Hdex.
    change 200%nat with (batchSize * 2)%nat.
    split; [| split; [| split]].
    + destruct (scan _ _ tokenId (batchSize * 2)) as [[p |] | msg] eqn:Hs;
        try discriminate.
      intros _. exists p. apply scan_sound in Hs. now apply first_index_take_Some.
    + intros Hc Hp p Hlow. rewrite (scan_complete _ _ _ _ _ _ 2 Hc Hp).
      apply first_index_take_Some in Hlow. now rewrite Hlow.
    + intros Hc.
      destruct (scan_count_fails TokenAnalyzer.WRAP_NEAR_TOKEN tokenId registry
                  count_fails page_fails quote (batchSize * 2) Hc) as [msg ->].
      reflexivity.
    + intros m Hc Hp Hlt Hnone.
      destruct (scan_page_fails TokenAnalyzer.WRAP_NEAR_TOKEN tokenId registry
                  count_fails page_fails quote (batchSize * 2) m Hc Hp Hlt Hnone)
        as [msg ->]. reflexivity.
Qed.

Lemma wbtc_pool_is_lowest :
  lowest_match "wrap.testnet" "wbtc.fakes.testnet" SampleChain.registry 500 1.
Proof.
  split; [lia |]. exists SampleChain.wbtc_pool. repeat split.
  intros [| q] pool' Hq Hp; [| lia]. now injection Hp as <-.
Qed.

Lemma findPool_lowest_index_within_scan_depth_witness :
  findPool SampleChain.chain "wrap.testnet" "wbtc.fakes.testnet" testnet = Some 1%nat.
Proof.
  apply (proj1 (proj2 (proj1 (proj2 findPool_lowest_index_within_scan_depth)
                         SampleChain.chain "wrap.testnet" "wbtc.fakes.testnet" testnet
                         SampleChain.registry false (fun _ => false)
                         SampleChain.quote eq_refl))).
  - reflexivity.
  - reflexivity.
  - exact wbtc_pool_is_lowest.
Defined.
End PoolSearchTheorem.

(** ** Sorting *)

Section SortFacts.

Context {A : Type} (compareFn : A -> A -> option comparison) (ok : A -> Prop).

Let R (a b : A) : Prop := in_order compareFn a b = true.

Hypothesis total :
  forall a b, ok a -> ok b -> in_order compareFn a b = false ->
              in_order compareFn b a = true.
Hypothesis trans :
  forall a b c, ok a -> ok b -> ok c -> R a b -> R b c -> R a c.

Lemma insert_in_order_perm (x : A) (l : list A) :
  Permutation (x :: l) (insert_in_order compareFn x l).
Proof.
  induction l as [| y l IH]; simpl; [reflexivity |].
  destruct (in_order compareFn x y); [reflexivity |].
  rewrite perm_swap. now apply perm_skip.
Qed.

Lemma js_sort_perm (l : list A) : Permutation l (js_sort compareFn l).
Proof.
  induction l as [| x l IH]; simpl; [reflexivity |].
  rewrite <- insert_in_order_perm. now apply perm_skip.
Qed.

Lemma js_sort_ok (l : list A) : Forall ok l -> Forall ok (js_sort compareFn l).
Proof.
  intros H. eapply Permutation_Forall; [apply js_sort_perm | exact H].
Qed.

Lemma insert_in_order_sorted (x : A) (l : list A) :
  ok x -> Forall ok l -> StronglySorted R l ->
  StronglySorted R (insert_in_order compareFn x l).
Proof.
  intros Hx Hl Hs. induction Hs as [| y l Hs IH Hy]; simpl.
  - repeat constructor.
  - inversion Hl as [| ? ? Hoky Hokl]; subst.
    destruct (in_order compareFn x y) eqn:Hxy.
    + constructor; [now constructor |].
      constructor; [exact Hxy |].
      rewrite List.Forall_forall in *. intros z Hz.
      apply (trans x y z); auto.
    + constructor; [now apply IH |].
      rewrite List.Forall_forall in *. intros z Hz.
      apply Permutation_in with (l' := x :: l) in Hz;
        [| symmetry; apply insert_in_order_perm].
      destruct Hz as [<- | Hz]; [now apply total | now apply Hy].
Qed.

Lemma js_sort_sorted (l : list A) :
  Forall ok l -> StronglySorted R (js_sort compareFn l).
Proof.
  induction l as [| x l IH]; intros Hl; simpl; [constructor |].
  inversion Hl as [| ? ? Hx Hl']; subst.
  apply insert_in_order_sorted; auto. now apply js_sort_ok.
Qed.

End SortFacts.

Section SublistFacts.
Context {A : Type} (R : A -> A -> Prop).

Lemma sublist_Forall_keep (P : A -> Prop) (l1 l2 : list A) :
  sublist l1 l2 -> Forall P l2 -> Forall P l1.
Proof.
  induction 1 as [| x l1 l2 _ IH | x l1 l2 _ IH]; intros H.
  - constructor.
  - inversion H; subst. constructor; auto.
  - inversion H; subst. auto.
Qed.

Lemma sublist_StronglySorted (l1 l2 : list A) :
  sublist l1 l2 -> StronglySorted R l2 -> StronglySorted R l1.
Proof.
  induction 1 as [| x l1 l2 Hsub IH | x l1 l2 _ IH]; intros H.
  - constructor.
  - apply StronglySorted_inv in H as [Hs Hx]. constructor; [auto |].
    now apply (sublist_Forall_keep _ l1 l2).
  - apply StronglySorted_inv in H as [Hs _]. auto.
Qed.
End SublistFacts.

Section NumberOrder.
Import JsNumber.

Lemma in_order_sub_sign (a b : number) :
  a <> NaN -> b <> NaN ->
  match sub_sign a b with Some Gt => false | _ => true end = le a b.
Proof.
  destruct a as [| na | na ta], b as [| nb | nb tb]; intros Ha Hb;
    try congruence; simpl.
  - destruct na, nb; reflexivity.
  - destruct na; reflexivity.
  - destruct nb; reflexivity.
  - unfold Z.leb. destruct (signed_ticks na ta ?= signed_ticks nb tb); reflexivity.
Qed.

Lemma JsNumber_le_total (a b : number) :
  a <> NaN -> b <> NaN -> le a b = false -> le b a = true.
Proof.
  destruct a as [| na | na ta], b as [| nb | nb tb]; intros Ha Hb;
    try congruence; simpl.
  - destruct na, nb; simpl; congruence.
  - destruct na; simpl; congruence.
  - destruct nb; simpl; congruence.
  - intros H. apply Z.leb_gt in H. apply Z.leb_le. lia.
Qed.

Lemma JsNumber_le_trans (a b c : number) :
  le a b = true -> le b c = true -> le a c = true.
Proof.
  destruct a as [| na | na ta], b as [| nb | nb tb], c as [| nc | nc tc];
    simpl; try congruence;
    repeat match goal with n : bool |- _ => destruct n end;
    simpl; try congruence.
  all: intros H1 H2; apply Z.leb_le in H1, H2; apply Z.leb_le; lia.
Qed.

Lemma gt0_not_NaN (a : number) : gt0 a = true -> a <> NaN.
Proof. destruct a; simpl; congruence. Qed.

Lemma truthy_not_NaN (a : number) : truthy a = true -> a <> NaN.
Proof. destruct a; simpl; congruence. Qed.
End NumberOrder.

(** ** The task planner *)

Section PlannerFacts.
Import TaskPlanner.

Lemma valid_well_formed (p : ParsedTask) (t : PlannedTask) :
  valid p = Some t -> well_formed t.
Proof.
  unfold valid, well_formed.
  destruct (p_type p) as [ty |]; [| discriminate].
  destruct (p_description p) as [d |]; [| discriminate].
  destruct (p_order p) as [o |]; [| discriminate].
  destruct (truthy (Some ty)) eqn:Hty; [| discriminate].
  destruct (truthy (Some d)) eqn:Hd; [| discriminate].
  destruct (truthy (Some o)) eqn:Ho; [| discriminate].
  cbn [andb]. intros [= <-]. cbn [type description order]. auto.
Qed.

Lemma keep_valid_well_formed (l : list ParsedTask) :
  Forall well_formed (keep_valid l).
Proof.
  induction l as [| p l IH]; simpl; [constructor |].
  destruct (valid p) as [t |] eqn:Hp; [| exact IH].
  constructor; [now apply (valid_well_formed p) | exact IH].
Qed.

Lemma keep_valid_In (l : list ParsedTask) (t : PlannedTask) :
  In t (keep_valid l) <-> exists p, In p l /\ valid p = Some t.
Proof.
  induction l as [| p l IH]; simpl.
  - split; [contradiction | intros (p & [] & _)].
  - destruct (valid p) as [t' |] eqn:Hp; simpl; rewrite IH; split.
    + intros [<- | (q & Hq & Hv)]; eauto.
    + intros (q & [<- | Hq] & Hv); [left; congruence | eauto].
    + intros (q & Hq & Hv); eauto.
    + intros (q & [<- | Hq] & Hv); [congruence | eauto].
Qed.

Lemma numeric_order_value (t : PlannedTask) :
  numeric t ->
  JsValue.ToNumber (order t) = Ok (order_value t) /\ order_value t <> JsNumber.NaN.
Proof.
  intros (x & Hx & Hnan). unfold order_value. rewrite Hx. auto.
Qed.

Lemma by_order_in_order (a b : PlannedTask) :
  numeric a -> numeric b ->
  in_order by_order a b = JsNumber.le (order_value a) (order_value b).
Proof.
  intros Ha Hb.
  destruct (numeric_order_value a Ha) as [Hxa Hna].
  destruct (numeric_order_value b Hb) as [Hxb Hnb].
  unfold in_order, by_order. rewrite Hxa, Hxb.
  now apply in_order_sub_sign.
Qed.

Lemma sorted_by_order (l : list PlannedTask) :
  Forall numeric l -> StronglySorted ascending (js_sort by_order l).
Proof.
  intros Hl.
  assert (Hs : StronglySorted (fun a b => in_order by_order a b = true)
                 (js_sort by_order l)).
  { apply (js_sort_sorted by_order numeric); [| | exact Hl].
    - intros a b Ha Hb. rewrite !by_order_in_order by assumption.
      apply JsNumber_le_total; now apply numeric_order_value.
    - intros a b c Ha Hb Hc. rewrite !by_order_in_order by assumption.
      apply JsNumber_le_trans. }
  pose proof (js_sort_ok by_order numeric l Hl) as Hok.
  induction Hs as [| a s Hs IH Ha]; [constructor |].
  inversion Hok as [| ? ? Hwa Hws]; subst.
  constructor; [now apply IH |].
  rewrite List.Forall_forall in *. intros b Hb. unfold ascending.
  rewrite <- by_order_in_order; auto.
Qed.

(** A task whose order converts does not make the comparator throw. *)
Lemma numeric_converts (t : PlannedTask) : numeric t -> order_throws t = false.
Proof.
  intros (x & Hx & _). unfold order_throws. unfold JsValue.ToNumber in Hx.
  destruct (JsValue.unprintable (order t)); [discriminate | reflexivity].
Qed.

Lemma numeric_none_throws (l : list PlannedTask) :
  Forall numeric l -> existsb order_throws l = false.
Proof.
  induction 1 as [| t l Ht _ IH]; [reflexivity |].
  cbn [existsb]. now rewrite (numeric_converts t Ht), IH.
Qed.

(** An order that is a number, as the declared type has it, is read
    as that number. *)
Lemma number_order_numeric (t : PlannedTask) (n : JsNumber.number) :
  well_formed t -> order t = JNum n -> numeric t.
Proof.
  intros (_ & _ & Ho) Hn. rewrite Hn in Ho. exists n. rewrite Hn.
  split; [reflexivity |]. cbn [truthy] in Ho. now apply truthy_not_NaN.
Qed.

Lemma default_plan_numeric : Forall numeric default_plan.
Proof.
  repeat constructor;
    (eexists; split; [reflexivity | discriminate]).
Qed.

Lemma default_plan_sorted : StronglySorted ascending default_plan.
Proof. repeat constructor. Qed.

Lemma ascending_not_NaN (a b : PlannedTask) :
  ascending a b -> order_value a <> JsNumber.NaN /\ order_value b <> JsNumber.NaN.
Proof.
  unfold ascending.
  destruct (order_value a), (order_value b); cbn; intros H; split; congruence.
Qed.

(** C4 (amended). When the model call or the parsing throws,
    [planAgentTasks] returns the fixed plan of five steps
    (fetch_tokens, analyze_market, predict_token, prepare_swap,
    execute_swap, orders 1 to 5).  When an array is parsed it keeps the
    entries whose type, description and order are truthy, and returns
    them sorted ascending by order provided the order of every kept
    entry is read as a number, which is so when the orders are numbers;
    the order is not checked to be one.  With two or more kept entries
    of which one has an order that cannot be converted, the default
    plan is returned; in every other case the kept entries are
    returned in some arrangement, and the list is empty exactly when
    no entry is kept. *)
Theorem planAgentTasks_sorted_default_on_throw :
  (forall d b msg, planAgentTasks d b (ReplyThrows msg) = default_plan)
  /\ (map type default_plan
      = map JStr ["fetch_tokens"; "analyze_market"; "predict_token";
                  "prepare_swap"; "execute_swap"]
      /\ map order default_plan = map (fun n => JNum (nat_number n)) [1; 2; 3; 4; 5]%N
      /\ StronglySorted ascending default_plan)
  /\ (forall d b tasks,
         Forall numeric (keep_valid tasks) ->
         StronglySorted ascending (planAgentTasks d b (ReplyArray tasks))
         /\ Permutation (keep_valid tasks) (planAgentTasks d b (ReplyArray tasks)))
  /\ (forall t n, well_formed t -> order t = JNum n -> numeric t)
  /\ (forall d b tasks,
         ((2 <= length (keep_valid tasks))%nat ->
          existsb order_throws (keep_valid tasks) = true ->
          planAgentTasks d b (ReplyArray tasks) = default_plan)
         /\ (((length (keep_valid tasks) < 2)%nat
              \/ existsb order_throws (keep_valid tasks) = false) ->
             Permutation (keep_valid tasks) (planAgentTasks d b (ReplyArray tasks))
             /\ Forall well_formed (planAgentTasks d b (ReplyArray tasks)))
         /\ (planAgentTasks d b (ReplyArray tasks) = []
             <-> forall p, In p tasks -> valid p = None)).
Proof.
  split; [| split; [| split; [| split]]].
  - reflexivity.
  - split; [reflexivity | split; [reflexivity | apply default_plan_sorted]].
  - intros d b tasks Hnum. cbn [planAgentTasks].
    rewrite (numeric_none_throws _ Hnum), andb_false_r.
    split; [now apply sorted_by_order | apply js_sort_perm].
  - exact number_order_numeric.
  - intros d b tasks. cbn [planAgentTasks]. split; [| split].
    + intros Hlen Hthrows.
      replace (2 <=? length (keep_valid tasks))%nat with true
        by (symmetry; apply Nat.leb_le; exact Hlen).
      now rewrite Hthrows.
    + intros Hplain.
      assert (Hcond : (2 <=? length (keep_valid tasks))%nat
                      && existsb order_throws (keep_valid tasks) = false).
      { destruct Hplain as [Hlen | ->]; [| apply andb_false_r].
        replace (2 <=? length (keep_valid tasks))%nat with false
          by (symmetry; apply Nat.leb_gt; exact Hlen).
        reflexivity. }
      rewrite Hcond.
      split; [apply js_sort_perm | apply js_sort_ok, keep_valid_well_formed].
    + split.
      * intros Hnil p Hp. destruct (valid p) as [t |] eqn:Hv; [| reflexivity].
        assert (Hin : In t (keep_valid tasks)) by (apply keep_valid_In; eauto).
        destruct ((2 <=? length (keep_valid tasks))%nat
                  && existsb order_throws (keep_valid tasks)); [discriminate |].
        apply (Permutation_in _ (js_sort_perm by_order (keep_valid tasks))) in Hin.
        rewrite Hnil in Hin. contradiction.
      * intros Hnone.
        assert (Hk : keep_valid tasks = []).
        { destruct (keep_valid tasks) as [| t l] eqn:Hk; [reflexivity |].
          assert (Hin : In t (keep_valid tasks)) by (rewrite Hk; now left).
          apply keep_valid_In in Hin as (p & Hp & Hv).
          rewrite (Hnone p Hp) in Hv. discriminate. }
        now rewrite Hk.
Qed.

(** C4 fails as stated.  An empty parsed array is returned as the empty
    list, not replaced by the default plan.  And the entries with the
    orders 3, "x" and 1 are all kept, but no arrangement of them is
    sorted by order, since "x" compares with no number. *)
Lemma planAgentTasks_empty_array_is_empty :
  (planAgentTasks "Swap 0.5 NEAR to a stable token" "10" (ReplyArray []) = []
   /\ planAgentTasks "Swap 0.5 NEAR to a stable token" "10" (ReplyArray [])
      <> default_plan)
  /\ (let tasks :=
        [ mkParsed (Some (JStr "predict_token")) (Some (JStr "Predict"))
            (Some (JNum (nat_number 3)));
          mkParsed (Some (JStr "analyze_market")) (Some (JStr "Analyze"))
            (Some (JStr "x"));
          mkParsed (Some (JStr "fetch_tokens")) (Some (JStr "Fetch"))
            (Some (JNum (nat_number 1))) ] in
      Permutation (keep_valid tasks)
        (planAgentTasks "Swap 0.5 NEAR to a stable token" "10" (ReplyArray tasks))
      /\ length (keep_valid tasks) = 3%nat
      /\ forall l, Permutation (keep_valid tasks) l -> ~ StronglySorted ascending l).
Proof.
  split; [split; [reflexivity | discriminate] |].
  cbv zeta. split; [apply js_sort_perm |]. split; [reflexivity |].
  intros l Hperm Hsorted.
  set (x := mkPlanned (JStr "analyze_market") (JStr "Analyze") (JStr "x")).
  assert (Hx : In x l) by (apply (Permutation_in _ Hperm); right; left; reflexivity).
  assert (Hlen : length l = 3%nat) by (now rewrite <- (Permutation_length Hperm)).
  assert (Hbad : forall y, ~ ascending x y /\ ~ ascending y x).
  { intros y. split; intros H; apply ascending_not_NaN in H;
      [apply (proj1 H) | apply (proj2 H)]; reflexivity. }
  destruct l as [| a [| b l']]; try (cbn in Hlen; discriminate).
  apply StronglySorted_inv in Hsorted as [Hrest Ha].
  rewrite List.Forall_forall in Ha.
  destruct Hx as [<- | Hx].
  - apply (proj1 (Hbad b)). apply Ha. now left.
  - apply (proj2 (Hbad a)). now apply Ha.
Qed.

Lemma planAgentTasks_sorted_default_on_throw_witness :
  let tasks :=
    [ mkParsed (Some (JStr "analyze_market")) (Some (JStr "Analyze"))
        (Some (JNum (nat_number 2)));
      mkParsed (Some (JStr "fetch_tokens")) (Some (JStr "Fetch"))
        (Some (JStr "1"));
      mkParsed (Some (JStr "idle")) None (Some (JNum (nat_number 3))) ] in
  Forall numeric (keep_valid tasks)
  /\ StronglySorted ascending
       (planAgentTasks "Swap 0.5 NEAR to a stable token" "10" (ReplyArray tasks))
  /\ Permutation (keep_valid tasks)
       (planAgentTasks "Swap 0.5 NEAR to a stable token" "10" (ReplyArray tasks))
  /\ map order (planAgentTasks "Swap 0.5 NEAR to a stable token" "10"
                  (ReplyArray tasks))
     = [JStr "1"; JNum (nat_number 2)].
Proof.
  cbv zeta.
  assert (H : Forall numeric
                (keep_valid
                   [ mkParsed (Some (JStr "analyze_market")) (Some (JStr "Analyze"))
                       (Some (JNum (nat_number 2)));
                     mkParsed (Some (JStr "fetch_tokens")) (Some (JStr "Fetch"))
                       (Some (JStr "1"));
                     mkParsed (Some (JStr "idle")) None
                       (Some (JNum (nat_number 3))) ])).
  { repeat constructor; (eexists; split; [vm_compute; reflexivity | discriminate]). }
  split; [exact H |].
  destruct (proj1 (proj2 (proj2 planAgentTasks_sorted_default_on_throw))
              "Swap 0.5 NEAR to a stable token" "10" _ H) as [Hsorted Hperm].
  split; [exact Hsorted |]. split; [exact Hperm |].
  vm_compute. reflexivity.
Defined.
End PlannerFacts.

(** ** The token catalog *)

Section CatalogFacts.
Import TokenAnalyzer.

Lemma by_price_in_order (a b : TokenInfo) :
  positive_price a -> positive_price b ->
  in_order by_price_desc a b
  = JsNumber.le (JsNumber.parseFloat (price b)) (JsNumber.parseFloat (price a)).
Proof.
  intros Ha Hb. unfold in_order, by_price_desc.
  apply in_order_sub_sign; now apply gt0_not_NaN.
Qed.

Lemma sorted_by_price (l : list TokenInfo) :
  Forall positive_price l -> StronglySorted price_desc (js_sort by_price_desc l).
Proof.
  intros Hl.
  assert (Hs : StronglySorted (fun a b => in_order by_price_desc a b = true)
                 (js_sort by_price_desc l)).
  { apply (js_sort_sorted by_price_desc positive_price); [| | exact Hl].
    - intros a b Ha Hb. rewrite !by_price_in_order by assumption.
      apply JsNumber_le_total; now apply gt0_not_NaN.
    - intros a b c Ha Hb Hc. rewrite !by_price_in_order by assumption.
      intros H1 H2. exact (JsNumber_le_trans _ _ _ H2 H1). }
  pose proof (js_sort_ok by_price_desc positive_price l Hl) as Hok.
  induction Hs as [| a s Hs IH Ha]; [constructor |].
  inversion Hok as [| ? ? Hwa Hws]; subst.
  constructor; [now apply IH |].
  rewrite List.Forall_forall in *. intros b Hb. unfold price_desc.
  rewrite <- by_price_in_order; auto.
Qed.

Lemma filter_positive (l : list TokenInfo) :
  Forall positive_price (List.filter price_gt0 l).
Proof.
  apply List.Forall_forall. intros t Ht. now apply List.filter_In in Ht as [_ Ht].
Qed.

Lemma collect_sublist (chain : RefFinance.Chain) (candidates : list TokenInfo) :
  forall found, sublist (collect chain candidates found) (found ++ candidates)%list.
Proof.
  induction candidates as [| token rest IH]; intros found; cbn [collect].
  - now rewrite app_nil_r.
  - destruct (String.eqb (token_account_id token) WRAP_NEAR_TOKEN).
    + etransitivity; [apply IH |].
      apply sublist_app; [reflexivity | apply sublist_cons; reflexivity].
    + destruct (hasLiquidityPool chain (token_account_id token)).
      * destruct (15 <=? length (found ++ [token]))%nat.
        -- rewrite (app_assoc found [token] rest : (found ++ token :: rest = (found ++ [token]) ++ rest)%list).
           apply sublist_inserts_r; reflexivity.
        -- etransitivity; [apply IH |]. now rewrite <- app_assoc.
      * destruct (15 <=? length found)%nat.
        -- apply sublist_inserts_r; reflexivity.
        -- etransitivity; [apply IH |].
           apply sublist_app; [reflexivity | apply sublist_cons; reflexivity].
Qed.

Lemma collect_length (chain : RefFinance.Chain) (candidates : list TokenInfo) :
  forall found, (length found < 15)%nat ->
                (length (collect chain candidates found) <= 15)%nat.
Proof.
  induction candidates as [| token rest IH]; intros found Hlen; cbn [collect];
    [lia |].
  destruct (String.eqb (token_account_id token) WRAP_NEAR_TOKEN); [now apply IH |].
  destruct (hasLiquidityPool chain (token_account_id token)).
  - destruct (15 <=? length (found ++ [token]))%nat eqn:Hfull.
    + rewrite length_app. simpl. lia.
    + apply IH. apply Nat.leb_gt in Hfull. exact Hfull.
  - destruct (15 <=? length found)%nat eqn:Hfull; [lia | now apply IH].
Qed.

Lemma builtin_ok : catalog_ok builtin_tokens.
Proof.
  split; [simpl; lia | split].
  - repeat constructor; vm_compute; reflexivity.
  - repeat constructor; vm_compute; reflexivity.
Qed.

Lemma loadFallbackTokens_ok (file : FallbackFile) :
  catalog_ok (loadFallbackTokens file).
Proof.
  destruct file as [entries | msg]; simpl; [| apply builtin_ok].
  split; [| split].
  - rewrite length_take. lia.
  - apply (sublist_StronglySorted _ _ _ (sublist_take _ _)).
    apply sorted_by_price, filter_positive.
  - apply Forall_take. apply js_sort_ok, filter_positive.
Qed.

Lemma live_tokens_ok (env : Env) (l : list TokenInfo) :
  live_tokens env = Ok l -> catalog_ok l.
Proof.
  unfold live_tokens. destruct (indexer env) as [msg | st | entries]; try discriminate.
  destruct (map_entries entries) as [mapped | msg]; simpl; [| discriminate].
  intros [= <-].
  pose proof (collect_sublist (chain env)
                (firstn 30 (js_sort by_price_desc (List.filter price_gt0 mapped))) [])
    as Hsub.
  simpl in Hsub.
  assert (Hsub' : sublist (collect (chain env)
                    (firstn 30 (js_sort by_price_desc (List.filter price_gt0 mapped))) [])
                    (js_sort by_price_desc (List.filter price_gt0 mapped))).
  { etransitivity; [exact Hsub | apply sublist_take]. }
  split; [| split].
  - apply collect_length. simpl. lia.
  - apply (sublist_StronglySorted _ _ _ Hsub').
    apply sorted_by_price, filter_positive.
  - apply (sublist_Forall_keep _ _ _ Hsub').
    apply js_sort_ok, filter_positive.
Qed.

(** C8. Whatever the indexer, the chain and the bundled dataset
    answer, the list [fetchAvailableTokens] returns has at most 15
    entries, is sorted by descending price, and every entry has a price
    that parses to a positive number. *)
Theorem fetchAvailableTokens_bounded_sorted_positive (env : Env) :
  (length (fetchAvailableTokens env) <= 15)%nat
  /\ StronglySorted price_desc (fetchAvailableTokens env)
  /\ Forall (fun t => JsNumber.gt0 (JsNumber.parseFloat (price t)) = true)
       (fetchAvailableTokens env).
Proof.
  unfold fetchAvailableTokens.
  destruct (live_tokens env) as [[| t l] | msg] eqn:Hlive.
  - apply loadFallbackTokens_ok.
  - exact (live_tokens_ok env (t :: l) Hlive).
  - apply loadFallbackTokens_ok.
Qed.
End CatalogFacts.

Section CatalogNonEmpty.
Import TokenAnalyzer.

Lemma js_sort_nil {A : Type} (cmp : A -> A -> option comparison) (l : list A) :
  js_sort cmp l = [] -> l = [].
Proof.
  intros H. apply Permutation_nil. rewrite <- H. symmetry. apply js_sort_perm.
Qed.

Lemma loadFallbackTokens_not_empty (file : FallbackFile) :
  file_has_priced_token file -> loadFallbackTokens file <> [].
Proof.
  intros Hfile. destruct file as [entries | msg]; simpl; [| discriminate].
  destruct (Hfile entries eq_refl) as (e & He & Hprice).
  set (tok := mkToken (fst e) (f_symbol (snd e)) (f_price (snd e)) (f_decimal (snd e))).
  assert (Hin : In tok (List.filter price_gt0
                   (map (fun e => mkToken (fst e) (f_symbol (snd e))
                                    (f_price (snd e)) (f_decimal (snd e))) entries))).
  { apply List.filter_In. split; [| exact Hprice].
    apply in_map_iff. exists e. now split. }
  intros Hnil.
  destruct (js_sort by_price_desc _) as [| t l] eqn:Hs in Hnil.
  - apply js_sort_nil in Hs. rewrite Hs in Hin. contradiction.
  - discriminate.
Qed.

End CatalogNonEmpty.

Section PredictorFacts.
Import TokenAnalyzer.

Lemma find_unique {A : Type} (f : A -> bool) (l : list A) (x : A) :
  In x l -> f x = true ->
  (forall y, In y l -> f y = true -> y = x) ->
  find f l = Some x.
Proof.
  induction l as [| y l IH]; simpl; [contradiction |].
  intros Hin Hx Huniq. destruct (f y) eqn:Hy.
  - f_equal. apply Huniq; auto.
  - destruct Hin as [-> | Hin]; [congruence |]. apply IH; auto.
Qed.

Lemma find_none_iff {A : Type} (f : A -> bool) (l : list A) :
  find f l = None <-> forall y, In y l -> f y = false.
Proof.
  split.
  - intros H y Hy. exact (find_none f l H y Hy).
  - induction l as [| y l IH]; simpl; [reflexivity |].
    intros H. rewrite (H y (or_introl eq_refl)). apply IH. auto.
Qed.

(** C2 (amended). When the model's answer carries a truthy identifier
    and a truthy reasoning, and the identifier matches a catalog entry
    by contract id or symbol, the prediction returned has the
    [token_account_id], symbol and price of the first entry it matches
    (of the entry it matches, when there is only one); when it matches
    no entry the model path throws and the keyword fallback decides, as
    it does when the identifier or the reasoning is missing. *)
Theorem predictBestToken_first_match_or_fallback
    (tokens : list TokenInfo) (goal : string) (selected reason conf : option json) :
  let reply := PredictValue selected reason conf in
  (forall t,
      truthy selected = true -> truthy reason = true ->
      find (matches_selected selected) tokens = Some t ->
      In t tokens /\ matches_selected selected t = true
      /\ exists p, predictBestToken tokens goal reply = Ok p
                   /\ selectedToken p = token_account_id t
                   /\ p_symbol p = symbol t
                   /\ p_price p = price t)
  /\ (forall t,
         truthy selected = true -> truthy reason = true ->
         In t tokens -> matches_selected selected t = true ->
         (forall t', In t' tokens -> matches_selected selected t' = true -> t' = t) ->
         exists p, predictBestToken tokens goal reply = Ok p
                   /\ selectedToken p = token_account_id t
                   /\ p_symbol p = symbol t
                   /\ p_price p = price t)
  /\ ((forall t, In t tokens -> matches_selected selected t = false) ->
      (exists msg, model_prediction tokens reply = Throw msg)
      /\ predictBestToken tokens goal reply = fallback_prediction tokens goal)
  /\ (truthy selected = false \/ truthy reason = false ->
      predictBestToken tokens goal reply = fallback_prediction tokens goal).
Proof.
  intros reply.
  assert (Hfirst : forall t,
      truthy selected = true -> truthy reason = true ->
      find (matches_selected selected) tokens = Some t ->
      exists p, predictBestToken tokens goal reply = Ok p
                /\ selectedToken p = token_account_id t
                /\ p_symbol p = symbol t
                /\ p_price p = price t).
  { intros t Hs Hr Hfind. unfold predictBestToken, reply, model_prediction.
    rewrite Hs, Hr, Hfind. simpl.
    destruct reason as [r |]; [| discriminate].
    eexists. split; [reflexivity |]. simpl. auto. }
  split; [| split; [| split]].
  - intros t Hs Hr Hfind. destruct (find_some _ _ Hfind) as [Hin Hm]. auto.
  - intros t Hs Hr Hin Hm Huniq. apply Hfirst; auto. now apply find_unique.
  - intros Hnone. apply find_none_iff in Hnone.
    assert (Hthrow : exists msg, model_prediction tokens reply = Throw msg).
    { unfold reply, model_prediction. rewrite Hnone.
      destruct (negb (truthy selected) || negb (truthy reason)); eauto. }
    destruct Hthrow as [msg Hmsg]. split.
    + eauto.
    + unfold predictBestToken. now rewrite Hmsg.
  - intros Hfalsy. unfold predictBestToken, reply, model_prediction.
    assert (Hg : negb (truthy selected) || negb (truthy reason) = true).
    { destruct Hfalsy as [-> | ->]; simpl; [reflexivity | apply orb_true_r]. }
    now rewrite Hg.
Qed.
(** C2 fails as stated: the identifier [DAI] matches the catalog entry
    of dai.fakes.testnet by symbol, but the answer has no reasoning, so
    the fallback decides and the first catalog entry is selected. *)
Lemma predictBestToken_match_without_reasoning :
  let dai := mkToken "dai.fakes.testnet" "DAI" "0.999892" (TaskPlanner.nat_number 18) in
  In dai builtin_tokens
  /\ matches_selected (Some (JStr "DAI")) dai = true
  /\ exists p,
       predictBestToken builtin_tokens "Find best token"
         (PredictValue (Some (JStr "DAI")) None None) = Ok p
       /\ selectedToken p = "wbtc.fakes.testnet"
       /\ selectedToken p <> token_account_id dai.
Proof.
  intros dai. split; [simpl; tauto | split; [reflexivity |]].
  eexists. split; [reflexivity |]. split; [reflexivity | discriminate].
Qed.

Lemma predictBestToken_first_match_or_fallback_witness :
  exists p,
    predictBestToken builtin_tokens "Find best token"
      (PredictValue (Some (JStr "DAI")) (Some (JStr "a stable coin")) None) = Ok p
    /\ selectedToken p = "dai.fakes.testnet"
    /\ p_symbol p = "DAI"
    /\ p_price p = "0.999892".
Proof.
  exact (proj2 (proj2
           (proj1 (predictBestToken_first_match_or_fallback builtin_tokens
                     "Find best token" (Some (JStr "DAI"))
                     (Some (JStr "a stable coin")) None)
              (mkToken "dai.fakes.testnet" "DAI" "0.999892" (TaskPlanner.nat_number 18))
              eq_refl eq_refl eq_refl))).
Defined.
End PredictorFacts.

(** ** The swap executor *)

Section IncludesFacts.
Import JsString.

Lemma string_app_cons (c : ascii) (a b : string) :
  String c a ++ b = String c (a ++ b).
Proof. reflexivity. Qed.

Lemma string_app_empty (b : string) : "" ++ b = b.
Proof. reflexivity. Qed.

Lemma string_app_assoc (a b c : string) : (a ++ b) ++ c = a ++ b ++ c.
Proof.
  induction a as [| x a IH]; [reflexivity |].
  now rewrite !string_app_cons, IH.
Qed.

Lemma prefix_app (s t : string) : String.prefix s (s ++ t) = true.
Proof.
  induction s as [| c s IH]; [now destruct t |].
  rewrite string_app_cons. cbn [String.prefix].
  destruct (ascii_dec c c); [exact IH | contradiction].
Qed.

Lemma includes_prefix (s t : string) : includes (s ++ t) s = true.
Proof.
  destruct (s ++ t) as [| c r] eqn:Hst; cbn [includes];
    rewrite <- Hst, prefix_app; reflexivity.
Qed.

Lemma includes_skip (c : ascii) (s search : string) :
  includes s search = true -> includes (String c s) search = true.
Proof.
  intros H. cbn [includes].
  destruct (String.prefix search (String c s)); [reflexivity | exact H].
Qed.

(** A string includes each of its pieces. *)
Lemma includes_app (a s t : string) : includes (a ++ s ++ t) s = true.
Proof.
  induction a as [| c a IH].
  - rewrite string_app_empty. apply includes_prefix.
  - rewrite string_app_cons. now apply includes_skip.
Qed.

Lemma includes_suffix (a s : string) : includes (a ++ s) s = true.
Proof.
  induction a as [| c a IH].
  - rewrite string_app_empty. destruct s as [| c r]; cbn [includes].
    + reflexivity.
    + pose proof (prefix_app (String c r) "") as H.
      assert (Hp : String.prefix (String c r) (String c r) = true).
      { clear H. induction (String c r) as [| x y IHy]; [reflexivity |].
        cbn [String.prefix]. destruct (ascii_dec x x); [exact IHy | contradiction]. }
      now rewrite Hp.
  - rewrite string_app_cons. now apply includes_skip.
Qed.
End IncludesFacts.

Section ExecutorFacts.
Import RefFinance SwapExecutor.

Variable w : World.

Lemma not_final_message_includes (txHash : string) :
  JsString.includes (not_final_message txHash) "did not finalize in time" = true.
Proof.
  unfold not_final_message.
  change (" did not finalize in time") with (" " ++ "did not finalize in time").
  rewrite <- (string_app_assoc txHash " " _), <- string_app_assoc.
  apply includes_suffix.
Qed.

Lemma await_final_exhausted (i : nat) (txHash : string) (rounds : nat) :
  forall attempts,
    (attempts + rounds = maxAttempts)%nat ->
    (forall k, (attempts <= k < maxAttempts)%nat -> txStatus w i k <> SuccessValue) ->
    await_final w i txHash rounds attempts
    = (maxAttempts, polls_of txHash attempts rounds).
Proof.
  induction rounds as [| rounds IH]; intros attempts Hsum Hnot; cbn [await_final].
  - f_equal. lia.
  - assert (Hlt : (attempts <? maxAttempts)%nat = true) by (apply Nat.ltb_lt; lia).
    rewrite Hlt.
    pose proof (Hnot attempts ltac:(lia)) as Hk.
    rewrite (IH (S attempts)) by (try lia; intros k Hk'; apply Hnot; lia).
    unfold polls_of. cbn [seq flat_map].
    destruct (txStatus w i attempts); [contradiction | reflexivity | reflexivity].
Qed.

Lemma await_final_in_time (i : nat) (txHash : string) (rounds : nat) :
  forall attempts,
    (attempts + rounds = maxAttempts)%nat ->
    (exists k, (attempts <= k < maxAttempts)%nat /\ txStatus w i k = SuccessValue) ->
    (fst (await_final w i txHash rounds attempts) < maxAttempts)%nat.
Proof.
  induction rounds as [| rounds IH]; intros attempts Hsum (k & Hk & Hs);
    cbn [await_final]; [lia |].
  assert (Hlt : (attempts <? maxAttempts)%nat = true) by (apply Nat.ltb_lt; lia).
  rewrite Hlt.
  destruct (txStatus w i attempts) eqn:Hst; [simpl; lia | |].
  all: destruct (await_final w i txHash rounds (S attempts)) as [a events] eqn:Ha;
    simpl;
    assert (Hk' : (S attempts <= k < maxAttempts)%nat)
      by (destruct (Nat.eq_dec k attempts) as [-> |]; [congruence | lia]);
    specialize (IH (S attempts) ltac:(lia) (ex_intro _ k (conj Hk' Hs)));
    now rewrite Ha in IH.
Qed.

Lemma await_final_sends_nothing (i : nat) (txHash : string) (rounds : nat) :
  forall attempts events,
    sent_receivers (snd (await_final w i txHash rounds attempts) ++ events)%list
    = sent_receivers events.
Proof.
  induction rounds as [| rounds IH]; intros attempts events; cbn [await_final];
    [reflexivity |].
  destruct (attempts <? maxAttempts)%nat; [| reflexivity].
  destruct (txStatus w i attempts); [reflexivity | |].
  all: specialize (IH (S attempts) events);
    destruct (await_final w i txHash rounds (S attempts)) as [a evs];
    exact IH.
Qed.

(** The loop stops at the first transaction that is not final in time. *)
Lemma submit_aborts (tx : Transaction) (rest : list Transaction)
    (calls : list NearCall) (txHash : string) (total : nat) :
  forall (before : list Transaction) (i : nat) (txHashes : list string),
    (forall j tx', before !! j = Some tx' -> goes_through w (i + j) tx') ->
    near_calls (tx_actions tx) = Ok calls ->
    signAndSendTransaction w (S (i + length before)) (receiverId tx) calls = Ok txHash ->
    (i + length before < total - 1)%nat ->
    (forall k, (k < maxAttempts)%nat ->
               txStatus w (i + length before)%nat k <> SuccessValue) ->
    exists events,
      submit w (before ++ tx :: rest) i total txHashes
      = (Throw (not_final_message txHash),
         (events ++ Sent (receiverId tx) calls txHash
            :: polls_of txHash 0 maxAttempts)%list)
      /\ sent_receivers events = map receiverId before.
Proof.
  induction before as [| tx0 before IH]; intros i txHashes Hbefore Hcalls Hsend Hlt Hnot.
  - exists []. cbn [app length map sent_receivers submit] in *.
    rewrite Nat.add_0_r in *. rewrite Hcalls, Hsend.
    assert (Hi : (i <? total - 1)%nat = true) by (apply Nat.ltb_lt; lia).
    rewrite Hi.
    rewrite (await_final_exhausted i txHash maxAttempts 0%nat eq_refl)
      by (intros k Hk; apply Hnot; lia).
    rewrite Nat.leb_refl. split; reflexivity.
  - destruct (Hbefore 0%nat tx0 eq_refl) as (calls0 & hash0 & Hc0 & Hs0 & Hfinal).
    rewrite Nat.add_0_r in Hs0, Hfinal. cbn [length] in *.
    destruct (IH (S i) (txHashes ++ [hash0])%list) as (events & Hsub & Hrecv).
    + intros j tx' Hj. replace (S i + j)%nat with (i + S j)%nat by lia.
      now apply Hbefore.
    + exact Hcalls.
    + replace (S i + length before)%nat with (i + S (length before))%nat by lia.
      exact Hsend.
    + lia.
    + intros k Hk. replace (S i + length before)%nat with (i + S (length before))%nat by lia.
      now apply Hnot.
    + cbn [submit app]. rewrite Hc0, Hs0.
      assert (Hi : (i <? total - 1)%nat = true) by (apply Nat.ltb_lt; lia).
      rewrite Hi.
      pose proof (await_final_in_time i hash0 maxAttempts 0%nat eq_refl) as Hin.
      destruct (await_final w i hash0 maxAttempts 0) as [attempts polls] eqn:Ha.
      cbn [fst] in Hin.
      assert (Hle : (maxAttempts <=? attempts)%nat = false).
      { apply Nat.leb_gt. apply Hin. destruct Hfinal as (k & Hk & Hs).
        exists k. split; [lia | exact Hs]. }
      rewrite Hle, Hsub.
      exists (Sent (receiverId tx0) calls0 hash0 :: polls ++ Slept 2000 :: events)%list.
      split.
      * cbn [app]. rewrite <- app_assoc. reflexivity.
      * cbn [sent_receivers map]. f_equal.
        rewrite <- Hrecv.
        pose proof (await_final_sends_nothing i hash0 maxAttempts 0%nat
                      (Slept 2000 :: events)) as Hpolls.
        rewrite Ha in Hpolls. exact Hpolls.
Qed.

Lemma polls_send_nothing (txHash : string) (n : nat) :
  forall from, sent_receivers (polls_of txHash from n) = [].
Proof.
  unfold polls_of. induction n as [| n IH]; intros from; [reflexivity |].
  cbn [seq flat_map app sent_receivers]. apply IH.
Qed.

Lemma sent_receivers_app (l1 l2 : list Event) :
  sent_receivers (l1 ++ l2) = (sent_receivers l1 ++ sent_receivers l2)%list.
Proof.
  induction l1 as [| [receiver calls h | h k | ms] l1 IH]; cbn [app sent_receivers];
    [reflexivity | | |]; now rewrite ?IH.
Qed.

Lemma prepare_events (accountId amountInNear : string)
    (prediction : TokenAnalyzer.TokenPrediction) (wrapHash : string)
    (transactions : list Transaction) (events : list Event) :
  prepare w accountId prediction amountInNear = (Ok (wrapHash, transactions), events) ->
  sent_receivers events = [WRAP_NEAR_CONTRACT].
Proof.
  unfold prepare.
  destruct (connect w); [| discriminate].
  destruct (string_or_null (parseNearAmount w amountInNear)) as [wrapAmount |];
    [| discriminate].
  destruct (JsBigInt.BigInt wrapAmount) as [deposit | msg]; cbn [bind];
    [| discriminate].
  destruct (signAndSendTransaction w 0%nat WRAP_NEAR_CONTRACT _) as [hash | msg];
    cbn [bind]; [| discriminate].
  destruct (ft_balance_of w) as [swapAmount | msg]; cbn [bind]; [| discriminate].
  destruct (estimateSwap _ _ _ _ _) as [estimate | msg]; cbn [bind]; [| discriminate].
  destruct (generateSwapTransaction _ _ _ _ _ _ _ _ _) as [txs | msg];
    [| discriminate].
  intros [= _ _ <-]. reflexivity.
Qed.

(** C3. Suppose the wrap, the balance read, the estimate and the
    building of the transactions succeed, every transaction before
    [tx] goes through, and [tx], which is not the last one, is sent
    but none of the 30 polls of its status sees a success.  Then
    [executeTokenSwap] returns a failure whose error is
    "Transaction <hash> did not finalize in time"; the transactions
    sent are the wrap and those up to [tx], none after it; and the
    last thing it did is the 30 polls for [tx], one second apart. *)
Theorem executeTokenSwap_aborts_when_not_final
    (accountId privateKey amountInNear : string)
    (prediction : TokenAnalyzer.TokenPrediction)
    (wrapHash : string) (before : list Transaction) (tx : Transaction)
    (rest : list Transaction) (wrapEvents : list Event)
    (calls : list NearCall) (txHash : string) :
  prepare w accountId prediction amountInNear
  = (Ok (wrapHash, before ++ tx :: rest)%list, wrapEvents) ->
  rest <> [] ->
  (forall j tx', before !! j = Some tx' -> goes_through w j tx') ->
  near_calls (tx_actions tx) = Ok calls ->
  signAndSendTransaction w (S (length before)) (receiverId tx) calls = Ok txHash ->
  (forall k, (k < 30)%nat -> txStatus w (length before) k <> SuccessValue) ->
  let (r, events) :=
    executeTokenSwap w accountId privateKey prediction amountInNear in
  success r = false
  /\ transactionHash r = None
  /\ error r = Some ("Transaction " ++ txHash ++ " did not finalize in time")
  /\ (exists msg, error r = Some msg
                  /\ JsString.includes msg "did not finalize in time" = true)
  /\ sent_receivers events
     = (WRAP_NEAR_CONTRACT :: map receiverId (before ++ [tx]))%list
  /\ exists earlier,
       events = (earlier ++ Sent (receiverId tx) calls txHash
                         :: polls_of txHash 0 30)%list.
Proof.
  intros Hprep Hrest Hbefore Hcalls Hsend Hnot.
  unfold executeTokenSwap, swap_steps. rewrite Hprep.
  destruct (submit_aborts tx rest calls txHash (length (before ++ tx :: rest))
              before 0%nat [wrapHash]) as (events & Hsub & Hrecv); auto.
  { rewrite length_app. cbn [length]. destruct rest; [contradiction |].
    cbn [length]. lia. }
  rewrite Hsub. cbn [success transactionHash error].
  split; [reflexivity | split; [reflexivity | split; [reflexivity | split; [| split]]]].
  - eexists. split; [reflexivity |]. apply not_final_message_includes.
  - rewrite !sent_receivers_app, (prepare_events _ _ _ _ _ _ Hprep), Hrecv.
    cbn [sent_receivers]. rewrite polls_send_nothing, map_app. reflexivity.
  - exists (wrapEvents ++ events)%list. now rewrite <- app_assoc.
Qed.
End ExecutorFacts.



Section ExecutorWitness.
Import RefFinance SwapExecutor.

Lemma executeTokenSwap_aborts_when_not_final_witness :
  let (r, events) :=
    executeTokenSwap SampleSwap.stuck_world "agent.testnet" "ed25519:secret"
      SampleSwap.prediction "0.5" in
  success r = false
  /\ transactionHash r = None
  /\ error r = Some ("Transaction " ++ "hash-storage" ++ " did not finalize in time")
  /\ (exists msg, error r = Some msg
                  /\ JsString.includes msg "did not finalize in time" = true)
  /\ sent_receivers events
     = (WRAP_NEAR_CONTRACT :: map receiverId ([] ++ [SampleSwap.storage_tx]))%list
  /\ exists earlier,
       events = (earlier ++ Sent (receiverId SampleSwap.storage_tx)
                           SampleSwap.storage_calls "hash-storage"
                         :: polls_of "hash-storage" 0 30)%list.
Proof.
  apply (executeTokenSwap_aborts_when_not_final SampleSwap.stuck_world
           "agent.testnet" "ed25519:secret" "0.5" SampleSwap.prediction
           "hash-wrap" [] SampleSwap.storage_tx [SampleSwap.swap_tx]
           SampleSwap.wrap_events SampleSwap.storage_calls "hash-storage").
  - vm_compute. reflexivity.
  - discriminate.
  - intros j tx' Hj. destruct j; discriminate Hj.
  - reflexivity.
  - reflexivity.
  - intros k _. discriminate.
Defined.
End ExecutorWitness.

(** ** The orchestrator *)

Section OrchestratorFacts.
Import TaskHistory AgentExecutor.

(** C1 does not hold of the code.  In this run every stage up to the
    swap is logged completed, the swap executor returns a failure (the
    storage deposit is not final in time) and the swap task is logged
    failed with that error, yet [executeAgent] returns success = true
    with the four task ids and no error. *)
Theorem executeAgent_success_after_failed_swap :
  let (res, st) := executeAgent SampleRun.world "agent-1" "user-1" empty_db in
  success res = true
  /\ error res = None
  /\ taskIds res = [1; 2; 3; 4]%positive
  /\ option_map status (getTask 1 (db st)) = Some completed
  /\ option_map status (getTask 2 (db st)) = Some completed
  /\ option_map status (getTask 3 (db st)) = Some completed
  /\ option_map taskType (getTask 4 (db st)) = Some "execute_swap"
  /\ option_map status (getTask 4 (db st)) = Some failed
  /\ option_map errorMessage (getTask 4 (db st))
     = Some (Some "Transaction hash-storage did not finalize in time").
Proof. vm_compute. repeat split. Qed.

Lemma mbind_fst {A B : Type} (m : M A) (k : A -> M B) (st : State) (a : A) :
  fst (m st) = Ok a -> mbind m k st = k a (snd (m st)).
Proof. unfold mbind. destruct (m st) as [r st']. simpl. now intros ->. Qed.

Lemma update_fst (taskId : positive) (data : UpdateTaskData) (st : State) :
  fst (update taskId data st) = Ok tt.
Proof. reflexivity. Qed.

Lemma update_ids (taskId : positive) (data : UpdateTaskData) (st : State) :
  ids (snd (update taskId data st)) = ids st.
Proof. reflexivity. Qed.

Lemma start_task_fst (data : CreateTaskData) (st : State) :
  fst (start_task data st) = Ok (next_id (db st)).
Proof. reflexivity. Qed.

Lemma start_task_ids (data : CreateTaskData) (st : State) :
  ids (snd (start_task data st)) = (ids st ++ [next_id (db st)])%list.
Proof. reflexivity. Qed.

Section Steps.
Context {B : Type} (Q : result B * State -> Prop).

Lemma lift_intro {A : Type} (r : result A) (k : A -> M B) (st : State) (a : A) :
  r = Ok a -> Q (k a st) -> Q (mbind (lift r) k st).
Proof. intros ->. exact (fun H => H). Qed.

Lemma start_task_intro (data : CreateTaskData) (k : positive -> M B) (st : State) :
  (forall st', ids st' = (ids st ++ [next_id (db st)])%list ->
               Q (k (next_id (db st)) st')) ->
  Q (mbind (start_task data) k st).
Proof.
  intros H. rewrite (mbind_fst _ _ _ _ (start_task_fst data st)).
  apply H, start_task_ids.
Qed.

Lemma update_intro (taskId : positive) (data : UpdateTaskData) (k : unit -> M B)
    (st : State) :
  (forall st', ids st' = ids st -> Q (k tt st')) ->
  Q (mbind (update taskId data) k st).
Proof.
  intros H. rewrite (mbind_fst _ _ _ _ (update_fst taskId data st)).
  apply H, update_ids.
Qed.
End Steps.

(** Whatever the swap executor answers, a run that gets that far is
    reported as a success. *)
Lemma executeAgent_success_whatever_the_swap (w : World) (agentId userId : string)
    (d : Db) (agent : Agent) (balance : string)
    (prediction : TokenAnalyzer.TokenPrediction) :
  getAgentWithPrivateKey w = Ok (Some agent) ->
  agent_status agent = "active" ->
  fetchAccountBalance w = Ok balance ->
  TokenAnalyzer.predictBestToken (TokenAnalyzer.fetchAvailableTokens (catalog w))
    (RefFinance.string_or (description agent) "Find best token")
    (predictor_reply w) = Ok prediction ->
  success (fst (executeAgent w agentId userId d)) = true
  /\ error (fst (executeAgent w agentId userId d)) = None
  /\ length (taskIds (fst (executeAgent w agentId userId d))) = 4%nat.
Proof.
  intros Hagent Hactive Hbalance Hpred.
  pose (Q := fun r : result unit * State =>
               exists st, r = (Ok tt, st) /\ length (ids st) = 4%nat).
  assert (Hrun : Q (pipeline w agentId userId (mkState d [] []))).
  { unfold pipeline.
    apply (lift_intro Q _ _ _ (Some agent) Hagent).
    apply (lift_intro Q _ _ _ agent eq_refl).
    apply (lift_intro Q _ _ _ tt); [now rewrite Hactive |].
    apply (lift_intro Q _ _ _ balance Hbalance).
    apply (start_task_intro Q). intros st1 H1.
    apply (update_intro Q). intros st2 H2.
    apply (start_task_intro Q). intros st3 H3.
    apply (update_intro Q). intros st4 H4.
    apply (start_task_intro Q). intros st5 H5.
    apply (lift_intro Q _ _ _ prediction Hpred).
    apply (update_intro Q). intros st6 H6.
    apply (start_task_intro Q). intros st7 H7.
    unfold mbind at 1.
    destruct (SwapExecutor.executeTokenSwap _ _ _ _ _) as [r evs].
    destruct (SwapExecutor.success r).
    all: eexists; split; [reflexivity |].
    all: cbn [ids];
      rewrite H7, H6, H5, H4, H3, H2, H1, !length_app; reflexivity. }
  destruct Hrun as (st & Hst & Hlen).
  unfold executeAgent. rewrite Hst. cbn. auto.
Qed.
End OrchestratorFacts.

(** ** Binary64 rounding and the shortest digits *)

Section RoundingFacts.
Import JsNumber.

Lemma round_half_even_bound (num den : Z) :
  0 < den -> 0 <= num ->
  - den <= 2 * (round_half_even num den * den - num) <= den
  /\ num / den <= round_half_even num den <= num / den + 1.
Proof.
  intros Hden Hnum. unfold round_half_even.
  pose proof (Z_div_mod num den ltac:(lia)) as Hdm.
  unfold Z.div. destruct (Z.div_eucl num den) as [a r].
  destruct Hdm as [Heq Hr]. clear Hnum. subst num.
  destruct (Z.compare_spec (2 * r) den) as [Hc | Hc | Hc].
  - destruct (Z.even a); lia.
  - lia.
  - lia.
Qed.

Lemma ticks_per_unit_pos : 0 < ticks_per_unit.
Proof. unfold ticks_per_unit, unit_exp. apply Z.pow_pos_nonneg; lia. Qed.

(** The double of an integer [X >= 1], before the overflow check: it is
    at least one and within [X * 2^-53] of [X]. *)
Lemma rounded_integer (X : Z) :
  1 <= X ->
  let num := X * ticks_per_unit in
  let shift := Z.max (Z.log2 (num / 1) - 52) 0 in
  let v := round_half_even num (1 * 2 ^ shift) * 2 ^ shift in
  ticks_per_unit <= v /\ - (X * ticks_per_unit) <= 2 ^ 53 * (v - X * ticks_per_unit) <= X * ticks_per_unit /\ v <= 2 * num.
Proof.
  intros HX num shift v. subst v shift. pose proof ticks_per_unit_pos as HU.
  rewrite Z.div_1_r, Z.mul_1_l. fold num.
  assert (Hnum : ticks_per_unit <= num) by (unfold num; nia).
  set (L := Z.log2 num).
  assert (HL : 1074 <= L).
  { unfold L. replace 1074 with (Z.log2 ticks_per_unit) by (unfold ticks_per_unit, unit_exp; now rewrite Z.log2_pow2).
    apply Z.log2_le_mono. exact Hnum. }
  rewrite Z.max_l by lia.
  destruct (Z.log2_spec num ltac:(lia)) as [Hlo Hhi]. fold L in Hlo, Hhi.
  set (den := 2 ^ (L - 52)).
  assert (Hden : 0 < den) by (apply Z.pow_pos_nonneg; lia).
  assert (HdL : den * 2 ^ 52 = 2 ^ L).
  { unfold den. rewrite <- Z.pow_add_r by lia. f_equal. lia. }
  destruct (round_half_even_bound num den Hden ltac:(lia)) as [Hb Hm].
  set (m := round_half_even num den) in *.
  assert (Hdn : den * 2 ^ 52 <= num) by lia.
  assert (Hq : 2 ^ 52 <= num / den).
  { apply Z.div_le_lower_bound; lia. }
  assert (HUL : ticks_per_unit <= 2 ^ L).
  { unfold ticks_per_unit, unit_exp. apply Z.pow_le_mono_r; lia. }
  assert (Hmden : 2 ^ 52 * den <= m * den).
  { apply Z.mul_le_mono_nonneg_r; lia. }
  split; [lia |].
  change (2 ^ 53) with 9007199254740992. change (2 ^ 52) with 4503599627370496 in Hdn.
  clear HdL Hlo Hhi Hm Hmden Hq HUL. generalize dependent (m * den). intros. lia.
Qed.

Lemma ticks_of_integer_bound (X : Z) (t : N) :
  1 <= X -> ticks_of_ratio X 1 = Some t ->
  ticks_per_unit <= Z.of_N t
  /\ - (X * ticks_per_unit) <= 2 ^ 53 * (Z.of_N t - X * ticks_per_unit) <= X * ticks_per_unit.
Proof.
  intros HX. destruct (rounded_integer X HX) as (Hge & Hb & _).
  unfold ticks_of_ratio. fold ticks_per_unit.
  set (v := round_half_even _ _ * _) in *.
  destruct (v <? overflow_ticks); [| discriminate].
  intros [= <-]. pose proof ticks_per_unit_pos. rewrite Z2N.id by lia. auto.
Qed.

Lemma ticks_of_integer_finite (X : Z) :
  1 <= X -> X < 2 ^ 1023 -> exists t, ticks_of_ratio X 1 = Some t.
Proof.
  intros HX Hbig. destruct (rounded_integer X HX) as (_ & _ & Hle).
  unfold ticks_of_ratio. fold ticks_per_unit.
  set (v := round_half_even _ _ * _) in *.
  assert (Ht : v < overflow_ticks).
  { unfold overflow_ticks.
    replace (2 ^ 2098) with (2 * (2 ^ 1023 * ticks_per_unit)).
    - pose proof ticks_per_unit_pos. nia.
    - unfold ticks_per_unit, unit_exp. rewrite <- Z.pow_add_r, <- Z.pow_succ_r by lia. f_equal. }
  apply Z.ltb_lt in Ht. rewrite Ht. eauto.
Qed.

(** Two integers that read as the same double are equal when both are
    multiples of [u] and one of them is less than [10^15 * u]: doubles
    tell fifteen significant digits apart. *)
Lemma same_double_same_integer (C D u : Z) (t : N) :
  0 < u -> 1 <= C -> 1 <= D ->
  (u | C) -> (u | D) -> D < 10 ^ 15 * u ->
  ticks_of_ratio C 1 = Some t -> ticks_of_ratio D 1 = Some t ->
  C = D.
Proof.
  intros Hu HC HD [c ->] [d ->] Hsmall HtC HtD.
  destruct (ticks_of_integer_bound _ _ HC HtC) as [_ HbC].
  destruct (ticks_of_integer_bound _ _ HD HtD) as [_ HbD].
  pose proof ticks_per_unit_pos as HU.
  change (2 ^ 53) with 9007199254740992 in *.
  change (10 ^ 15) with 1000000000000000 in *.
  assert (Hd : d < 1000000000000000) by nia.
  assert (Hc0 : 0 < c) by nia.
  assert (Hd0 : 0 < d) by nia.
  set (W := u * ticks_per_unit). assert (HW : 0 < W) by (unfold W; nia).
  replace (c * u * ticks_per_unit) with (c * W) in HbC by (unfold W; ring).
  replace (d * u * ticks_per_unit) with (d * W) in HbD by (unfold W; ring).
  assert (H1 : 9007199254740992 * (c * W - d * W) <= c * W + d * W) by lia.
  assert (H2 : 9007199254740992 * (d * W - c * W) <= c * W + d * W) by lia.
  assert (H1' : (9007199254740991 * c) * W <= (9007199254740993 * d) * W) by lia.
  assert (H2' : (9007199254740991 * d) * W <= (9007199254740993 * c) * W) by lia.
  apply Z.mul_le_mono_pos_r in H1', H2'; try exact HW.
  f_equal. lia.
Qed.

(** How many digits: [count_digits] with enough fuel. *)
Lemma count_digits_spec (fuel : nat) (y : Z) :
  1 <= y -> y < 2 ^ Z.of_nat fuel * 10 ->
  1 <= count_digits fuel y
  /\ 10 ^ (count_digits fuel y - 1) <= y < 10 ^ count_digits fuel y.
Proof.
  revert y. induction fuel as [| fuel IH]; intros y Hy Hlt.
  - cbn in *. lia.
  - cbn [count_digits]. destruct (Z.ltb_spec y 10) as [H10 | H10].
    + cbn. lia.
    + assert (Hy' : 1 <= y / 10) by (apply Z.div_le_lower_bound; lia).
      assert (Hlt' : y / 10 < 2 ^ Z.of_nat fuel * 10).
      { apply Z.div_lt_upper_bound; [lia |].
        rewrite Nat2Z.inj_succ, Z.pow_succ_r in Hlt by lia.
        assert (0 < 2 ^ Z.of_nat fuel) by (apply Z.pow_pos_nonneg; lia). lia. }
      destruct (IH _ Hy' Hlt') as (Hr & Hlo & Hhi).
      set (r := count_digits fuel (y / 10)) in *.
      replace (1 + r - 1) with (Z.succ (r - 1)) by lia.
      replace (1 + r) with (Z.succ r) by lia.
      rewrite !Z.pow_succ_r by lia.
      pose proof (Z.mul_div_le y 10 ltac:(lia)).
      pose proof (Z.mul_succ_div_gt y 10 ltac:(lia)).
      lia.
Qed.

Lemma nb_decimal_digits_spec (y : Z) :
  1 <= y ->
  1 <= nb_decimal_digits y
  /\ 10 ^ (nb_decimal_digits y - 1) <= y < 10 ^ nb_decimal_digits y.
Proof.
  intros Hy. apply count_digits_spec; [exact Hy |].
  rewrite Z2Nat.id by apply Z.log2_nonneg.
  destruct (Z.log2_spec y ltac:(lia)) as [_ Hhi].
  rewrite Z.pow_succ_r in Hhi by apply Z.log2_nonneg.
  assert (0 < 2 ^ Z.log2 y) by (apply Z.pow_pos_nonneg; [lia | apply Z.log2_nonneg]).
  lia.
Qed.

Lemma ticks_of_zero : ticks_of_ratio 0 1 = Some 0%N.
Proof. vm_compute. reflexivity. Qed.

(** The decimal exponent that [shortest_decimal] starts from. *)
Lemma decimal_exponent_spec (T : Z) :
  ticks_per_unit <= T ->
  let n := nb_decimal_digits (T * 10 ^ 400 / ticks_per_unit) - 400 in
  1 <= n /\ 10 ^ (n - 1) * ticks_per_unit <= T < 10 ^ n * ticks_per_unit.
Proof.
  intros HT n. pose proof ticks_per_unit_pos as HU.
  assert (Hp : 0 < 10 ^ 400) by (apply Z.pow_pos_nonneg; lia).
  set (big := T * 10 ^ 400 / ticks_per_unit) in *.
  assert (Hbig : 10 ^ 400 <= big).
  { apply Z.div_le_lower_bound; [exact HU |]. nia. }
  destruct (nb_decimal_digits_spec big ltac:(lia)) as (Hr & Hlo & Hhi).
  set (r := nb_decimal_digits big) in *.
  assert (Hr400 : 400 < r).
  { apply (Z.pow_lt_mono_r_iff 10); lia. }
  assert (Hn : 1 <= n) by (unfold n; lia).
  split; [exact Hn |].
  assert (E1 : 10 ^ (r - 1) = 10 ^ (n - 1) * 10 ^ 400).
  { rewrite <- Z.pow_add_r by lia. f_equal. unfold n. lia. }
  assert (E2 : 10 ^ r = 10 ^ n * 10 ^ 400).
  { rewrite <- Z.pow_add_r by lia. f_equal. unfold n. lia. }
  pose proof (Z.mul_div_le (T * 10 ^ 400) ticks_per_unit HU) as Hd1.
  pose proof (Z.mul_succ_div_gt (T * 10 ^ 400) ticks_per_unit HU) as Hd2.
  fold big in Hd1, Hd2.
  split.
  - apply (Z.mul_le_mono_pos_r _ _ (10 ^ 400) Hp).
    rewrite E1 in Hlo.
    assert (ticks_per_unit * (10 ^ (n - 1) * 10 ^ 400) <= ticks_per_unit * big)
      by (apply Z.mul_le_mono_nonneg_l; lia).
    lia.
  - apply (Z.mul_lt_mono_pos_r (10 ^ 400) _ _ Hp).
    rewrite E2 in Hhi.
    assert (ticks_per_unit * Z.succ big <= ticks_per_unit * (10 ^ n * 10 ^ 400))
      by (apply Z.mul_le_mono_nonneg_l; lia).
    lia.
Qed.

Section ShortestOfInteger.
Variables (D : Z) (t : N) (n E0 : Z).
Hypothesis HD : 1 <= D.
Hypothesis Ht : ticks_of_ratio D 1 = Some t.
Hypothesis HE0 : 0 <= E0 <= n - 1.
Hypothesis Hdiv : (10 ^ E0 | D).
Hypothesis Hsmall : D < 10 ^ 15 * 10 ^ E0.

Lemma candidate_roundtrip (s e : Z) :
  E0 <= e -> 0 <= s -> roundtrips t s e = true -> s * 10 ^ e = D.
Proof.
  intros He Hs. unfold roundtrips, decimal_ratio.
  destruct (Z.leb_spec 0 e) as [_ | Hneg]; [| lia].
  destruct (ticks_of_ratio (s * 10 ^ e) 1) as [t' |] eqn:Ht'; [| discriminate].
  intros Heq. apply N.eqb_eq in Heq. subst t'.
  destruct (ticks_of_integer_bound _ _ HD Ht) as [HU _]. pose proof ticks_per_unit_pos.
  assert (Hp : 0 < 10 ^ e) by (apply Z.pow_pos_nonneg; lia).
  assert (Hp0 : 0 < 10 ^ E0) by (apply Z.pow_pos_nonneg; lia).
  destruct (Z.eq_dec s 0) as [-> | Hs0].
  - rewrite Z.mul_0_l, ticks_of_zero in Ht'. injection Ht' as <-. cbn in HU. lia.
  - apply (same_double_same_integer _ _ (10 ^ E0) t); auto.
    + nia.
    + exists (s * 10 ^ (e - E0)). rewrite <- Z.mul_assoc, <- Z.pow_add_r by lia.
      do 2 f_equal. lia.
Qed.

Lemma neighbours_cases (k : Z) :
  0 <= n - k ->
  let lo := Z.of_N t / (ticks_per_unit * 10 ^ (n - k)) in
  neighbours t n k = ((lo, n - k), (lo + 1, n - k))
  \/ neighbours t n k = ((lo + 1, n - k), (lo, n - k)).
Proof.
  intros He lo. unfold neighbours.
  destruct (Z.leb_spec 0 (n - k)) as [_ | Hneg]; [| lia].
  fold ticks_per_unit. fold lo.
  destruct (_ ?= _); [destruct (Z.even lo) | |]; auto.
Qed.

Lemma integer_between :
  let lo := Z.of_N t / (ticks_per_unit * 10 ^ E0) in
  0 <= lo /\ (D = lo * 10 ^ E0 \/ D = (lo + 1) * 10 ^ E0).
Proof.
  intros lo.
  destruct (ticks_of_integer_bound _ _ HD Ht) as [HU Hb]. pose proof ticks_per_unit_pos as HU0.
  assert (Hp0 : 0 < 10 ^ E0) by (apply Z.pow_pos_nonneg; lia).
  destruct Hdiv as [d Hd].
  set (W := ticks_per_unit * 10 ^ E0) in *. assert (HW : 0 < W) by (unfold W; nia).
  assert (Hlo0 : 0 <= lo) by (apply Z.div_pos; lia).
  split; [exact Hlo0 |].
  change (10 ^ 15) with 1000000000000000 in Hsmall.
  change (2 ^ 53) with 9007199254740992 in Hb.
  assert (Hd15 : d < 1000000000000000) by nia.
  assert (Hd0 : 0 < d) by nia.
  replace (D * ticks_per_unit) with (d * W) in Hb by (unfold W; rewrite Hd; ring).
  assert (HdW : d * W < 1000000000000000 * W)
    by (apply Z.mul_lt_mono_pos_r; lia).
  assert (Hle : lo <= d).
  { apply Z.lt_succ_r. apply Z.div_lt_upper_bound; [exact HW |]. lia. }
  assert (Hge : d - 1 <= lo).
  { apply Z.div_le_lower_bound; [exact HW |]. lia. }
  rewrite Hd. assert (d = lo \/ d = lo + 1) as [-> | ->] by lia; auto.
Qed.

Lemma shortest_from_integer (fuel : nat) (k : Z) :
  1 <= k <= n - E0 -> n - E0 - k < Z.of_nat fuel ->
  0 <= snd (shortest_from fuel t n k)
  /\ fst (shortest_from fuel t n k) * 10 ^ snd (shortest_from fuel t n k) = D.
Proof.
  revert k. induction fuel as [| fuel IH]; intros k Hk Hfuel; [lia |].
  cbn [shortest_from].
  pose proof integer_between as [Hlo0 Hbetween].
  assert (Hlok : 0 <= Z.of_N t / (ticks_per_unit * 10 ^ (n - k))).
  { pose proof ticks_per_unit_pos. apply Z.div_pos; [lia |].
    assert (0 < 10 ^ (n - k)) by (apply Z.pow_pos_nonneg; lia). nia. }
  destruct (neighbours_cases k ltac:(lia)) as [-> | ->]; cbn [fst snd];
    (destruct (roundtrips t _ (n - k)) eqn:R1; cbn [fst snd];
     [split; [lia | apply candidate_roundtrip; auto; lia] |]);
    (destruct (roundtrips t _ (n - k)) eqn:R2 in |- *; cbn [fst snd];
     [split; [lia | apply candidate_roundtrip; auto; lia] |]).
  all: assert (Hk' : k <> n - E0)
    by (intros ->; replace (n - (n - E0)) with E0 in * by lia;
        destruct Hbetween as [Hb | Hb];
        unfold roundtrips, decimal_ratio in R1, R2;
        destruct (Z.leb_spec 0 E0); [| lia | | lia];
        rewrite <- ?Hb, Ht, N.eqb_refl in *; discriminate).
  all: apply IH; lia.
Qed.
End ShortestOfInteger.

(** The shortest decimal of the double of an integer with at most
    fifteen significant digits is that integer. *)
Lemma shortest_decimal_of_integer (D a : Z) (t : N) :
  1 <= D -> 0 <= a -> (10 ^ a | D) -> D < 10 ^ 15 * 10 ^ a ->
  ticks_of_ratio D 1 = Some t ->
  0 <= snd (shortest_decimal t)
  /\ fst (shortest_decimal t) * 10 ^ snd (shortest_decimal t) = D.
Proof.
  intros HD Ha Hdiv Hsmall Ht.
  destruct (ticks_of_integer_bound _ _ HD Ht) as [HU Hb]. pose proof ticks_per_unit_pos as HU0.
  unfold shortest_decimal. fold ticks_per_unit.
  destruct (decimal_exponent_spec _ HU) as (Hn & Hlo & Hhi).
  set (n := nb_decimal_digits _ - 400) in *.
  change (2 ^ 53) with 9007199254740992 in Hb.
  change (10 ^ 15) with 1000000000000000 in *.
  assert (Hpa : 0 < 10 ^ a) by (apply Z.pow_pos_nonneg; lia).
  assert (Hpn : 0 < 10 ^ (n - 1)) by (apply Z.pow_pos_nonneg; lia).
  assert (Hn10 : 10 ^ n = 10 * 10 ^ (n - 1)).
  { rewrite <- Z.pow_succ_r by lia. f_equal. lia. }
  (* D against the powers of ten around the double *)
  assert (HDhi : 9007199254740991 * D < 9007199254740992 * (10 * 10 ^ (n - 1))).
  { apply (Z.mul_lt_mono_pos_r ticks_per_unit); [exact HU0 |]. rewrite Hn10 in Hhi. lia. }
  assert (HDlo : 9007199254740992 * 10 ^ (n - 1) <= 9007199254740993 * D).
  { apply (Z.mul_le_mono_pos_r _ _ ticks_per_unit); [exact HU0 |]. lia. }
  apply (shortest_from_integer D t n (Z.min a (n - 1))); auto.
  - lia.
  - destruct Hdiv as [d ->]. exists (d * 10 ^ (a - Z.min a (n - 1))).
    rewrite <- Z.mul_assoc, <- Z.pow_add_r by lia. do 2 f_equal. lia.
  - destruct (Z.min_spec a (n - 1)) as [[_ ->] | [_ ->]]; lia.
  - lia.
  - destruct (Z.min_spec a (n - 1)) as [[Hlt ->] | [_ ->]]; [| lia].
    change (Z.of_nat 16) with 16.
    destruct (Z.lt_ge_cases (n - a - 1) 16) as [| Hbig]; [assumption | exfalso].
    assert (Hpow : 10 ^ 16 * 10 ^ a <= 10 ^ (n - 1)).
    { rewrite <- Z.pow_add_r by lia. apply Z.pow_le_mono_r; lia. }
    change (10 ^ 16) with 10000000000000000 in Hpow. lia.
Qed.

(** What [toLocaleString] renders for the double of such an integer. *)
Lemma toLocaleString_integer_of_integer (neg : bool) (D a : Z) (t : N) :
  1 <= D -> 0 <= a -> (10 ^ a | D) -> D < 10 ^ 15 * 10 ^ a ->
  ticks_of_ratio D 1 = Some t ->
  toLocaleString_integer (Finite neg t)
  = ((if neg then "-" else "") ++ string_of_N (Z.to_N D))%string.
Proof.
  intros HD Ha Hdiv Hsmall Ht.
  destruct (ticks_of_integer_bound _ _ HD Ht) as [HU _]. pose proof ticks_per_unit_pos as HU0.
  destruct (shortest_decimal_of_integer D a t HD Ha Hdiv Hsmall Ht) as [He Hs].
  unfold toLocaleString_integer.
  destruct (N.eqb_spec t 0) as [-> | _]; [cbn in HU; lia |].
  destruct (shortest_decimal t) as [s e]. cbn [fst snd] in *.
  unfold round_half_expand. destruct (Z.leb_spec 0 e); [| lia].
  now rewrite Hs.
Qed.
End RoundingFacts.

(** ** Reading rendered digits back *)

Section ReadingFacts.
Import JsString JsNumber.

(** Reading the digits of a numeral: the accumulator is the value of
    the digits read so far. *)
Lemma take_digits_uint (d r : Decimal.uint) (cnt : nat) :
  take_digits (NilEmpty.string_of_uint d) (DecimalPos.Unsigned.of_lu r) cnt
  = (DecimalPos.Unsigned.of_lu (Decimal.revapp d r), (cnt + Decimal.nb_digits d)%nat, "").
Proof.
  revert r cnt.
  induction d as [| d IH | d IH | d IH | d IH | d IH | d IH | d IH | d IH | d IH | d IH];
    intros r cnt; cbn [NilEmpty.string_of_uint take_digits Decimal.revapp Decimal.nb_digits].
  1: now rewrite Nat.add_0_r.
  all: match goal with
       | |- context [digit_val ?c] =>
           change (digit_val c) with (Some (N_of_ascii c - 48)%N)
       end; cbn [N_of_ascii N_of_digits N.sub]; cbn.
  all: rewrite <- Nat.add_succ_comm, <- IH; f_equal; cbn [DecimalPos.Unsigned.of_lu]; lia.
Qed.

Lemma take_digits_string_of_N (n : N) :
  exists len, take_digits (string_of_N n) 0%N 0%nat = (n, S len, "").
Proof.
  unfold string_of_N, NilZero.string_of_uint.
  assert (Hn : N.to_uint n <> Decimal.Nil).
  { destruct n as [| p]; simpl; [discriminate |].
    apply DecimalPos.Unsigned.to_uint_nonnil. }
  assert (Hv : DecimalPos.Unsigned.of_lu (Decimal.revapp (N.to_uint n) Decimal.Nil) = n).
  { change (Decimal.revapp (N.to_uint n) Decimal.Nil) with (Decimal.rev (N.to_uint n)).
    rewrite <- DecimalPos.Unsigned.of_uint_alt.
    change (Pos.of_uint (N.to_uint n)) with (N.of_uint (N.to_uint n)).
    apply DecimalN.Unsigned.of_to. }
  pose proof (take_digits_uint (N.to_uint n) Decimal.Nil 0) as Htake.
  rewrite Hv in Htake. cbn [DecimalPos.Unsigned.of_lu Nat.add] in Htake.
  destruct (N.to_uint n) as [| d | d | d | d | d | d | d | d | d | d] eqn:Hd;
    [contradiction | ..];
    rewrite Htake; cbn [Decimal.nb_digits]; eauto.
Qed.

(** The digits of a natural number, with or without a minus sign, read
    as that number. *)
Lemma read_literal_string_of_N (neg : bool) (n : N) :
  read_literal ((if neg then "-" else "") ++ string_of_N n)
  = Some (LitDecimal neg n 0).
Proof.
  destruct (take_digits_string_of_N n) as [len Htake].
  pose proof (all_digits_string_of_N n) as Hall.
  destruct (string_of_N n) as [| c r] eqn:Hs;
    [now apply string_of_N_not_empty in Hs |].
  cbn [all_digits] in Hall. apply andb_true_iff in Hall as [Hc _].
  assert (HI : forall r', String.prefix "Infinity" (String c r') = false).
  { intros r'. cbn [String.prefix]. destruct (ascii_dec "I" c) as [<- | _];
      [discriminate Hc | reflexivity]. }
  unfold read_literal. destruct neg.
  - change ("-" ++ String c r) with (String "-" (String c r)).
    rewrite (trimStart_keeps "-" (String c r) eq_refl)
      by (apply Nat.ltb_lt; reflexivity).
    change (Ascii.eqb "-" "-") with true. cbv iota.
    rewrite HI, Htake. reflexivity.
  - change ("" ++ String c r) with (String c r).
    rewrite (trimStart_digit c r Hc).
    destruct (digit_not_sign c Hc) as [-> ->].
    rewrite HI, Htake. reflexivity.
Qed.

Lemma numeric_value_string_of_N (neg : bool) (n : N) :
  numeric_value ((if neg then "-" else "") ++ string_of_N n)
  = Some (decimal_Q neg n 0).
Proof. unfold numeric_value. now rewrite read_literal_string_of_N. Qed.
End ReadingFacts.

(** ** The amount normalizer *)

Section NormalizerFacts.
Import JsString JsNumber RefFinance.

Lemma toLocaleString_integer_plain (x : number) :
  x <> NaN -> plain_rendering (toLocaleString_integer x).
Proof.
  destruct x as [| neg | neg t]; intros Hx; [contradiction | |];
    unfold toLocaleString_integer.
  - exists (if neg then "-" else ""), infinity_symbol.
    split; [reflexivity | split; [destruct neg; auto | now right]].
  - eexists (if neg then "-" else ""), _.
    split; [reflexivity | split; [destruct neg; auto | left]].
    destruct (t =? 0)%N; [split; [reflexivity | discriminate] |].
    destruct (shortest_decimal t) as [s e].
    split; [apply all_digits_string_of_N | apply string_of_N_not_empty].
Qed.

Lemma plain_rendering_no_marker (s : string) :
  plain_rendering s -> test_e_i s = false.
Proof.
  intros (sign & body & -> & Hsign & Hbody). rewrite test_e_i_app.
  assert (Hs : test_e_i sign = false) by (destruct Hsign as [-> | ->]; reflexivity).
  rewrite Hs. destruct Hbody as [[Hd _] | ->]; [| reflexivity].
  now apply all_digits_no_marker.
Qed.

(** An amount written as the integer [m * 10^e] with at most fifteen
    significant digits is rewritten to the digits of that integer. *)
Lemma convertScientificToString_short_integer (x : string) (neg : bool)
    (m : N) (e : Z) :
  test_e_i x = true ->
  read_literal x = Some (LitDecimal neg m e) ->
  (m < 10 ^ 15)%N -> 0 <= e <= 292 ->
  convertScientificToString x
  = Ok ((if neg then "-" else "") ++ string_of_N (m * 10 ^ Z.to_N e)).
Proof.
  intros Hx Hlit Hm He.
  unfold convertScientificToString, parseFloat. rewrite Hx, Hlit. cbn [negb].
  unfold of_decimal. destruct (Z.leb_spec 0 e) as [_ | Hneg]; [| lia].
  destruct (N.eq_dec m 0%N) as [-> | Hm0].
  - rewrite Z.mul_0_l, ticks_of_zero. reflexivity.
  - set (D := Z.of_N m * 10 ^ e).
    assert (Hp : 0 < 10 ^ e) by (apply Z.pow_pos_nonneg; lia).
    assert (HD : 1 <= D) by (unfold D; nia).
    assert (Hsmall : D < 10 ^ 15 * 10 ^ e).
    { unfold D. apply Z.mul_lt_mono_pos_r; [exact Hp |].
      change (10 ^ 15) with (Z.of_N (10 ^ 15)). lia. }
    assert (Hbig : D < 2 ^ 1023).
    { assert (H292 : 10 ^ e <= 10 ^ 292) by (apply Z.pow_le_mono_r; lia).
      assert (H307 : 10 ^ 15 * 10 ^ 292 < 2 ^ 1023) by (vm_compute; reflexivity).
      apply Z.lt_le_trans with (10 ^ 15 * 10 ^ e); [exact Hsmall |].
      apply Z.le_trans with (10 ^ 15 * 10 ^ 292); [| lia].
      apply Z.mul_le_mono_nonneg_l; lia. }
    destruct (ticks_of_integer_finite D HD Hbig) as [t Ht]. rewrite Ht.
    cbn [isNaN].
    rewrite (toLocaleString_integer_of_integer neg D e t HD (proj1 He)
               (Z.divide_factor_r _ _) Hsmall Ht).
    do 3 f_equal. unfold D. rewrite Z2N.inj_mul, N2Z.id, Z2N.inj_pow by lia.
    reflexivity.
Qed.

Lemma decimal_Q_integer (neg : bool) (m : N) (e : Z) :
  0 <= e ->
  decimal_Q neg (m * 10 ^ Z.to_N e) 0 = decimal_Q neg m e.
Proof.
  intros He. unfold decimal_Q. destruct (Z.leb_spec 0 e) as [_ | Hneg]; [| lia].
  cbn [Z.leb Z.compare]. rewrite N2Z.inj_mul, N2Z.inj_pow, Z2N.id by lia.
  change (10 ^ 0) with 1. now rewrite Z.mul_1_r.
Qed.
Lemma latin_digit_glyph (c : ascii) :
  is_digit c = true -> latin_digit (N_of_ascii c - 48) = String c EmptyString.
Proof.
  intros H. apply is_digit_cases in H. simpl in H.
  repeat (destruct H as [<- | H]; [reflexivity |]). contradiction.
Qed.

Lemma digit_value_small (c : ascii) :
  is_digit c = true -> (N_of_ascii c - 48 < 10)%N.
Proof.
  intros H. apply is_digit_cases in H. simpl in H.
  repeat (destruct H as [<- | H]; [reflexivity |]). contradiction.
Qed.

(** A locale that is [latin] writes decimal digits as they are. *)
Lemma glyphs_latin (locale : Locale) (s : string) :
  latin locale -> all_digits s = true -> glyphs locale s = s.
Proof.
  intros (Hdigit & _ & _). induction s as [| c s IH]; [reflexivity |].
  cbn [all_digits glyphs]. intros H. apply andb_true_iff in H as [Hc Hs].
  rewrite (Hdigit _ (digit_value_small c Hc)), (latin_digit_glyph c Hc), (IH Hs).
  reflexivity.
Qed.

Lemma integer_digits_all_digits (t : N) : all_digits (integer_digits t) = true.
Proof.
  unfold integer_digits. destruct (t =? 0)%N; [reflexivity |].
  destruct (shortest_decimal t) as [s e]. apply all_digits_string_of_N.
Qed.

Lemma toLocaleString_integer_in_latin (locale : Locale) (x : number) :
  latin locale -> x <> NaN ->
  toLocaleString_integer_in locale x = toLocaleString_integer x.
Proof.
  intros Hlatin Hx. pose proof Hlatin as (_ & Hneg & Hinf).
  destruct x as [| neg | neg t]; [contradiction | |];
    unfold toLocaleString_integer_in, toLocaleString_integer.
  - rewrite Hinf. destruct neg; [apply Hneg | reflexivity].
  - cbv zeta. rewrite (glyphs_latin locale _ Hlatin (integer_digits_all_digits t)).
    fold (integer_digits t). destruct neg; [apply Hneg | reflexivity].
Qed.

(** In a locale that is [latin] the normalizer is the one the pipeline
    is modelled with. *)
Lemma convertScientificToString_in_latin (locale : Locale) (x : string) :
  latin locale -> convertScientificToString_in locale x = convertScientificToString x.
Proof.
  intros Hlatin. unfold convertScientificToString_in, convertScientificToString.
  destruct (negb (test_e_i x)); [reflexivity |].
  destruct (parseFloat x) as [| neg | neg t] eqn:Hp; [reflexivity | |];
    cbn [isNaN]; f_equal; now apply toLocaleString_integer_in_latin.
Qed.

Lemma en_US_latin : latin en_US.
Proof. split; [| split]; reflexivity. Qed.

Lemma convertScientificToString_facts (x : string) :
  (test_e_i x = true -> parseFloat x <> NaN ->
   exists y, convertScientificToString x = Ok y
             /\ plain_rendering y
             /\ test_e_i y = false)
  /\ (forall y, convertScientificToString x = Ok y ->
                convertScientificToString y = Ok y).
Proof.
  split.
  - unfold convertScientificToString. intros -> Hnum. cbn [negb].
    destruct (parseFloat x) as [| neg | neg t] eqn:Hp; [contradiction | |];
      cbn [isNaN]; eexists; (split; [reflexivity |]).
    all: assert (Hplain : plain_rendering (toLocaleString_integer (parseFloat x)))
      by (apply toLocaleString_integer_plain; rewrite Hp; discriminate).
    all: rewrite Hp in Hplain; split; [exact Hplain |];
      now apply plain_rendering_no_marker.
  - unfold convertScientificToString.
    intros y. destruct (test_e_i x) eqn:Hx; cbn [negb].
    + destruct (isNaN (parseFloat x)) eqn:Hn; [discriminate |].
      intros [= <-].
      assert (Hy : test_e_i (toLocaleString_integer (parseFloat x)) = false).
      { apply plain_rendering_no_marker, toLocaleString_integer_plain.
        intros Hp. rewrite Hp in Hn. discriminate. }
      now rewrite Hy.
    + intros [= <-]. now rewrite Hx.
Qed.

(** C5 (amended). A string without an exponent marker is returned
    unchanged.  A string with one is rewritten to the rendering in the
    default locale, without exponent, grouping or fraction digits, of
    the binary64 number that [parseFloat] reads from it; it throws
    "Invalid number" when [parseFloat] reads no number.  In a default
    locale that writes the Latin digits and the ASCII minus sign: the
    result is an optional minus sign and decimal digits (or the
    infinity sign), with no exponent marker; when what is read is the
    integer [m * 10^e] with [m < 10^15] and [0 <= e <= 292], the result
    is the digits of that integer and denotes the same number as the
    input; and the function is idempotent wherever it returns. *)
Theorem convertScientificToString_plain_and_idempotent (locale : Locale)
    (x : string) :
  (test_e_i x = false -> convertScientificToString_in locale x = Ok x)
  /\ (test_e_i x = true -> parseFloat x = NaN ->
      convertScientificToString_in locale x = Throw ("Invalid number: " ++ x))
  /\ (test_e_i x = true -> parseFloat x <> NaN ->
      convertScientificToString_in locale x
      = Ok (toLocaleString_integer_in locale (parseFloat x)))
  /\ (latin locale ->
      (test_e_i x = true -> parseFloat x <> NaN ->
       exists y, convertScientificToString_in locale x = Ok y
                 /\ plain_rendering y
                 /\ test_e_i y = false)
      /\ (forall neg m e,
             test_e_i x = true ->
             read_literal x = Some (LitDecimal neg m e) ->
             (m < 10 ^ 15)%N -> 0 <= e <= 292 ->
             exists y, convertScientificToString_in locale x = Ok y
                       /\ y = (if neg then "-" else "")
                              ++ string_of_N (m * 10 ^ Z.to_N e)
                       /\ numeric_value y = numeric_value x)
      /\ (forall y, convertScientificToString_in locale x = Ok y ->
                    convertScientificToString_in locale y = Ok y)).
Proof.
  split; [| split; [| split; [| intros Hlatin; split; [| split]]]].
  - unfold convertScientificToString_in. now intros ->.
  - unfold convertScientificToString_in. now intros -> ->.
  - unfold convertScientificToString_in. intros -> Hnum. cbn [negb].
    destruct (parseFloat x); [contradiction | reflexivity ..].
  - rewrite (convertScientificToString_in_latin locale x Hlatin).
    apply convertScientificToString_facts.
  - intros neg m e Hx Hlit Hm He.
    rewrite (convertScientificToString_in_latin locale x Hlatin).
    exists ((if neg then "-" else "") ++ string_of_N (m * 10 ^ Z.to_N e)).
    split; [apply convertScientificToString_short_integer; assumption |].
    split; [reflexivity |].
    rewrite numeric_value_string_of_N. unfold numeric_value. rewrite Hlit.
    f_equal. apply decimal_Q_integer. lia.
  - intros y. rewrite !(convertScientificToString_in_latin locale _ Hlatin).
    apply convertScientificToString_facts.
Qed.

Lemma convertScientificToString_plain_and_idempotent_witness :
  latin en_US
  /\ (exists y, convertScientificToString_in en_US "1e+21" = Ok y
                /\ plain_rendering y
                /\ test_e_i y = false)
  /\ (exists y, convertScientificToString_in en_US "1.5E+24" = Ok y
                /\ y = "" ++ string_of_N (15 * 10 ^ Z.to_N 23)
                /\ numeric_value y = numeric_value "1.5E+24").
Proof.
  split; [exact en_US_latin |]. split.
  - apply (proj1 (proj2 (proj2 (proj2
             (convertScientificToString_plain_and_idempotent en_US "1e+21")))
             en_US_latin)).
    + reflexivity.
    + vm_compute. discriminate.
  - apply (proj1 (proj2 (proj2 (proj2 (proj2
             (convertScientificToString_plain_and_idempotent en_US "1.5E+24")))
             en_US_latin)) false 15%N 23).
    + reflexivity.
    + vm_compute. reflexivity.
    + reflexivity.
    + lia.
Defined.

Example convert_1e21 :
  convertScientificToString "1e+21" = Ok "1000000000000000000000".
Proof. vm_compute. reflexivity. Qed.

Example convert_15e23 :
  convertScientificToString "1.5E+24" = Ok "1500000000000000000000000".
Proof. vm_compute. reflexivity. Qed.

(** C5 fails as stated.  In the locale en-US this amount, which has
    more digits than a binary64 number holds, is rewritten to a string
    that denotes another integer.  In the locale ar-EG one thousand is
    written in Arabic-Indic digits, which is neither the plain-digit
    string of the claim nor a string that reads back as a number. *)
Lemma convertScientificToString_changes_value :
  (let x := "1.2345678901234567890123e22" in
   test_e_i x = true
   /\ convertScientificToString_in en_US x = Ok "12345678901234568000000"
   /\ numeric_value x = Some (inject_Z 12345678901234567890123)
   /\ numeric_value "12345678901234568000000"
      = Some (inject_Z 12345678901234568000000)
   /\ ~ Qeq (inject_Z 12345678901234567890123)
          (inject_Z 12345678901234568000000))
  /\ (convertScientificToString_in ar_EG "1e3"
      = Ok (bytes [217; 161; 217; 160; 217; 160; 217; 160]%nat)
      /\ bytes [217; 161; 217; 160; 217; 160; 217; 160]%nat <> "1000"
      /\ numeric_value (bytes [217; 161; 217; 160; 217; 160; 217; 160]%nat) = None).
Proof.
  split.
  - intros x. split; [reflexivity |]. split; [vm_compute; reflexivity |].
    split; [vm_compute; reflexivity |]. split; [vm_compute; reflexivity |].
    intros H. vm_compute in H. discriminate.
  - split; [vm_compute; reflexivity |]. split; [discriminate |].
    vm_compute. reflexivity.
Qed.
End NormalizerFacts.

(** * Part III: more properties of the code *)

Section SwapAmountFacts.
Import JsString JsNumber AgentExecutor SwapAmountText.

Lemma first_amount_affordable (patterns : list Pattern) (description balance amount : string) :
  first_amount patterns description balance = Some amount ->
  gt0 (parseFloat amount) = true
  /\ le (parseFloat amount) (parseFloat balance) = true.
Proof.
  induction patterns as [| p rest IH]; cbn [first_amount]; [discriminate |].
  destruct (regex_match p description) as [group |]; [| exact IH].
  destruct (gt0 (parseFloat group) && le (parseFloat group) (parseFloat balance))
    eqn:Hok; [| exact IH].
  intros [= <-]. now apply andb_true_iff in Hok.
Qed.

(** *** Characters *)

Lemma digit_val_is_digit (c : ascii) :
  digit_val c = None <-> is_digit c = false.
Proof.
  unfold digit_val, is_digit. cbv zeta.
  destruct ((48 <=? N_of_ascii c) && (N_of_ascii c <=? 57))%N; split; congruence.
Qed.

Lemma is_digit_digit_val (c : ascii) :
  is_digit c = true -> exists d, digit_val c = Some d.
Proof.
  unfold digit_val, is_digit. cbv zeta. intros ->. eauto.
Qed.

Lemma lower_keeps_digit_val (c : ascii) : digit_val (lower_ascii c) = digit_val c.
Proof. destruct c as [[] [] [] [] [] [] [] []]; reflexivity. Qed.

Lemma space_not_digit (c : ascii) : is_space c = true -> digit_val c = None.
Proof. destruct c as [[] [] [] [] [] [] [] []]; intros H; try discriminate H; reflexivity. Qed.

Lemma space_low (c : ascii) : is_space c = true -> (nat_of_ascii c < 128)%nat.
Proof.
  destruct c as [[] [] [] [] [] [] [] []]; intros H; try discriminate H;
    apply Nat.ltb_lt; reflexivity.
Qed.

Lemma high_not_space (c : ascii) : (128 <= nat_of_ascii c)%nat -> is_space c = false.
Proof.
  intros H. destruct (is_space c) eqn:Hs; [| reflexivity].
  apply space_low in Hs. lia.
Qed.

Lemma high_not_digit (c : ascii) :
  (128 <= nat_of_ascii c)%nat -> digit_val c = None.
Proof.
  destruct c as [[] [] [] [] [] [] [] []]; intros H; try reflexivity;
    exfalso; revert H; apply Nat.lt_nge, Nat.ltb_lt; reflexivity.
Qed.

Lemma low_digit (c : ascii) :
  is_digit c = true -> (nat_of_ascii c < 128)%nat.
Proof.
  intros H. apply is_digit_cases in H. simpl in H.
  repeat (destruct H as [<- | H]; [apply Nat.ltb_lt; reflexivity |]). contradiction.
Qed.

Lemma wide_space2_high (c1 c2 : ascii) :
  wide_space2 c1 c2 = true ->
  (128 <= nat_of_ascii c1)%nat /\ (128 <= nat_of_ascii c2)%nat.
Proof.
  unfold wide_space2. rewrite andb_true_iff, !Nat.eqb_eq. lia.
Qed.

Lemma wide_space3_high (c1 c2 c3 : ascii) :
  wide_space3 c1 c2 c3 = true ->
  (128 <= nat_of_ascii c1)%nat /\ (128 <= nat_of_ascii c2)%nat
  /\ (128 <= nat_of_ascii c3)%nat.
Proof.
  unfold wide_space3. cbv zeta.
  rewrite !orb_true_iff, !andb_true_iff, !orb_true_iff, !andb_true_iff,
    !Nat.eqb_eq, !Nat.leb_le. lia.
Qed.

Lemma wide_space2_low_r (c1 c2 : ascii) :
  (nat_of_ascii c2 < 128)%nat -> wide_space2 c1 c2 = false.
Proof.
  intros H. destruct (wide_space2 c1 c2) eqn:Hw; [| reflexivity].
  apply wide_space2_high in Hw. lia.
Qed.

Lemma wide_space3_low_2 (c1 c2 c3 : ascii) :
  (nat_of_ascii c2 < 128)%nat -> wide_space3 c1 c2 c3 = false.
Proof.
  intros H. destruct (wide_space3 c1 c2 c3) eqn:Hw; [| reflexivity].
  apply wide_space3_high in Hw. lia.
Qed.

Lemma wide_space3_low_3 (c1 c2 c3 : ascii) :
  (nat_of_ascii c3 < 128)%nat -> wide_space3 c1 c2 c3 = false.
Proof.
  intros H. destruct (wide_space3 c1 c2 c3) eqn:Hw; [| reflexivity].
  apply wide_space3_high in Hw. lia.
Qed.

(** *** Texts without digits *)

Lemma no_digit_app (a b : string) : no_digit (a ++ b) = no_digit a && no_digit b.
Proof.
  induction a as [| c a IH]; [reflexivity |].
  rewrite string_app_cons. cbn [no_digit].
  destruct (digit_val c); [reflexivity | exact IH].
Qed.

Lemma no_digit_cons (c : ascii) (s : string) :
  no_digit (String c s) = true -> digit_val c = None /\ no_digit s = true.
Proof. cbn [no_digit]. destruct (digit_val c); [discriminate | auto]. Qed.

(** *** White space *)

Lemma trimStart_cases (s : string) :
  (exists c r, s = String c r /\ is_space c = true /\ trimStart s = trimStart r)
  \/ (exists c1 c2 r, s = String c1 (String c2 r) /\ wide_space2 c1 c2 = true
                      /\ trimStart s = trimStart r)
  \/ (exists c1 c2 c3 r, s = String c1 (String c2 (String c3 r))
                         /\ wide_space3 c1 c2 c3 = true
                         /\ trimStart s = trimStart r)
  \/ (trimStart s = s /\ skip_space s = None).
Proof.
  destruct s as [| c1 r1]; [right; right; right; split; reflexivity |].
  cbn [trimStart skip_space].
  destruct (is_space c1) eqn:H1; [left; eauto |].
  destruct r1 as [| c2 r2]; [right; right; right; split; reflexivity |].
  destruct (wide_space2 c1 c2) eqn:H2; [right; left; eauto 7 |].
  destruct r2 as [| c3 r3]; [right; right; right; split; reflexivity |].
  destruct (wide_space3 c1 c2 c3) eqn:H3; [right; right; left; eauto 9 |].
  right; right; right; split; reflexivity.
Qed.

(** Induction along the white-space characters a text starts with. *)
Lemma by_length (P : string -> Prop) :
  (forall s, (forall r, (String.length r < String.length s)%nat -> P r) -> P s) ->
  forall s, P s.
Proof.
  intros Hstep s.
  assert (H : forall n r, (String.length r < n)%nat -> P r).
  { induction n as [| n IH]; intros r Hr; [lia |].
    apply Hstep. intros r' Hr'. apply IH. lia. }
  apply (H (S (String.length s))). lia.
Qed.

Lemma white_no_digit (ws : string) : white ws -> no_digit ws = true.
Proof.
  unfold white. induction ws as [ws IH] using by_length. intros Hw.
  destruct (trimStart_cases ws)
    as [(c & r & -> & Hc & Ht) | [(c1 & c2 & r & -> & Hc & Ht)
       | [(c1 & c2 & c3 & r & -> & Hc & Ht) | [Ht _]]]].
  - cbn [no_digit]. rewrite (space_not_digit c Hc).
    apply IH; [cbn; lia | congruence].
  - apply wide_space2_high in Hc as [H1 H2]. cbn [no_digit].
    rewrite (high_not_digit c1 H1), (high_not_digit c2 H2).
    apply IH; [cbn; lia | congruence].
  - apply wide_space3_high in Hc as (H1 & H2 & H3). cbn [no_digit].
    rewrite (high_not_digit c1 H1), (high_not_digit c2 H2), (high_not_digit c3 H3).
    apply IH; [cbn; lia | congruence].
  - rewrite Ht in Hw. now subst ws.
Qed.

Lemma trimStart_white_app (ws r : string) :
  white ws -> trimStart (ws ++ r) = trimStart r.
Proof.
  unfold white. induction ws as [ws IH] using by_length. intros Hw.
  destruct (trimStart_cases ws)
    as [(c & r0 & -> & Hc & Ht) | [(c1 & c2 & r0 & -> & Hc & Ht)
       | [(c1 & c2 & c3 & r0 & -> & Hc & Ht) | [Ht _]]]].
  - rewrite string_app_cons. cbn [trimStart]. rewrite Hc.
    apply IH; [cbn; lia | congruence].
  - rewrite !string_app_cons. cbn [trimStart].
    assert (H1 : is_space c1 = false)
      by (apply high_not_space; apply wide_space2_high in Hc; tauto).
    rewrite H1, Hc. apply IH; [cbn; lia | congruence].
  - rewrite !string_app_cons. cbn [trimStart].
    assert (H1 : is_space c1 = false)
      by (apply high_not_space; apply wide_space3_high in Hc; tauto).
    assert (H2 : wide_space2 c1 c2 = false).
    { destruct (wide_space2 c1 c2) eqn:Hs; [| reflexivity].
      unfold wide_space2 in Hs. unfold wide_space3 in Hc. cbv zeta in Hc.
      rewrite andb_true_iff, !Nat.eqb_eq in Hs.
      rewrite !orb_true_iff, !andb_true_iff, !orb_true_iff, !andb_true_iff,
        !Nat.eqb_eq, !Nat.leb_le in Hc. lia. }
    rewrite H1, H2, Hc. apply IH; [cbn; lia | congruence].
  - rewrite Ht in Hw. now subst ws.
Qed.

(** *** Suffixes *)

Lemma string_app_nil_r (s : string) : s ++ "" = s.
Proof. induction s as [| c s IH]; [reflexivity |]. now rewrite string_app_cons, IH. Qed.

Lemma trimStart_suffix (s : string) : exists u, s = u ++ trimStart s.
Proof.
  induction s as [s IH] using by_length.
  destruct (trimStart_cases s)
    as [(c & r & -> & Hc & Ht) | [(c1 & c2 & r & -> & Hc & Ht)
       | [(c1 & c2 & c3 & r & -> & Hc & Ht) | [Ht _]]]].
  - destruct (IH r) as [u Hu]; [cbn; lia |]. exists (String c u).
    rewrite Ht, string_app_cons. now f_equal.
  - destruct (IH r) as [u Hu]; [cbn; lia |]. exists (String c1 (String c2 u)).
    rewrite Ht, !string_app_cons. now do 2 f_equal.
  - destruct (IH r) as [u Hu]; [cbn; lia |].
    exists (String c1 (String c2 (String c3 u))).
    rewrite Ht, !string_app_cons. now do 3 f_equal.
  - exists "". now rewrite Ht.
Qed.

Lemma skip_space_suffix (s s1 : string) :
  skip_space s = Some s1 -> exists u, s = u ++ s1.
Proof.
  unfold skip_space. destruct s as [| c1 r1]; [discriminate |].
  destruct (is_space c1); [intros [= <-]; now exists (String c1 "") |].
  destruct r1 as [| c2 r2]; [discriminate |].
  destruct (wide_space2 c1 c2);
    [intros [= <-]; now exists (String c1 (String c2 "")) |].
  destruct r2 as [| c3 r3]; [discriminate |].
  destruct (wide_space3 c1 c2 c3); [| discriminate].
  intros [= <-]. now exists (String c1 (String c2 (String c3 ""))).
Qed.

Lemma spaces1_suffix (s s1 : string) :
  spaces1 s = Some s1 -> exists u, s = u ++ s1.
Proof.
  unfold spaces1. destruct (skip_space s) as [r |] eqn:Hs; [| discriminate].
  cbn [option_map]. intros [= <-].
  apply skip_space_suffix in Hs as [u ->].
  destruct (trimStart_suffix r) as [v Hv].
  exists (u ++ v). rewrite string_app_assoc. now f_equal.
Qed.

Lemma strip_literal_suffix (word s s' : string) :
  strip_literal word s = Some s' -> exists u, s = u ++ s'.
Proof.
  revert s. induction word as [| c word IH]; intros s; cbn [strip_literal].
  - intros [= <-]. now exists "".
  - destruct s as [| d s0]; [discriminate |].
    destruct (Ascii.eqb (lower_ascii c) (lower_ascii d)); [| discriminate].
    intros H. apply IH in H as [u ->]. now exists (String d u).
Qed.

Lemma no_digit_suffix (u s : string) : no_digit (u ++ s) = true -> no_digit s = true.
Proof. rewrite no_digit_app. intros H. now apply andb_true_iff in H. Qed.

(** *** White space and words before a digit *)

Lemma trimStart_before_digit (x y : string) :
  starts_digit y -> trimStart (x ++ y) = trimStart x ++ y.
Proof.
  intros (d & r & -> & Hd). pose proof (low_digit d Hd) as Hlow.
  induction x as [x IH] using by_length.
  destruct (trimStart_cases x)
    as [(c & r0 & -> & Hc & Ht) | [(c1 & c2 & r0 & -> & Hc & Ht)
       | [(c1 & c2 & c3 & r0 & -> & Hc & Ht) | [Ht Hskip]]]].
  - rewrite Ht, string_app_cons. cbn [trimStart]. rewrite Hc.
    apply IH. cbn; lia.
  - rewrite Ht, !string_app_cons. cbn [trimStart].
    rewrite (high_not_space c1) by (apply wide_space2_high in Hc; tauto).
    rewrite Hc. apply IH. cbn; lia.
  - rewrite Ht, !string_app_cons. cbn [trimStart].
    rewrite (high_not_space c1) by (apply wide_space3_high in Hc; tauto).
    assert (H2 : wide_space2 c1 c2 = false).
    { destruct (wide_space2 c1 c2) eqn:Hs; [| reflexivity].
      unfold wide_space2 in Hs. unfold wide_space3 in Hc. cbv zeta in Hc.
      rewrite andb_true_iff, !Nat.eqb_eq in Hs.
      rewrite !orb_true_iff, !andb_true_iff, !orb_true_iff, !andb_true_iff,
        !Nat.eqb_eq, !Nat.leb_le in Hc. lia. }
    rewrite H2, Hc. apply IH. cbn; lia.
  - rewrite Ht. unfold skip_space in Hskip.
    destruct x as [| c1 [| c2 [| c3 r3]]].
    + rewrite string_app_empty. now apply trimStart_digit.
    + destruct (is_space c1) eqn:H1; [discriminate |].
      rewrite string_app_cons, string_app_empty. cbn [trimStart].
      rewrite H1, (wide_space2_low_r c1 d Hlow).
      destruct r as [| c3 r3]; [reflexivity |].
      now rewrite (wide_space3_low_2 c1 d c3 Hlow).
    + destruct (is_space c1) eqn:H1; [discriminate |].
      destruct (wide_space2 c1 c2) eqn:H2; [discriminate |].
      rewrite !string_app_cons, string_app_empty. cbn [trimStart].
      now rewrite H1, H2, (wide_space3_low_3 c1 c2 d Hlow).
    + destruct (is_space c1) eqn:H1; [discriminate |].
      destruct (wide_space2 c1 c2) eqn:H2; [discriminate |].
      destruct (wide_space3 c1 c2 c3) eqn:H3; [discriminate |].
      rewrite !string_app_cons. cbn [trimStart]. now rewrite H1, H2, H3.
Qed.

Lemma skip_space_before_digit (x y s1 : string) :
  starts_digit y -> skip_space (x ++ y) = Some s1 ->
  exists x1, skip_space x = Some x1 /\ s1 = x1 ++ y.
Proof.
  intros (d & r & -> & Hd). pose proof (low_digit d Hd) as Hlow.
  assert (Hds : is_space d = false) by now apply digit_not_space.
  unfold skip_space. destruct x as [| c1 [| c2 [| c3 r3]]].
  - rewrite string_app_empty. rewrite Hds.
    destruct r as [| c2 r2]; [discriminate |].
    assert (H2 : wide_space2 d c2 = false).
    { destruct (wide_space2 d c2) eqn:Hw; [| reflexivity].
      apply wide_space2_high in Hw. lia. }
    rewrite H2. destruct r2 as [| c3 r3]; [discriminate |].
    assert (H3 : wide_space3 d c2 c3 = false).
    { destruct (wide_space3 d c2 c3) eqn:Hw; [| reflexivity].
      apply wide_space3_high in Hw. lia. }
    rewrite H3. discriminate.
  - rewrite string_app_cons, string_app_empty.
    destruct (is_space c1); [intros [= <-]; now exists "" |].
    rewrite (wide_space2_low_r c1 d Hlow).
    destruct r as [| c3 r3]; [discriminate |].
    now rewrite (wide_space3_low_2 c1 d c3 Hlow).
  - rewrite !string_app_cons, string_app_empty.
    destruct (is_space c1); [intros [= <-]; now exists (String c2 "") |].
    destruct (wide_space2 c1 c2); [intros [= <-]; now exists "" |].
    now rewrite (wide_space3_low_3 c1 c2 d Hlow).
  - rewrite !string_app_cons.
    destruct (is_space c1); [intros [= <-]; now exists (String c2 (String c3 r3)) |].
    destruct (wide_space2 c1 c2); [intros [= <-]; now exists (String c3 r3) |].
    destruct (wide_space3 c1 c2 c3); [| discriminate].
    intros [= <-]. now exists r3.
Qed.

Lemma spaces1_before_digit (x y s1 : string) :
  starts_digit y -> spaces1 (x ++ y) = Some s1 ->
  exists x1 u, x = u ++ x1 /\ s1 = x1 ++ y.
Proof.
  intros Hy. unfold spaces1.
  destruct (skip_space (x ++ y)) as [r |] eqn:Hs; [| discriminate].
  cbn [option_map]. intros [= <-].
  apply (skip_space_before_digit x y r Hy) in Hs as (x1 & Hx1 & ->).
  rewrite (trimStart_before_digit x1 y Hy).
  apply skip_space_suffix in Hx1 as [u ->].
  destruct (trimStart_suffix x1) as [v Hv].
  exists (trimStart x1), (u ++ v). split; [| reflexivity].
  rewrite string_app_assoc. now f_equal.
Qed.

Lemma strip_literal_before_digit (word x y s' : string) :
  no_digit word = true -> starts_digit y ->
  strip_literal word (x ++ y) = Some s' ->
  exists x1 u, x = u ++ x1 /\ s' = x1 ++ y.
Proof.
  intros Hword (d & r & -> & Hd). revert x.
  induction word as [| c word IH]; intros x; cbn [strip_literal].
  - intros [= <-]. now exists x, "".
  - apply no_digit_cons in Hword as [Hc Hword].
    destruct x as [| a x0].
    + rewrite string_app_empty.
      destruct (Ascii.eqb (lower_ascii c) (lower_ascii d)) eqn:He; [| discriminate].
      apply Ascii.eqb_eq in He.
      apply is_digit_digit_val in Hd as [v Hv].
      rewrite <- (lower_keeps_digit_val c), He, lower_keeps_digit_val, Hv in Hc.
      discriminate.
    + rewrite string_app_cons.
      destruct (Ascii.eqb (lower_ascii c) (lower_ascii a)); [| discriminate].
      intros H. destruct (IH Hword x0 H) as (x1 & u & -> & ->).
      now exists x1, (String a u).
Qed.

(** *** The number group *)

Lemma digit_run_stop (s : string) :
  match s with String c _ => digit_val c = None | EmptyString => True end ->
  digit_run s = ("", s).
Proof.
  destruct s as [| c r]; [reflexivity |]. cbn [digit_run]. now intros ->.
Qed.

Lemma digit_run_digits (d r : string) :
  all_digits d = true ->
  match r with String c _ => digit_val c = None | EmptyString => True end ->
  digit_run (d ++ r) = (d, r).
Proof.
  intros Hd Hr. induction d as [| c d IH].
  - rewrite string_app_empty. now apply digit_run_stop.
  - cbn [all_digits] in Hd. apply andb_true_iff in Hd as [Hc Hd].
    rewrite string_app_cons. cbn [digit_run].
    destruct (is_digit_digit_val c Hc) as [v ->]. now rewrite (IH Hd).
Qed.

Lemma not_dot_branch (c : ascii) (r : string) :
  c <> "."%char ->
  match String c r with
  | String "." r' => (".", r')
  | _ => ("", String c r)
  end = ("", String c r).
Proof.
  intros Hc. destruct c as [[] [] [] [] [] [] [] []]; try reflexivity.
  now contradiction Hc.
Qed.

Lemma number_group_amount (g r : string) :
  amount_text g -> starts_plain r -> number_group (g ++ r) = Some (g, r).
Proof.
  intros (d1 & d2 & Hd1 & Hne & Hd2 & Hg) Hr. unfold number_group.
  assert (Hr' : match r with String c _ => digit_val c = None | EmptyString => True end)
    by (destruct r; [exact I | apply Hr]).
  destruct Hg as [-> | ->].
  - rewrite (digit_run_digits d1 r Hd1 Hr').
    destruct d1 as [| c d1]; [contradiction |].
    destruct r as [| c0 r0].
    + cbn [digit_run]. now rewrite !string_app_nil_r.
    + rewrite (not_dot_branch c0 r0 (proj2 Hr)).
      rewrite (digit_run_stop (String c0 r0) Hr'). now rewrite !string_app_nil_r.
  - rewrite !string_app_assoc.
    rewrite (digit_run_digits d1 ("." ++ d2 ++ r) Hd1) by reflexivity.
    destruct d1 as [| c d1]; [contradiction |].
    change ("." ++ d2 ++ r) with (String "." (d2 ++ r)). cbv iota.
    now rewrite (digit_run_digits d2 r Hd2 Hr').
Qed.

Lemma number_group_starts (s grp r : string) :
  number_group s = Some (grp, r) -> starts_digit s.
Proof.
  unfold number_group. destruct s as [| c s0]; [discriminate |].
  cbn [digit_run]. destruct (digit_val c) as [v |] eqn:Hv; [| discriminate].
  intros _. exists c, s0. split; [reflexivity |].
  destruct (is_digit c) eqn:Hd; [reflexivity |].
  apply digit_val_is_digit in Hd. congruence.
Qed.

Lemma no_digit_not_starts (s : string) : no_digit s = true -> ~ starts_digit s.
Proof.
  intros Hs (c & r & -> & Hc). apply no_digit_cons in Hs as [Hv _].
  apply digit_val_is_digit in Hv. congruence.
Qed.

(** *** One pattern at one position *)

Lemma match_here_split (p : Pattern) (s : string) :
  match_here p s
  = option_bind (lead p s)
      (fun s1 => option_bind (number_group s1)
                   (fun '(group, r) => tail p r group)).
Proof. reflexivity. Qed.

Lemma tail_cases (p : Pattern) (r group : string) :
  tail p r group = None \/ tail p r group = Some group.
Proof.
  unfold tail.
  destruct (strip_literal "near" (trimStart r)) as [r' |]; [| now left].
  cbn [option_bind]. destruct (wants_token p); [| now right].
  destruct (spaces1 r') as [r'' |]; [| now left]. cbn [option_bind].
  destruct (strip_literal "token" r''); [now right | now left].
Qed.

Lemma tail_any_group (p : Pattern) (r g g' : string) :
  tail p r g = None -> tail p r g' = None.
Proof.
  unfold tail.
  destruct (strip_literal "near" (trimStart r)) as [r' |]; [| reflexivity].
  cbn [option_bind]. destruct (wants_token p); [| discriminate].
  destruct (spaces1 r') as [r'' |]; [| reflexivity]. cbn [option_bind].
  destruct (strip_literal "token" r''); [discriminate | reflexivity].
Qed.

Lemma patterns_have_words (p : Pattern) :
  In p amountPatterns -> no_digit (leading p) = true.
Proof.
  intros H. cbn in H.
  repeat (destruct H as [<- | H]; [reflexivity |]). contradiction.
Qed.

Lemma lead_suffix (p : Pattern) (s s1 : string) :
  lead p s = Some s1 -> exists u, s = u ++ s1.
Proof.
  unfold lead. destruct (leading p) as [| c w].
  - intros [= <-]. now exists "".
  - destruct (strip_literal (String c w) s) as [s' |] eqn:Hs; [| discriminate].
    cbn [option_bind]. intros H.
    apply strip_literal_suffix in Hs as [u ->].
    apply spaces1_suffix in H as [v ->].
    exists (u ++ v). now rewrite string_app_assoc.
Qed.

Lemma lead_before_digit (p : Pattern) (x y s1 : string) :
  no_digit (leading p) = true -> starts_digit y ->
  lead p (x ++ y) = Some s1 ->
  exists x1 u, x = u ++ x1 /\ s1 = x1 ++ y.
Proof.
  intros Hword Hy. unfold lead. destruct (leading p) as [| c w] eqn:Hl.
  - intros [= <-]. now exists x, "".
  - destruct (strip_literal (String c w) (x ++ y)) as [s' |] eqn:Hs; [| discriminate].
    cbn [option_bind]. intros H.
    apply (strip_literal_before_digit _ x y s' Hword Hy) in Hs as (x1 & u & -> & ->).
    apply (spaces1_before_digit x1 y s1 Hy) in H as (x2 & v & -> & ->).
    exists x2, (u ++ v). split; [| reflexivity]. now rewrite string_app_assoc.
Qed.

(** A pattern that starts with a word does not match at a digit or a
    dot. *)
Lemma lead_at_number (p : Pattern) (c : ascii) (s : string) :
  In p amountPatterns -> leading p <> "" ->
  is_digit c = true \/ c = "."%char ->
  lead p (String c s) = None.
Proof.
  intros Hp Hne Hc.
  assert (Hcases : In c ["0"; "1"; "2"; "3"; "4"; "5"; "6"; "7"; "8"; "9"; "."]%char).
  { destruct Hc as [Hc | ->]; [| cbn; tauto].
    apply is_digit_cases in Hc. cbn in Hc |- *. tauto. }
  cbn in Hp.
  repeat (destruct Hp as [<- | Hp];
          [try (now contradiction Hne);
           cbn in Hcases;
           repeat (destruct Hcases as [<- | Hcases]; [reflexivity |]);
           contradiction |]).
  contradiction.
Qed.

Lemma no_digit_no_match (p : Pattern) (s : string) :
  no_digit s = true -> match_here p s = None.
Proof.
  intros Hs. rewrite match_here_split.
  destruct (lead p s) as [s1 |] eqn:Hl; [| reflexivity]. cbn [option_bind].
  destruct (number_group s1) as [[grp r] |] eqn:Hn; [| reflexivity].
  exfalso. apply number_group_starts in Hn.
  apply lead_suffix in Hl as [u ->].
  now apply (no_digit_not_starts s1 (no_digit_suffix u s1 Hs)).
Qed.

Lemma no_digit_no_regex_match (p : Pattern) (s : string) :
  no_digit s = true -> regex_match p s = None.
Proof.
  induction s as [| c s IH]; intros Hs.
  - cbn [regex_match]. now rewrite (no_digit_no_match p "" Hs).
  - cbn [regex_match]. rewrite (no_digit_no_match p _ Hs).
    apply IH. now apply no_digit_cons in Hs.
Qed.

(** *** A description that names one amount *)

Section OneAmount.
Variables (g rest : string).
Hypothesis amount : amount_text g.
Hypothesis plain : starts_plain rest.
Hypothesis quiet : no_digit rest = true.

Lemma amount_starts_digit : starts_digit (g ++ rest).
Proof.
  apply (number_group_starts _ g rest). now apply number_group_amount.
Qed.

(** In front of the amount a pattern can only read the amount. *)
Lemma match_here_reads_amount (p : Pattern) (x grp : string) :
  In p amountPatterns -> no_digit x = true ->
  match_here p (x ++ g ++ rest) = Some grp ->
  grp = g /\ tail p rest g = Some g.
Proof.
  intros Hp Hx. rewrite match_here_split.
  destruct (lead p (x ++ g ++ rest)) as [s1 |] eqn:Hl; [| discriminate].
  cbn [option_bind].
  destruct (number_group s1) as [[grp' r] |] eqn:Hn; [| discriminate].
  apply (lead_before_digit p x _ s1 (patterns_have_words p Hp) amount_starts_digit)
    in Hl as (x1 & u & -> & ->).
  assert (Hx1 : x1 = "").
  { destruct x1 as [| c x1]; [reflexivity |]. exfalso.
    apply number_group_starts in Hn as (c' & r' & Heq & Hc').
    rewrite string_app_cons in Heq. injection Heq as <- _.
    apply no_digit_suffix, no_digit_cons in Hx as [Hv _].
    apply digit_val_is_digit in Hv. congruence. }
  subst x1. rewrite string_app_empty in Hn.
  rewrite (number_group_amount g rest amount plain) in Hn. injection Hn as <- <-.
  cbn [option_bind]. cbv beta iota. intros Ht.
  destruct (tail_cases p rest g) as [Hnone | Hsome]; [congruence |].
  rewrite Hsome in Ht. injection Ht as <-. auto.
Qed.

(** Where the amount does not match, nothing inside it does. *)
Lemma inside_digits (p : Pattern) (d dotpart : string) :
  In p amountPatterns ->
  (leading p <> "" \/ tail p rest g = None) ->
  all_digits d = true ->
  (dotpart = "" \/ exists d2, all_digits d2 = true /\ dotpart = "." ++ d2) ->
  regex_match p (d ++ dotpart ++ rest) = regex_match p (dotpart ++ rest).
Proof.
  intros Hp Hfail Hd Hdot. induction d as [| c d IH]; [reflexivity |].
  cbn [all_digits] in Hd. apply andb_true_iff in Hd as [Hc Hd].
  rewrite string_app_cons. cbn [regex_match].
  assert (Hnone : match_here p (String c (d ++ dotpart ++ rest)) = None).
  { rewrite match_here_split.
    destruct (string_dec (leading p) "") as [Hl | Hl].
    - unfold lead. rewrite Hl. cbn [option_bind].
      assert (Ham : amount_text (String c d ++ dotpart)).
      { destruct Hdot as [-> | (d2 & Hd2 & ->)].
        - exists (String c d), "". rewrite string_app_nil_r.
          repeat split; [cbn [all_digits]; now rewrite Hc, Hd | discriminate | now left].
        - exists (String c d), d2.
          repeat split; [cbn [all_digits]; now rewrite Hc, Hd | discriminate
                        | exact Hd2 | now right]. }
      rewrite <- string_app_cons, <- string_app_assoc.
      rewrite (number_group_amount _ rest Ham plain). cbn [option_bind].
      destruct Hfail as [Hw | Ht]; [contradiction | now apply (tail_any_group p rest g)].
    - rewrite (lead_at_number p c _ Hp Hl); [reflexivity | now left]. }
  rewrite Hnone. exact (IH Hd).
Qed.

Lemma inside_amount (p : Pattern) :
  In p amountPatterns ->
  (leading p <> "" \/ tail p rest g = None) ->
  regex_match p (g ++ rest) = None.
Proof.
  intros Hp Hfail. pose proof amount as (d1 & d2 & Hd1 & Hne & Hd2 & Hg).
  destruct Hg as [Hg | Hg]; rewrite Hg.
  - rewrite <- (string_app_empty rest) at 1.
    rewrite (inside_digits p d1 "" Hp Hfail Hd1 (or_introl eq_refl)).
    rewrite string_app_empty. now apply no_digit_no_regex_match.
  - rewrite string_app_assoc.
    rewrite (inside_digits p d1 ("." ++ d2) Hp Hfail Hd1); [| right; eauto].
    rewrite string_app_assoc.
    change ("." ++ d2 ++ rest) with (String "." (d2 ++ rest)).
    cbn [regex_match].
    assert (Hdot : match_here p (String "." (d2 ++ rest)) = None).
    { rewrite match_here_split.
      destruct (string_dec (leading p) "") as [Hl | Hl].
      - unfold lead. rewrite Hl. cbn [option_bind].
        destruct (number_group (String "." (d2 ++ rest))) as [[grp r] |] eqn:Hn;
          [| reflexivity].
        apply number_group_starts in Hn as (c & r' & [= <- _] & Hc). discriminate Hc.
      - rewrite (lead_at_number p "." _ Hp Hl); [reflexivity | now right]. }
    rewrite Hdot.
    rewrite <- (string_app_empty rest) at 1.
    rewrite (inside_digits p d2 "" Hp Hfail Hd2 (or_introl eq_refl)).
    rewrite string_app_empty. now apply no_digit_no_regex_match.
Qed.

(** Every pattern finds the amount or nothing. *)
Lemma regex_match_amount_or_none (p : Pattern) (x : string) :
  In p amountPatterns -> no_digit x = true ->
  regex_match p (x ++ g ++ rest) = None
  \/ regex_match p (x ++ g ++ rest) = Some g.
Proof.
  intros Hp. induction x as [| c x IH]; intros Hx.
  - rewrite string_app_empty.
    destruct (match_here p (g ++ rest)) as [grp |] eqn:Hm.
    + apply (match_here_reads_amount p "" grp Hp eq_refl) in Hm as Hg.
      destruct Hg as [-> _]. right.
      destruct (g ++ rest) as [| c s]; cbn [regex_match]; now rewrite Hm.
    + left. apply inside_amount; [exact Hp |].
      destruct (string_dec (leading p) "") as [Hl | Hl]; [right | now left].
      rewrite match_here_split in Hm. unfold lead in Hm. rewrite Hl in Hm.
      cbn [option_bind] in Hm.
      now rewrite (number_group_amount g rest amount plain) in Hm.
  - rewrite string_app_cons. cbn [regex_match]. rewrite <- string_app_cons.
    destruct (match_here p (String c x ++ g ++ rest)) as [grp |] eqn:Hm.
    + apply (match_here_reads_amount p _ grp Hp Hx) in Hm as [-> _]. now right.
    + apply IH. now apply no_digit_cons in Hx.
Qed.

(** The last pattern finds the amount when the word near follows. *)
Lemma last_pattern_finds_amount (x : string) :
  no_digit x = true ->
  tail (mkPattern "" false) rest g = Some g ->
  regex_match (mkPattern "" false) (x ++ g ++ rest) = Some g.
Proof.
  intros Hx Htail. induction x as [| c x IH].
  - rewrite string_app_empty.
    assert (Hm : match_here (mkPattern "" false) (g ++ rest) = Some g).
    { rewrite match_here_split. unfold lead. cbn [leading option_bind].
      rewrite (number_group_amount g rest amount plain). exact Htail. }
    destruct (g ++ rest) as [| c s]; cbn [regex_match]; now rewrite Hm.
  - rewrite string_app_cons. cbn [regex_match]. rewrite <- string_app_cons.
    destruct (match_here (mkPattern "" false) (String c x ++ g ++ rest))
      as [grp |] eqn:Hm.
    + apply (match_here_reads_amount _ _ grp) in Hm as [-> _];
        [reflexivity | cbn; tauto | exact Hx].
    + apply IH. now apply no_digit_cons in Hx.
Qed.
End OneAmount.

(** *** The word near *)

Lemma lower_n (c : ascii) : lower_ascii c = "n"%char -> c = "n"%char \/ c = "N"%char.
Proof.
  destruct c as [[] [] [] [] [] [] [] []]; intros H; try discriminate H; auto.
Qed.

Lemma near_word_chars (w : string) :
  near_word w ->
  exists c1 c2 c3 c4,
    w = String c1 (String c2 (String c3 (String c4 "")))
    /\ lower_ascii c1 = "n"%char /\ lower_ascii c2 = "e"%char
    /\ lower_ascii c3 = "a"%char /\ lower_ascii c4 = "r"%char.
Proof.
  unfold near_word, toLowerCase.
  destruct w as [| c1 [| c2 [| c3 [| c4 [| c5 w]]]]]; cbn [map_string];
    try discriminate.
  intros [= H1 H2 H3 H4]. exists c1, c2, c3, c4. auto.
Qed.

Lemma near_word_no_digit (w : string) : near_word w -> no_digit w = true.
Proof.
  intros Hw. apply near_word_chars in Hw
    as (c1 & c2 & c3 & c4 & -> & H1 & H2 & H3 & H4).
  cbn [no_digit].
  rewrite <- (lower_keeps_digit_val c1), H1, <- (lower_keeps_digit_val c2), H2,
    <- (lower_keeps_digit_val c3), H3, <- (lower_keeps_digit_val c4), H4.
  reflexivity.
Qed.

(** After the amount: white space, the word near and text without
    digits. *)
Lemma after_amount (ws near post : string) :
  white ws -> near_word near -> no_digit post = true ->
  starts_plain (ws ++ near ++ post)
  /\ no_digit (ws ++ near ++ post) = true
  /\ forall g, tail (mkPattern "" false) (ws ++ near ++ post) g = Some g.
Proof.
  intros Hws Hnear Hpost.
  pose proof (white_no_digit ws Hws) as Hwd.
  pose proof (near_word_no_digit near Hnear) as Hnd.
  assert (Hquiet : no_digit (ws ++ near ++ post) = true)
    by (now rewrite !no_digit_app, Hwd, Hnd, Hpost).
  apply near_word_chars in Hnear
    as (c1 & c2 & c3 & c4 & -> & H1 & H2 & H3 & H4).
  assert (Hc1 : is_space c1 = false /\ (nat_of_ascii c1 < 194)%nat /\ c1 <> "."%char).
  { destruct (lower_n c1 H1) as [-> | ->];
      (split; [reflexivity | split; [apply Nat.ltb_lt; reflexivity | discriminate]]). }
  split; [| split; [exact Hquiet |]].
  - destruct ws as [| c ws'].
    + rewrite string_app_empty, !string_app_cons. cbn [starts_plain].
      split; [| tauto]. now apply no_digit_cons in Hnd.
    + rewrite string_app_cons. cbn [starts_plain].
      split; [now apply no_digit_cons in Hwd |].
      intros ->. unfold white in Hws.
      destruct (trimStart_cases (String "." ws'))
        as [(c & r & Heq & Hc & _) | [(a & b & r & Heq & Hc & _)
           | [(a & b & c & r & Heq & Hc & _) | [Ht _]]]].
      * injection Heq as <- _. discriminate Hc.
      * injection Heq as <- _. apply wide_space2_high in Hc as [Hh _].
        revert Hh. apply Nat.lt_nge, Nat.ltb_lt. reflexivity.
      * injection Heq as <- _. apply wide_space3_high in Hc as (Hh & _ & _).
        revert Hh. apply Nat.lt_nge, Nat.ltb_lt. reflexivity.
      * rewrite Ht in Hws. discriminate.
  - intros g. unfold tail. cbn [wants_token].
    rewrite (trimStart_white_app ws _ Hws), !string_app_cons.
    rewrite (trimStart_keeps c1 _ (proj1 Hc1) (proj1 (proj2 Hc1))).
    cbn [strip_literal].
    change (lower_ascii "n") with "n"%char. change (lower_ascii "e") with "e"%char.
    change (lower_ascii "a") with "a"%char. change (lower_ascii "r") with "r"%char.
    rewrite H1, H2, H3, H4. reflexivity.
Qed.

Lemma le_NaN_r (a : number) : le a NaN = false.
Proof. now destruct a. Qed.

(** X1. The amount the orchestrator swaps, read off the description.
    When the description names one amount (text without digits,
    digits with an optional dot and fraction, optional white space,
    the word near in either case, text without digits), that amount is
    swapped if it is positive and not above the balance, and the
    default "0.5" otherwise.  A description without a digit gives the
    default whatever the balance is, also a balance below it: the
    default is not compared with the balance.  In every case the
    result is the default or an amount that is positive and not above
    the balance, and when the balance does not parse it is the
    default. *)
Theorem extract_swap_amount_reads_the_amount :
  (forall words g ws near post balance,
     no_digit words = true -> amount_text g -> white ws -> near_word near ->
     no_digit post = true ->
     extract_swap_amount (words ++ g ++ ws ++ near ++ post) balance
     = if gt0 (parseFloat g) && le (parseFloat g) (parseFloat balance)
       then g else "0.5")
  /\ (forall description balance,
        no_digit description = true ->
        extract_swap_amount description balance = "0.5")
  /\ (forall description balance,
        (extract_swap_amount description balance = "0.5"
         \/ (gt0 (parseFloat (extract_swap_amount description balance)) = true
             /\ le (parseFloat (extract_swap_amount description balance))
                  (parseFloat balance) = true))
        /\ (parseFloat balance = NaN ->
            extract_swap_amount description balance = "0.5")).
Proof.
  split; [| split].
  - intros words g ws near post balance Hwords Hg Hws Hnear Hpost.
    destruct (after_amount ws near post Hws Hnear Hpost) as (Hplain & Hquiet & Htail).
    set (rest := ws ++ near ++ post) in *.
    unfold extract_swap_amount, amountPatterns. cbn [first_amount].
    assert (Hin : forall p, In p amountPatterns ->
                  regex_match p (words ++ g ++ rest) = None
                  \/ regex_match p (words ++ g ++ rest) = Some g)
      by (intros p Hp; now apply regex_match_amount_or_none).
    rewrite (last_pattern_finds_amount g rest Hg Hplain words Hwords (Htail g)).
    destruct (gt0 (parseFloat g) && le (parseFloat g) (parseFloat balance)) eqn:Hok.
    + repeat match goal with
             | |- context [regex_match ?p (words ++ g ++ rest)] =>
                 destruct (Hin p ltac:(cbn; tauto)) as [-> | ->]; try rewrite Hok
             end; reflexivity.
    + repeat match goal with
             | |- context [regex_match ?p (words ++ g ++ rest)] =>
                 destruct (Hin p ltac:(cbn; tauto)) as [-> | ->]; try rewrite Hok
             end; reflexivity.
  - intros description balance Hd.
    unfold extract_swap_amount, amountPatterns. cbn [first_amount].
    now rewrite !(no_digit_no_regex_match _ description Hd).
  - intros description balance. unfold extract_swap_amount.
    destruct (first_amount amountPatterns description balance) as [amount |] eqn:Hfirst.
    + apply first_amount_affordable in Hfirst as [Hpos Hle]. split; [now right |].
      intros HNaN. rewrite HNaN, le_NaN_r in Hle. discriminate.
    + split; [now left | reflexivity].
Qed.
End SwapAmountFacts.

Lemma extract_swap_amount_reads_the_amount_witness :
  AgentExecutor.extract_swap_amount
    ("Swap maximum " ++ "0.25" ++ " " ++ "NEAR" ++ " into the best token") "10"
  = "0.25"
  /\ AgentExecutor.extract_swap_amount
       ("swap " ++ "5" ++ JsNumber.bytes [194; 160]%nat ++ "near" ++ "") "10"
     = "5"
  /\ AgentExecutor.extract_swap_amount
       ("swap " ++ "5" ++ " " ++ "near" ++ "") "3"
     = "0.5"
  /\ AgentExecutor.extract_swap_amount "Buy the best token" "0.1" = "0.5".
Proof.
  destruct extract_swap_amount_reads_the_amount as (Hone & Hnone & _).
  split; [| split; [| split]].
  - rewrite (Hone "Swap maximum " "0.25" " " "NEAR" " into the best token" "10");
      [reflexivity | reflexivity | | reflexivity | reflexivity | reflexivity].
    exists "0", "25". repeat split; [discriminate | now right].
  - rewrite (Hone "swap " "5" (JsNumber.bytes [194; 160]%nat) "near" "" "10");
      [reflexivity | reflexivity | | reflexivity | reflexivity | reflexivity].
    exists "5", "". repeat split; [discriminate | now left].
  - rewrite (Hone "swap " "5" " " "near" "" "3");
      [reflexivity | reflexivity | | reflexivity | reflexivity | reflexivity].
    exists "5", "". repeat split; [discriminate | now left].
  - now apply Hnone.
Defined.

Section PredictionInCatalog.
Import TokenAnalyzer.

Lemma fallback_choice_in_catalog (tokens : list TokenInfo) (goal : string)
    (t : TokenInfo) (why : string) :
  fallback_choice tokens goal = (Some t, why) -> In t tokens.
Proof.
  assert (Hhead : forall t', head tokens = Some t' -> In t' tokens).
  { destruct tokens as [| t0 rest]; [discriminate |]. intros t' [= <-]. now left. }
  unfold fallback_choice.
  repeat match goal with
         | |- context [if ?c then _ else _] => destruct c
         | |- context [match find ?f ?l with _ => _ end] =>
             let H := fresh "Hfind" in destruct (find f l) eqn:H
         end;
    intros [= Ht _]; subst;
    try (now apply Hhead);
    match goal with
    | H : find _ _ = Some _ |- _ => now apply find_some in H
    end.
Qed.

(** On an empty catalog both the model path and the fallback throw. *)
Lemma predictBestToken_nil (goal : string) (reply : ModelReply) :
  predictBestToken [] goal reply
  = Throw "Cannot read properties of undefined (reading 'symbol')".
Proof.
  unfold predictBestToken, model_prediction.
  assert (Hfb : fallback_prediction [] goal
                = Throw "Cannot read properties of undefined (reading 'symbol')").
  { unfold fallback_prediction, fallback_choice. cbn [find head].
    repeat match goal with
           | |- context [if ?c then _ else _] => destruct c
           end; reflexivity. }
  destruct reply as [msg | selected reason conf]; [exact Hfb |].
  destruct (negb (truthy selected) || negb (truthy reason)); [exact Hfb |].
  cbn [find]. exact Hfb.
Qed.

(** X2. Whatever the language model answers, a prediction that
    [predictBestToken] returns names a token of the catalog it was
    given, with that token's contract id, symbol and price; on an
    empty catalog it returns nothing: the fallback throws on reading
    the first token. *)
Theorem predictBestToken_selects_catalog_token
    (tokens : list TokenInfo) (goal : string) (reply : ModelReply) :
  (forall p, predictBestToken tokens goal reply = Ok p ->
             exists t, In t tokens
                       /\ selectedToken p = token_account_id t
                       /\ p_symbol p = symbol t
                       /\ p_price p = price t)
  /\ (tokens = [] ->
      predictBestToken tokens goal reply
      = Throw "Cannot read properties of undefined (reading 'symbol')").
Proof.
  split.
  - intros p. unfold predictBestToken.
    destruct (model_prediction tokens reply) as [p' | msg] eqn:Hmodel.
    + intros [= <-]. unfold model_prediction in Hmodel.
      destruct reply as [msg | selected reason conf]; [discriminate |].
      destruct (negb (truthy selected) || negb (truthy reason)); [discriminate |].
      destruct (find (matches_selected selected) tokens) as [t |] eqn:Hfind;
        [| discriminate].
      destruct reason as [r |]; [| discriminate].
      injection Hmodel as <-. apply find_some in Hfind as [Hin _].
      exists t. cbn. auto.
    + unfold fallback_prediction.
      destruct (fallback_choice tokens goal) as [[t |] why] eqn:Hchoice;
        [| discriminate].
      intros [= <-]. apply fallback_choice_in_catalog in Hchoice.
      exists t. cbn. auto.
  - intros ->. apply predictBestToken_nil.
Qed.

Lemma predictBestToken_selects_catalog_token_witness :
  exists t, In t builtin_tokens
            /\ selectedToken SampleExtras.btc_prediction = token_account_id t
            /\ p_symbol SampleExtras.btc_prediction = symbol t
            /\ p_price SampleExtras.btc_prediction = price t.
Proof.
  apply (proj1 (predictBestToken_selects_catalog_token builtin_tokens
                  "Swap for bitcoin" (PredictThrows "model unavailable"))).
  reflexivity.
Defined.
End PredictionInCatalog.

Section SwapLogFacts.
Import RefFinance SwapExecutor SwapLog.

Variable w : World.

Lemma near_calls_methods (actions : list Action) (calls : list NearCall) :
  near_calls actions = Ok calls -> map nc_method calls = map action_method actions.
Proof.
  revert calls. induction actions as [| a rest IH]; intros calls; cbn [near_calls].
  - now intros [= <-].
  - destruct a as [deposit | methodName args gas deposit]; cbn [near_call bind];
      [discriminate |].
    destruct (JsBigInt.BigInt gas) as [g | msg]; cbn [bind]; [| discriminate].
    destruct (JsBigInt.BigInt deposit) as [d | msg]; cbn [bind]; [| discriminate].
    destruct (near_calls rest) as [cs | msg]; cbn [bind]; [| discriminate].
    intros [= <-]. cbn [map nc_method action_method]. f_equal. now apply IH.
Qed.

Lemma await_final_logs_nothing (i : nat) (txHash : string) (rounds : nat) :
  forall attempts,
    sent_log (snd (await_final w i txHash rounds attempts)) = []
    /\ sent_hashes (snd (await_final w i txHash rounds attempts)) = [].
Proof.
  induction rounds as [| rounds IH]; intros attempts; cbn [await_final];
    [auto |].
  destruct (attempts <? maxAttempts)%nat; [| auto].
  destruct (txStatus w i attempts); [auto | |].
  all: specialize (IH (S attempts));
    destruct (await_final w i txHash rounds (S attempts)) as [a evs];
    exact IH.
Qed.

Lemma sent_log_app (l1 l2 : list Event) :
  sent_log (l1 ++ l2) = (sent_log l1 ++ sent_log l2)%list.
Proof.
  induction l1 as [| [receiver calls h | h k | ms] l1 IH]; cbn [app sent_log];
    [reflexivity | | |]; now rewrite ?IH.
Qed.

Lemma sent_hashes_app (l1 l2 : list Event) :
  sent_hashes (l1 ++ l2) = (sent_hashes l1 ++ sent_hashes l2)%list.
Proof.
  induction l1 as [| [receiver calls h | h k | ms] l1 IH]; cbn [app sent_hashes];
    [reflexivity | | |]; now rewrite ?IH.
Qed.

(** What the loop over the built transactions sends: a prefix of the
    list, all of it when the loop completes; the hashes it returns are
    those it was given and those of what it sent. *)
Lemma submit_log (transactions : list Transaction) :
  forall (i total : nat) (txHashes : list string),
    let r := fst (submit w transactions i total txHashes) in
    let events := snd (submit w transactions i total txHashes) in
    (exists n, sent_log events = firstn n (map tx_shape transactions))
    /\ (forall hashes, r = Ok hashes ->
          sent_log events = map tx_shape transactions
          /\ hashes = (txHashes ++ sent_hashes events)%list).
Proof.
  induction transactions as [| tx rest IH]; intros i total txHashes; cbn [submit].
  - cbn [fst snd sent_log map sent_hashes]. split; [now exists 0%nat |].
    intros hashes [= <-]. now rewrite app_nil_r.
  - destruct (near_calls (tx_actions tx)) as [calls | msg] eqn:Hcalls;
      [| cbn; split; [now exists 0%nat | discriminate]].
    destruct (signAndSendTransaction w (S i) (receiverId tx) calls) as [txHash | msg];
      [| cbn; split; [now exists 0%nat | discriminate]].
    apply near_calls_methods in Hcalls.
    specialize (IH (S i) total (txHashes ++ [txHash])%list).
    destruct (submit w rest (S i) total (txHashes ++ [txHash])) as [r' events'].
    cbn [fst snd] in IH. destruct IH as [[n Hn] Hok].
    assert (Hshape : (receiverId tx, map nc_method calls) = tx_shape tx).
    { unfold tx_shape. now rewrite Hcalls. }
    destruct (i <? total - 1)%nat.
    + pose proof (await_final_logs_nothing i txHash maxAttempts 0) as [Hl Hh].
      destruct (await_final w i txHash maxAttempts 0) as [attempts polls].
      cbn [snd] in Hl, Hh.
      destruct (maxAttempts <=? attempts)%nat; cbn [fst snd].
      * split; [| discriminate]. exists 1%nat.
        cbn [sent_log map firstn]. now rewrite Hl, Hshape.
      * cbn [sent_log sent_hashes map].
        rewrite sent_log_app, sent_hashes_app, Hl, Hh. cbn [app sent_log sent_hashes].
        split.
        -- exists (S n). cbn [firstn]. now rewrite Hn, Hshape.
        -- intros hashes Hr. destruct (Hok hashes Hr) as [Hall Hhashes].
           split; [now rewrite Hall, Hshape |].
           now rewrite Hhashes, <- app_assoc.
    + cbn [fst snd sent_log sent_hashes map]. split.
      * exists (S n). cbn [firstn]. now rewrite Hn, Hshape.
      * intros hashes Hr. destruct (Hok hashes Hr) as [Hall Hhashes].
        split; [now rewrite Hall, Hshape |].
        now rewrite Hhashes, <- app_assoc.
Qed.

(** Without wrapping [generateSwapTransaction] builds two transactions:
    the storage deposit on the output token and the transfer call on
    the input token. *)
Lemma generateSwapTransaction_shape (chain : Chain)
    (inputTokenId inputAmount outputTokenId minimumOutput : string)
    (network : Network) (accountId wrapAmount : option string)
    (transactions : list Transaction) :
  generateSwapTransaction chain inputTokenId inputAmount outputTokenId
    minimumOutput network accountId false wrapAmount = Ok transactions ->
  map tx_shape transactions
  = [ (outputTokenId, ["storage_deposit"]); (inputTokenId, ["ft_transfer_call"]) ].
Proof.
  unfold generateSwapTransaction.
  destruct (findPool chain inputTokenId outputTokenId network); [| discriminate].
  destruct (convertScientificToString inputAmount); cbn [bind]; [| discriminate].
  destruct (convertScientificToString minimumOutput); cbn [bind]; [| discriminate].
  intros [= <-]. reflexivity.
Qed.

(** What steps 1 to 4 leave behind: nothing, or the wrap and the wait
    after it. *)
Lemma prepare_log (accountId amountInNear : string)
    (prediction : TokenAnalyzer.TokenPrediction)
    (r : result (string * list Transaction)) (events : list Event) :
  prepare w accountId prediction amountInNear = (r, events) ->
  (events = [] /\ exists msg, r = Throw msg)
  \/ (exists calls wrapHash,
        events = [Sent WRAP_NEAR_CONTRACT calls wrapHash; Slept 3000]
        /\ map nc_method calls = ["near_deposit"]
        /\ ((exists msg, r = Throw msg)
            \/ exists transactions,
                 r = Ok (wrapHash, transactions)
                 /\ map tx_shape transactions
                    = [ (TokenAnalyzer.selectedToken prediction, ["storage_deposit"]);
                        (NEAR_TOKEN, ["ft_transfer_call"]) ])).
Proof.
  unfold prepare.
  destruct (connect w); [| intros [= <- <-]; left; eauto].
  destruct (string_or_null (parseNearAmount w amountInNear)) as [wrapAmount |];
    [| intros [= <- <-]; left; eauto].
  destruct (JsBigInt.BigInt wrapAmount) as [deposit | msg]; cbn [bind];
    [| intros [= <- <-]; left; eauto].
  destruct (signAndSendTransaction w 0%nat WRAP_NEAR_CONTRACT _) as [hash | msg];
    cbn [bind]; [| intros [= <- <-]; left; eauto].
  destruct (ft_balance_of w) as [swapAmount | msg]; cbn [bind];
    [| intros [= <- <-]; right; eexists _, hash;
       split; [reflexivity | split; [reflexivity | left; eauto]]].
  destruct (estimateSwap _ _ _ _ _) as [estimate | msg]; cbn [bind];
    [| intros [= <- <-]; right; eexists _, hash;
       split; [reflexivity | split; [reflexivity | left; eauto]]].
  destruct (generateSwapTransaction _ _ _ _ _ _ _ _ _) as [txs | msg] eqn:Hgen;
    intros [= <- <-]; right; eexists _, hash;
    (split; [reflexivity | split; [reflexivity |]]); [| left; eauto].
  right. exists txs. split; [reflexivity |].
  now apply generateSwapTransaction_shape in Hgen.
Qed.

(** X3. Whatever the outside world answers, [executeTokenSwap] signs
    and sends at most three transactions, and only these, in this
    order: near_deposit on wrap.testnet, storage_deposit on the
    predicted token and ft_transfer_call on wrap.testnet. *)
Theorem executeTokenSwap_sends_only_the_swap_plan
    (accountId privateKey amountInNear : string)
    (prediction : TokenAnalyzer.TokenPrediction) :
  exists n,
    sent_log (snd (executeTokenSwap w accountId privateKey prediction amountInNear))
    = firstn n (swap_plan prediction).
Proof.
  unfold executeTokenSwap, swap_steps.
  destruct (prepare w accountId prediction amountInNear) as [r events] eqn:Hprep.
  apply prepare_log in Hprep.
  destruct Hprep as [[-> [msg ->]] | (calls & wrapHash & -> & Hcalls & Hr)].
  - exists 0%nat. reflexivity.
  - destruct Hr as [[msg ->] | (txs & -> & Hshape)].
    + exists 1%nat. cbn. now rewrite Hcalls.
    + pose proof (submit_log txs 0 (length txs) [wrapHash]) as [[n Hn] _].
      destruct (submit w txs 0 (length txs) [wrapHash]) as [r' events'].
      cbn [fst snd] in Hn.
      exists (S n).
      assert (Hlog : sent_log ([Sent WRAP_NEAR_CONTRACT calls wrapHash; Slept 3000]
                                 ++ events')
                     = firstn (S n) (swap_plan prediction)).
      { cbn [app sent_log firstn swap_plan]. now rewrite Hcalls, Hn, Hshape. }
      destruct r'; exact Hlog.
Qed.

(** X4. The answer of [executeTokenSwap] is consistent with what it
    did: a success carries no error, the amount asked for and the hash
    of the last of exactly three transactions sent; a failure carries
    an error message and neither hash nor amount. *)
Theorem executeTokenSwap_result_consistent
    (accountId privateKey amountInNear : string)
    (prediction : TokenAnalyzer.TokenPrediction) :
  let r := fst (executeTokenSwap w accountId privateKey prediction amountInNear) in
  let events := snd (executeTokenSwap w accountId privateKey prediction amountInNear) in
  (success r = true ->
     error r = None
     /\ amountSwapped r = Some amountInNear
     /\ sent_log events = swap_plan prediction
     /\ exists h1 h2 h3, sent_hashes events = [h1; h2; h3]
                         /\ transactionHash r = Some h3)
  /\ (success r = false ->
        (exists msg, error r = Some msg)
        /\ transactionHash r = None
        /\ amountSwapped r = None).
Proof.
  unfold executeTokenSwap, swap_steps.
  destruct (prepare w accountId prediction amountInNear) as [r events] eqn:Hprep.
  apply prepare_log in Hprep.
  destruct Hprep as [[-> [msg ->]] | (calls & wrapHash & -> & Hcalls & Hr)].
  - cbn. split; [discriminate | eauto].
  - destruct Hr as [[msg ->] | (txs & -> & Hshape)].
    + cbn. split; [discriminate | eauto].
    + pose proof (submit_log txs 0 (length txs) [wrapHash]) as [_ Hok].
      destruct (submit w txs 0 (length txs) [wrapHash]) as [[hashes | msg] events'].
      * cbn [fst snd] in *. destruct (Hok hashes eq_refl) as [Hall ->].
        split; [intros _ | discriminate].
        split; [reflexivity | split; [reflexivity | split]].
        -- cbn [app sent_log swap_plan]. now rewrite Hcalls, Hall, Hshape.
        -- assert (Hlen : length (sent_log events') = 2%nat)
             by now rewrite Hall, Hshape.
           assert (Hsame : length (sent_hashes events') = length (sent_log events')).
           { clear. induction events' as [| [rc cs h | h k | ms] l IH];
               cbn [sent_hashes sent_log length]; auto. }
           rewrite Hlen in Hsame.
           destruct (sent_hashes events') as [| h2 [| h3 [| h4 l]]] eqn:Hh;
             try discriminate Hsame.
           exists wrapHash, h2, h3. cbn [app sent_hashes]. rewrite Hh.
           split; reflexivity.
      * cbn. split; [discriminate | eauto].
Qed.
End SwapLogFacts.

Section SwapOutcomes.
Import RefFinance SwapExecutor SwapLog.

Variable w : World.

(** The loop completes when every transaction but the last is seen
    final in time and the last one is sent; the last one is not polled. *)
Lemma submit_completes (tx : Transaction) (calls : list NearCall) (txHash : string) :
  forall (before : list Transaction) (i : nat) (txHashes : list string),
    (forall j tx', before !! j = Some tx' -> goes_through w (i + j) tx') ->
    near_calls (tx_actions tx) = Ok calls ->
    signAndSendTransaction w (S (i + length before)) (receiverId tx) calls = Ok txHash ->
    exists hashes events,
      submit w (before ++ [tx]) i (i + length before + 1) txHashes
      = (Ok (hashes ++ [txHash])%list,
         (events ++ [Sent (receiverId tx) calls txHash])%list).
Proof.
  induction before as [| tx0 before IH]; intros i txHashes Hbefore Hcalls Hsend.
  - exists txHashes, []. cbn [app length submit] in *.
    rewrite Nat.add_0_r in *. rewrite Hcalls, Hsend.
    assert (Hi : (i <? i + 1 - 1)%nat = false) by (apply Nat.ltb_ge; lia).
    now rewrite Hi.
  - destruct (Hbefore 0%nat tx0 eq_refl) as (calls0 & hash0 & Hc0 & Hs0 & Hfinal).
    rewrite Nat.add_0_r in Hs0, Hfinal. cbn [length] in *.
    destruct (IH (S i) (txHashes ++ [hash0])%list) as (hashes & events & Hsub).
    + intros j tx' Hj. replace (S i + j)%nat with (i + S j)%nat by lia.
      now apply Hbefore.
    + exact Hcalls.
    + replace (S i + length before)%nat with (i + S (length before))%nat by lia.
      exact Hsend.
    + replace (S i + length before + 1)%nat with (i + S (length before) + 1)%nat
        in Hsub by lia.
      cbn [submit app]. rewrite Hc0, Hs0.
      assert (Hi : (i <? i + S (length before) + 1 - 1)%nat = true)
        by (apply Nat.ltb_lt; lia).
      rewrite Hi.
      pose proof (await_final_in_time w i hash0 maxAttempts 0%nat eq_refl) as Hin.
      destruct (await_final w i hash0 maxAttempts 0) as [attempts polls] eqn:Ha.
      cbn [fst] in Hin.
      assert (Hle : (maxAttempts <=? attempts)%nat = false).
      { apply Nat.leb_gt. apply Hin. destruct Hfinal as (k & Hk & Hs).
        exists k. split; [lia | exact Hs]. }
      rewrite Hle, Hsub.
      exists hashes,
        (Sent (receiverId tx0) calls0 hash0 :: polls ++ Slept 2000 :: events)%list.
      cbn [app]. now rewrite <- app_assoc.
Qed.

(** X5. Suppose the wrap, the balance read, the estimate and the
    building of the transactions succeed, every transaction before the
    last goes through and the last one, the swap itself, is signed and
    sent.  Then [executeTokenSwap] reports a success with the hash of
    that last transaction, and sending it is the last thing it did:
    its status is never polled, so the success does not say that the
    swap went through on chain. *)
Theorem executeTokenSwap_success_without_final_check
    (accountId privateKey amountInNear : string)
    (prediction : TokenAnalyzer.TokenPrediction)
    (wrapHash : string) (before : list Transaction) (tx : Transaction)
    (wrapEvents : list Event) (calls : list NearCall) (txHash : string) :
  prepare w accountId prediction amountInNear
  = (Ok (wrapHash, before ++ [tx])%list, wrapEvents) ->
  (forall j tx', before !! j = Some tx' -> goes_through w j tx') ->
  near_calls (tx_actions tx) = Ok calls ->
  signAndSendTransaction w (S (length before)) (receiverId tx) calls = Ok txHash ->
  fst (executeTokenSwap w accountId privateKey prediction amountInNear)
  = mkSwapResult true (Some txHash) None (Some amountInNear)
  /\ exists earlier,
       snd (executeTokenSwap w accountId privateKey prediction amountInNear)
       = (earlier ++ [Sent (receiverId tx) calls txHash])%list.
Proof.
  intros Hprep Hbefore Hcalls Hsend.
  unfold executeTokenSwap, swap_steps. rewrite Hprep.
  destruct (submit_completes tx calls txHash before 0%nat [wrapHash])
    as (hashes & events & Hsub); auto.
  rewrite length_app. cbn [length]. cbn [Nat.add] in Hsub. rewrite Hsub.
  cbn [fst snd]. split.
  - f_equal. apply last_snoc.
  - exists (wrapEvents ++ events)%list. now rewrite app_assoc.
Qed.

(** X6. When the exchange contract ref-finance-101.testnet lists no
    pool for wNEAR and the predicted token, [executeTokenSwap] fails
    with "No liquidity pool found" after it has wrapped the NEAR: the
    wrap is the only transaction sent, and nothing unwraps it. *)
Theorem executeTokenSwap_no_pool_after_wrap
    (accountId privateKey amountInNear wrapAmount wrapHash swapAmount : string)
    (prediction : TokenAnalyzer.TokenPrediction) (deposit : Z) :
  connect w = Ok tt ->
  string_or_null (parseNearAmount w amountInNear) = Some wrapAmount ->
  JsBigInt.BigInt wrapAmount = Ok deposit ->
  signAndSendTransaction w 0%nat WRAP_NEAR_CONTRACT
    [mkNearCall "near_deposit" NoArgs 30000000000000 deposit] = Ok wrapHash ->
  ft_balance_of w = Ok swapAmount ->
  findPool (chain w) NEAR_TOKEN (TokenAnalyzer.selectedToken prediction) testnet = None ->
  executeTokenSwap w accountId privateKey prediction amountInNear
  = (mkSwapResult false None
       (Some ("No liquidity pool found for wrap.testnet <-> "
              ++ TokenAnalyzer.selectedToken prediction)) None,
     [ Sent WRAP_NEAR_CONTRACT
         [mkNearCall "near_deposit" NoArgs 30000000000000 deposit] wrapHash;
       Slept 3000 ]).
Proof.
  intros Hconnect Hamount Hdeposit Hwrap Hbalance Hpool.
  unfold executeTokenSwap, swap_steps, prepare.
  rewrite Hconnect, Hamount, Hdeposit. cbn [bind]. rewrite Hwrap. cbn [bind].
  rewrite Hbalance. cbn [bind]. unfold estimateSwap. rewrite Hpool. reflexivity.
Qed.

End SwapOutcomes.

Section SwapOutcomesWitness.
Import RefFinance SwapExecutor SwapLog.

Lemma executeTokenSwap_success_without_final_check_witness :
  fst (executeTokenSwap SampleExtras.swap_pending_world "agent.testnet"
         "ed25519:secret" SampleSwap.prediction "0.5")
  = mkSwapResult true (Some "hash-swap") None (Some "0.5")
  /\ exists earlier,
       snd (executeTokenSwap SampleExtras.swap_pending_world "agent.testnet"
              "ed25519:secret" SampleSwap.prediction "0.5")
       = (earlier ++ [Sent (receiverId SampleSwap.swap_tx) SampleExtras.swap_calls
                        "hash-swap"])%list.
Proof.
  apply (executeTokenSwap_success_without_final_check
           SampleExtras.swap_pending_world "agent.testnet" "ed25519:secret" "0.5"
           SampleSwap.prediction "hash-wrap" [SampleSwap.storage_tx]
           SampleSwap.swap_tx SampleSwap.wrap_events SampleExtras.swap_calls
           "hash-swap").
  - vm_compute. reflexivity.
  - intros j tx' Hj. destruct j as [| j]; [| destruct j; discriminate Hj].
    injection Hj as <-. exists SampleSwap.storage_calls, "hash-storage".
    split; [vm_compute; reflexivity |]. split; [reflexivity |].
    exists 0%nat. split; [unfold maxAttempts; lia | reflexivity].
  - vm_compute. reflexivity.
  - reflexivity.
Defined.

Lemma executeTokenSwap_no_pool_after_wrap_witness :
  executeTokenSwap SampleExtras.no_pool_world "agent.testnet" "ed25519:secret"
    SampleSwap.prediction "0.5"
  = (mkSwapResult false None
       (Some ("No liquidity pool found for wrap.testnet <-> "
              ++ TokenAnalyzer.selectedToken SampleSwap.prediction)) None,
     [ Sent WRAP_NEAR_CONTRACT
         [mkNearCall "near_deposit" NoArgs 30000000000000 500000000000000000000000]
         "hash-wrap";
       Slept 3000 ]).
Proof.
  apply (executeTokenSwap_no_pool_after_wrap SampleExtras.no_pool_world
           "agent.testnet" "ed25519:secret" "0.5" "500000000000000000000000"
           "hash-wrap" "500000000000000000000000" SampleSwap.prediction
           500000000000000000000000).
  - reflexivity.
  - reflexivity.
  - vm_compute. reflexivity.
  - reflexivity.
  - reflexivity.
  - vm_compute. reflexivity.
Defined.
End SwapOutcomesWitness.

Section RunFacts.
Import TaskHistory AgentExecutor AgentRun.

Variables (a : string) (d0 : Db).


Lemma run_invariant_start : run_invariant a d0 0 None (mkState d0 [] []).
Proof.
  unfold run_invariant. cbn [ids db length].
  split; [reflexivity |]. split; [constructor |].
  split; [intros i [] |]. split; [discriminate |].
  split; [intros i [] | reflexivity].
Qed.

(** Starting a task: a fresh row of the agent, running. *)
Lemma start_task_invariant (data : CreateTaskData) (n : nat) (st : State) :
  c_agentId data = a ->
  run_invariant a d0 n None st ->
  run_invariant a d0 (S n) (Some (next_id (db st))) (snd (start_task data st)).
Proof.
  intros Ha (Hlen & Hnd & Hlt & _ & Hrows & Hframe).
  set (i := next_id (db st)).
  assert (Hfresh : ~ In i (ids st)).
  { intros Hin. apply Hlt in Hin. fold i in Hin. lia. }
  unfold run_invariant.
  change (ids (snd (start_task data st))) with (ids st ++ [i])%list.
  assert (Hrows' : forall j,
    rows (db (snd (start_task data st))) !! j
    = if decide (j = i)
      then Some (apply_update (mkUpdate None running None None) (S (clock (db st)))
                   (fst (createTask data (db st))))
      else rows (db st) !! j).
  { intros j. unfold start_task, mbind, create, push, update, mret.
    cbn [createTask updateTask db ids events fst snd rows clock next_id id].
    fold i. rewrite lookup_insert_eq. cbn [option_map].
    destruct (decide (j = i)) as [-> | Hne].
    - now rewrite lookup_insert_eq.
    - now rewrite !lookup_insert_ne by congruence. }
  assert (Hnext : next_id (db (snd (start_task data st))) = Pos.succ i)
    by reflexivity.
  split; [rewrite length_app; cbn [length]; lia |].
  split.
  { apply NoDup_app. split; [exact Hnd |]. split.
    - intros x Hx [-> | []]%list_elem_of_In. apply Hfresh.
      now apply list_elem_of_In.
    - apply NoDup_singleton. }
  split.
  { intros j Hj. rewrite Hnext. apply in_app_or in Hj as [Hj | [<- | []]];
      [apply Hlt in Hj; fold i in Hj |]; lia. }
  split; [intros j [= <-]; apply in_or_app; right; now left |].
  split.
  - intros j Hj. rewrite Hrows'. destruct (decide (j = i)) as [-> | Hne].
    + eexists. split; [reflexivity |]. split; [exact Ha |]. left. auto.
    + apply in_app_or in Hj as [Hj | [<- | []]]; [| contradiction].
      destruct (Hrows j Hj) as (t & Ht & Hat & [[Hc _] | [_ Hs]]); [discriminate |].
      exists t. split; [exact Ht |]. split; [exact Hat |]. right.
      split; [congruence | exact Hs].
  - intros j Hj. rewrite Hrows'.
    destruct (decide (j = i)) as [-> | Hne].
    + exfalso. apply Hj, in_or_app. right. now left.
    + apply Hframe. intros Hin. apply Hj, in_or_app. now left.
Qed.

(** Closing the task under way with a final status settles its row. *)
Lemma update_invariant (i : positive) (data : UpdateTaskData) (n : nat) (st : State) :
  is_terminal (u_status data) = true ->
  run_invariant a d0 n (Some i) st ->
  run_invariant a d0 n None (snd (update i data st)).
Proof.
  intros Hterm (Hlen & Hnd & Hlt & Hcur & Hrows & Hframe).
  pose proof (Hcur i eq_refl) as Hin.
  destruct (Hrows i Hin) as (t & Ht & Hat & _).
  unfold run_invariant, update.
  cbn [updateTask snd ids db rows next_id]. rewrite Ht. cbn [option_map].
  split; [exact Hlen |]. split; [exact Hnd |]. split; [exact Hlt |].
  split; [discriminate |]. split.
  - intros j Hj. destruct (decide (j = i)) as [-> | Hne].
    + rewrite lookup_insert_eq. eexists. split; [reflexivity |].
      split; [exact Hat |]. right. split; [discriminate |].
      unfold settled. cbn [apply_update status completedAt]. rewrite Hterm.
      split; [reflexivity |]. destruct (u_completedAt data); eauto.
    + rewrite lookup_insert_ne by congruence.
      destruct (Hrows j Hj) as (t' & Ht' & Hat' & [[Hc _] | [_ Hs]]);
        [congruence |].
      exists t'. split; [exact Ht' |]. split; [exact Hat' |]. right.
      split; [discriminate | exact Hs].
  - intros j Hj. rewrite lookup_insert_ne by (intros ->; contradiction).
    now apply Hframe.
Qed.

(** The loop of the [catch] block settles the task under way and
    changes nothing else. *)
Lemma fail_running_settles (msg : string) (n : nat) (cur : option positive)
    (st : State) :
  run_invariant a d0 n cur st ->
  run_invariant a d0 n None
    (mkState (fold_left (fail_running msg) (ids st) (db st)) (ids st) (events st)).
Proof.
  intros Hinv.
  assert (Hgen : forall l d c,
    (forall i, In i l -> In i (ids st)) ->
    run_invariant a d0 n c (mkState d (ids st) (events st)) ->
    (c = None \/ exists i, c = Some i /\ In i l) ->
    run_invariant a d0 n None
      (mkState (fold_left (fail_running msg) l d) (ids st) (events st))).
  { induction l as [| i l IH]; intros d c Hsub Hd Hc; cbn [fold_left].
    - destruct Hc as [-> | (i & _ & [])]. exact Hd.
    - assert (Hi : In i (ids st)) by (apply Hsub; now left).
      pose proof Hd as (_ & _ & _ & _ & Hrows & _).
      cbn [ids db] in Hrows. destruct (Hrows i Hi) as (t & Ht & Hat & Hst).
      unfold fail_running at 2. unfold getTask. rewrite Ht.
      destruct Hst as [[-> Hrun] | [Hne [Hterm Hdone]]].
      + rewrite Hrun. cbn [Status_eqb].
        apply (IH _ None); [intros j Hj; apply Hsub; now right | | now left].
        exact (update_invariant i (mkUpdate None failed (Some msg) None) n
                 (mkState d (ids st) (events st)) eq_refl Hd).
      + assert (Hs : Status_eqb (status t) running = false)
          by (destruct (status t); try reflexivity; discriminate).
        rewrite Hs.
        apply (IH _ c); [intros j Hj; apply Hsub; now right | exact Hd |].
        destruct Hc as [-> | (j & -> & [<- | Hj])]; [now left | congruence |].
        right. eauto. }
  apply (Hgen (ids st) (db st) cur); [auto | now destruct st |].
  destruct cur as [i |]; [right | now left].
  destruct Hinv as (_ & _ & _ & Hcur & _). eauto.
Qed.

Lemma run_invariant_events (n : nat) (cur : option positive) (st : State)
    (evs : list SwapExecutor.Event) :
  run_invariant a d0 n cur st ->
  run_invariant a d0 n cur (mkState (db st) (ids st) evs).
Proof. exact (fun H => H). Qed.

Section RunSteps.
Context {B : Type} (Q : result B * State -> Prop).

Lemma lift_cases {A : Type} (r : result A) (k : A -> M B) (st : State) :
  (forall x, r = Ok x -> Q (k x st)) ->
  (forall msg, r = Throw msg -> Q (Throw msg, st)) ->
  Q (mbind (lift r) k st).
Proof. intros Hok Hthrow. destruct r as [x | msg]; [now apply Hok | now apply Hthrow]. Qed.

Lemma start_task_step (data : CreateTaskData) (k : positive -> M B) (n : nat)
    (st : State) :
  c_agentId data = a ->
  run_invariant a d0 n None st ->
  (forall i st', run_invariant a d0 (S n) (Some i) st' -> Q (k i st')) ->
  Q (mbind (start_task data) k st).
Proof.
  intros Ha Hinv H. rewrite (mbind_fst _ _ _ _ (start_task_fst data st)).
  apply H. now apply start_task_invariant.
Qed.

Lemma update_step (i : positive) (data : UpdateTaskData) (k : unit -> M B)
    (n : nat) (st : State) :
  is_terminal (u_status data) = true ->
  run_invariant a d0 n (Some i) st ->
  (forall st', run_invariant a d0 n None st' -> Q (k tt st')) ->
  Q (mbind (update i data) k st).
Proof.
  intros Hterm Hinv H. rewrite (mbind_fst _ _ _ _ (update_fst i data st)).
  apply H. now apply update_invariant.
Qed.
End RunSteps.
End RunFacts.

Section RunTheorem.
Import TaskHistory AgentExecutor AgentRun.

(** Where the body of the [try] block can stop, and in what state. *)
Lemma pipeline_invariant (w : World) (agentId userId : string) (d : Db) :
  exists n cur,
    (n <= 4)%nat
    /\ run_invariant agentId d n cur (snd (pipeline w agentId userId (mkState d [] [])))
    /\ (forall u, fst (pipeline w agentId userId (mkState d [] [])) = Ok u ->
                  cur = None).
Proof.
  pose (Q := fun res : result unit * State =>
               exists n cur, (n <= 4)%nat
                             /\ run_invariant agentId d n cur (snd res)
                             /\ (forall u, fst res = Ok u -> cur = None)).
  change (Q (pipeline w agentId userId (mkState d [] []))).
  assert (Hstop : forall n cur msg st,
             (n <= 4)%nat -> run_invariant agentId d n cur st -> Q (Throw msg, st)).
  { intros n cur msg st Hn Hinv. exists n, cur. cbn. split; [exact Hn |].
    split; [exact Hinv | discriminate]. }
  pose proof (run_invariant_start agentId d) as H0.
  unfold pipeline.
  apply lift_cases; [intros found _ | intros msg _; apply (Hstop 0%nat None); [lia | exact H0]].
  apply lift_cases; [intros agent _ | intros msg _; apply (Hstop 0%nat None); [lia | exact H0]].
  apply lift_cases; [intros _ _ | intros msg _; apply (Hstop 0%nat None); [lia | exact H0]].
  apply lift_cases; [intros balance _ | intros msg _; apply (Hstop 0%nat None); [lia | exact H0]].
  apply (start_task_step agentId d Q _ _ 0%nat); [reflexivity | exact H0 |].
  intros i1 st1 H1.
  apply (update_step agentId d Q _ _ _ 1%nat); [reflexivity | exact H1 |].
  intros st2 H2.
  apply (start_task_step agentId d Q _ _ 1%nat); [reflexivity | exact H2 |].
  intros i2 st3 H3.
  apply (update_step agentId d Q _ _ _ 2%nat); [reflexivity | exact H3 |].
  intros st4 H4.
  apply (start_task_step agentId d Q _ _ 2%nat); [reflexivity | exact H4 |].
  intros i3 st5 H5.
  apply lift_cases;
    [intros prediction _ | intros msg _; apply (Hstop 3%nat (Some i3)); [lia | exact H5]].
  apply (update_step agentId d Q _ _ _ 3%nat); [reflexivity | exact H5 |].
  intros st6 H6.
  apply (start_task_step agentId d Q _ _ 3%nat); [reflexivity | exact H6 |].
  intros i4 st7 H7.
  unfold mbind at 1.
  destruct (SwapExecutor.executeTokenSwap _ _ _ _ _) as [r evs].
  apply (run_invariant_events agentId d _ _ _ (events st7 ++ evs)%list) in H7.
  destruct (SwapExecutor.success r).
  all: exists 4%nat, None; split; [lia |]; split; [| reflexivity].
  all: apply (update_invariant agentId d i4); [reflexivity | exact H7].
Qed.

Lemma settled_run (agentId : string) (d : Db) (n : nat) (st : State) :
  (n <= 4)%nat ->
  run_invariant agentId d n None st ->
  NoDup (ids st)
  /\ (length (ids st) <= 4)%nat
  /\ (forall i, In i (ids st) ->
        exists t, getTask i (db st) = Some t
                  /\ TaskHistory.agentId t = agentId
                  /\ (status t = completed \/ status t = failed)
                  /\ is_Some (completedAt t))
  /\ (forall j, ~ In j (ids st) -> getTask j (db st) = getTask j d).
Proof.
  intros Hn (Hlen & Hnd & _ & _ & Hrows & Hframe).
  split; [exact Hnd |]. split; [lia |]. split; [| exact Hframe].
  intros i Hi. destruct (Hrows i Hi) as (t & Ht & Hat & [[Hc _] | [_ [Hterm Hdone]]]);
    [discriminate |].
  exists t. split; [exact Ht |]. split; [exact Hat |]. split; [| exact Hdone].
  destruct (status t); try discriminate; auto.
Qed.

(** X7. However a run of [executeAgent] ends (the statements of the
    ledger are taken to run), the task ids it returns are distinct, at
    most four, and each is a row of the ledger for
    this agent that is settled: its status is completed or failed and
    its completion time is set, so no task of the run is left pending
    or running.  No other row of the ledger is changed. *)
Theorem executeAgent_settles_its_tasks (w : World) (agentId userId : string) (d : Db) :
  let res := fst (executeAgent w agentId userId d) in
  let st := snd (executeAgent w agentId userId d) in
  NoDup (taskIds res)
  /\ (length (taskIds res) <= 4)%nat
  /\ (forall i, In i (taskIds res) ->
        exists t, getTask i (db st) = Some t
                  /\ TaskHistory.agentId t = agentId
                  /\ (status t = completed \/ status t = failed)
                  /\ is_Some (completedAt t))
  /\ (forall j, ~ In j (taskIds res) -> getTask j (db st) = getTask j d).
Proof.
  destruct (pipeline_invariant w agentId userId d) as (n & cur & Hn & Hinv & Hok).
  unfold executeAgent.
  destruct (pipeline w agentId userId (mkState d [] [])) as [[u | msg] st0];
    cbn [fst snd taskIds] in *.
  - rewrite (Hok u eq_refl) in Hinv. exact (settled_run agentId d n st0 Hn Hinv).
  - apply (fail_running_settles agentId d msg) in Hinv.
    exact (settled_run agentId d n _ Hn Hinv).
Qed.
End RunTheorem.

Section RunRefusals.
Import TaskHistory AgentExecutor.

(** X8. A run is refused before anything is done when the agent
    cannot be loaded, is not found, is not active (paused or deleted),
    or its balance cannot be read: [executeAgent] returns a failure
    with the reason and no task id, the ledger is unchanged and no
    transaction is sent. *)
Theorem executeAgent_refused_before_any_task (w : World) (agentId userId : string)
    (d : Db) :
  let refused msg :=
    executeAgent w agentId userId d
    = (mkExecution false [] (Some msg), mkState d [] []) in
  (forall msg, getAgentWithPrivateKey w = Throw msg -> refused msg)
  /\ (getAgentWithPrivateKey w = Ok None -> refused "Agent not found")
  /\ (forall agent, getAgentWithPrivateKey w = Ok (Some agent) ->
                    agent_status agent <> "active" ->
                    refused "Agent is not active")
  /\ (forall agent msg, getAgentWithPrivateKey w = Ok (Some agent) ->
                        agent_status agent = "active" ->
                        fetchAccountBalance w = Throw msg ->
                        refused msg).
Proof.
  intros refused. unfold refused, executeAgent, pipeline.
  split; [| split; [| split]].
  - now intros msg ->.
  - now intros ->.
  - intros agent -> Hstatus. apply String.eqb_neq in Hstatus.
    unfold mbind at 1 2 3, lift. now rewrite Hstatus.
  - intros agent msg -> Hstatus Hbalance.
    unfold mbind at 1 2 3 4, lift. now rewrite Hstatus, Hbalance.
Qed.

Lemma executeAgent_refused_before_any_task_witness :
  executeAgent SampleExtras.paused_world "agent-1" "user-1" empty_db
  = (mkExecution false [] (Some "Agent is not active"), mkState empty_db [] []).
Proof.
  apply (proj1 (proj2 (proj2 (executeAgent_refused_before_any_task
                                SampleExtras.paused_world "agent-1" "user-1" empty_db)))
           (mkAgent "agent.testnet" (Some "Swap 0.5 NEAR for bitcoin") "paused"
              "ed25519:secret")).
  - reflexivity.
  - discriminate.
Defined.

Lemma start_task_events (data : CreateTaskData) (st : State) :
  events (snd (start_task data st)) = events st.
Proof. reflexivity. Qed.

Lemma update_events (taskId : positive) (data : UpdateTaskData) (st : State) :
  events (snd (update taskId data st)) = events st.
Proof. reflexivity. Qed.

Section LogSteps.
Context {B : Type} (Q : result B * State -> Prop).

Lemma start_task_log (data : CreateTaskData) (k : positive -> M B) (st : State) :
  (forall st', ids st' = (ids st ++ [next_id (db st)])%list ->
               events st' = events st ->
               Q (k (next_id (db st)) st')) ->
  Q (mbind (start_task data) k st).
Proof.
  intros H. rewrite (mbind_fst _ _ _ _ (start_task_fst data st)).
  apply H; [apply start_task_ids | apply start_task_events].
Qed.

Lemma update_log (taskId : positive) (data : UpdateTaskData) (k : unit -> M B)
    (st : State) :
  (forall st', ids st' = ids st -> events st' = events st -> Q (k tt st')) ->
  Q (mbind (update taskId data) k st).
Proof.
  intros H. rewrite (mbind_fst _ _ _ _ (update_fst taskId data st)).
  apply H; [apply update_ids | apply update_events].
Qed.
End LogSteps.

(** X9. When the catalog comes back empty, a run of an active agent
    (the statements of the ledger are taken to run) stops at the
    prediction whatever the language model answers:
    [executeAgent] returns a failure with the error of reading the
    first token of an empty list, three task ids, and no transaction
    has been signed or sent. *)
Theorem executeAgent_empty_catalog_stops_at_prediction
    (w : World) (agentId userId : string) (d : Db) (agent : Agent) (balance : string) :
  getAgentWithPrivateKey w = Ok (Some agent) ->
  agent_status agent = "active" ->
  fetchAccountBalance w = Ok balance ->
  TokenAnalyzer.fetchAvailableTokens (catalog w) = [] ->
  let res := fst (executeAgent w agentId userId d) in
  let st := snd (executeAgent w agentId userId d) in
  success res = false
  /\ error res = Some "Cannot read properties of undefined (reading 'symbol')"
  /\ length (taskIds res) = 3%nat
  /\ events st = [].
Proof.
  intros Hagent Hactive Hbalance Hempty.
  pose (Q := fun r : result unit * State =>
               exists st, r = (Throw "Cannot read properties of undefined (reading 'symbol')", st)
                          /\ length (ids st) = 3%nat /\ events st = []).
  assert (Hrun : Q (pipeline w agentId userId (mkState d [] []))).
  { unfold pipeline.
    apply (lift_intro Q _ _ _ (Some agent) Hagent).
    apply (lift_intro Q _ _ _ agent eq_refl).
    apply (lift_intro Q _ _ _ tt); [now rewrite Hactive |].
    apply (lift_intro Q _ _ _ balance Hbalance).
    apply (start_task_log Q). intros st1 H1 E1.
    apply (update_log Q). intros st2 H2 E2.
    apply (start_task_log Q). intros st3 H3 E3.
    apply (update_log Q). intros st4 H4 E4.
    apply (start_task_log Q). intros st5 H5 E5.
    rewrite Hempty.
    rewrite predictBestToken_nil.
    exists st5. split; [reflexivity |]. split.
    - rewrite H5, H4, H3, H2, H1, !length_app. reflexivity.
    - now rewrite E5, E4, E3, E2, E1. }
  destruct Hrun as (st & Hst & Hlen & Hev).
  unfold executeAgent. rewrite Hst. cbn. auto.
Qed.

Lemma executeAgent_empty_catalog_stops_at_prediction_witness :
  let res := fst (executeAgent SampleExtras.empty_catalog_world "agent-1" "user-1"
                    empty_db) in
  let st := snd (executeAgent SampleExtras.empty_catalog_world "agent-1" "user-1"
                   empty_db) in
  success res = false
  /\ error res = Some "Cannot read properties of undefined (reading 'symbol')"
  /\ length (taskIds res) = 3%nat
  /\ events st = [].
Proof.
  apply (executeAgent_empty_catalog_stops_at_prediction
           SampleExtras.empty_catalog_world "agent-1" "user-1" empty_db
           SampleRun.agent "10"); reflexivity.
Defined.
End RunRefusals.

Section SwapTransactionFacts.
Import JsString JsNumber RefFinance SwapAmounts.

Lemma convertScientificToString_no_marker (x y : string) :
  convertScientificToString x = Ok y -> test_e_i y = false.
Proof.
  unfold convertScientificToString. destruct (test_e_i x) eqn:Hx; cbn [negb].
  - destruct (isNaN (parseFloat x)) eqn:Hn; [discriminate |]. intros [= <-].
    apply plain_rendering_no_marker, toLocaleString_integer_plain.
    intros Hp. rewrite Hp in Hn. discriminate.
  - now intros [= <-].
Qed.

(** X10. The transactions [generateSwapTransaction] builds: two, or
    three with the wrap in front; every amount handed to the exchange
    (the amount of the ft_transfer_call and the amount in and minimum
    out of the swap message) is free of exponent markers, and the
    amount transferred is the amount the swap action spends.  The
    deposit of the wrap is not normalized: a [wrapAmount] is attached
    as it is given. *)
Theorem generateSwapTransaction_amounts_normalized (chain : Chain)
    (inputTokenId inputAmount outputTokenId minimumOutput : string)
    (network : Network) (accountId : option string) (needsWrapping : bool)
    (wrapAmount : option string) (transactions : list Transaction) :
  generateSwapTransaction chain inputTokenId inputAmount outputTokenId
    minimumOutput network accountId needsWrapping wrapAmount = Ok transactions ->
  length transactions = (if needsWrapping then 3 else 2)%nat
  /\ map receiverId transactions
     = ((if needsWrapping then [inputTokenId] else [])
        ++ [outputTokenId; inputTokenId])%list
  /\ Forall (fun amount => test_e_i amount = false)
       (flat_map transaction_amounts transactions)
  /\ (exists amount minimum,
        convertScientificToString inputAmount = Ok amount
        /\ convertScientificToString minimumOutput = Ok minimum
        /\ flat_map transaction_amounts transactions = [amount; amount; minimum]
        /\ flat_map transaction_deposits transactions
           = ((if needsWrapping then [string_or wrapAmount amount] else [])
              ++ ["1250000000000000000000"; "1"])%list).
Proof.
  unfold generateSwapTransaction.
  destruct (findPool chain inputTokenId outputTokenId network) as [poolId |];
    [| discriminate].
  destruct (convertScientificToString inputAmount) as [amount | msg] eqn:Ha;
    cbn [bind]; [| discriminate].
  destruct (convertScientificToString minimumOutput) as [minimum | msg] eqn:Hm;
    cbn [bind]; [| discriminate].
  intros [= <-].
  apply convertScientificToString_no_marker in Ha, Hm.
  destruct needsWrapping; cbn.
  all: split; [reflexivity |]; split; [reflexivity |]; split;
    [repeat constructor; assumption |].
  all: exists amount, minimum; auto.
Qed.

Lemma generateSwapTransaction_amounts_normalized_witness :
  length [SampleSwap.storage_tx; SampleExtras.swap_tx_1e21] = 2%nat
  /\ map receiverId [SampleSwap.storage_tx; SampleExtras.swap_tx_1e21]
     = ([] ++ ["wbtc.fakes.testnet"; "wrap.testnet"])%list
  /\ Forall (fun amount => test_e_i amount = false)
       (flat_map transaction_amounts [SampleSwap.storage_tx; SampleExtras.swap_tx_1e21])
  /\ (exists amount minimum,
        convertScientificToString "1e+21" = Ok amount
        /\ convertScientificToString "12221" = Ok minimum
        /\ flat_map transaction_amounts
             [SampleSwap.storage_tx; SampleExtras.swap_tx_1e21]
           = [amount; amount; minimum]
        /\ flat_map transaction_deposits
             [SampleSwap.storage_tx; SampleExtras.swap_tx_1e21]
           = ([] ++ ["1250000000000000000000"; "1"])%list).
Proof.
  apply (generateSwapTransaction_amounts_normalized SampleChain.chain
           "wrap.testnet" "1e+21" "wbtc.fakes.testnet" "12221" testnet
           (Some "agent.testnet") false None).
  vm_compute. reflexivity.
Defined.
End SwapTransactionFacts.

Section LiveCatalogFacts.
Import TokenAnalyzer.

Lemma collect_filtered (chain : RefFinance.Chain) (P : TokenInfo -> Prop)
    (candidates : list TokenInfo) :
  (forall t, In t candidates ->
             token_account_id t <> WRAP_NEAR_TOKEN ->
             hasLiquidityPool chain (token_account_id t) = true -> P t) ->
  forall found, Forall P found -> Forall P (collect chain candidates found).
Proof.
  induction candidates as [| token rest IH]; intros HP found Hfound;
    cbn [collect]; [exact Hfound |].
  assert (HP' : forall t, In t rest ->
                          token_account_id t <> WRAP_NEAR_TOKEN ->
                          hasLiquidityPool chain (token_account_id t) = true -> P t)
    by (intros t Ht; apply HP; now right).
  destruct (String.eqb_spec (token_account_id token) WRAP_NEAR_TOKEN) as [Hw | Hw];
    [now apply IH |].
  destruct (hasLiquidityPool chain (token_account_id token)) eqn:Hpool.
  - assert (Hfound' : Forall P (found ++ [token])).
    { apply Forall_app. split; [exact Hfound |].
      constructor; [| constructor]. apply HP; [now left | exact Hw | exact Hpool]. }
    destruct (15 <=? length (found ++ [token]))%nat; [exact Hfound' | now apply IH].
  - destruct (15 <=? length found)%nat; [exact Hfound | now apply IH].
Qed.

Lemma map_entries_In (entries : list (string * option IndexerInfo))
    (mapped : list TokenInfo) (t : TokenInfo) :
  map_entries entries = Ok mapped -> In t mapped ->
  exists info, In (token_account_id t, Some info) entries.
Proof.
  revert mapped. induction entries as [| e entries IH]; intros mapped;
    cbn [map_entries].
  - intros [= <-] [].
  - destruct (token_of_entry e) as [t0 | msg] eqn:He; cbn [bind]; [| discriminate].
    destruct (map_entries entries) as [ts | msg]; cbn [bind]; [| discriminate].
    intros [= <-] [<- | Hin].
    + unfold token_of_entry in He. destruct e as [key [info |]]; cbn [snd fst] in He;
        [| discriminate].
      injection He as <-. exists info. now left.
    + destruct (IH ts eq_refl Hin) as [info Hin']. exists info. now right.
Qed.

(** X11. When the price indexer answers and at least one candidate
    passes the liquidity check, [fetchAvailableTokens] returns the live
    list, and every token in it is one of the indexer's entries, is
    not wNEAR itself, and was found to have a pool with wNEAR among
    the first 200 pools of v2.ref-finance.testnet. *)
Theorem fetchAvailableTokens_live_tokens_have_pools (env : Env) (l : list TokenInfo) :
  live_tokens env = Ok l -> l <> [] ->
  fetchAvailableTokens env = l
  /\ Forall (fun t =>
               token_account_id t <> "wrap.testnet"
               /\ hasLiquidityPool (chain env) (token_account_id t) = true
               /\ exists entries info,
                    indexer env = Body entries
                    /\ In (token_account_id t, Some info) entries) l.
Proof.
  intros Hlive Hne. split.
  - unfold fetchAvailableTokens. rewrite Hlive. now destruct l.
  - unfold live_tokens in Hlive.
    destruct (indexer env) as [msg | statusText | entries]; try discriminate.
    destruct (map_entries entries) as [mapped | msg] eqn:Hmap; cbn [bind] in Hlive;
      [| discriminate].
    injection Hlive as <-.
    apply collect_filtered; [| constructor].
    intros t Hin Hw Hpool. split; [exact Hw |]. split; [exact Hpool |].
    assert (Hmapped : In t mapped).
    { assert (Hin' : In t (js_sort by_price_desc (List.filter price_gt0 mapped))).
      { rewrite <- (firstn_skipn 30 (js_sort by_price_desc _)).
        apply in_or_app. now left. }
      apply (Permutation_in _ (Permutation_sym (js_sort_perm by_price_desc _))) in Hin'.
      now apply List.filter_In in Hin' as [Hin' _]. }
    destruct (map_entries_In _ _ _ Hmap Hmapped) as [info Hinfo].
    exists entries, info. split; [reflexivity | exact Hinfo].
Qed.

Lemma fetchAvailableTokens_live_tokens_have_pools_witness :
  fetchAvailableTokens SampleExtras.live_env = [SampleExtras.wbtc_token]
  /\ Forall (fun t =>
               token_account_id t <> "wrap.testnet"
               /\ hasLiquidityPool (chain SampleExtras.live_env) (token_account_id t) = true
               /\ exists entries info,
                    indexer SampleExtras.live_env = Body entries
                    /\ In (token_account_id t, Some info) entries)
       [SampleExtras.wbtc_token].
Proof.
  apply (fetchAvailableTokens_live_tokens_have_pools SampleExtras.live_env
           [SampleExtras.wbtc_token]).
  - vm_compute. reflexivity.
  - discriminate.
Defined.
End LiveCatalogFacts.

Section LedgerHistoryFacts.
Import TaskHistory LedgerHistory.

Lemma same_identity_refl (t : AgentTaskHistory) : same_identity t t.
Proof. repeat split. Qed.

Lemma same_identity_trans (t1 t2 t3 : AgentTaskHistory) :
  same_identity t1 t2 -> same_identity t2 t3 -> same_identity t1 t3.
Proof.
  unfold same_identity. intros (? & ? & ? & ? & ? & ? & ?) (? & ? & ? & ? & ? & ? & ?).
  repeat split; congruence.
Qed.

Lemma run_op_keeps_rows (op : Op) (d : Db) :
  keys_below_next d ->
  keys_below_next (run_op d op)
  /\ forall i t, getTask i d = Some t ->
       exists t', getTask i (run_op d op) = Some t' /\ same_identity t t'.
Proof.
  intros Hkeys. destruct op as [data | taskId data]; cbn [run_op].
  - unfold keys_below_next, createTask, getTask in *. cbn [snd rows next_id]. split.
    + intros i t. destruct (decide (i = next_id d)) as [-> | Hne].
      * intros _. lia.
      * rewrite lookup_insert_ne by congruence. intros Hi%Hkeys. lia.
    + intros i t Hi. exists t. split; [| apply same_identity_refl].
      rewrite lookup_insert_ne; [exact Hi |].
      intros <-. apply Hkeys in Hi. lia.
  - unfold keys_below_next, updateTask, getTask in *. cbn [snd rows next_id]. split.
    + intros i t. destruct (rows d !! taskId) as [t0 |] eqn:Ht0; cbn [option_map];
        [| apply Hkeys].
      destruct (decide (i = taskId)) as [-> | Hne].
      * intros _. now apply Hkeys in Ht0.
      * rewrite lookup_insert_ne by congruence. apply Hkeys.
    + intros i t Hi. destruct (rows d !! taskId) as [t0 |] eqn:Ht0; cbn [option_map];
        [| exists t; split; [exact Hi | apply same_identity_refl]].
      destruct (decide (i = taskId)) as [-> | Hne].
      * rewrite lookup_insert_eq. eexists. split; [reflexivity |].
        assert (t0 = t) as -> by congruence. repeat split.
      * rewrite lookup_insert_ne by congruence.
        exists t. split; [exact Hi | apply same_identity_refl].
Qed.

(** X12. No sequence of [createTask] and [updateTask] calls deletes a
    row of the ledger or changes its id, agent, task type, description,
    input, start time or creation time: [startedAt] stays the time the
    row was created, whenever the task is marked running.  (Primary
    keys are taken never to repeat.) *)
Theorem ledger_rows_keep_identity (ops : list Op) (d : Db) (i : positive)
    (t : AgentTaskHistory) :
  keys_below_next d ->
  getTask i d = Some t ->
  exists t', getTask i (run_ops ops d) = Some t' /\ same_identity t t'.
Proof.
  revert d t. unfold run_ops.
  induction ops as [| op ops IH]; intros d t Hkeys Hi; cbn [fold_left].
  - exists t. split; [exact Hi | apply same_identity_refl].
  - destruct (run_op_keeps_rows op d Hkeys) as [Hkeys' Hrows].
    destruct (Hrows i t Hi) as (t1 & Hi1 & Hsame1).
    destruct (IH _ t1 Hkeys' Hi1) as (t' & Hi' & Hsame').
    exists t'. split; [exact Hi' | now apply (same_identity_trans t t1 t')].
Qed.

Lemma ledger_rows_keep_identity_witness :
  exists t',
    getTask 1 (run_ops [OpUpdate 1%positive (mkUpdate None running None None);
                        OpUpdate 1%positive
                          (mkUpdate (Some (JStr "done")) completed None None)]
                 (snd (createTask (mkCreate "agent-1" "plan_tasks"
                                     "Analyze agent description" None) empty_db)))
    = Some t'
    /\ same_identity (fst (createTask (mkCreate "agent-1" "plan_tasks"
                                         "Analyze agent description" None) empty_db)) t'.
Proof.
  apply ledger_rows_keep_identity.
  - intros i t. unfold createTask, empty_db. cbn [snd rows next_id].
    destruct (decide (i = 1%positive)) as [-> | Hne]; [intros _; lia |].
    rewrite lookup_insert_ne by congruence. now rewrite lookup_empty.
  - reflexivity.
Defined.

(** X13. [updateTask] writes one row at most.  With an id that has no
    row it returns null and changes no row.  Otherwise it returns the
    row as stored, whose status is the one given and whose output and
    error message are overwritten, by null when none is given or the
    value is falsy: an update that only sets the status erases the
    output and the error message stored before.  The rows of other ids
    are as they were. *)
Theorem updateTask_overwrites_one_row (taskId : positive) (data : UpdateTaskData)
    (d : Db) :
  let updated := fst (updateTask taskId data d) in
  let d' := snd (updateTask taskId data d) in
  (forall j, j <> taskId -> getTask j d' = getTask j d)
  /\ getTask taskId d' = updated
  /\ (getTask taskId d = None -> updated = None)
  /\ (forall t, getTask taskId d = Some t ->
        exists t', updated = Some t'
                   /\ same_identity t t'
                   /\ status t' = u_status data
                   /\ taskOutput t' = or_null (u_taskOutput data)
                   /\ errorMessage t' = message_or_null (u_errorMessage data)
                   /\ (u_taskOutput data = None -> taskOutput t' = None)
                   /\ (u_errorMessage data = None -> errorMessage t' = None)).
Proof.
  unfold updateTask, getTask. cbn [fst snd rows].
  destruct (rows d !! taskId) as [t0 |] eqn:Ht0; cbn [option_map].
  - split; [intros j Hj; now rewrite lookup_insert_ne by congruence |].
    split; [apply lookup_insert_eq |]. split; [discriminate |].
    intros t [= <-]. eexists. split; [reflexivity |].
    split; [repeat split |]. cbn [apply_update status taskOutput errorMessage].
    split; [reflexivity |]. split; [reflexivity |]. split; [reflexivity |].
    split; now intros ->.
  - split; [reflexivity |]. split; [exact Ht0 |]. split; [reflexivity | discriminate].
Qed.
End LedgerHistoryFacts.

Section RegexFacts.
Import Regex.

Lemma string_app_eq_nil (a b : string) : a ++ b = "" -> a = "" /\ b = "".
Proof. destruct a; [now rewrite string_app_empty | discriminate]. Qed.

Lemma string_length_app (a b : string) :
  String.length (a ++ b) = (String.length a + String.length b)%nat.
Proof.
  induction a as [| c a IH]; [reflexivity |].
  rewrite string_app_cons. cbn [String.length]. now rewrite IH.
Qed.

Lemma nullable_lang (r : regex) : nullable r = true <-> lang r "".
Proof.
  induction r as [| | class | r1 IH1 r2 IH2 | r1 IH1 r2 IH2 | r IH]; cbn [nullable].
  - split; [discriminate | inversion 1].
  - split; [constructor | reflexivity].
  - split; [discriminate | inversion 1].
  - rewrite andb_true_iff, IH1, IH2. split.
    + intros [H1 H2]. exact (lang_seq r1 r2 "" "" H1 H2).
    + inversion 1 as [| | ? ? s1 s2 H1 H2 [E1 E2] E | | | |]; subst.
      apply string_app_eq_nil in E as [-> ->]. auto.
  - rewrite orb_true_iff, IH1, IH2. split.
    + intros [H | H]; [now apply lang_alt_l | now apply lang_alt_r].
    + inversion 1; subst; auto.
  - split; [constructor | reflexivity].
Qed.

Lemma lang_star_step (r : regex) (s : string) :
  lang (Star r) s ->
  s = "" \/ exists c s1 s2, s = String c (s1 ++ s2)
                            /\ lang r (String c s1) /\ lang (Star r) s2.
Proof.
  remember (Star r) as r' eqn:Hr. intros H.
  induction H as [| | | | | r0 | r0 s1 s2 H1 _ H2 IH2]; try discriminate Hr.
  - now left.
  - injection Hr as ->. destruct s1 as [| c s1].
    + rewrite string_app_empty. now apply IH2.
    + right. exists c, s1, s2. auto.
Qed.

Lemma deriv_lang (r : regex) :
  forall c s, lang (deriv c r) s <-> lang r (String c s).
Proof.
  induction r as [| | class | r1 IH1 r2 IH2 | r1 IH1 r2 IH2 | r IH];
    intros c s; cbn [deriv].
  - split; inversion 1.
  - split; inversion 1.
  - destruct (class c) eqn:Hc; split.
    + inversion 1; subst. now constructor.
    + inversion 1; subst. constructor.
    + inversion 1.
    + inversion 1; subst. congruence.
  - assert (Hseq : lang (Seq (deriv c r1) r2) s ->
                   lang (Seq r1 r2) (String c s)).
    { inversion 1 as [| | ? ? s1 s2 H1 H2 | | | |]; subst.
      apply IH1 in H1. exact (lang_seq r1 r2 (String c s1) s2 H1 H2). }
    assert (Hback : lang (Seq r1 r2) (String c s) ->
                    lang (Seq (deriv c r1) r2) s
                    \/ (lang r1 "" /\ lang (deriv c r2) s)).
    { inversion 1 as [| | ? ? s1 s2 H1 H2 [E1 E2] E | | | |]; subst.
      destruct s1 as [| c1 s1].
      - rewrite string_app_empty in E. subst s2. right. split; [exact H1 |].
        now apply IH2.
      - rewrite string_app_cons in E. injection E as -> <-. left.
        apply lang_seq; [now apply IH1 | exact H2]. }
    destruct (nullable r1) eqn:Hn.
    + split.
      * inversion 1; subst; [now apply Hseq |].
        apply nullable_lang in Hn.
        match goal with H : lang (deriv c r2) s |- _ => apply IH2 in H;
          exact (lang_seq r1 r2 "" (String c s) Hn H) end.
      * intros H. destruct (Hback H) as [H' | [_ H']];
          [now apply lang_alt_l | now apply lang_alt_r].
    + split; [exact Hseq |].
      intros H. destruct (Hback H) as [H' | [H' _]]; [exact H' |].
      apply nullable_lang in H'. congruence.
  - split.
    + inversion 1; subst; [apply lang_alt_l | apply lang_alt_r];
        [now apply IH1 | now apply IH2].
    + inversion 1; subst; [apply lang_alt_l | apply lang_alt_r];
        [now apply IH1 | now apply IH2].
  - split.
    + inversion 1 as [| | ? ? s1 s2 H1 H2 | | | |]; subst.
      apply IH in H1. exact (lang_star_cons r (String c s1) s2 H1 H2).
    + intros H. apply lang_star_step in H as [H | (c' & s1 & s2 & E & H1 & H2)];
        [discriminate |].
      injection E as <- ->. apply lang_seq; [now apply IH | exact H2].
Qed.

(** The matcher decides the language. *)
Lemma matches_lang (r : regex) (s : string) : matches r s = true <-> lang r s.
Proof.
  revert r. induction s as [| c s IH]; intros r; cbn [matches].
  - apply nullable_lang.
  - rewrite IH. apply deriv_lang.
Qed.

Lemma lang_seq_inv (r1 r2 : regex) (s : string) :
  lang (Seq r1 r2) s <-> exists s1 s2, s = s1 ++ s2 /\ lang r1 s1 /\ lang r2 s2.
Proof.
  split.
  - inversion 1; subst. eauto.
  - intros (s1 & s2 & -> & H1 & H2). now constructor.
Qed.

Lemma lang_alt_inv (r1 r2 : regex) (s : string) :
  lang (Alt r1 r2) s <-> lang r1 s \/ lang r2 s.
Proof.
  split.
  - inversion 1; subst; auto.
  - intros [H | H]; [now apply lang_alt_l | now apply lang_alt_r].
Qed.

Lemma lang_chr_inv (class : ascii -> bool) (s : string) :
  lang (Chr class) s <-> exists c, s = String c "" /\ class c = true.
Proof.
  split.
  - inversion 1; subst. eauto.
  - intros (c & -> & Hc). now constructor.
Qed.

Lemma lang_eps_inv (s : string) : lang Eps s <-> s = "".
Proof. split; [now inversion 1 | intros ->; constructor]. Qed.

Lemma all_in_app (class : ascii -> bool) (a b : string) :
  all_in class (a ++ b) = all_in class a && all_in class b.
Proof.
  induction a as [| c a IH]; [reflexivity |].
  rewrite string_app_cons. cbn [all_in]. now rewrite IH, andb_assoc.
Qed.

Lemma count_in_app (class : ascii -> bool) (a b : string) :
  count_in class (a ++ b) = (count_in class a + count_in class b)%nat.
Proof.
  induction a as [| c a IH]; [reflexivity |].
  rewrite string_app_cons. cbn [count_in]. rewrite IH. lia.
Qed.

(** A repetition of a class: every character is in the class. *)
Lemma lang_star_chr (class : ascii -> bool) (s : string) :
  lang (Star (Chr class)) s <-> all_in class s = true.
Proof.
  split.
  - remember (Star (Chr class)) as r eqn:Hr. intros H.
    induction H as [| | | | | r0 | r0 s1 s2 H1 _ H2 IH2]; try discriminate Hr.
    + reflexivity.
    + injection Hr as ->. apply lang_chr_inv in H1 as (c & -> & Hc).
      rewrite string_app_cons, string_app_empty. cbn [all_in].
      now rewrite Hc, IH2.
  - induction s as [| c s IH]; cbn [all_in]; [constructor |].
    intros [Hc Hs]%andb_true_iff.
    change (String c s) with (String c "" ++ s).
    apply lang_star_cons; [now constructor | now apply IH].
Qed.

Lemma lang_plus_chr (class : ascii -> bool) (s : string) :
  lang (Plus (Chr class)) s <-> s <> "" /\ all_in class s = true.
Proof.
  unfold Plus. rewrite lang_seq_inv. split.
  - intros (s1 & s2 & -> & (c & -> & Hc)%lang_chr_inv & H2%lang_star_chr).
    rewrite string_app_cons, string_app_empty. split; [discriminate |].
    cbn [all_in]. now rewrite Hc, H2.
  - intros [Hne Hall]. destruct s as [| c s]; [contradiction |].
    cbn [all_in] in Hall. apply andb_true_iff in Hall as [Hc Hs].
    exists (String c ""), s. split; [reflexivity |].
    split; [now constructor | now apply lang_star_chr].
Qed.

Lemma lang_power_chr (class : ascii -> bool) (n : nat) (s : string) :
  lang (power (Chr class) n) s <-> String.length s = n /\ all_in class s = true.
Proof.
  revert s. induction n as [| n IH]; intros s; cbn [power].
  - rewrite lang_eps_inv. split; [now intros -> |].
    intros [Hlen _]. now destruct s.
  - rewrite lang_seq_inv. split.
    + intros (s1 & s2 & -> & (c & -> & Hc)%lang_chr_inv & [Hlen Hall]%IH).
      rewrite string_app_cons, string_app_empty. cbn [String.length all_in].
      now rewrite Hlen, Hc, Hall.
    + intros [Hlen Hall]. destruct s as [| c s]; [discriminate |].
      cbn [String.length all_in] in *. apply andb_true_iff in Hall as [Hc Hs].
      exists (String c ""), s. split; [reflexivity |].
      split; [now constructor |]. apply IH. split; [lia | exact Hs].
Qed.

Lemma lang_upto_chr (class : ascii -> bool) (n : nat) (s : string) :
  lang (upto (Chr class) n) s
  <-> (String.length s <= n)%nat /\ all_in class s = true.
Proof.
  revert s. induction n as [| n IH]; intros s; cbn [upto].
  - rewrite lang_eps_inv. split; [now intros -> |].
    intros [Hlen _]. destruct s; [reflexivity | cbn in Hlen; lia].
  - rewrite lang_alt_inv, lang_eps_inv, lang_seq_inv. split.
    + intros [-> | (s1 & s2 & -> & (c & -> & Hc)%lang_chr_inv & [Hlen Hall]%IH)].
      * cbn. split; [lia | reflexivity].
      * rewrite string_app_cons, string_app_empty. cbn [String.length all_in].
        rewrite Hc, Hall. split; [lia | reflexivity].
    + intros [Hlen Hall]. destruct s as [| c s]; [now left | right].
      cbn [String.length all_in] in *. apply andb_true_iff in Hall as [Hc Hs].
      exists (String c ""), s. split; [reflexivity |].
      split; [now constructor |]. apply IH. split; [lia | exact Hs].
Qed.

Lemma test_whole_power (class : ascii -> bool) (n : nat) (s : string) :
  test_whole (power (Chr class) n) s
  = (String.length s =? n)%nat && all_in class s.
Proof.
  apply eq_true_iff_eq. unfold test_whole.
  rewrite matches_lang, lang_power_chr, andb_true_iff, Nat.eqb_eq. reflexivity.
Qed.

Lemma test_whole_plus (class : ascii -> bool) (s : string) :
  test_whole (Plus (Chr class)) s = negb (String.eqb s "") && all_in class s.
Proof.
  apply eq_true_iff_eq. unfold test_whole.
  rewrite matches_lang, lang_plus_chr, andb_true_iff, negb_true_iff.
  destruct (String.eqb_spec s ""); intuition congruence.
Qed.

Lemma all_in_any (s : string) : all_in (fun _ => true) s = true.
Proof. induction s as [| c s IH]; [reflexivity | exact IH]. Qed.

Lemma lang_star_any (s : string) : lang (Star any) s.
Proof. apply lang_star_chr, all_in_any. Qed.

Lemma test_start_chr (class : ascii -> bool) (s : string) :
  test_start (Chr class) s = first_in class s.
Proof.
  apply eq_true_iff_eq. unfold test_start. rewrite matches_lang, lang_seq_inv. split.
  - intros (s1 & s2 & -> & (c & -> & Hc)%lang_chr_inv & _). exact Hc.
  - destruct s as [| c s]; cbn [first_in]; [discriminate |]. intros Hc.
    exists (String c ""), s. split; [reflexivity |].
    split; [now constructor | apply lang_star_any].
Qed.

Lemma last_in_app (class : ascii -> bool) (a : string) (c : ascii) :
  last_in class (a ++ String c "") = class c.
Proof.
  induction a as [| x a IH]; [reflexivity |].
  rewrite string_app_cons. cbn [last_in].
  destruct (a ++ String c "") as [| y r] eqn:E; [| exact IH].
  destruct a; discriminate E.
Qed.

Lemma string_snoc (s : string) :
  s = "" \/ exists a c, s = a ++ String c "".
Proof.
  induction s as [| x s IH]; [now left | right].
  destruct IH as [-> | (a & c & ->)].
  - now exists "", x.
  - now exists (String x a), c.
Qed.

Lemma test_end_chr (class : ascii -> bool) (s : string) :
  test_end (Chr class) s = last_in class s.
Proof.
  apply eq_true_iff_eq. unfold test_end. rewrite matches_lang, lang_seq_inv. split.
  - intros (s1 & s2 & -> & _ & (c & -> & Hc)%lang_chr_inv).
    now rewrite last_in_app.
  - destruct (string_snoc s) as [-> | (a & c & ->)]; [discriminate |].
    rewrite last_in_app. intros Hc. exists a, (String c "").
    split; [reflexivity |]. split; [apply lang_star_any | now constructor].
Qed.

Lemma has_adjacent_intro (class : ascii -> bool) (a : string) (c d : ascii)
    (rest : string) :
  class c = true -> class d = true ->
  has_adjacent class (a ++ String c (String d rest)) = true.
Proof.
  intros Hc Hd. induction a as [| x a IH].
  - rewrite string_app_empty. cbn [has_adjacent]. now rewrite Hc, Hd.
  - rewrite string_app_cons. cbn [has_adjacent].
    destruct (a ++ String c (String d rest)) as [| y r] eqn:E;
      [destruct a; discriminate E |].
    rewrite IH. apply orb_true_r.
Qed.

Lemma has_adjacent_elim (class : ascii -> bool) (s : string) :
  has_adjacent class s = true ->
  exists a c d rest, s = a ++ String c (String d rest)
                     /\ class c = true /\ class d = true.
Proof.
  induction s as [| x s IH]; cbn [has_adjacent]; [discriminate |].
  destruct s as [| y s]; [discriminate |].
  intros [[Hx Hy]%andb_true_iff | H]%orb_true_iff.
  - now exists "", x, y, s.
  - destruct (IH H) as (a & c & d & rest & E & Hc & Hd).
    exists (String x a), c, d, rest. rewrite string_app_cons, <- E. auto.
Qed.

Lemma test_within_two (class : ascii -> bool) (s : string) :
  test_within (AtLeast (Chr class) 2) s = has_adjacent class s.
Proof.
  apply eq_true_iff_eq. unfold test_within, AtLeast.
  rewrite matches_lang. split.
  - intros (a & s1 & -> & _ & (m & b & -> & (m1 & m2 & -> & H1 & _)%lang_seq_inv & _)
                              %lang_seq_inv)%lang_seq_inv.
    apply lang_power_chr in H1 as [Hlen Hall].
    destruct m1 as [| c [| d [| e m1]]]; try discriminate Hlen.
    cbn [all_in] in Hall.
    apply andb_true_iff in Hall as [Hc [Hd _]%andb_true_iff].
    rewrite !string_app_cons, string_app_empty.
    now apply has_adjacent_intro.
  - intros (a & c & d & rest & -> & Hc & Hd)%has_adjacent_elim.
    apply lang_seq; [apply lang_star_any |].
    change (String c (String d rest))
      with ((String c (String d "") ++ "") ++ rest).
    apply lang_seq; [| apply lang_star_any].
    apply lang_seq; [| constructor].
    apply lang_power_chr. cbn [String.length all_in]. now rewrite Hc, Hd.
Qed.
End RegexFacts.

Section AccountIdFacts.
Import Regex AccountIds.

Lemma lang_all_in (P : ascii -> bool) (r : regex) (s : string) :
  classes_in P r -> lang r s -> all_in P s = true.
Proof.
  intros Hr H. induction H; cbn [classes_in] in Hr.
  - reflexivity.
  - cbn [all_in]. now rewrite (Hr c H).
  - destruct Hr as [H1 H2]. rewrite all_in_app. now rewrite IHlang1, IHlang2.
  - now apply IHlang.
  - now apply IHlang.
  - reflexivity.
  - rewrite all_in_app. now rewrite IHlang1, IHlang2.
Qed.

Lemma all_in_impl (P Q : ascii -> bool) (s : string) :
  (forall c, P c = true -> Q c = true) -> all_in P s = true -> all_in Q s = true.
Proof.
  intros HPQ. induction s as [| c s IH]; cbn [all_in]; [reflexivity |].
  intros [Hc Hs]%andb_true_iff. now rewrite (HPQ c Hc), IH.
Qed.

Lemma all_in_count_zero (P Q : ascii -> bool) (s : string) :
  (forall c, P c = true -> Q c = false) -> all_in P s = true -> count_in Q s = 0%nat.
Proof.
  intros HPQ. induction s as [| c s IH]; cbn [all_in count_in]; [reflexivity |].
  intros [Hc Hs]%andb_true_iff. now rewrite (HPQ c Hc), IH.
Qed.

Lemma all_in_first (P Q : ascii -> bool) (s : string) :
  (forall c, P c = true -> Q c = false) -> all_in P s = true -> first_in Q s = false.
Proof.
  intros HPQ. destruct s as [| c s]; cbn [all_in first_in]; [reflexivity |].
  intros [Hc _]%andb_true_iff. now apply HPQ.
Qed.

Lemma all_in_last (P Q : ascii -> bool) (s : string) :
  (forall c, P c = true -> Q c = false) -> all_in P s = true -> last_in Q s = false.
Proof.
  intros HPQ. induction s as [| c s IH]; cbn [all_in last_in]; [reflexivity |].
  intros [Hc Hs]%andb_true_iff. destruct s; [now apply HPQ | now apply IH].
Qed.

Lemma all_in_adjacent (P Q : ascii -> bool) (s : string) :
  (forall c, P c = true -> Q c = false) -> all_in P s = true ->
  has_adjacent Q s = false.
Proof.
  intros HPQ. induction s as [| c s IH]; cbn [all_in has_adjacent]; [reflexivity |].
  intros [Hc Hs]%andb_true_iff. destruct s; [reflexivity |].
  now rewrite (HPQ c Hc), IH.
Qed.

Lemma includes_dot (s : string) :
  JsString.includes s "." = negb (count_in dot s =? 0)%nat.
Proof.
  induction s as [| c s IH]; [reflexivity |].
  cbn [JsString.includes count_in String.prefix].
  unfold dot at 1. destruct (ascii_dec "." c) as [<- | Hne].
  - now destruct s.
  - assert (Hc : Ascii.eqb c "." = false) by (apply Ascii.eqb_neq; congruence).
    rewrite Hc. exact IH.
Qed.

Lemma hex_alnum (c : ascii) : hex c = true -> alnum c = true.
Proof.
  destruct c as [[] [] [] [] [] [] [] []]; intros H; try discriminate H; reflexivity.
Qed.

Lemma alnum_cases (c : ascii) :
  alnum c = true ->
  separator c = false /\ dash c = false /\ dot c = false /\ Ascii.eqb c "-" = false.
Proof.
  destruct c as [[] [] [] [] [] [] [] []]; intros H; try discriminate H;
    repeat split; reflexivity.
Qed.

Lemma alnum_or_dash_no_dot (c : ascii) : alnum_or_dash c = true -> dot c = false.
Proof.
  destruct c as [[] [] [] [] [] [] [] []]; intros H; try discriminate H; reflexivity.
Qed.

Lemma alnum_or_hyphen_no_dot (c : ascii) : alnum_or_hyphen c = true -> dot c = false.
Proof.
  destruct c as [[] [] [] [] [] [] [] []]; intros H; try discriminate H; reflexivity.
Qed.

Lemma implicit_well_formed (s : string) :
  implicit_account s = true -> well_formed_name s = true.
Proof.
  unfold implicit_account, well_formed_name.
  intros [Hlen%Nat.eqb_eq Hhex]%andb_true_iff.
  assert (Hal : all_in alnum s = true) by (apply (all_in_impl hex); [apply hex_alnum | exact Hhex]).
  assert (Hsep : forall c, alnum c = true -> separator c = false)
    by (intros c Hc; now apply alnum_cases).
  rewrite Hlen.
  rewrite (all_in_impl alnum alnum_or_separator s), (all_in_first alnum separator s),
    (all_in_last alnum separator s), (all_in_adjacent alnum separator s); auto.
  intros c Hc. unfold alnum_or_separator. now rewrite Hc.
Qed.

(** X14. [isValidAccountId] of lib/near/utils.ts accepts exactly the
    ids of 2 to 64 characters made of lower-case letters, digits and
    the separators [.], [_] and [-] that neither begin nor end with a
    separator nor have two in a row.  The test for implicit accounts
    adds nothing (64 hexadecimal digits are such an id), and no suffix
    [.near] or [.testnet] is asked for. *)
Theorem isValidAccountId_well_formed_names (accountId : string) :
  isValidAccountId accountId = well_formed_name accountId
  /\ (implicit_account accountId = true -> isValidAccountId accountId = true).
Proof.
  assert (Heq : isValidAccountId accountId = well_formed_name accountId).
  { unfold isValidAccountId.
    rewrite test_whole_power, test_whole_plus, test_start_chr, test_end_chr,
      test_within_two.
    fold (implicit_account accountId).
    destruct (implicit_account accountId) eqn:Himp.
    - apply implicit_well_formed in Himp. rewrite Himp.
      destruct (String.eqb_spec accountId "") as [-> | _]; [discriminate Himp | reflexivity].
    - unfold well_formed_name.
      destruct (String.eqb_spec accountId "") as [-> | Hne]; [reflexivity |].
      cbn [negb andb].
      destruct (Nat.ltb_spec (String.length accountId) 2) as [Hlt | Hge].
      + assert (H2 : (2 <=? String.length accountId)%nat = false)
          by (apply Nat.leb_gt; lia).
        now rewrite H2.
      + assert (H2 : (2 <=? String.length accountId)%nat = true)
          by (apply Nat.leb_le; lia).
        rewrite H2. cbn [orb andb].
        destruct (Nat.ltb_spec 64 (String.length accountId)) as [Hgt | Hle].
        * assert (H64 : (String.length accountId <=? 64)%nat = false)
            by (apply Nat.leb_gt; lia).
          now rewrite H64.
        * assert (H64 : (String.length accountId <=? 64)%nat = true)
            by (apply Nat.leb_le; lia).
          rewrite H64. cbn [andb].
          destruct (all_in alnum_or_separator accountId); cbn [negb andb];
            [| reflexivity].
          destruct (first_in separator accountId); cbn [orb negb andb];
            [reflexivity |].
          destruct (last_in separator accountId); cbn [negb andb]; [reflexivity |].
          now destruct (has_adjacent separator accountId). }
  split; [exact Heq |].
  intros Himp. rewrite Heq. now apply implicit_well_formed.
Qed.

Lemma hex_no_dot (c : ascii) : hex c = true -> dot c = false.
Proof.
  destruct c as [[] [] [] [] [] [] [] []]; intros H; try discriminate H; reflexivity.
Qed.

Lemma service_regex_classes :
  classes_in alnum_or_hyphen
    (Seq (Chr alnum) (Seq (Rep (Chr alnum_or_hyphen) 0 62) (Chr alnum))).
Proof.
  assert (Ha : forall c, alnum c = true -> alnum_or_hyphen c = true)
    by (intros c Hc; unfold alnum_or_hyphen; now rewrite Hc).
  cbn. repeat split; auto.
Qed.

Lemma implicit_matches_service_regex (s : string) :
  implicit_account s = true ->
  lang (Seq (Chr alnum) (Seq (Rep (Chr alnum_or_hyphen) 0 62) (Chr alnum))) s.
Proof.
  unfold implicit_account. intros [Hlen%Nat.eqb_eq Hhex]%andb_true_iff.
  assert (Hal : all_in alnum s = true)
    by (apply (all_in_impl hex); [apply hex_alnum | exact Hhex]).
  destruct s as [| c1 s]; [discriminate Hlen |].
  destruct (string_snoc s) as [-> | (mid & c2 & ->)]; [discriminate Hlen |].
  cbn [String.length all_in] in *. rewrite string_length_app in Hlen.
  cbn [String.length] in Hlen.
  rewrite all_in_app in Hal. cbn [all_in] in Hal.
  apply andb_true_iff in Hal as [Hc1 [Hmid [Hc2 _]%andb_true_iff]%andb_true_iff].
  change (String c1 (mid ++ String c2 "")) with (String c1 "" ++ mid ++ String c2 "").
  apply lang_seq; [now constructor |].
  apply lang_seq; [| now constructor].
  unfold Rep. change mid with ("" ++ mid). apply lang_seq; [constructor |].
  apply lang_upto_chr. split; [cbn; lia |].
  apply (all_in_impl alnum); [| exact Hmid].
  intros c Hc. unfold alnum_or_hyphen. now rewrite Hc.
Qed.

(** X15. [isValidAccountId] of lib/agents/near-account-service.ts
    accepts exactly the implicit accounts, the strings of 64 lower-case
    hexadecimal digits: its pattern allows no dot, so the branch for
    named accounts is never taken, and every id with a dot is
    rejected, the ids [agent-....testnet] that [generateAccountId]
    makes among them. *)
Theorem service_isValidAccountId_only_implicit (accountId : string) :
  service_isValidAccountId accountId = implicit_account accountId
  /\ (JsString.includes accountId "." = true ->
      service_isValidAccountId accountId = false).
Proof.
  assert (Heq : service_isValidAccountId accountId = implicit_account accountId).
  { unfold service_isValidAccountId, test_whole at 1.
    destruct (matches _ accountId) eqn:Hm; cbn [negb].
    - apply matches_lang in Hm.
      apply (lang_all_in _ _ _ service_regex_classes) in Hm.
      rewrite includes_dot,
        (all_in_count_zero alnum_or_hyphen dot accountId alnum_or_hyphen_no_dot Hm).
      cbn [Nat.eqb negb]. rewrite test_whole_plus. unfold implicit_account.
      destruct (Nat.eqb_spec (String.length accountId) 64) as [Hlen | _];
        [| reflexivity].
      destruct (String.eqb_spec accountId "") as [-> | _]; [discriminate Hlen |].
      reflexivity.
    - destruct (implicit_account accountId) eqn:Himp; [| reflexivity].
      apply implicit_matches_service_regex, matches_lang in Himp. congruence. }
  split; [exact Heq |].
  rewrite Heq, includes_dot. unfold implicit_account.
  intros Hdot. destruct (all_in hex accountId) eqn:Hhex; [| apply andb_false_r].
  rewrite (all_in_count_zero hex dot accountId hex_no_dot Hhex) in Hdot.
  discriminate Hdot.
Qed.

Lemma words_classes : classes_in alnum_or_dash words.
Proof.
  assert (Ha : forall c, alnum c = true -> alnum_or_dash c = true)
    by (intros c Hc; unfold alnum_or_dash; now rewrite Hc).
  assert (Hd : forall c, dash c = true -> alnum_or_dash c = true)
    by (intros c Hc; unfold alnum_or_dash; rewrite Hc; apply orb_true_r).
  cbn. repeat split; auto.
Qed.

Lemma named_one_dot (s : string) :
  lang namedAccountRegex s -> count_in dot s = 1%nat.
Proof.
  unfold namedAccountRegex.
  intros (w1 & r & -> & H1 & (d & w2 & -> & (c & -> & Hc)%lang_chr_inv & H2)
                             %lang_seq_inv)%lang_seq_inv.
  apply (lang_all_in _ _ _ words_classes) in H1, H2.
  rewrite !count_in_app. cbn [count_in]. rewrite Hc.
  rewrite (all_in_count_zero _ dot w1 alnum_or_dash_no_dot H1),
    (all_in_count_zero _ dot w2 alnum_or_dash_no_dot H2).
  reflexivity.
Qed.

(** X16. [isValidNearAccountId] of the sendNearTokens tool accepts no
    id with more than one dot, so a sub-account such as
    [sub.alice.testnet] is refused as a recipient; and of the ids
    without a dot it accepts, besides the implicit accounts, every
    string of 2 to 64 characters among lower-case letters, digits,
    [-] and [_], wherever the separators are. *)
Theorem isValidNearAccountId_dots (accountId : string) :
  (isValidNearAccountId accountId = true -> (count_in dot accountId <= 1)%nat)
  /\ (count_in dot accountId = 0%nat ->
      isValidNearAccountId accountId
      = implicit_account accountId
        || ((2 <=? String.length accountId)%nat
            && (String.length accountId <=? 64)%nat
            && all_in alnum_or_dash accountId)).
Proof.
  unfold isValidNearAccountId.
  rewrite test_whole_power, test_whole_plus. fold (implicit_account accountId).
  split.
  - destruct (implicit_account accountId) eqn:Himp.
    + intros _. unfold implicit_account in Himp.
      apply andb_true_iff in Himp as [_ Hhex].
      rewrite (all_in_count_zero hex dot accountId hex_no_dot Hhex). lia.
    + destruct (_ || _)%bool; [discriminate |].
      destruct (test_whole namedAccountRegex accountId) eqn:Hnamed.
      * intros _. apply matches_lang, named_one_dot in Hnamed. lia.
      * destruct (all_in alnum_or_dash accountId) eqn:Hall;
          [| rewrite andb_false_r; discriminate].
        intros _.
        rewrite (all_in_count_zero _ dot accountId alnum_or_dash_no_dot Hall). lia.
  - intros Hdots.
    assert (Hnamed : test_whole namedAccountRegex accountId = false).
    { destruct (test_whole namedAccountRegex accountId) eqn:Hn; [| reflexivity].
      apply matches_lang, named_one_dot in Hn. lia. }
    rewrite Hnamed.
    destruct (implicit_account accountId); [reflexivity |]. cbn [orb].
    destruct (Nat.ltb_spec (String.length accountId) 2) as [Hlt | Hge].
    + assert (H2 : (2 <=? String.length accountId)%nat = false)
        by (apply Nat.leb_gt; lia).
      now rewrite H2.
    + assert (H2 : (2 <=? String.length accountId)%nat = true)
        by (apply Nat.leb_le; lia).
      rewrite H2. cbn [orb andb].
      destruct (Nat.ltb_spec 64 (String.length accountId)) as [Hgt | Hle].
      * assert (H64 : (String.length accountId <=? 64)%nat = false)
          by (apply Nat.leb_gt; lia).
        now rewrite H64.
      * assert (H64 : (String.length accountId <=? 64)%nat = true)
          by (apply Nat.leb_le; lia).
        rewrite H64. cbn [andb].
        destruct (String.eqb_spec accountId "") as [-> | _]; [cbn in Hge; lia |].
        cbn [negb andb]. rewrite andb_true_r.
        now destruct (all_in alnum_or_dash accountId).
Qed.

Lemma isValidNearAccountId_dots_witness :
  (count_in dot "alice.testnet" <= 1)%nat
  /\ isValidNearAccountId "sub.alice.testnet" = false
  /\ isValidNearAccountId "-a__b-"
     = implicit_account "-a__b-"
       || ((2 <=? String.length "-a__b-")%nat
           && (String.length "-a__b-" <=? 64)%nat
           && all_in alnum_or_dash "-a__b-").
Proof.
  split; [| split].
  - apply (proj1 (isValidNearAccountId_dots "alice.testnet")). reflexivity.
  - destruct (isValidNearAccountId "sub.alice.testnet") eqn:H; [| reflexivity].
    apply (proj1 (isValidNearAccountId_dots "sub.alice.testnet")) in H.
    cbn in H. lia.
  - apply (proj2 (isValidNearAccountId_dots "-a__b-")). reflexivity.
Defined.
End AccountIdFacts.

Section AccountCreationFacts.
Import NearAccountService.

Variables (faucet : nat -> FaucetAnswer) (id secret public : string).

Lemma attempts_log (rounds : nat) :
  forall attempt,
    (attempt + rounds = MAX_RETRIES)%nat -> (0 < rounds)%nat ->
    let res := fst (attempts faucet id secret public rounds attempt) in
    let events := snd (attempts faucet id secret public rounds attempt) in
    exists n,
      (1 <= n <= rounds)%nat
      /\ events = requests_with_backoff id public attempt n
      /\ (forall j, (attempt <= j < attempt + n - 1)%nat -> refused faucet j)
      /\ res = mkAccount id secret public
                 (Some (if fst (fundFromFaucet (faucet (attempt + n - 1)%nat))
                        then "200" else "0"))
      /\ (fst (fundFromFaucet (faucet (attempt + n - 1)%nat)) = true
          \/ snd (fundFromFaucet (faucet (attempt + n - 1)%nat)) = true
          \/ n = rounds).
Proof.
  induction rounds as [| rounds IH]; intros attempt Hsum Hpos; [lia |].
  cbn [attempts].
  assert (Hlt : (attempt <? MAX_RETRIES)%nat = true) by (apply Nat.ltb_lt; lia).
  rewrite Hlt.
  destruct (fundFromFaucet (faucet attempt)) as [success rateLimited] eqn:Hfund.
  destruct success; [| destruct rateLimited].
  - exists 1%nat. cbn [fst snd requests_with_backoff].
    replace (attempt + 1 - 1)%nat with attempt by lia. rewrite Hfund. cbn [fst snd].
    split; [lia |]. split; [reflexivity |]. split; [intros j Hj; lia |]. auto.
  - exists 1%nat. cbn [fst snd requests_with_backoff].
    replace (attempt + 1 - 1)%nat with attempt by lia. rewrite Hfund. cbn [fst snd].
    split; [lia |]. split; [reflexivity |]. split; [intros j Hj; lia |]. auto.
  - destruct rounds as [| rounds'].
    + (* the last attempt *)
      assert (Hlast : (attempt <? MAX_RETRIES - 1)%nat = false)
        by (apply Nat.ltb_ge; unfold MAX_RETRIES in *; lia).
      rewrite Hlast. cbn [attempts fst snd app].
      exists 1%nat. cbn [requests_with_backoff].
      replace (attempt + 1 - 1)%nat with attempt by lia. rewrite Hfund. cbn [fst snd].
      split; [lia |]. split; [reflexivity |]. split; [intros j Hj; lia |]. auto.
    + assert (Hmore : (attempt <? MAX_RETRIES - 1)%nat = true)
        by (apply Nat.ltb_lt; unfold MAX_RETRIES in *; lia).
      rewrite Hmore.
      destruct (IH (S attempt) ltac:(lia) ltac:(lia)) as (n & Hn & Hev & Href & Hres & Hend).
      destruct (attempts faucet id secret public (S rounds') (S attempt)) as [r events].
      cbn [fst snd] in *.
      exists (S n).
      replace (attempt + S n - 1)%nat with (S attempt + n - 1)%nat by lia.
      split; [lia |]. split.
      * cbn [app]. rewrite Hev. destruct n as [| n']; [lia |]. reflexivity.
      * split; [| split; [exact Hres |]].
        -- intros j Hj. destruct (Nat.eq_dec j attempt) as [-> | Hne];
             [exact Hfund | apply Href; lia].
        -- destruct Hend as [H | [H | ->]]; auto.
Qed.

(** X17. [createNearAccount] asks the faucet at most five times, always
    for the same account id and public key, pausing 1000, 2000, 4000
    and 8000 ms between requests and never after the last; it stops at
    the first request that succeeds (the account is reported funded
    with "200") or is rate limited (reported with "0"), and after five
    plain refusals it still returns the account, reported with "0":
    no answer of the faucet makes it throw. *)
Theorem createNearAccount_backoff :
  let res := fst (createNearAccount faucet id secret public) in
  let events := snd (createNearAccount faucet id secret public) in
  exists n,
    (1 <= n <= 5)%nat
    /\ events = requests_with_backoff id public 0 n
    /\ (forall j, (j < n - 1)%nat -> refused faucet j)
    /\ accountId res = id /\ privateKey res = secret /\ publicKey res = public
    /\ fundedAmount res
       = Some (if fst (fundFromFaucet (faucet (n - 1)%nat)) then "200" else "0")
    /\ (fst (fundFromFaucet (faucet (n - 1)%nat)) = true
        \/ snd (fundFromFaucet (faucet (n - 1)%nat)) = true
        \/ n = 5%nat).
Proof.
  unfold createNearAccount.
  destruct (attempts_log MAX_RETRIES 0%nat eq_refl ltac:(unfold MAX_RETRIES; lia))
    as (n & Hn & Hev & Href & Hres & Hend).
  cbn [Nat.add] in *. exists n.
  split; [exact Hn |]. split; [exact Hev |].
  split; [intros j Hj; apply Href; lia |].
  rewrite Hres. cbn [accountId privateKey publicKey fundedAmount]. auto.
Qed.
End AccountCreationFacts.

Section RetryFacts.
Import NearAIProvider.

Context {T : Type}.
Variables (fn : nat -> outcome T) (retries : nat).

(** Call [i] throws an error that is tried again. *)
Let retried (i : nat) : Prop :=
  exists error, fn i = Throws error /\ not_retried error = false.

Lemma retry_loop_log (rounds : nat) :
  forall i lastError,
    (i + rounds = retries)%nat -> (0 < rounds)%nat ->
    let r := fst (retry_loop fn retries rounds i lastError) in
    let events := snd (retry_loop fn retries rounds i lastError) in
    exists n,
      (1 <= n <= rounds)%nat
      /\ events = calls_with_backoff i n
      /\ (forall j, (i <= j < i + n - 1)%nat -> retried j)
      /\ match fn (i + n - 1)%nat with
         | Returned value => r = Returned value
         | Throws error =>
             r = Throws (if not_retried error then error
                         else last_or_network_error (Some error))
             /\ (not_retried error = true \/ n = rounds)
         end.
Proof.
  induction rounds as [| rounds IH]; intros i lastError Hsum Hpos; [lia |].
  cbn [retry_loop].
  assert (Hlt : (i <? retries)%nat = true) by (apply Nat.ltb_lt; lia).
  rewrite Hlt.
  destruct (fn i) as [value | error] eqn:Hfn.
  - exists 1%nat. cbn [fst snd calls_with_backoff].
    replace (i + 1 - 1)%nat with i by lia. rewrite Hfn.
    split; [lia |]. split; [reflexivity |]. split; [intros j Hj; lia | reflexivity].
  - destruct (not_retried error) eqn:Hfatal.
    + exists 1%nat. cbn [fst snd calls_with_backoff].
      replace (i + 1 - 1)%nat with i by lia. rewrite Hfn, Hfatal.
      split; [lia |]. split; [reflexivity |]. split; [intros j Hj; lia | auto].
    + destruct rounds as [| rounds'].
      * assert (Hlast : (i <? retries - 1)%nat = false) by (apply Nat.ltb_ge; lia).
        rewrite Hlast. cbn [retry_loop fst snd app].
        exists 1%nat. cbn [calls_with_backoff].
        replace (i + 1 - 1)%nat with i by lia. rewrite Hfn, Hfatal.
        split; [lia |]. split; [reflexivity |]. split; [intros j Hj; lia | auto].
      * assert (Hmore : (i <? retries - 1)%nat = true) by (apply Nat.ltb_lt; lia).
        rewrite Hmore.
        destruct (IH (S i) (Some error) ltac:(lia) ltac:(lia))
          as (n & Hn & Hev & Hret & Hres).
        destruct (retry_loop fn retries (S rounds') (S i) (Some error)) as [r events].
        cbn [fst snd] in *.
        exists (S n).
        replace (i + S n - 1)%nat with (S i + n - 1)%nat by lia.
        split; [lia |]. split.
        -- cbn [app]. rewrite Hev. destruct n as [| n']; [lia |]. reflexivity.
        -- split.
           ++ intros j Hj. destruct (Nat.eq_dec j i) as [-> | Hne];
                [exists error; auto | apply Hret; lia].
           ++ destruct (fn (S i + n - 1)%nat) as [value | error']; [exact Hres |].
              destruct Hres as [Hr [Hf | ->]]; auto.
Qed.

(** X18. [retryWithBackoff] calls [fn] at most [retries] times, pausing
    1000, 2000, 4000, ... ms between calls and never after the last.
    It returns the first value a call returns; an error of a code
    api_key_invalid, api_key_missing or invalid_request is thrown
    again at once, without another call; after [retries] failed calls
    it throws the last error, or a network_error if that error is
    falsy; with no retries allowed it throws a network_error without
    calling [fn]. *)
Theorem retryWithBackoff_calls_and_pauses :
  let r := fst (retryWithBackoff fn retries) in
  let events := snd (retryWithBackoff fn retries) in
  (retries = 0%nat ->
     r = Throws (NearAIError network_error None) /\ events = [])
  /\ ((0 < retries)%nat ->
      exists n,
        (1 <= n <= retries)%nat
        /\ events = calls_with_backoff 0 n
        /\ (forall j, (j < n - 1)%nat ->
              exists error, fn j = Throws error /\ not_retried error = false)
        /\ match fn (n - 1)%nat with
           | Returned value => r = Returned value
           | Throws error =>
               r = Throws (if not_retried error then error
                           else last_or_network_error (Some error))
               /\ (not_retried error = true \/ n = retries)
           end).
Proof.
  unfold retryWithBackoff. split.
  - intros ->. split; reflexivity.
  - intros Hpos.
    destruct (retry_loop_log retries 0%nat None eq_refl Hpos)
      as (n & Hn & Hev & Hret & Hres).
    cbn [Nat.add] in *. exists n.
    split; [exact Hn |]. split; [exact Hev |].
    split; [intros j Hj; apply Hret; lia | exact Hres].
Qed.
End RetryFacts.

Section RequestFacts.
Import NearAIProvider.

Context {T : Type}.

Lemma request_throws (wrap : NearAIErrorCode) (answer : Answer T) (error : Thrown) :
  not_retried (NearAIError wrap None) = false ->
  request wrap answer = Throws error ->
  not_retried error = unauthorized answer
  /\ last_or_network_error (Some error) = error.
Proof.
  intros Hwrap Hreq. destruct answer as [| status body | [value | msg]];
    cbn [request unauthorized] in *.
  - injection Hreq as <-. auto.
  - destruct body as [statusText | | message]; cbn [handleErrorResponse] in Hreq.
    + destruct (status =? 401)%nat; [injection Hreq as <-; auto |].
      destruct (status =? 404)%nat; [injection Hreq as <-; auto |].
      destruct (status =? 429)%nat; [injection Hreq as <-; auto |].
      destruct (status =? 503)%nat; injection Hreq as <-; auto.
    + injection Hreq as <-. auto.
    + destruct (status =? 401)%nat; [injection Hreq as <-; auto |].
      destruct (status =? 404)%nat; [injection Hreq as <-; auto |].
      destruct (status =? 429)%nat; [injection Hreq as <-; auto |].
      destruct (status =? 503)%nat; injection Hreq as <-; auto.
  - discriminate.
  - injection Hreq as <-. auto.
Qed.

Lemma request_returns (wrap : NearAIErrorCode) (answer : Answer T) (value : T) :
  request wrap answer = Returned value -> answer = OkResponse (Ok value).
Proof.
  destruct answer as [| status body | [v | msg]]; cbn [request]; try discriminate.
  - destruct (handleErrorResponse status body); discriminate.
  - now intros [= ->].
Qed.

(** X19. The requests of [chat], [listModels] and [verifyResponse] are
    repeated, with the pauses of [retryWithBackoff], until the service
    answers with an ok response that can be read, or with a 401 whose
    body is not [null], or the calls are used up: a 401 is the only
    answer that stops the calls at once, while a rejected fetch, a
    404, 429 or 503, any other status and an unreadable ok response
    are all tried again.  What is thrown in the end is the error of
    the last answer. *)
Theorem request_repeated_unless_unauthorized (wrap : NearAIErrorCode)
    (answers : nat -> Answer T) (retries : nat) :
  not_retried (NearAIError wrap None) = false ->
  (0 < retries)%nat ->
  let r := fst (retryWithBackoff (fun i => request wrap (answers i)) retries) in
  let events := snd (retryWithBackoff (fun i => request wrap (answers i)) retries) in
  exists n,
    (1 <= n <= retries)%nat
    /\ events = calls_with_backoff 0 n
    /\ (forall j, (j < n - 1)%nat ->
          unauthorized (answers j) = false
          /\ forall value, answers j <> OkResponse (Ok value))
    /\ r = request wrap (answers (n - 1)%nat)
    /\ ((exists value, answers (n - 1)%nat = OkResponse (Ok value))
        \/ unauthorized (answers (n - 1)%nat) = true
        \/ n = retries).
Proof.
  intros Hwrap Hpos. unfold retryWithBackoff.
  destruct (retry_loop_log (fun i => request wrap (answers i)) retries retries
              0%nat None eq_refl Hpos) as (n & Hn & Hev & Hret & Hres).
  cbn [Nat.add] in *. exists n.
  split; [exact Hn |]. split; [exact Hev |]. split.
  - intros j Hj. destruct (Hret j ltac:(lia)) as (error & Hreq & Hnot).
    cbv beta in Hreq.
    destruct (request_throws wrap (answers j) error Hwrap Hreq) as [Hun _].
    split; [congruence |].
    intros value Heq. rewrite Heq in Hreq. discriminate.
  - cbv beta in Hres.
    destruct (request wrap (answers (n - 1)%nat)) as [value | error] eqn:Hreq.
    + split; [exact Hres |]. left. exists value. now apply (request_returns wrap).
    + destruct Hres as [Hr Hend].
      destruct (request_throws wrap _ error Hwrap Hreq) as [Hun Hlast].
      split.
      * rewrite Hr, Hlast. now destruct (not_retried error).
      * right. destruct Hend as [H | H]; [left; congruence | now right].
Qed.
End RequestFacts.

Lemma request_repeated_unless_unauthorized_witness :
  let fn := fun i => NearAIProvider.request NearAIProvider.network_error
                       (SampleExtras.slow_service i) in
  exists n,
    (1 <= n <= NearAIProvider.MAX_RETRIES)%nat
    /\ snd (NearAIProvider.retryWithBackoff fn NearAIProvider.MAX_RETRIES)
       = NearAIProvider.calls_with_backoff 0 n
    /\ (forall j, (j < n - 1)%nat ->
          NearAIProvider.unauthorized (SampleExtras.slow_service j) = false
          /\ forall value,
               SampleExtras.slow_service j
               <> NearAIProvider.OkResponse (Ok value))
    /\ fst (NearAIProvider.retryWithBackoff fn NearAIProvider.MAX_RETRIES)
       = NearAIProvider.request NearAIProvider.network_error
           (SampleExtras.slow_service (n - 1)%nat)
    /\ ((exists value,
           SampleExtras.slow_service (n - 1)%nat
           = NearAIProvider.OkResponse (Ok value))
        \/ NearAIProvider.unauthorized (SampleExtras.slow_service (n - 1)%nat) = true
        \/ n = NearAIProvider.MAX_RETRIES).
Proof.
  apply (request_repeated_unless_unauthorized NearAIProvider.network_error
           SampleExtras.slow_service NearAIProvider.MAX_RETRIES);
    [reflexivity | unfold NearAIProvider.MAX_RETRIES; lia].
Defined.

Section BalanceFacts.
Import RefFinanceUtils.

(** X20. [hasSufficientBalance] of lib/ref-finance/utils.ts compares
    exactly, whatever the size of the numbers: on the decimal strings
    of three naturals it answers whether the amount plus the reserve
    is at most the balance (with the default reserve, 10^23).  It never
    throws: where [hasSufficientBalance] of lib/near/utils.ts throws,
    because a string is not an integer literal, it answers false, and
    where that one returns the two agree. *)
Theorem hasSufficientBalance_exact :
  (forall b a r : N,
     hasSufficientBalance (JsNumber.string_of_N b) (JsNumber.string_of_N a)
       (JsNumber.string_of_N r)
     = (a + r <=? b)%N)
  /\ (forall b a : N,
        hasSufficientBalance (JsNumber.string_of_N b) (JsNumber.string_of_N a)
          "100000000000000000000000"
        = (a + 10 ^ 23 <=? b)%N)
  /\ (forall balance amount gasReserve sufficient,
        near_hasSufficientBalance balance amount gasReserve = Ok sufficient ->
        hasSufficientBalance balance amount gasReserve = sufficient)
  /\ (forall balance amount gasReserve msg,
        near_hasSufficientBalance balance amount gasReserve = Throw msg ->
        hasSufficientBalance balance amount gasReserve = false).
Proof.
  assert (Hexact : forall b a r : N,
            hasSufficientBalance (JsNumber.string_of_N b) (JsNumber.string_of_N a)
              (JsNumber.string_of_N r)
            = (a + r <=? b)%N).
  { intros b a r. unfold hasSufficientBalance.
    rewrite !BigInt_string_of_N. cbn [bind].
    destruct (N.leb_spec (a + r) b) as [H | H].
    - apply Z.leb_le. lia.
    - apply Z.leb_gt. lia. }
  split; [exact Hexact |]. split.
  - intros b a. apply (Hexact b a (10 ^ 23)%N).
  - split.
    + intros balance amount gasReserve sufficient H.
      unfold hasSufficientBalance. unfold near_hasSufficientBalance in H.
      now rewrite H.
    + intros balance amount gasReserve msg H.
      unfold hasSufficientBalance. unfold near_hasSufficientBalance in H.
      now rewrite H.
Qed.

Lemma isTokenSupported_lookupToken (symbol : string) (network : RefFinance.Network) :
  isTokenSupported symbol network = true ->
  exists metadata,
    lookupToken symbol network = Some metadata
    /\ In (JsString.toUpperCase symbol, metadata) (TOKENS network).
Proof.
  unfold isTokenSupported, lookupToken, getTokenMetadata.
  generalize (JsString.toUpperCase symbol) as key. intros key.
  induction (TOKENS network) as [| [k v] rest IH]; cbn [own_property];
    [discriminate |].
  destruct (String.eqb k key) eqn:Hk.
  - intros _. apply String.eqb_eq in Hk as ->. exists v. split; [reflexivity | now left].
  - intros H. destruct (IH H) as (m & Hm & Hin). exists m. split; [exact Hm | now right].
Qed.

(** X21. When [validateSwapParams] answers valid, [lookupToken] finds
    both tokens in the registry of the network (so the branch
    "Token not found" of the swapTokens tool is never taken), the two
    symbols differ when upper-cased, and [parseFloat] reads a positive
    number from the amount.  The two tokens need not be different
    contracts: NEAR to wNEAR is valid on both networks for every such
    amount, and both symbols name the same contract. *)
Theorem validateSwapParams_valid_tokens_found :
  (forall fromToken toToken amount network,
     valid (validateSwapParams fromToken toToken amount network) = true ->
     exists fromTokenMeta toTokenMeta,
       lookupToken fromToken network = Some fromTokenMeta
       /\ lookupToken toToken network = Some toTokenMeta
       /\ In (JsString.toUpperCase fromToken, fromTokenMeta) (TOKENS network)
       /\ In (JsString.toUpperCase toToken, toTokenMeta) (TOKENS network)
       /\ JsString.toUpperCase fromToken <> JsString.toUpperCase toToken
       /\ JsNumber.gt0 (JsNumber.parseFloat amount) = true)
  /\ (forall amount network,
        JsNumber.gt0 (JsNumber.parseFloat amount) = true ->
        validateSwapParams "NEAR" "wNEAR" amount network = mkValidation true None
        /\ exists fromTokenMeta toTokenMeta,
             lookupToken "NEAR" network = Some fromTokenMeta
             /\ lookupToken "wNEAR" network = Some toTokenMeta
             /\ id fromTokenMeta = id toTokenMeta).
Proof.
  split.
  - intros fromToken toToken amount network. unfold validateSwapParams.
    destruct (isTokenSupported fromToken network) eqn:Hfrom; cbn [negb];
      [| discriminate].
    destruct (isTokenSupported toToken network) eqn:Hto; cbn [negb];
      [| discriminate].
    destruct (String.eqb _ _) eqn:Hsame; [discriminate |].
    destruct (JsNumber.isNaN _ || negb _)%bool eqn:Hamount; [discriminate |].
    intros _.
    destruct (isTokenSupported_lookupToken _ _ Hfrom) as (f & Hf & Hfin).
    destruct (isTokenSupported_lookupToken _ _ Hto) as (t & Ht & Htin).
    exists f, t. repeat split; try assumption.
    + now apply String.eqb_neq.
    + apply orb_false_iff in Hamount as [_ Hpos]. now apply negb_false_iff.
  - intros amount network Hpos. unfold validateSwapParams.
    assert (Hnan : JsNumber.isNaN (JsNumber.parseFloat amount) = false)
      by (destruct (JsNumber.parseFloat amount); [discriminate | reflexivity ..]).
    destruct network; cbn; rewrite Hnan, Hpos; cbn.
    all: split; [reflexivity |]; eexists; eexists; repeat split.
Qed.
End BalanceFacts.

Section AgentTableFacts.
Import AgentService.

Lemma select_where_In (keep : Agent -> bool) (db : Db) (a : Agent) :
  In a (select_where keep db)
  <-> keep a = true /\ exists i, rows db !! i = Some a.
Proof.
  unfold select_where. split.
  - intros Hin.
    apply (Permutation_in a (Permutation_sym (js_sort_perm by_createdAt _))) in Hin.
    apply List.filter_In in Hin as [Hin Hkeep]. split; [exact Hkeep |].
    apply in_map_iff in Hin as ([i a0] & Hsnd & Hin). cbn [snd] in Hsnd. subst a0.
    exists i. apply elem_of_map_to_list. now apply list_elem_of_In.
  - intros [Hkeep [i Hi]].
    apply (Permutation_in a (js_sort_perm by_createdAt _)).
    apply List.filter_In. split; [| exact Hkeep].
    apply in_map_iff. exists (i, a). split; [reflexivity |].
    apply list_elem_of_In. now apply elem_of_map_to_list.
Qed.

Lemma keyed_fresh (db : Db) : keyed db -> rows db !! next_id db = None.
Proof.
  intros Hkeyed. destruct (rows db !! next_id db) as [a |] eqn:Hrow; [| reflexivity].
  destruct (Hkeyed _ _ Hrow) as [Hlt _]. lia.
Qed.

Lemma updateAgent_rows (verdict : Verdict) (now : nat) (agentId : positive)
    (user : string) (data : UpdateAgentData) (db : Db) :
  keyed db ->
  let db' := snd (updateAgent verdict now agentId user data db) in
  keyed db'
  /\ forall i a, userId a <> user ->
       (rows db' !! i = Some a <-> rows db !! i = Some a).
Proof.
  intros Hkeyed. unfold updateAgent.
  destruct verdict as [| msg]; cbn [snd]; [| split; [exact Hkeyed | tauto]].
  destruct (rows db !! agentId) as [a0 |] eqn:Hrow; cbn [snd];
    [| split; [exact Hkeyed | tauto]].
  destruct (String.eqb (userId a0) user) eqn:Howner; cbn [snd];
    [| split; [exact Hkeyed | tauto]].
  apply String.eqb_eq in Howner. split.
  - intros i a. cbn [rows next_id].
    destruct (decide (i = agentId)) as [-> | Hne].
    + rewrite lookup_insert_eq. intros [= <-].
      destruct (Hkeyed _ _ Hrow) as [Hlt Hid]. split; [exact Hlt | exact Hid].
    + rewrite lookup_insert_ne by congruence. apply Hkeyed.
  - intros i a Hother. cbn [rows].
    destruct (decide (i = agentId)) as [-> | Hne].
    + rewrite lookup_insert_eq, Hrow. split; intros [= <-]; exfalso; apply Hother.
      * exact Howner.
      * exact Howner.
    + now rewrite lookup_insert_ne by congruence.
Qed.

Lemma run_op_rows (user : string) (op : Op) (db : Db) :
  keyed db ->
  keyed (run_op user db op)
  /\ forall i a, userId a <> user ->
       (rows (run_op user db op) !! i = Some a <-> rows db !! i = Some a).
Proof.
  intros Hkeyed. destruct op as [verdict now encrypted accountId publicKey data
                                | verdict now agentId data | verdict now agentId];
    cbn [run_op].
  - unfold createAgent.
    destruct encrypted as [key | msg]; cbn [snd]; [| split; [exact Hkeyed | tauto]].
    destruct verdict as [| msg]; cbn [snd]; [| split; [exact Hkeyed | tauto]].
    pose proof (keyed_fresh db Hkeyed) as Hfresh. split.
    + intros i a. cbn [rows next_id].
      destruct (decide (i = next_id db)) as [-> | Hne].
      * rewrite lookup_insert_eq. intros [= <-]. cbn [id]. split; [lia | reflexivity].
      * rewrite lookup_insert_ne by congruence. intros Hrow.
        destruct (Hkeyed _ _ Hrow) as [Hlt Hid]. split; [lia | exact Hid].
    + intros i a Hother. cbn [rows].
      destruct (decide (i = next_id db)) as [-> | Hne].
      * rewrite lookup_insert_eq, Hfresh. split; [| discriminate].
        intros [= <-]. now cbn [userId] in Hother.
      * now rewrite lookup_insert_ne by congruence.
  - now apply updateAgent_rows.
  - unfold deleteAgent.
    pose proof (updateAgent_rows verdict now agentId user
                  (mkUpdate None None (Some deleted) None) db Hkeyed) as H.
    destruct (updateAgent verdict now agentId user _ db) as [r db']. exact H.
Qed.

Lemma run_ops_rows (user : string) (ops : list Op) :
  forall db, keyed db ->
    keyed (run_ops user ops db)
    /\ forall i a, userId a <> user ->
         (rows (run_ops user ops db) !! i = Some a <-> rows db !! i = Some a).
Proof.
  unfold run_ops. induction ops as [| op ops IH]; intros db Hkeyed; cbn [fold_left].
  - split; [exact Hkeyed | tauto].
  - destruct (run_op_rows user op db Hkeyed) as [Hkeyed1 Hrows1].
    destruct (IH _ Hkeyed1) as [Hkeyed2 Hrows2].
    split; [exact Hkeyed2 |].
    intros i a Hother. rewrite (Hrows2 i a Hother). now apply Hrows1.
Qed.

Lemma getAgent_rows (db db' : Db) (user : string) (i : positive) :
  (forall a, userId a = user -> (rows db' !! i = Some a <-> rows db !! i = Some a)) ->
  getAgent Runs i user db' = getAgent Runs i user db.
Proof.
  intros Hrows. unfold getAgent.
  destruct (rows db' !! i) as [a' |]; destruct (rows db !! i) as [a |].
  - destruct (String.eqb (userId a') user) eqn:Ho'.
    + apply String.eqb_eq in Ho'.
      destruct (Hrows a' Ho') as [Hto _]. specialize (Hto eq_refl).
      injection Hto as ->.
      apply String.eqb_eq in Ho'. now rewrite Ho'.
    + destruct (String.eqb (userId a) user) eqn:Ho; [| reflexivity].
      apply String.eqb_eq in Ho.
      destruct (Hrows a Ho) as [_ Hfrom]. specialize (Hfrom eq_refl).
      injection Hfrom as ->.
      apply String.eqb_eq in Ho. congruence.
  - destruct (String.eqb (userId a') user) eqn:Ho'; [| reflexivity].
    apply String.eqb_eq in Ho'.
    destruct (Hrows a' Ho') as [Hto _]. specialize (Hto eq_refl). discriminate.
  - destruct (String.eqb (userId a) user) eqn:Ho; [| reflexivity].
    apply String.eqb_eq in Ho.
    destruct (Hrows a Ho) as [_ Hfrom]. specialize (Hfrom eq_refl). discriminate.
  - reflexivity.
Qed.

(** X22. The calls [createAgent], [updateAgent] and [deleteAgent] that
    one user makes, whatever their arguments and whether or not the
    database accepts them, leave the agents of every other user as
    they are: what [getAgent] and [getAgentWithPrivateKey] return to
    another user for any id is unchanged, and so are the agents
    [listAgents] shows that user.  (Primary keys are taken never to
    repeat.) *)
Theorem agents_of_other_users_untouched (user other : string) (ops : list Op)
    (db : Db) :
  keyed db -> user <> other ->
  let db' := run_ops user ops db in
  (forall agentId, getAgent Runs agentId other db' = getAgent Runs agentId other db)
  /\ (forall decryptPrivateKey agentId,
        getAgentWithPrivateKey decryptPrivateKey Runs agentId other db'
        = getAgentWithPrivateKey decryptPrivateKey Runs agentId other db)
  /\ (forall agents agents',
        listAgents Runs other db = Ok agents ->
        listAgents Runs other db' = Ok agents' ->
        forall a, In a agents' <-> In a agents).
Proof.
  intros Hkeyed Hne db'.
  destruct (run_ops_rows user ops db Hkeyed) as [_ Hrows]. fold db' in Hrows.
  assert (Hget : forall agentId,
             getAgent Runs agentId other db' = getAgent Runs agentId other db).
  { intros agentId. apply getAgent_rows. intros a Ha. apply Hrows. congruence. }
  split; [exact Hget |]. split.
  - intros decryptPrivateKey agentId. unfold getAgentWithPrivateKey.
    now rewrite Hget.
  - intros agents agents' [= <-] [= <-] a.
    rewrite !select_where_In. split.
    + intros [Hkeep [i Hi]]. split; [exact Hkeep |]. exists i.
      apply andb_true_iff in Hkeep as [Ho _]. apply String.eqb_eq in Ho.
      apply Hrows; [congruence | exact Hi].
    + intros [Hkeep [i Hi]]. split; [exact Hkeep |]. exists i.
      apply andb_true_iff in Hkeep as [Ho _]. apply String.eqb_eq in Ho.
      apply Hrows; [congruence | exact Hi].
Qed.

(** X23. [deleteAgent] only marks the row: for an agent that
    [getAgent] finds, it returns true and the row stays, with the
    status deleted and every other column but [updatedAt] as before.
    Afterwards [getAgent] still returns the agent,
    [getAgentWithPrivateKey] still decrypts its key, [listAgents] and
    [getAllActiveAgents] no longer show it, deleting it again returns
    true again, and an [updateAgent] that sets the status active
    brings it back. *)
Theorem deleteAgent_marks_the_row (decryptPrivateKey : string -> result string)
    (now : nat) (agentId : positive) (user : string) (db : Db) (a : Agent) :
  keyed db ->
  getAgent Runs agentId user db = Ok (Some a) ->
  let db' := snd (deleteAgent Runs now agentId user db) in
  exists a',
    fst (deleteAgent Runs now agentId user db) = Ok true
    /\ getAgent Runs agentId user db' = Ok (Some a')
    /\ status a' = deleted /\ updatedAt a' = now /\ same_but_status a a'
    /\ getAgentWithPrivateKey decryptPrivateKey Runs agentId user db'
       = (let* key := decryptPrivateKey (encryptedPrivateKey a) in Ok (Some (a', key)))
    /\ (forall agents, listAgents Runs user db' = Ok agents ->
          forall x, In x agents -> id x <> agentId)
    /\ (forall agents, getAllActiveAgents Runs db' = Ok agents ->
          forall x, In x agents -> id x <> agentId)
    /\ (forall now', fst (deleteAgent Runs now' agentId user db') = Ok true)
    /\ (forall now',
          exists a'',
            fst (updateAgent Runs now' agentId user
                   (mkUpdate None None (Some active) None) db') = Ok (Some a'')
            /\ status a'' = active /\ same_but_status a a'').
Proof.
  intros Hkeyed Hget db'.
  pose proof (updateAgent_rows Runs now agentId user
                (mkUpdate None None (Some deleted) None) db Hkeyed) as [Hkeyed' _].
  unfold getAgent in Hget.
  destruct (rows db !! agentId) as [a0 |] eqn:Hrow; [| discriminate].
  destruct (String.eqb (userId a0) user) eqn:Howner; [| discriminate].
  injection Hget as ->.
  set (a' := set_columns (mkUpdate None None (Some deleted) None) now a).
  assert (Hdb' : db' = mkDb (<[agentId := a']> (rows db)) (next_id db)).
  { unfold db', deleteAgent, updateAgent. now rewrite Hrow, Howner. }
  assert (Hkeyed2 : keyed db').
  { unfold db', deleteAgent.
    destruct (updateAgent Runs now agentId user _ db) as [r d]. exact Hkeyed'. }
  assert (Hrow' : rows db' !! agentId = Some a')
    by (rewrite Hdb'; cbn [rows]; apply lookup_insert_eq).
  assert (Hget' : getAgent Runs agentId user db' = Ok (Some a')).
  { unfold getAgent. rewrite Hrow'. unfold a'. cbn [set_columns userId].
    now rewrite Howner. }
  assert (Hhidden : forall keep x,
             (forall y, keep y = true -> status y = active) ->
             In x (select_where keep db') -> id x <> agentId).
  { intros keep x Hactive Hin Hid.
    apply select_where_In in Hin as [Hkeep [j Hj]].
    destruct (Hkeyed2 _ _ Hj) as [_ Hkey].
    assert (Hjk : j = agentId) by congruence.
    rewrite Hjk, Hrow' in Hj. injection Hj as <-.
    apply Hactive in Hkeep. discriminate. }
  exists a'. split.
  { unfold deleteAgent, updateAgent. now rewrite Hrow, Howner. }
  split; [exact Hget' |]. split; [reflexivity |]. split; [reflexivity |].
  split; [unfold same_but_status; repeat split |].
  split.
  { unfold getAgentWithPrivateKey. rewrite Hget'. reflexivity. }
  split.
  { intros agents [= <-] x. apply Hhidden. intros y Hy.
    apply andb_true_iff in Hy as [_ Hs]. now destruct (status y). }
  split.
  { intros agents [= <-] x. apply Hhidden. intros y Hs. now destruct (status y). }
  split.
  { intros now'. unfold deleteAgent, updateAgent. rewrite Hrow'.
    unfold a'. cbn [set_columns userId]. now rewrite Howner. }
  intros now'. unfold updateAgent. rewrite Hrow'.
  unfold a' at 1. cbn [set_columns userId]. rewrite Howner. cbn [fst].
  eexists. split; [reflexivity |]. split; [reflexivity |].
  unfold same_but_status. repeat split.
Qed.
End AgentTableFacts.

Lemma bobs_table_keyed : AgentService.keyed SampleExtras.bobs_table.
Proof.
  intros i a. unfold SampleExtras.bobs_table, AgentService.createAgent.
  cbn [snd AgentService.rows AgentService.next_id].
  destruct (decide (i = 1%positive)) as [-> | Hne].
  - rewrite lookup_insert_eq. intros [= <-]. split; [lia | reflexivity].
  - rewrite lookup_insert_ne by congruence. now rewrite lookup_empty.
Qed.

Lemma agents_of_other_users_untouched_witness :
  let db' := AgentService.run_ops "alice" SampleExtras.alices_calls
               SampleExtras.bobs_table in
  (forall agentId,
     AgentService.getAgent AgentService.Runs agentId "bob" db'
     = AgentService.getAgent AgentService.Runs agentId "bob" SampleExtras.bobs_table)
  /\ (forall decryptPrivateKey agentId,
        AgentService.getAgentWithPrivateKey decryptPrivateKey AgentService.Runs
          agentId "bob" db'
        = AgentService.getAgentWithPrivateKey decryptPrivateKey AgentService.Runs
            agentId "bob" SampleExtras.bobs_table)
  /\ (forall agents agents',
        AgentService.listAgents AgentService.Runs "bob" SampleExtras.bobs_table
        = Ok agents ->
        AgentService.listAgents AgentService.Runs "bob" db' = Ok agents' ->
        forall a, In a agents' <-> In a agents).
Proof.
  apply (agents_of_other_users_untouched "alice" "bob" SampleExtras.alices_calls
           SampleExtras.bobs_table); [exact bobs_table_keyed | discriminate].
Defined.

Lemma deleteAgent_marks_the_row_witness :
  exists a',
    fst (AgentService.deleteAgent AgentService.Runs 7 1%positive "bob"
           SampleExtras.bobs_table) = Ok true
    /\ AgentService.getAgent AgentService.Runs 1%positive "bob"
         (snd (AgentService.deleteAgent AgentService.Runs 7 1%positive "bob"
                 SampleExtras.bobs_table)) = Ok (Some a')
    /\ AgentService.status a' = AgentService.deleted
    /\ AgentService.encryptedPrivateKey a' = "00ff:a1b2".
Proof.
  destruct (deleteAgent_marks_the_row (fun _ => Ok "key") 7 1%positive "bob"
              SampleExtras.bobs_table _ bobs_table_keyed eq_refl)
    as (a' & Hdel & Hget & Hstatus & _ & Hsame & _).
  exists a'. split; [exact Hdel |]. split; [exact Hget |]. split; [exact Hstatus |].
  destruct Hsame as (_ & _ & _ & _ & _ & _ & Hkey & _). exact Hkey.
Defined.

Section CatalogEmptiness.
Import TokenAnalyzer.

(** X24. [fetchAvailableTokens] returns at least one token whenever the
    bundled dataset cannot be loaded (the built-in list is used then)
    or lists a token with a positive price.  The empty list can only
    come from a run where the live list fails or is empty and the
    dataset loads with no such token: the code does not check the
    fallback list for emptiness. *)
Theorem fetchAvailableTokens_empty_only_without_priced_fallback :
  (forall env, file_has_priced_token (fallback_file env) ->
               fetchAvailableTokens env <> [])
  /\ (forall env msg, fallback_file env = Throw msg ->
                      fetchAvailableTokens env <> [])
  /\ (forall env, fetchAvailableTokens env = [] ->
                  (forall l, live_tokens env = Ok l -> l = [])
                  /\ exists entries, fallback_file env = Ok entries
                                     /\ loadFallbackTokens (Ok entries) = []).
Proof.
  assert (Hpriced : forall env, file_has_priced_token (fallback_file env) ->
                                fetchAvailableTokens env <> []).
  { intros env Hfile. unfold fetchAvailableTokens.
    destruct (live_tokens env) as [[| t l] | msg]; try discriminate;
      now apply loadFallbackTokens_not_empty. }
  split; [exact Hpriced |]. split.
  - intros env msg Hfile. apply Hpriced. intros entries Hok. congruence.
  - intros env. unfold fetchAvailableTokens.
    destruct (live_tokens env) as [[| t l] | msg]; try discriminate;
      destruct (fallback_file env) as [entries | msg'];
      try discriminate; intros Hnil; (split; [| eauto]); intros l0 Hl; congruence.
Qed.
End CatalogEmptiness.

Lemma fetchAvailableTokens_empty_only_without_priced_fallback_witness :
  TokenAnalyzer.file_has_priced_token (TokenAnalyzer.fallback_file SampleCatalog.env)
  /\ TokenAnalyzer.fetchAvailableTokens SampleCatalog.env <> [].
Proof.
  assert (H : TokenAnalyzer.file_has_priced_token
                (TokenAnalyzer.fallback_file SampleCatalog.env)).
  { intros entries [= <-]. eexists. split; [left; reflexivity |].
    vm_compute. reflexivity. }
  split; [exact H |].
  exact (proj1 fetchAvailableTokens_empty_only_without_priced_fallback
           SampleCatalog.env H).
Defined.
